(* ===== verification/_CoqProject ===== *)
-Q . S2P
Prelude.v
Errors.v
Money.v
Strconv.v
Json.v
MoneyJson.v
Types.v
SagaTypes.v
Events.v
Schema.v
Outbox.v
PgIdem.v
PgSaga.v
Retry.v
PgLedger.v
Service.v
PgLedgerSpec.v
ServiceSpec.v
Invariant.v
Validate.v
Posting.v
Ledger.v
Frames.v
Uuid.v
Demo.v
Guarantees.v
Consistency.v
Projector.v
Publish.v
System.v
Manager.v
IdemSpec.v
Gateway.v
Payout.v
LockOrder.v
SagaInv.v
SagaSafety.v
PayoutSystem.v
PayoutDemo.v
SagaAtomic.v
PayoutLoop.v
Recon.v
PgRecon.v
ReconMatch.v
ReconRun.v
ReconSpec.v
ReconDemo.v
Keyset.v
Read.v
ReadSpec.v
ReadDemo.v
Utf8.v
Float.v
JsonText.v
Canonical.v
CanonicalStr.v
CanonicalNum.v
CanonicalParse.v
CanonicalSpec.v
TimeText.v
Base64.v
Cursor.v
UuidText.v
JsonMarshal.v
HttpDto.v
Http.v
HttpSpec.v
Auth.v
HttpRoutes.v
HttpDemo.v
ClientIp.v
Csv.v
CsvSpec.v
Consumer.v
Pipeline.v
PipelineDemo.v
Mock.v
Config.v
ConfigSpec.v
Ops.v
