(* ===== verification/Prelude.v ===== *)
(** * Ledger-Core: a verification development

    Ledger-Core is a double-entry ledger service in Go over PostgreSQL (internal/
    under src/): an HTTP API posts balanced transactions, an idempotency layer makes
    retried requests take effect once, an outbox publishes what happened, a projector
    keeps a read model, and an orchestrator drives payout sagas against an external
    payment gateway.  This development models the parts that decide what is written
    to the database and proves what they promise.

    ** How the code is modelled

    The database is a record of tables ([DB], Schema.v) with the columns and the
    constraints of the migrations, the deferred balance trigger included.  A Go
    function that returns an error is a function into [result]; one that touches the
    database or the environment is a function in the monad [M], [World -> res A *
    World].  A [World] is the committed database plus everything the code cannot
    know: the identifiers it will draw, the clocks, which statements fail, how each
    COMMIT ends (done, refused, or done with the answer lost) and when the context is
    cancelled.  A theorem about every world is a theorem about every such
    environment.  Integers are [Z] with the wrap-around of int64 and int32 written
    out where the code computes with them ([wrap64], [wrap32]).

    A database transaction runs alone on the committed state: SERIALIZABLE conflicts
    and deadlocks are statement failures the retrier sees.  A statement outside a
    transaction commits by itself, and its answer may be lost like that of a COMMIT
    ([autocommit]).  Every statement that waits for a row, an advisory lock or an index
    entry leaves the request in the world's history ([take_locks]); no code reads it, and
    LockOrder.v is about the requests of a run.  Concurrent processes are
    then sequences of operations in any order, which is what the transition systems
    of System.v and PayoutSystem.v are; a payout drive may start from a snapshot of
    its saga taken at any earlier point.

    ** The files

    - Prelude, Errors: results, int64, sums, sorting, automation; the error values
      of ledger/errors.go, idempotency/errors.go, saga/errors.go and gateway.go with
      [errors.Is].
    - Money, Strconv, Json, MoneyJson: ledger/money.go with the parts of strconv and
      encoding/json it uses.
    - Types, SagaTypes, Events: the structs of ledger/types.go, ports.go,
      service.go, saga/status.go, saga/instance.go, outbox/writer.go.
    - Schema: the tables of migrations/, the world and the monad.
    - Outbox, PgIdem, PgSaga, PgLedger: outbox/writer.go, idempotency/pgidem,
      saga/pgsaga, ledger/pgledger statement by statement.
    - Retry: db/retry.go.  Service: the write side of ledger/service.go.
    - PgLedgerSpec, ServiceSpec, Validate, Posting: what each statement and each
      operation does to the tables.  Invariant, Ledger, Frames: the ledger's
      invariant and that everything keeps it.
    - Guarantees: what one call of PostTransaction or ReverseTransaction promises.
    - Consistency, Projector: the audits of consistency/ and projector/apply.go,
      rebuild.go.
    - System: the write operations, the publishers, the sharding function of migration
      000012 and reconciliation runs as one transition system.
    - Manager, IdemSpec: idempotency/store.go and sweeper.go against the interface of
      the store ([IdemStore], [StoreLaws]) and of the cache.
    - Gateway, Payout: gateway/ and saga/payout/.  SagaInv, SagaSafety, PayoutSystem:
      the invariant of the sagas and the system with payouts.  SagaAtomic: a drive
      moves money with the saga.  PayoutLoop: the claim and sweep passes, progress
      and escalation.  LockOrder: the locks postings and reversals ask for, read off
      their runs, and clients that acquire them.
    - Uuid, Demo, PayoutDemo: a concrete form of UUIDs and concrete runs; the
      witnesses evaluate the model on them.
    - Recon, PgRecon: reconciliation/classify.go, engine.go and pgreconciliation/.
      ReconMatch, ReconRun, ReconSpec: what the match returns, what a run leaves
      behind, what a report says; ReconDemo: a concrete run.
    - Publish: outbox/publish/polling.
    - Keyset: the pagination scheme the reads share.  Read: the queries of
      pgledger/repository.go and their methods in service.go; ReadSpec, ReadDemo:
      what the reads return, and a statement.
    - Utf8, Float, JsonText: the parts of the Go library canonical JSON rests on
      (UTF-8 and UTF-16, float64 to and from decimal text, the token machine of
      encoding/json).  Canonical: idempotency/canonical.go and fingerprint.go;
      CanonicalStr, CanonicalNum, CanonicalParse, CanonicalSpec: strings, numbers,
      the parser, and what the canonical text decides.
    - TimeText, Base64, UuidText, JsonMarshal: RFC 3339 times, base64, UUID texts and
      whole JSON documents, as the Go library writes and reads them.  Cursor: the
      page tokens of http/dto.go.
    - HttpDto, Http: http/ from the request's bytes to the response's, every handler
      and middleware that decides an answer, with the router.  HttpSpec, HttpRoutes:
      what the API promises; HttpDemo: concrete requests.  Auth: auth/ and
      auth/pgauth.  ClientIp: http/clientip.go.
    - Csv, CsvSpec: reconciliation/csv.go with the CSV reader it uses.
    - Consumer: projector/consumer.go and the consumer group.  Pipeline: ledger,
      publishers, topic and consumer as one system; PipelineDemo: concrete runs.
    - Mock: gateway/mock/server.go, with the client's side of the wire.
    - Config, ConfigSpec: config/config.go with time.ParseDuration, and what an
      accepted configuration guarantees.
    - Ops: kafka/topics.go, the Debezium monitor, projector/lag.go, clock/clock.go and
      the jobs and wiring of the commands in cmd/.

    ** The theorems

    - The books: in every reachable database balances are the sums of their entries,
      every transaction and currency sums to zero, nothing is overdrawn, history only
      grows but for the marks it is allowed (a reversal, a publication, a sharding), the
      audits find nothing ([books_balance], [history_is_append_only], [audits_pass]).
    - One call: posting and reversing are all or nothing, at most once, in every
      environment, and a reversal is the original's legs mirrored one for one
      ([postTransaction_all_or_nothing], [reversal_undoes], [no_double_reversal]).
    - Idempotency: a key takes effect once, is exclusive while leased, and replays
      its response ([keyed_post_exactly_once], [lease_is_exclusive],
      [retry_replays_response], [Acquire_decides]); a sweep crosses principals
      ([sweep_crosses_principals]).
    - Events: the outbox announces true balances and the projection converges
      ([outbox_announces_balances], [projection_converges]).
    - Locking: the Go side and the SQL side order locks alike ([lock_order_agrees]), every
      run of a posting or a reversal asks in one global order, payout recorders
      included, and clients that do never deadlock while no advisory keys collide
      ([ordered_locking_never_deadlocks]; [colliding_keys_deadlock] shows the condition is
      needed).  The other transactions (claims, sweeps, publishers, which skip locked
      rows or lock one) are not part of that claim.
    - Payouts: statuses follow the documented graph and one undocumented edge, holds
      match sagas, every money step is posted once with its transition, every successful
      drive uses up budget, an unanswered gateway call ends with a human.
    - Values: money arithmetic never wraps, its JSON form round-trips, backoff is a
      capped doubling, the gateway's answer is three-valued.
    - Reconciliation: the match covers both sides, classification is complete, a
      completed run reports everything and reads back, and the tables never lie
      ([match_covers_both_sides], [classify_is_complete], [run_reports_everything],
      [run_reads_back], [reconciliation_tables_consistent]).
    - Publishing: no event is lost or invented, and a drain publishes the backlog in
      order and changes nothing but the marks ([published_means_delivered], [drain_publishes_backlog]).
    - Reads: a statement read page by page is complete and its balances chain, and
      the two balance reads agree in every reachable database, sharded or not ([statement_walk_complete],
      [statement_balances_chain], [balance_reads_agree]).
    - Fingerprints: two requests digest the same bytes exactly when they mean the
      same, and canonicalisation is a projection ([fingerprint_input_decides],
      [canonicalize_idempotent]).
    - The API: a created or refused request is answered the same when it is retried,
      every route that reaches the ledger is authenticated, error answers keep to the
      side that is to blame, page tokens resume where they were cut, and an address
      cannot be forged ([created_is_replayed], [rejection_is_replayed],
      [routes_are_guarded], [problems_keep_their_side], [statement_token_resumes],
      [issued_key_authenticates], [client_ip_unforgeable]); a reversal key replays for
      any transaction ([reversal_key_replays_for_any_transaction]).
    - The pipeline: with a restart after every batch that stops, what is committed was
      applied or dead-lettered and the projection catches up with the ledger end to end;
      a failure that is not followed by a restart loses an event ([committed_means_handled], [pipeline_converges],
      [failure_skips_event]).
    - The gateway: in a process that lives, a key whose calls do not overlap is paid
      once and the client reports what is on the book ([gateway_pays_once]); overlapping
      calls are both carried out ([overlapping_calls]).
    - Files and settings: a settlement statement is read back record for record,
      accepted settings are exactly what the environment says and keep the rules, and the
      operators' gauges and checks are true ([statement_reads_back],
      [accepted_settings], [accepted_wiring], [checks_stay_quiet], [monitor_honest],
      [backlog_gauge_exact], [provision_complete], [settlement_file_reconciled]).

    ** Bounds

    The retry loop recurses on the attempts left, as the code counts them; one drain
    of the idempotency sweeper takes as many rounds as there are rows plus one, which
    [sweepOnce_drains] shows is enough; [drain] takes the number of rounds as an
    argument and its theorem holds for every number; the publisher's [drainOnce] takes
    rounds too, and [drain_publishes_backlog] shows one more than there are rows is
    enough.  The readers of texts (JSON documents, CSV records, durations) recurse on a
    length: every step consumes a byte or a line, so the length of the input and one
    more is enough, as [statement_reads_back] shows for statements, [Decode_decides]
    for JSON and [duration_parts_fuel] for durations.

    ** Not modelled

    Logging, metrics and tracing, tickers and signals, opening listeners and connection
    pools, and matching a path to a route, which the libraries do; the endpoint that
    skews the process clock; the load and chaos harnesses, the web console and the
    deployment: they decide nothing of the ledger.  Times in responses are printed in
    UTC.  Retention and rebalancing of Kafka topics are left out: a partition's log
    starts at offset 0 and only grows.  A UUID is a number; its text is a parameter
    ([UuidLib]) with the order law the code relies on ([UuidLaws]), which Uuid.v shows
    the canonical form has, and parsing one is a parameter with its law
    ([UuidParser]).  SHA-256, the random source, error messages ([ErrorText]) and
    [strconv.ParseFloat] of a setting are parameters.  The network is the outcome of an
    exchange (Gateway.v); the brokers' answers are parameters with the laws their
    libraries document ([ProducerLaws], [BrokerLaws], [CreateTopicLaws]).
 *)

From Stdlib Require Export ZArith Lia.
From stdpp Require Export base gmap list strings sorting numbers.

#[export] Set Default Goal Selector "!".
Open Scope Z_scope.

(** ** Results

    A Go function returning [(A, error)] is a function into [result error A]:
    [Ok a] when the error is nil and [Err e] otherwise. *)

Inductive result (E A : Type) : Type :=
| Ok (a : A)
| Err (e : E).
Arguments Ok {E A} a.
Arguments Err {E A} e.

#[export] Instance result_ret {E} : MRet (result E) := λ A a, Ok a.
#[export] Instance result_bind {E} : MBind (result E) := λ A B f m,
  match m with Ok a => f a | Err e => Err e end.
#[export] Instance result_fmap {E} : FMap (result E) := λ A B f m,
  match m with Ok a => Ok (f a) | Err e => Err e end.

Definition is_ok {E A} (r : result E A) : bool :=
  match r with Ok _ => true | Err _ => false end.

Lemma result_bind_ok {E A B} (m : result E A) (f : A → result E B) b :
  m ≫= f = Ok b ↔ ∃ a, m = Ok a ∧ f a = Ok b.
Proof.
  destruct m; simpl; split; [by eauto | by intros (?&[= ->]&?) | done | by intros (?&?&?)].
Qed.

(** [guard_err b e] is Go's [if !b { return e }]. *)
Definition guard_err {E} (b : bool) (e : E) : result E unit :=
  if b then Ok tt else Err e.

Lemma guard_err_ok {E} (b : bool) (e : E) u : guard_err b e = Ok u ↔ b = true.
Proof. destruct b, u; simpl; by split. Qed.

Lemma guard_err_bind_ok {E A} b (e : E) (m : result E A) a :
  (_ ← guard_err b e; m) = Ok a ↔ b = true ∧ m = Ok a.
Proof. unfold guard_err. destruct b; simpl; naive_solver. Qed.

(** Take a chain of checks apart. *)
Ltac checks H :=
  repeat first
    [ apply guard_err_bind_ok in H as [? H]
    | apply guard_err_ok in H ].

(** A loop that runs [f] on the elements in order and stops at the first
    error, threading an accumulator. *)
Fixpoint foldM {E A B} (f : B → A → result E B) (b : B) (l : list A) : result E B :=
  match l with
  | [] => Ok b
  | x :: l => b' ← f b x; foldM f b' l
  end.

Lemma foldM_app {E A B} (f : B → A → result E B) b l1 l2 :
  foldM f b (l1 ++ l2) = (b' ← foldM f b l1; foldM f b' l2).
Proof.
  revert b; induction l1 as [|x l1 IH]; intros b; simpl; [done|].
  destruct (f b x); simpl; [apply IH | done].
Qed.

(** ** 64-bit signed integers

    Go's [int64] arithmetic wraps; PostgreSQL's [bigint] raises instead. *)

Definition min_int64 : Z := -9223372036854775808.
Definition max_int64 : Z := 9223372036854775807.
Definition two64 : Z := 18446744073709551616.

Definition in_int64 (z : Z) : bool := (min_int64 <=? z) && (z <=? max_int64).
Definition wrap64 (z : Z) : Z := (z - min_int64) mod two64 + min_int64.

Lemma in_int64_spec z : in_int64 z = true ↔ min_int64 ≤ z ≤ max_int64.
Proof. unfold in_int64. rewrite andb_true_iff, !Z.leb_le. done. Qed.

Lemma wrap64_range z : min_int64 ≤ wrap64 z ≤ max_int64.
Proof.
  unfold wrap64, min_int64, max_int64.
  pose proof (Z.mod_pos_bound (z - -9223372036854775808) two64 eq_refl) as H.
  unfold two64 in *. lia.
Qed.

Lemma wrap64_id z : min_int64 ≤ z ≤ max_int64 → wrap64 z = z.
Proof.
  unfold wrap64, min_int64, max_int64; intros H.
  rewrite Z.mod_small; unfold two64; lia.
Qed.

Lemma wrap64_add_two64 z k : wrap64 (z + k * two64) = wrap64 z.
Proof.
  unfold wrap64. replace (z + k * two64 - min_int64) with (z - min_int64 + k * two64) by lia.
  by rewrite Z_mod_plus_full.
Qed.

(** ** Finite sums *)

Definition zsum {A} (f : A → Z) (l : list A) : Z := foldr (λ x acc, f x + acc) 0 l.

Section zsum.
Context {A : Type}.
Implicit Types (f g : A → Z) (l : list A).

Lemma zsum_nil f : zsum f [] = 0.
Proof. done. Qed.
Lemma zsum_cons f x l : zsum f (x :: l) = f x + zsum f l.
Proof. done. Qed.
Lemma zsum_app f l1 l2 : zsum f (l1 ++ l2) = zsum f l1 + zsum f l2.
Proof. induction l1; simpl; [done|]. unfold zsum in *; simpl; lia. Qed.
Lemma zsum_ext f g l : (∀ x, x ∈ l → f x = g x) → zsum f l = zsum g l.
Proof.
  induction l as [|x l IH]; intros Hfg; [done|].
  rewrite !zsum_cons, Hfg by set_solver. rewrite IH; [done | set_solver].
Qed.
Lemma zsum_perm f l1 l2 : l1 ≡ₚ l2 → zsum f l1 = zsum f l2.
Proof. induction 1; unfold zsum in *; simpl; lia. Qed.
Lemma zsum_filter f (P : A → Prop) `{!∀ x, Decision (P x)} l :
  zsum f (filter P l) = zsum (λ x, if decide (P x) then f x else 0) l.
Proof.
  induction l as [|x l IH]; [done|]. rewrite filter_cons, zsum_cons.
  destruct (decide (P x)); rewrite ?zsum_cons; lia.
Qed.
Lemma zsum_add f g l : zsum (λ x, f x + g x) l = zsum f l + zsum g l.
Proof. induction l as [|x l IH]; [done|]. rewrite !zsum_cons, IH. lia. Qed.
Lemma zsum_opp f l : zsum (λ x, - f x) l = - zsum f l.
Proof. induction l as [|x l IH]; [done|]. rewrite !zsum_cons, IH. lia. Qed.
Lemma zsum_zero f l : (∀ x, x ∈ l → f x = 0) → zsum f l = 0.
Proof.
  induction l as [|x l IH]; intros H; [done|].
  rewrite zsum_cons, H by set_solver. rewrite IH; [done | set_solver].
Qed.
Lemma zsum_nonneg f l : (∀ x, x ∈ l → 0 ≤ f x) → 0 ≤ zsum f l.
Proof.
  induction l as [|x l IH]; intros H; [done|]. rewrite zsum_cons.
  pose proof (H x ltac:(set_solver)). assert (0 ≤ zsum f l) by (apply IH; set_solver). lia.
Qed.
End zsum.

Lemma zsum_map {A B} (f : B → Z) (g : A → B) l : zsum f (g <$> l) = zsum (λ x, f (g x)) l.
Proof. induction l as [|x l IH]; [done|]. rewrite fmap_cons, !zsum_cons, IH. done. Qed.

Create Rewrite HintDb zsum.
#[export] Hint Rewrite @zsum_nil @zsum_cons @zsum_app @zsum_map : zsum.

(** ** Sorting by a boolean order

    What [ORDER BY] and [sort.Slice] compute: some permutation of the input
    that is sorted, which is unique when the order is strict on the input. *)

Definition bool_rel {A} (le : A → A → bool) : relation A := λ a b, le a b = true.
#[export] Instance bool_rel_dec {A} (le : A → A → bool) a b : Decision (bool_rel le a b).
Proof. unfold bool_rel. apply _. Defined.

Definition sort_by {A} (le : A → A → bool) (l : list A) : list A := merge_sort (bool_rel le) l.

Section sort_by.
Context {A : Type} (le : A → A → bool).
Implicit Types l : list A.

Lemma sort_by_perm l : sort_by le l ≡ₚ l.
Proof. apply merge_sort_Permutation. Qed.
Lemma sort_by_elem x l : x ∈ sort_by le l ↔ x ∈ l.
Proof. by rewrite sort_by_perm. Qed.
Lemma sort_by_NoDup l : NoDup (sort_by le l) ↔ NoDup l.
Proof. by rewrite sort_by_perm. Qed.
Lemma sort_by_length l : length (sort_by le l) = length l.
Proof. by rewrite sort_by_perm. Qed.
Lemma sort_by_Sorted l : Total (bool_rel le) → Sorted (bool_rel le) (sort_by le l).
Proof. intros ?. apply Sorted_merge_sort. done. Qed.
End sort_by.

(** ** Lists *)

Lemma NoDup_fmap_snoc {A B} (f : A → B) l x :
  NoDup (f <$> l) → (f x ∉ f <$> l) → NoDup (f <$> (l ++ [x])%list).
Proof.
  intros Hl Hx. rewrite fmap_app. apply list.NoDup_app. split_and!; [done| |].
  - intros y Hy Hy'. simpl in Hy'. apply list_elem_of_singleton in Hy' as ->. done.
  - apply list.NoDup_singleton.
Qed.

Lemma Forall2_elem_l {A B} (P : A → B → Prop) l k x :
  Forall2 P l k → x ∈ l → ∃ y, y ∈ k ∧ P x y.
Proof. induction 1; intros Hx; [set_solver|]. apply elem_of_cons in Hx as [->|Hx]; set_solver. Qed.

Lemma Forall2_elem_r {A B} (P : A → B → Prop) l k y :
  Forall2 P l k → y ∈ k → ∃ x, x ∈ l ∧ P x y.
Proof. induction 1; intros Hx; [set_solver|]. apply elem_of_cons in Hx as [->|Hx]; set_solver. Qed.

Lemma filter_all_false {A} (P : A → Prop) `{!∀ x, Decision (P x)} l : (∀ x, x ∈ l → ¬ P x) → filter P l = [].
Proof. intros Hl. induction l as [|x l IH]; [done|]. rewrite filter_cons_False by set_solver. apply IH. set_solver. Qed.
Lemma fmap_zip_with {A B C D} (f : C → D) (g : A → B → C) l k : f <$> zip_with g l k = zip_with (λ x y, f (g x y)) l k.
Proof. revert k. induction l as [|x l IH]; intros [|y k]; try done. simpl. by rewrite IH. Qed.
Lemma filter_all_true {A} (P : A → Prop) `{!∀ x, Decision (P x)} (l : list A) : (∀ x, x ∈ l → P x) → filter P l = l.
Proof. intros Hl. induction l as [|x l IH]; [done|]. rewrite filter_cons_True by set_solver. rewrite IH; [done|set_solver]. Qed.

Lemma omap_none {A B} (f : A → option B) l : (∀ x, x ∈ l → f x = None) → omap f l = [].
Proof.
  intros Hl. induction l as [|x l IH]; [done|]. simpl. rewrite Hl by set_solver. apply IH. set_solver.
Qed.

Lemma forallb_elem {A} (p : A → bool) l x : forallb p l = true → x ∈ l → p x = true.
Proof. rewrite forallb_forall. intros Hl Hx. by apply Hl, list_elem_of_In. Qed.

(** ** Shared tactics *)

(** Split the boolean conjunctions a guard leaves in the context and turn
    comparisons into propositions. *)
Ltac bool_to_prop :=
  repeat match goal with
  | H : _ && _ = true |- _ => apply andb_true_iff in H as [? ?]
  | H : negb _ = true |- _ => apply negb_true_iff in H
  | H : negb _ = false |- _ => apply negb_false_iff in H
  | H : _ || _ = false |- _ => apply orb_false_iff in H as [? ?]
  | H : bool_decide _ = true |- _ => apply bool_decide_eq_true in H
  | H : bool_decide _ = false |- _ => apply bool_decide_eq_false in H
  | H : (_ <? _) = true |- _ => apply Z.ltb_lt in H
  | H : (_ <? _) = false |- _ => apply Z.ltb_ge in H
  | H : (_ <=? _) = true |- _ => apply Z.leb_le in H
  | H : (_ <=? _) = false |- _ => apply Z.leb_gt in H
  | H : (_ =? _) = true |- _ => apply Z.eqb_eq in H
  | H : (_ =? _) = false |- _ => apply Z.eqb_neq in H
  end.
