(* ===== verification/Errors.v ===== *)
(** * Errors

    The sentinel errors of the Go packages, the errors the PostgreSQL driver
    returns, and [errors.Is].  An error built by [fmt.Errorf] with one [%w] is
    represented by the error it wraps, since no caller branches on message
    text; one built with two [%w] verbs is [Wrap2]. *)

From S2P Require Import Prelude.
Open Scope string_scope.
Open Scope Z_scope.

Inductive error : Type :=
(* internal/ledger/errors.go *)
| ErrInsufficientFunds
| ErrUnbalancedTransaction
| ErrCurrencyMismatch
| ErrAccountNotFound
| ErrAccountNotPostable
| ErrImmutableJournal
| ErrTransactionNotFound
| ErrTransactionNotPending
| ErrTransactionNotPosted
| ErrAlreadyReversed
| ErrReversalReasonRequired
| ErrMoneyOverflow
| ErrInvalidCurrency
| ErrScaleMismatch
| ErrMixedCurrency
| ErrTooFewEntries
| ErrInvalidEntry
| ErrInvalidTransactionType
| ErrInvalidAccountType
| ErrMissingRenderer
| ErrDuplicateIdempotencyKey
| ErrBalanceVersionConflict
(* internal/idempotency/errors.go *)
| ErrIdempotencyConflict
| ErrRequestInProgress
| ErrKeyExpired
| ErrMissingKey
| ErrInvalidKey
| ErrMalformedBody
| idempotency_ErrLeaseLost
| ErrCorruptRecord
(* internal/saga/errors.go *)
| ErrSagaNotFound
| ErrStaleTransition
| saga_ErrLeaseLost
| ErrAmbiguousOutcome
| ErrCompensationExhausted
| ErrUnknownSagaType
(* internal/gateway/gateway.go *)
| ErrPaymentDeclined
| ErrPaymentNotFound
| ErrGatewayUnavailable
| ErrInvalidRequest
(* internal/outbox/errors.go, internal/reconciliation/errors.go,
   internal/auth/errors.go, internal/projector/apply.go *)
| ErrMissingOccurredAt
| ErrEmptyStatement
| ErrMalformedRecord
| ErrRunNotFound
| ErrMissingAPIKey
| ErrInvalidAPIKey
| ErrUnknownEventType
(* context.DeadlineExceeded and context.Canceled *)
| DeadlineExceeded
| Canceled
(* *pgconn.PgError: the SQLSTATE, the constraint and the message *)
| PgError (code constraint message : string)
(* an error value with no identity a caller inspects *)
| ErrOther (what : string)
(* *idempotency.InProgressError and *idempotency.ConflictError *)
| InProgressError (key : string) (retryAfter : Z)
| ConflictError (key method route : string)
(* fmt.Errorf with two %w verbs *)
| Wrap2 (e1 e2 : error).

#[export] Instance error_eq_dec : EqDecision error.
Proof. solve_decision. Defined.

Abbreviation res := (result error) (only parsing).

(** [errors.Is]: the target is somewhere in the chain; the two typed errors
    unwrap to their sentinel. *)
Fixpoint errors_Is (e target : error) : bool :=
  bool_decide (e = target) ||
  match e with
  | Wrap2 e1 e2 => errors_Is e1 target || errors_Is e2 target
  | InProgressError _ _ => bool_decide (ErrRequestInProgress = target)
  | ConflictError _ _ _ => bool_decide (ErrIdempotencyConflict = target)
  | _ => false
  end.

(** [errors.As] into a [*pgconn.PgError]: the first one in the chain. *)
Fixpoint errors_As_PgError (e : error) : option (string * string * string) :=
  match e with
  | PgError c k m => Some (c, k, m)
  | Wrap2 e1 e2 =>
      match errors_As_PgError e1 with
      | Some p => Some p
      | None => errors_As_PgError e2
      end
  | _ => None
  end.

Lemma errors_Is_refl e : errors_Is e e = true.
Proof. destruct e; cbn -[bool_decide]; by rewrite bool_decide_eq_true_2. Qed.

(** SQLSTATE codes ([github.com/jackc/pgerrcode]) the code mentions. *)
Definition CheckViolation := "23514".
Definition RestrictViolation := "23001".
Definition UniqueViolation := "23505".
Definition ForeignKeyViolation := "23503".
Definition NumericValueOutOfRange := "22003".
Definition SerializationFailure := "40001".
Definition DeadlockDetected := "40P01".

(** [err.Error()]: the message text is a parameter of the models that store it. *)
Class ErrorText := error_text : error → string.
