(* ===== verification/Money.v ===== *)
(** * Money (internal/ledger/money.go)

    An exact amount in the minor units of one currency, with overflow-checked
    64-bit arithmetic and the JSON wire shape. *)

From S2P Require Import Prelude Errors.
From Stdlib Require Import Ascii DecimalString DecimalZ DecimalPos DecimalFacts.
Open Scope string_scope.
Open Scope Z_scope.

(** ** The currency table *)

Definition is_upper (c : ascii) : bool :=
  let n := nat_of_ascii c in (65 <=? n)%nat && (n <=? 90)%nat.

(** [currencyPattern]: the regular expression [^[A-Z]{3}$]. *)
Definition currencyPattern (s : string) : bool :=
  match s with
  | String a (String b (String c EmptyString)) => is_upper a && is_upper b && is_upper c
  | _ => false
  end.

Definition defaultScale : Z := 2.

Definition currencyScale : gmap string Z := list_to_map [
  ("BIF", 0); ("CLP", 0); ("DJF", 0); ("GNF", 0); ("ISK", 0); ("JPY", 0); ("KMF", 0);
  ("KRW", 0); ("PYG", 0); ("RWF", 0); ("UGX", 0); ("UYI", 0); ("VND", 0); ("VUV", 0);
  ("XAF", 0); ("XOF", 0); ("XPF", 0);
  ("BHD", 3); ("IQD", 3); ("JOD", 3); ("KWD", 3); ("LYD", 3); ("OMR", 3); ("TND", 3);
  ("CLF", 4); ("UYW", 4) ].

Definition scaleFor (currency : string) : Z :=
  match currencyScale !! currency with
  | Some scale => scale
  | None => defaultScale
  end.

#[global] Arguments currencyScale : simpl never.
#[global] Arguments scaleFor : simpl never.

(** ** Checked 64-bit arithmetic *)

Definition addInt64 (a b : Z) : Z * bool :=
  let sum := wrap64 (a + b) in
  if ((0 <? a) && (0 <? b) && (sum <? 0)) || ((a <? 0) && (b <? 0) && (0 <=? sum))
  then (0, false) else (sum, true).

Definition subInt64 (a b : Z) : Z * bool :=
  let diff := wrap64 (a - b) in
  if ((b <? 0) && (diff <? a)) || ((0 <? b) && (a <? diff))
  then (0, false) else (diff, true).

(** ** The type and its operations *)

Record Money := mkMoney { amountMinor : Z; currency : string }.

#[export] Instance Money_eq_dec : EqDecision Money.
Proof. solve_decision. Defined.

Definition NewMoney (amount : Z) (cur : string) : res Money :=
  if negb (currencyPattern cur) then Err ErrInvalidCurrency
  else Ok (mkMoney amount cur).

(** [MustNewMoney] panics where [NewMoney] fails: [None] is the panic. *)
Definition MustNewMoney (amount : Z) (cur : string) : option Money :=
  match NewMoney amount cur with Ok m => Some m | Err _ => None end.

Definition Money_Scale (m : Money) : Z := scaleFor (currency m).
Definition Money_IsZero (m : Money) : bool := amountMinor m =? 0.
Definition Money_IsNegative (m : Money) : bool := amountMinor m <? 0.

Definition Money_Validate (m : Money) : res unit :=
  if negb (currencyPattern (currency m)) then Err ErrInvalidCurrency else Ok tt.

Definition Money_sameCurrency (m other : Money) : res unit :=
  if bool_decide (currency m ≠ currency other) then Err ErrCurrencyMismatch else Ok tt.

Definition Money_Add (m other : Money) : res Money :=
  _ ← Money_sameCurrency m other;
  let '(sum, ok) := addInt64 (amountMinor m) (amountMinor other) in
  if negb ok then Err ErrMoneyOverflow else Ok (mkMoney sum (currency m)).

Definition Money_Sub (m other : Money) : res Money :=
  _ ← Money_sameCurrency m other;
  let '(diff, ok) := subInt64 (amountMinor m) (amountMinor other) in
  if negb ok then Err ErrMoneyOverflow else Ok (mkMoney diff (currency m)).

Definition Money_Neg (m : Money) : res Money :=
  if amountMinor m =? min_int64 then Err ErrMoneyOverflow
  else Ok (mkMoney (wrap64 (- amountMinor m)) (currency m)).

Definition Money_Cmp (m other : Money) : res Z :=
  _ ← Money_sameCurrency m other;
  if amountMinor m <? amountMinor other then Ok (-1)
  else if amountMinor other <? amountMinor m then Ok 1
  else Ok 0.

Definition Money_Equal (m other : Money) : bool :=
  (amountMinor m =? amountMinor other) && bool_decide (currency m = currency other).

(** ** Correctness of the checked arithmetic *)

Definition is_int64 (z : Z) : Prop := min_int64 ≤ z ≤ max_int64.

(** Wrapping a value that is off the 64-bit range by less than one period. *)
Lemma wrap64_off z : -two64 + min_int64 ≤ z ≤ max_int64 + two64 →
  wrap64 z = if z <? min_int64 then z + two64 else if max_int64 <? z then z - two64 else z.
Proof.
  intros Hz. destruct (Z.ltb_spec z min_int64), (Z.ltb_spec max_int64 z);
    [unfold min_int64, max_int64 in *; lia | | | by rewrite wrap64_id].
  - rewrite <- (wrap64_add_two64 z 1). rewrite wrap64_id; unfold min_int64, max_int64, two64 in *; lia.
  - rewrite <- (wrap64_add_two64 z (-1)). rewrite wrap64_id; unfold min_int64, max_int64, two64 in *; lia.
Qed.

Lemma addInt64_spec a b : is_int64 a → is_int64 b →
  addInt64 a b = if in_int64 (a + b) then (a + b, true) else (0, false).
Proof.
  unfold is_int64; intros Ha Hb. unfold addInt64.
  rewrite wrap64_off by (unfold min_int64, max_int64, two64 in *; lia).
  unfold in_int64, min_int64, max_int64, two64 in *.
  repeat match goal with |- context [(?x <? ?y)] => destruct (Z.ltb_spec x y) end;
  repeat match goal with |- context [(?x <=? ?y)] => destruct (Z.leb_spec x y) end;
  simpl; try done; lia.
Qed.

Lemma subInt64_spec a b : is_int64 a → is_int64 b →
  subInt64 a b = if in_int64 (a - b) then (a - b, true) else (0, false).
Proof.
  unfold is_int64; intros Ha Hb. unfold subInt64.
  rewrite wrap64_off by (unfold min_int64, max_int64, two64 in *; lia).
  unfold in_int64, min_int64, max_int64, two64 in *.
  repeat match goal with |- context [(?x <? ?y)] => destruct (Z.ltb_spec x y) end;
  repeat match goal with |- context [(?x <=? ?y)] => destruct (Z.leb_spec x y) end;
  simpl; try done; lia.
Qed.

(** C33: on 64-bit operands, [Add], [Sub] and [Neg] return the exact
    mathematical result when it fits in an [int64] and [ErrMoneyOverflow]
    otherwise (never a wrapped value), and [Add] and [Sub] refuse operands of
    two currencies before computing anything. *)
Theorem Money_arith_exact m o :
  is_int64 (amountMinor m) → is_int64 (amountMinor o) →
  (Money_Add m o =
    if bool_decide (currency m = currency o) then
      if in_int64 (amountMinor m + amountMinor o)
      then Ok (mkMoney (amountMinor m + amountMinor o) (currency m)) else Err ErrMoneyOverflow
    else Err ErrCurrencyMismatch) ∧
  (Money_Sub m o =
    if bool_decide (currency m = currency o) then
      if in_int64 (amountMinor m - amountMinor o)
      then Ok (mkMoney (amountMinor m - amountMinor o) (currency m)) else Err ErrMoneyOverflow
    else Err ErrCurrencyMismatch) ∧
  (Money_Neg m =
    if in_int64 (- amountMinor m)
    then Ok (mkMoney (- amountMinor m) (currency m)) else Err ErrMoneyOverflow).
Proof.
  intros Hm Ho. unfold Money_Add, Money_Sub, Money_Neg, Money_sameCurrency.
  rewrite addInt64_spec, subInt64_spec by done. split_and!.
  - destruct (decide (currency m = currency o)) as [->|Hne];
      [|by rewrite bool_decide_eq_true_2, bool_decide_eq_false_2].
    rewrite bool_decide_eq_false_2 by auto. rewrite bool_decide_eq_true_2 by done. simpl.
    by destruct (in_int64 _).
  - destruct (decide (currency m = currency o)) as [->|Hne];
      [|by rewrite bool_decide_eq_true_2, bool_decide_eq_false_2].
    rewrite bool_decide_eq_false_2 by auto. rewrite bool_decide_eq_true_2 by done. simpl.
    by destruct (in_int64 _).
  - unfold is_int64, in_int64, min_int64, max_int64 in *.
    destruct (Z.eqb_spec (amountMinor m) (-9223372036854775808)) as [->|Hne]; [done|].
    rewrite (proj2 (Z.leb_le _ _)) by lia. rewrite (proj2 (Z.leb_le _ _)) by lia. simpl.
    rewrite wrap64_id; [done | unfold min_int64, max_int64; lia].
Qed.

Lemma Money_arith_exact_witness :
  Money_Add (mkMoney max_int64 "INR") (mkMoney 1 "INR") = Err ErrMoneyOverflow.
Proof.
  apply (Money_arith_exact (mkMoney max_int64 "INR") (mkMoney 1 "INR"));
    split; vm_compute; congruence.
Defined.
