(* ===== verification/Strconv.v ===== *)
(** * strconv: the decimal conversions the source uses

    [strconv.FormatInt(z, 10)] and [strconv.ParseInt(s, 10, 64)], the latter
    as the character loop of the Go standard library, so that a syntax error
    and a range error are told apart in the order the loop finds them. *)

From S2P Require Import Prelude Errors.
From Stdlib Require Import Ascii DecimalString DecimalZ.
Open Scope string_scope.
Open Scope Z_scope.

Inductive NumError := ErrSyntax | ErrRange.

Definition max_uint64 : Z := two64 - 1.

(** [maxUint64/10 + 1]: the smallest accumulator that overflows when multiplied by ten. *)
Definition parse_cutoff : Z := 1844674407370955162.

Definition digit_value (c : ascii) : option Z :=
  let n := Z.of_nat (nat_of_ascii c) in
  if (48 <=? n) && (n <=? 57) then Some (n - 48) else None.

(** The loop of [strconv.ParseUint] in base 10. *)
Fixpoint parse_uint_loop (n : Z) (s : string) : result NumError Z :=
  match s with
  | EmptyString => Ok n
  | String c s' =>
      match digit_value c with
      | None => Err ErrSyntax
      | Some d =>
          if parse_cutoff <=? n then Err ErrRange
          else if max_uint64 <? n * 10 + d then Err ErrRange
          else parse_uint_loop (n * 10 + d) s'
      end
  end.

Definition ParseUint (s : string) : result NumError Z :=
  match s with
  | EmptyString => Err ErrSyntax
  | _ => parse_uint_loop 0 s
  end.

Definition ParseInt (s : string) : result NumError Z :=
  match s with
  | EmptyString => Err ErrSyntax
  | String c s' =>
      let '(neg, rest) :=
        if bool_decide (c = "+"%char) then (false, s')
        else if bool_decide (c = "-"%char) then (true, s')
        else (false, s) in
      un ← ParseUint rest;
      let cutoff := max_int64 + 1 in
      if negb neg && (cutoff <=? un) then Err ErrRange
      else if neg && (cutoff <? un) then Err ErrRange
      else Ok (if neg then - un else un)
  end.

Definition FormatInt (z : Z) : string := NilZero.string_of_int (Z.to_int z).

(** ** Parsing what was formatted *)

Fixpoint horner (acc : Z) (d : Decimal.uint) : Z :=
  match d with
  | Decimal.Nil => acc
  | Decimal.D0 d => horner (acc * 10 + 0) d
  | Decimal.D1 d => horner (acc * 10 + 1) d
  | Decimal.D2 d => horner (acc * 10 + 2) d
  | Decimal.D3 d => horner (acc * 10 + 3) d
  | Decimal.D4 d => horner (acc * 10 + 4) d
  | Decimal.D5 d => horner (acc * 10 + 5) d
  | Decimal.D6 d => horner (acc * 10 + 6) d
  | Decimal.D7 d => horner (acc * 10 + 7) d
  | Decimal.D8 d => horner (acc * 10 + 8) d
  | Decimal.D9 d => horner (acc * 10 + 9) d
  end.

Lemma horner_ge d acc : 0 ≤ acc → acc ≤ horner acc d.
Proof.
  revert acc; induction d as [|d IH|d IH|d IH|d IH|d IH|d IH|d IH|d IH|d IH|d IH];
    intros acc Hacc; simpl; [lia|..]; (etrans; [|apply IH]); lia.
Qed.

Lemma parse_uint_loop_step c v n s : digit_value c = Some v → 0 ≤ n → 0 ≤ v →
  n * 10 + v ≤ max_uint64 → parse_uint_loop n (String c s) = parse_uint_loop (n * 10 + v) s.
Proof.
  intros Hc Hn Hv Hle. simpl. rewrite Hc. unfold max_uint64, two64, parse_cutoff in *.
  rewrite (proj2 (Z.leb_gt _ _)) by lia. by rewrite (proj2 (Z.ltb_ge _ _)) by lia.
Qed.

Lemma parse_uint_loop_digits d acc : 0 ≤ acc → horner acc d ≤ max_uint64 →
  parse_uint_loop acc (NilEmpty.string_of_uint d) = Ok (horner acc d).
Proof.
  revert acc; induction d as [|d IH|d IH|d IH|d IH|d IH|d IH|d IH|d IH|d IH|d IH];
    intros acc Hacc Hle; cbn [NilEmpty.string_of_uint horner] in *; [done|..];
    match type of Hle with
    | horner (_ * 10 + ?v) _ ≤ _ =>
        pose proof (horner_ge d (acc * 10 + v) ltac:(lia)) as Hge;
        rewrite (parse_uint_loop_step _ v) by (done || lia)
    end; apply IH; lia.
Qed.

Lemma of_uint_acc_horner d p : Z.pos (Pos.of_uint_acc d p) = horner (Z.pos p) d.
Proof.
  revert p; induction d as [|d IH|d IH|d IH|d IH|d IH|d IH|d IH|d IH|d IH|d IH];
    intros p; cbn -[Z.mul Z.add Pos.mul Pos.add]; [done|..]; rewrite IH; f_equal; lia.
Qed.

Lemma of_uint_horner d : Z.of_N (Pos.of_uint d) = horner 0 d.
Proof.
  induction d as [|d IH|d IH|d IH|d IH|d IH|d IH|d IH|d IH|d IH|d IH];
    cbn -[Z.mul Z.add]; [done|by rewrite IH|..]; by rewrite of_uint_acc_horner.
Qed.

Lemma ParseUint_string_of_uint d : d ≠ Decimal.Nil → horner 0 d ≤ max_uint64 →
  ParseUint (NilZero.string_of_uint d) = Ok (horner 0 d).
Proof.
  intros Hd Hle. rewrite <- parse_uint_loop_digits by (done || lia).
  by destruct d.
Qed.

Lemma to_uint_not_nil p : Pos.to_uint p ≠ Decimal.Nil.
Proof. apply DecimalPos.Unsigned.to_uint_nonnil. Qed.

Lemma horner_to_uint p : horner 0 (Pos.to_uint p) = Z.pos p.
Proof. by rewrite <- of_uint_horner, DecimalPos.Unsigned.of_to. Qed.

Lemma ParseUint_pos p : Z.pos p ≤ max_uint64 →
  ParseUint (NilZero.string_of_uint (Pos.to_uint p)) = Ok (Z.pos p).
Proof.
  intros Hp. rewrite <- (horner_to_uint p). apply ParseUint_string_of_uint; [apply to_uint_not_nil|].
  by rewrite horner_to_uint.
Qed.

Lemma sign_of_digits d s : NilZero.string_of_uint d = s →
  match s with
  | EmptyString => False
  | String c _ => c ≠ "+"%char ∧ c ≠ "-"%char
  end.
Proof. by destruct d; intros <-; simpl. Qed.

Lemma ParseInt_FormatInt z : min_int64 ≤ z ≤ max_int64 → ParseInt (FormatInt z) = Ok z.
Proof.
  unfold min_int64, max_int64; intros Hz. destruct z as [|p|p]; [done|..]; unfold FormatInt; simpl.
  - pose proof (ParseUint_pos p ltac:(unfold max_uint64, two64; lia)) as Hp.
    destruct (NilZero.string_of_uint (Pos.to_uint p)) as [|c s] eqn:Hs.
    { by apply sign_of_digits in Hs. }
    apply sign_of_digits in Hs as [Hplus Hminus]. unfold ParseInt.
    rewrite !bool_decide_eq_false_2 by done. rewrite Hp. cbn -[Z.leb Z.ltb].
    rewrite (proj2 (Z.leb_gt _ _)) by (unfold max_int64; lia). done.
  - pose proof (ParseUint_pos p ltac:(unfold max_uint64, two64; lia)) as Hp.
    unfold ParseInt. cbn -[ParseUint Z.leb Z.ltb NilZero.string_of_uint]. rewrite Hp.
    cbn -[Z.leb Z.ltb]. rewrite (proj2 (Z.ltb_ge _ _)) by (unfold max_int64; lia). done.
Qed.
