(* ===== verification/Json.v ===== *)
(** * JSON values

    The abstract syntax [encoding/json] decodes text into and encodes text
    from.  A number keeps its literal, as [json.Number] does; an object keeps
    its members in document order, with duplicates. *)

From S2P Require Import Prelude Errors.
From Stdlib Require Import Ascii.
Open Scope string_scope.
Open Scope Z_scope.

#[warnings="-register-all"]
Inductive json : Type :=
| JNull
| JBool (b : bool)
| JNumber (literal : string)
| JString (s : string)
| JArray (items : list json)
| JObject (members : list (string * json)).

(** [encoding/json] matches a member name to a struct field ignoring case; the names of
    the fields here are ASCII. *)
Definition ascii_lower (c : ascii) : ascii :=
  let n := nat_of_ascii c in
  if ((65 <=? n) && (n <=? 90))%nat then ascii_of_nat (n + 32) else c.

Fixpoint string_lower (s : string) : string :=
  match s with
  | EmptyString => EmptyString
  | String c s => String (ascii_lower c) (string_lower s)
  end.

(** The same on a member name, where two more runes fold to an ASCII letter: the long
    s (U+017F) and the Kelvin sign (U+212A). *)
Fixpoint fold_name (s : string) : string :=
  match s with
  | EmptyString => EmptyString
  | String c s1 =>
      match s1 with
      | String d s2 =>
          if bool_decide (c = "197"%char) && bool_decide (d = "191"%char) then String "s" (fold_name s2)
          else
            match s2 with
            | String e s3 =>
                if bool_decide (c = "226"%char) && bool_decide (d = "132"%char) && bool_decide (e = "170"%char)
                then String "k" (fold_name s3) else String (ascii_lower c) (fold_name s1)
            | EmptyString => String (ascii_lower c) (fold_name s1)
            end
      | EmptyString => String (ascii_lower c) EmptyString
      end
  end.

Definition field_matches (name key : string) : bool := bool_decide (string_lower name = fold_name key).
