(* ===== verification/MoneyJson.v ===== *)
(** * The JSON form of Money (internal/ledger/money.go)

    [MarshalJSON] and [UnmarshalJSON] over JSON values: the text layer is
    [encoding/json]'s and is not repeated here. *)

From S2P Require Import Prelude Errors Json Strconv Money.
Open Scope string_scope.
Open Scope Z_scope.

(** [moneyJSON]: the wire shape, with the amount left undecoded. *)
Record moneyJSON := mk_moneyJSON {
  mj_Amount : option json;
  mj_Currency : string;
  mj_Scale : option Z }.

Definition Money_MarshalJSON (m : Money) : res json :=
  _ ← Money_Validate m;
  Ok (JObject [ ("amount", JString (FormatInt (amountMinor m)));
                ("currency", JString (currency m));
                ("scale", JNumber (FormatInt (Money_Scale m))) ]).

(** One member of the object decoded into the struct: a member of the wrong
    type is an error, [null] leaves a string and clears a pointer, an unknown
    member is skipped. *)
Definition decode_member (acc : moneyJSON) (kv : string * json) : res moneyJSON :=
  let '(k, v) := kv in
  if field_matches "amount" k then
    Ok (mk_moneyJSON (Some v) (mj_Currency acc) (mj_Scale acc))
  else if field_matches "currency" k then
    match v with
    | JString s => Ok (mk_moneyJSON (mj_Amount acc) s (mj_Scale acc))
    | JNull => Ok acc
    | _ => Err (ErrOther "json: cannot unmarshal into string")
    end
  else if field_matches "scale" k then
    match v with
    | JNumber lit =>
        match ParseInt lit with
        | Ok n => Ok (mk_moneyJSON (mj_Amount acc) (mj_Currency acc) (Some n))
        | Err _ => Err (ErrOther "json: cannot unmarshal number into int")
        end
    | JNull => Ok (mk_moneyJSON (mj_Amount acc) (mj_Currency acc) None)
    | _ => Err (ErrOther "json: cannot unmarshal into int")
    end
  else Ok acc.

Definition decode_moneyJSON (data : json) : res moneyJSON :=
  match data with
  | JNull => Ok (mk_moneyJSON None "" None)
  | JObject members => foldM decode_member (mk_moneyJSON None "" None) members
  | _ => Err (ErrOther "json: cannot unmarshal into struct")
  end.

Definition Money_UnmarshalJSON (data : json) : res Money :=
  raw ← decode_moneyJSON data;
  match mj_Amount raw with
  | Some (JString amountStr) =>
      amount ← match ParseInt amountStr with
               | Ok n => Ok n
               | Err ErrRange => Err ErrMoneyOverflow
               | Err ErrSyntax => Err ErrInvalidEntry
               end;
      decoded ← NewMoney amount (mj_Currency raw);
      match mj_Scale raw with
      | Some s => if negb (s =? Money_Scale decoded) then Err ErrScaleMismatch else Ok decoded
      | None => Ok decoded
      end
  | _ => Err ErrInvalidEntry
  end.

(** The exponent of every currency fits a machine integer. *)
Lemma scaleFor_range c : 0 ≤ scaleFor c ≤ 4.
Proof.
  unfold scaleFor. destruct (currencyScale !! c) as [z|] eqn:Hc; [|unfold defaultScale; lia].
  assert (map_Forall (λ _ z, 0 ≤ z ≤ 4) currencyScale) as Hall.
  { apply map_Forall_to_list. vm_compute map_to_list. repeat constructor; simpl; lia. }
  by apply (Hall c).
Qed.

(** Evaluate the member-name comparisons of a concrete document. *)
Ltac eval_fields :=
  repeat match goal with
  | |- context [field_matches ?a ?b] =>
      let v := eval vm_compute in (field_matches a b) in change (field_matches a b) with v
  end.

(** C35: encoding a usable [Money] and decoding the result gives the same
    value back, for every amount an [int64] holds and every valid currency. *)
Theorem Money_json_roundtrip m :
  is_int64 (amountMinor m) → currencyPattern (currency m) = true →
  (j ← Money_MarshalJSON m; Money_UnmarshalJSON j) = Ok m.
Proof.
  intros Hrange Hcur. destruct m as [a c]; simpl in *.
  unfold Money_MarshalJSON, Money_Validate; simpl. rewrite Hcur; simpl.
  unfold Money_UnmarshalJSON, Money_Scale; cbn -[ParseInt FormatInt scaleFor].
  eval_fields. cbn -[ParseInt FormatInt scaleFor].
  pose proof (scaleFor_range c).
  rewrite (ParseInt_FormatInt (scaleFor c)) by (unfold min_int64, max_int64; lia).
  cbn -[ParseInt FormatInt scaleFor]. rewrite ParseInt_FormatInt by done.
  cbn -[scaleFor]. unfold NewMoney; rewrite Hcur; cbn -[scaleFor].
  by rewrite Z.eqb_refl.
Qed.

Lemma Money_json_roundtrip_witness :
  (j ← Money_MarshalJSON (mkMoney min_int64 "INR"); Money_UnmarshalJSON j)
  = Ok (mkMoney min_int64 "INR").
Proof. apply (Money_json_roundtrip (mkMoney min_int64 "INR")); [split; vm_compute; congruence | reflexivity]. Defined.

(** A decoded [Money] always carries a valid currency and an [int64] amount,
    and its amount was spelled as a JSON string. *)
Lemma ParseInt_range s z : ParseInt s = Ok z → is_int64 z.
Proof.
  unfold ParseInt. destruct s as [|c s]; [done|].
  destruct (if bool_decide _ then _ else _) as [neg rest].
  destruct (ParseUint rest) as [un|] eqn:Hun; cbn -[Z.leb Z.ltb]; [|done].
  assert (0 ≤ un) as Hpos.
  { revert Hun. unfold ParseUint. destruct rest; [done|]. intros Hun.
    assert (∀ s n, 0 ≤ n → parse_uint_loop n s = Ok un → 0 ≤ un) as Hloop; [|by eapply Hloop].
    clear. induction s as [|c s IH]; intros n Hn; cbn -[Z.leb Z.ltb]; [by intros [= ->]|].
    destruct (digit_value c) as [d|] eqn:Hd; [|done].
    assert (0 ≤ d).
    { unfold digit_value in Hd. case_match; simplify_eq. bool_to_prop. lia. }
    case_match; [done|]. case_match; [done|]. apply IH. lia. }
  unfold is_int64, min_int64, max_int64 in *.
  destruct neg; cbn -[Z.leb Z.ltb]; case_match; try done; intros [= <-]; bool_to_prop; lia.
Qed.

Lemma bind_Ok_inv {A B} (m : res A) (f : A → res B) b :
  m ≫= f = Ok b → ∃ a, m = Ok a ∧ f a = Ok b.
Proof. apply result_bind_ok. Qed.

(** C36: whatever JSON arrives, a [Money] that decodes is usable (its
    currency is valid and its amount is a 64-bit integer), its scale member,
    if any, agreed with the currency, and its amount was a JSON string: a JSON
    number is never accepted. *)
Theorem Money_UnmarshalJSON_sound data m :
  Money_UnmarshalJSON data = Ok m →
  currencyPattern (currency m) = true ∧ is_int64 (amountMinor m) ∧
  ∃ raw s, decode_moneyJSON data = Ok raw ∧ mj_Amount raw = Some (JString s) ∧
           ParseInt s = Ok (amountMinor m) ∧ mj_Currency raw = currency m ∧
           (mj_Scale raw = None ∨ mj_Scale raw = Some (Money_Scale m)).
Proof.
  unfold Money_UnmarshalJSON. intros (raw & Hraw & H)%bind_Ok_inv.
  destruct (mj_Amount raw) as [[| | |s| |]|] eqn:Hamt; try done.
  apply bind_Ok_inv in H as (z & Hz & H). apply bind_Ok_inv in H as (dec & Hdec & H).
  assert (ParseInt s = Ok z) as Hp by (destruct (ParseInt s) as [|[]]; congruence).
  unfold NewMoney in Hdec. destruct (currencyPattern (mj_Currency raw)) eqn:Hc; [|done].
  simpl in Hdec; injection Hdec as <-.
  destruct (mj_Scale raw) as [sc|] eqn:Hsc.
  - destruct (sc =? _) eqn:Heq; simpl in H; [|done]. injection H as <-. bool_to_prop.
    split_and!; [done | by eapply ParseInt_range |]. exists raw, s. split_and!; auto.
    right. by subst.
  - injection H as <-. split_and!; [done | by eapply ParseInt_range |].
    exists raw, s. split_and!; auto.
Qed.

Lemma Money_UnmarshalJSON_sound_witness :
  currencyPattern "JPY" = true ∧ is_int64 1000 ∧
  ∃ raw s, decode_moneyJSON (JObject [("amount", JString "1000"); ("currency", JString "JPY")]) = Ok raw ∧
           mj_Amount raw = Some (JString s) ∧ ParseInt s = Ok 1000 ∧ mj_Currency raw = "JPY" ∧
           (mj_Scale raw = None ∨ mj_Scale raw = Some 0).
Proof.
  apply (Money_UnmarshalJSON_sound
    (JObject [("amount", JString "1000"); ("currency", JString "JPY")]) (mkMoney 1000 "JPY")).
  vm_compute. reflexivity.
Defined.
