(* ===== verification/Types.v ===== *)
(** * Domain types (internal/ledger/types.go)

    The Go enumerations are string types with named constants, so any string
    can reach the code that checks them; they are strings here too. *)

From S2P Require Import Prelude Errors Json Money.
Open Scope string_scope.
Open Scope Z_scope.

(** [uuid.UUID] is a 16-byte value; it is represented by the number its bytes
    spell, so [uuid.Nil] is 0 and PostgreSQL's [uuid] order is the order on
    numbers. *)
Abbreviation UUID := N (only parsing).
Definition uuid_Nil : UUID := 0%N.

(** The package [github.com/google/uuid]: its textual form, and what the code
    relies on, that the text of a 16-byte value determines it and that
    comparing texts compares the bytes (fixed-width lower-case hexadecimal). *)
Class UuidLib := uuid_String : UUID → string.

Definition uuid_valid (u : UUID) : Prop := (u < 2 ^ 128)%N.

Class UuidLaws `{UuidLib} : Prop := {
  uuid_String_order : ∀ a b, uuid_valid a → uuid_valid b →
    String.ltb (uuid_String a) (uuid_String b) = (a <? b)%N
}.

(** [time.Time], and PostgreSQL's [timestamptz], as nanoseconds from the Unix
    epoch. *)
Abbreviation Time := Z (only parsing).

(** The zero [time.Time], 1 January of year 1, and [IsZero]. *)
Definition time_zero : Time := -62135596800000000000.
Definition Time_IsZero (t : Time) : bool := t =? time_zero.

(** ** Directions *)

Abbreviation Direction := string (only parsing).
Definition DirectionDebit : Direction := "DEBIT".
Definition DirectionCredit : Direction := "CREDIT".

Definition Direction_Valid (d : Direction) : bool :=
  bool_decide (d = DirectionDebit) || bool_decide (d = DirectionCredit).

Definition Direction_Opposite (d : Direction) : Direction :=
  if bool_decide (d = DirectionDebit) then DirectionCredit else DirectionDebit.

(** ** Account types *)

Abbreviation AccountType := string (only parsing).
Definition AccountTypeAsset : AccountType := "ASSET".
Definition AccountTypeLiability : AccountType := "LIABILITY".
Definition AccountTypeEquity : AccountType := "EQUITY".
Definition AccountTypeRevenue : AccountType := "REVENUE".
Definition AccountTypeExpense : AccountType := "EXPENSE".

Definition AccountType_Valid (t : AccountType) : bool :=
  bool_decide (t ∈ [AccountTypeAsset; AccountTypeLiability; AccountTypeEquity;
                    AccountTypeRevenue; AccountTypeExpense]).

Definition AccountType_NormalBalance (t : AccountType) : Direction :=
  if bool_decide (t = AccountTypeAsset) || bool_decide (t = AccountTypeExpense)
  then DirectionDebit else DirectionCredit.

(** ** Account and transaction statuses *)

Abbreviation AccountStatus := string (only parsing).
Definition AccountStatusActive : AccountStatus := "ACTIVE".
Definition AccountStatusFrozen : AccountStatus := "FROZEN".
Definition AccountStatusClosed : AccountStatus := "CLOSED".

Definition AccountStatus_Postable (s : AccountStatus) : bool :=
  bool_decide (s = AccountStatusActive).

Abbreviation TransactionStatus := string (only parsing).
Definition TransactionStatusPending : TransactionStatus := "PENDING".
Definition TransactionStatusPosted : TransactionStatus := "POSTED".
Definition TransactionStatusReversed : TransactionStatus := "REVERSED".

Abbreviation TransactionType := string (only parsing).
Definition TransactionTypeTransfer : TransactionType := "TRANSFER".
Definition TransactionTypePayin : TransactionType := "PAYIN".
Definition TransactionTypePayout : TransactionType := "PAYOUT".
Definition TransactionTypeFee : TransactionType := "FEE".
Definition TransactionTypeFX : TransactionType := "FX".
Definition TransactionTypeReversal : TransactionType := "REVERSAL".
Definition TransactionTypeAdjustment : TransactionType := "ADJUSTMENT".

Definition TransactionType_Valid (t : TransactionType) : bool :=
  bool_decide (t ∈ [TransactionTypeTransfer; TransactionTypePayin; TransactionTypePayout;
                    TransactionTypeFee; TransactionTypeFX; TransactionTypeReversal;
                    TransactionTypeAdjustment]).

(** ** Domain records *)

Record Account := mkAccount {
  Account_ID : UUID;
  Account_ExternalRef : string;
  Account_Type : AccountType;
  Account_NormalBalance : Direction;
  Account_Currency : string;
  Account_OwnerID : option string;
  Account_AllowNegative : bool;
  Account_Status : AccountStatus;
  Account_Version : Z;
  Account_CreatedAt : Time;
  Account_UpdatedAt : Time }.

Record JournalEntry := mkJournalEntry {
  Entry_ID : UUID;
  Entry_TransactionID : UUID;
  Entry_AccountID : UUID;
  Entry_Direction : Direction;
  Entry_Amount : Money;
  Entry_EntrySeq : Z;
  Entry_CreatedAt : Time }.

Record Transaction := mkTransaction {
  Tx_ID : UUID;
  Tx_IdempotencyKey : option string;
  Tx_PrincipalID : string;
  Tx_Type : TransactionType;
  Tx_Status : TransactionStatus;
  Tx_ExternalRef : option string;
  Tx_Metadata : list (string * json);
  Tx_CreatedAt : Time;
  Tx_PostedAt : option Time;
  Tx_Entries : list JournalEntry }.

Record Balance := mkBalance {
  Balance_AccountID : UUID;
  Balance_Available : Money;
  Balance_Pending : Money;
  Balance_Version : Z;
  Balance_UpdatedAt : Time }.

(** ** The two sign conventions *)

Definition signedAmount (direction normalBalance : Direction) (amount : Z) : res Z :=
  if negb (Direction_Valid direction) then Err ErrInvalidEntry
  else if negb (Direction_Valid normalBalance) then Err ErrInvalidEntry
  else if amount <=? 0 then Err ErrInvalidEntry
  else if bool_decide (direction = normalBalance) then Ok amount
  else Ok (wrap64 (- amount)).

(** The account sign as SQL writes it: the amount when the entry's direction is
    the account's normal balance, its opposite otherwise. *)
Definition account_signed (normal_balance direction : Direction) (amount : Z) : Z :=
  if bool_decide (direction = normal_balance) then amount else - amount.

(** The transaction sign as SQL writes it: DEBIT is positive. *)
Definition transaction_signed (direction : Direction) (amount : Z) : Z :=
  if bool_decide (direction = DirectionDebit) then amount else - amount.

Lemma Direction_Valid_cases d :
  Direction_Valid d = true ↔ d = DirectionDebit ∨ d = DirectionCredit.
Proof. unfold Direction_Valid. by rewrite orb_true_iff, !bool_decide_eq_true. Qed.

Lemma signedAmount_ok d nb a s : a ≤ max_int64 → signedAmount d nb a = Ok s →
  Direction_Valid d = true ∧ Direction_Valid nb = true ∧ 0 < a ∧ s = account_signed nb d a.
Proof.
  intros Ha. unfold signedAmount.
  destruct (Direction_Valid d); simpl; [|done]. destruct (Direction_Valid nb); simpl; [|done].
  destruct (Z.leb_spec a 0); [done|]. unfold account_signed.
  destruct (bool_decide (d = nb)); intros [= <-]; split_and!; auto; try lia.
  rewrite wrap64_id; unfold min_int64, max_int64 in *; lia.
Qed.

Lemma Opposite_valid d : Direction_Valid d = true → Direction_Valid (Direction_Opposite d) = true.
Proof. intros [->| ->]%Direction_Valid_cases; done. Qed.

Lemma Opposite_involutive d : Direction_Valid d = true → Direction_Opposite (Direction_Opposite d) = d.
Proof. intros [->| ->]%Direction_Valid_cases; done. Qed.

Lemma account_signed_opposite nb d a :
  Direction_Valid nb = true → Direction_Valid d = true →
  account_signed nb (Direction_Opposite d) a = - account_signed nb d a.
Proof.
  intros [->| ->]%Direction_Valid_cases [->| ->]%Direction_Valid_cases; simpl;
    unfold account_signed; simpl; repeat case_bool_decide; try done; lia.
Qed.

Lemma transaction_signed_opposite d a : Direction_Valid d = true →
  transaction_signed (Direction_Opposite d) a = - transaction_signed d a.
Proof.
  intros [->| ->]%Direction_Valid_cases; unfold transaction_signed; simpl;
    repeat case_bool_decide; try done; lia.
Qed.

Lemma NormalBalance_valid t : Direction_Valid (AccountType_NormalBalance t) = true.
Proof. unfold AccountType_NormalBalance. by case_match. Qed.
