(* ===== verification/SagaTypes.v ===== *)
(** * Saga vocabulary (internal/saga/status.go, internal/saga/instance.go)
    and the payout payload (internal/saga/payout/payout.go) *)

From S2P Require Import Prelude Errors Types.
Open Scope string_scope.
Open Scope Z_scope.

(** ** Statuses *)

Abbreviation SagaStatus := string (only parsing).
Definition StatusPending : SagaStatus := "PENDING".
Definition StatusReserved : SagaStatus := "RESERVED".
Definition StatusGatewayPending : SagaStatus := "GATEWAY_PENDING".
Definition StatusGatewaySucceeded : SagaStatus := "GATEWAY_SUCCEEDED".
Definition StatusGatewayFailed : SagaStatus := "GATEWAY_FAILED".
Definition StatusCompensating : SagaStatus := "COMPENSATING".
Definition StatusCompleted : SagaStatus := "COMPLETED".
Definition StatusCompensated : SagaStatus := "COMPENSATED".
Definition StatusFailed : SagaStatus := "FAILED".
Definition StatusNeedsManualReview : SagaStatus := "NEEDS_MANUAL_REVIEW".

Definition SagaStatus_Terminal (s : SagaStatus) : bool :=
  bool_decide (s ∈ [StatusCompleted; StatusCompensated; StatusFailed; StatusNeedsManualReview]).

Definition SagaStatus_Compensating (s : SagaStatus) : bool :=
  bool_decide (s = StatusCompensating).

(** ** Steps, directions and attempt outcomes *)

Abbreviation Step := string (only parsing).
Definition StepReserve : Step := "RESERVE".
Definition StepGateway : Step := "GATEWAY".
Definition StepSettle : Step := "SETTLE".
Definition StepDone : Step := "DONE".

Abbreviation SagaDirection := string (only parsing).
Definition DirectionForward : SagaDirection := "FORWARD".
Definition DirectionCompensation : SagaDirection := "COMPENSATION".

Abbreviation StepStatus := string (only parsing).
Definition StepAttempted : StepStatus := "ATTEMPTED".
Definition StepSucceeded : StepStatus := "SUCCEEDED".
Definition StepFailed : StepStatus := "FAILED".

Definition EventTypeSagaStepCompleted := "SagaStepCompleted".
Definition EventTypeSagaNeedsManualReview := "SagaNeedsManualReview".
Definition saga_EventVersion : Z := 1.

(** ** The payout payload *)

Record Payload := mkPayload {
  CustomerWalletID : UUID;
  SuspenseID : UUID;
  MerchantPayableID : UUID;
  FeeRevenueID : UUID;
  Payload_AmountMinor : Z;
  FeeMinor : Z;
  Payload_Currency : string;
  Payload_ExternalRef : string }.

(** ** Instances, transitions and attempts *)

(** [saga_instances.payload] holds the JSON encoding of a [Payload]; [None]
    stands for a document that does not decode into one. *)
Record Instance_ := mkInstance {
  Inst_ID : UUID;
  Inst_SagaType : string;
  Inst_PrincipalID : string;
  Inst_CurrentStep : Step;
  Inst_Status : SagaStatus;
  Inst_Payload : option Payload;
  Inst_RetryCount : Z;
  Inst_LastError : string;
  Inst_IdempotencyKey : option string;
  Inst_LeaseOwner : option string;
  Inst_LeaseExpiresAt : option Time;
  Inst_StepDeadlineAt : Time;
  Inst_CreatedAt : Time;
  Inst_UpdatedAt : Time }.

Record Transition := mkTransition {
  Tr_SagaID : UUID;
  Tr_From : SagaStatus;
  Tr_To : SagaStatus;
  Tr_CurrentStep : Step;
  Tr_StepTimeout : Z;
  Tr_RetryCount : Z;
  Tr_LastError : string;
  Tr_ReleaseLease : bool }.

Record Attempt := mkAttempt {
  At_ID : UUID;
  At_SagaID : UUID;
  At_Step : Step;
  At_Number : Z;
  At_Direction : SagaDirection;
  At_Status : StepStatus;
  At_TransactionID : option UUID;
  At_GatewayKey : string;
  At_Error : string;
  At_StartedAt : Time;
  At_FinishedAt : option Time }.

Record StartAttempt := mkStartAttempt {
  Sa_ID : UUID;
  Sa_SagaID : UUID;
  Sa_Step : Step;
  Sa_Number : Z;
  Sa_Direction : SagaDirection;
  Sa_GatewayKey : string }.

Record FinishAttempt := mkFinishAttempt {
  Fa_ID : UUID;
  Fa_Status : StepStatus;
  Fa_TransactionID : option UUID;
  Fa_Error : string }.

Record StepCompletedEvent := mkStepCompletedEvent {
  Sce_SagaID : UUID;
  Sce_SagaType : string;
  Sce_Step : Step;
  Sce_Direction : SagaDirection;
  Sce_Attempt : Z;
  Sce_Status : SagaStatus;
  Sce_TransactionID : option UUID }.

Record ManualReviewEvent := mkManualReviewEvent {
  Mre_SagaID : UUID;
  Mre_SagaType : string;
  Mre_Step : Step;
  Mre_Reason : string;
  Mre_LastError : string;
  Mre_Attempts : Z }.

Record StepCommit := mkStepCommit {
  Sc_Attempt : Attempt;
  Sc_Transition : Transition }.
