(* ===== verification/Events.v ===== *)
(** * Event payloads and the outbox envelope

    The payload structs the write paths marshal (internal/ledger/service.go,
    internal/saga/instance.go) and [outbox.Event] and [outbox.Envelope]
    (internal/outbox/writer.go).  A [json.RawMessage] holding the encoding of
    a struct is kept as that struct. *)

From S2P Require Import Prelude Errors Json Money Types SagaTypes.
Open Scope string_scope.
Open Scope Z_scope.

Definition EventTypeTransactionPosted := "TransactionPosted".
Definition EventTypeTransactionReversed := "TransactionReversed".
Definition EventTypeAccountCreated := "AccountCreated".
Definition EventTypeBalanceUpdated := "BalanceUpdated".

(** [eventVersion] of internal/ledger/service.go. *)
Definition eventVersion : Z := 1.

Record eventEntry := mk_eventEntry {
  ee_EntryID : UUID;
  ee_AccountID : UUID;
  ee_Direction : Direction;
  ee_Amount : Money;
  ee_EntrySeq : Z }.

Record eventBalance := mk_eventBalance {
  eb_AccountID : UUID;
  eb_Available : Money;
  eb_Version : Z }.

Record transactionEvent := mk_transactionEvent {
  te_TransactionID : UUID;
  te_Type : TransactionType;
  te_Status : TransactionStatus;
  te_Currency : string;
  te_CreatedAt : Time;
  te_PostedAt : option Time;
  te_Reverses : option UUID;
  te_Reason : string;
  te_Entries : list eventEntry;
  te_Balances : list eventBalance }.

Record balanceUpdatedEvent := mk_balanceUpdatedEvent {
  bu_AccountID : UUID;
  bu_TransactionID : UUID;
  bu_Available : Money;
  bu_Version : Z }.

Record accountCreatedEvent := mk_accountCreatedEvent {
  ac_AccountID : UUID;
  ac_ExternalRef : string;
  ac_Type : AccountType;
  ac_NormalBalance : Direction;
  ac_Currency : string;
  ac_OwnerID : option string;
  ac_AllowNegative : bool }.

Inductive EventPayload :=
| PTransaction (e : transactionEvent)
| PBalanceUpdated (e : balanceUpdatedEvent)
| PAccountCreated (e : accountCreatedEvent)
| PStepCompleted (e : StepCompletedEvent)
| PManualReview (e : ManualReviewEvent).

(** [json.Marshal] of a payload fails exactly when [Money.MarshalJSON] fails on
    one of the amounts in it. *)
Definition payload_amounts (p : EventPayload) : list Money :=
  match p with
  | PTransaction e => (ee_Amount <$> te_Entries e) ++ (eb_Available <$> te_Balances e)
  | PBalanceUpdated e => [bu_Available e]
  | _ => []
  end.

Definition json_Marshal (p : EventPayload) : res EventPayload :=
  if forallb (λ m, currencyPattern (currency m)) (payload_amounts p)
  then Ok p else Err ErrInvalidCurrency.

(** ** outbox.Event and outbox.Envelope *)

Definition AggregateTransaction := "transaction".
Definition AggregateAccount := "account".
Definition AggregateSaga := "saga".

Record Event := mkEvent {
  Ev_AggregateType : string;
  Ev_AggregateID : string;
  Ev_EventType : string;
  Ev_EventVersion : Z;
  Ev_OccurredAt : Time;
  Ev_Payload : EventPayload }.

Record Envelope := mkEnvelope {
  Env_EventID : UUID;
  Env_EventType : string;
  Env_EventVersion : Z;
  Env_AggregateID : string;
  Env_OccurredAt : Time;
  Env_TraceID : string;
  Env_Payload : EventPayload }.
