(* ===== verification/Schema.v ===== *)
(** * The database schema (migrations/*.up.sql) and the world the code runs in

    Every table the Go code writes, with its columns; the constraints are in
    the statements that can violate them.  A table keyed by its primary key is
    a [gmap]; [journal_entries], [outbox] and [saga_steps], which are only
    appended to, are lists in insertion order. *)

From S2P Require Import Prelude Errors Json Money Types SagaTypes Events.
Open Scope string_scope.
Open Scope Z_scope.

(** ** Rows *)

(** accounts: migrations 000002 and 000012. *)
Record account_row := mk_account_row {
  a_external_ref : string;
  a_account_type : AccountType;
  a_normal_balance : Direction;
  a_currency : string;
  a_owner_id : option string;
  a_allow_negative : bool;
  a_status : AccountStatus;
  a_version : Z;
  a_created_at : Time;
  a_updated_at : Time;
  a_parent_account_id : option UUID;
  a_shard_index : option Z;
  a_shard_count : Z }.

(** account_balances: migration 000006. *)
Record balance_row := mk_balance_row {
  b_available_minor : Z;
  b_pending_minor : Z;
  b_allow_negative : bool;
  b_last_entry_id : option UUID;
  b_version : Z;
  b_updated_at : Time }.

(** transactions: migrations 000003 and 000016. *)
Record transaction_row := mk_transaction_row {
  t_idempotency_key : option string;
  t_principal_id : string;
  t_transaction_type : TransactionType;
  t_status : TransactionStatus;
  t_external_ref : option string;
  t_metadata : list (string * json);
  t_created_at : Time;
  t_posted_at : option Time }.

(** journal_entries: migration 000004. *)
Record entry_row := mk_entry_row {
  je_id : UUID;
  je_transaction_id : UUID;
  je_account_id : UUID;
  je_direction : Direction;
  je_amount_minor : Z;
  je_currency : string;
  je_entry_seq : Z;
  je_created_at : Time }.

(** idempotency_keys: migrations 000007, 000010, 000011 and 000016; the primary
    key is the pair of principal and key. *)
Record idempotency_row := mk_idempotency_row {
  ik_fingerprint : string;
  ik_status : string;
  ik_response_status : option Z;
  ik_response_body : option string;
  ik_transaction_id : option UUID;
  ik_request_method : option string;
  ik_request_route : option string;
  ik_created_at : Time;
  ik_expires_at : Time;
  ik_lease_expires_at : Time }.

(** outbox: migrations 000008 and 000013 (the tracing columns are left out). *)
Record outbox_row := mk_outbox_row {
  o_id : Z;
  o_aggregate_type : string;
  o_aggregate_id : string;
  o_event_type : string;
  o_event_id : UUID;
  o_event_version : Z;
  o_payload : Envelope;
  o_created_at : Time;
  o_published_at : option Time }.

(** saga_instances and saga_steps: migrations 000015 and 000016. *)
Record saga_row := mk_saga_row {
  sg_saga_type : string;
  sg_principal_id : string;
  sg_current_step : Step;
  sg_status : SagaStatus;
  sg_payload : option Payload;
  sg_retry_count : Z;
  sg_last_error : option string;
  sg_idempotency_key : option string;
  sg_lease_owner : option string;
  sg_lease_expires_at : option Time;
  sg_step_deadline_at : Time;
  sg_created_at : Time;
  sg_updated_at : Time }.

Record step_row := mk_step_row {
  ss_id : UUID;
  ss_saga_id : UUID;
  ss_step : Step;
  ss_attempt : Z;
  ss_direction : SagaDirection;
  ss_status : StepStatus;
  ss_transaction_id : option UUID;
  ss_gateway_key : option string;
  ss_error : option string;
  ss_started_at : Time;
  ss_finished_at : option Time }.

(** balance_projections and processed_events: migration 000014. *)
Record projection_row := mk_projection_row {
  bp_available_minor : Z;
  bp_currency : string;
  bp_version : Z;
  bp_last_event_id : UUID }.

(** reconciliation_runs and reconciliation_exceptions: migration 000017. *)
Record run_row := mk_run_row {
  rr_source : string;
  rr_started_at : Time;
  rr_finished_at : option Time;
  rr_status : string;
  rr_psp_row_count : Z;
  rr_matched_count : Z;
  rr_auto_resolved_count : Z;
  rr_exception_count : Z;
  rr_error : option string }.

Record exception_row := mk_exception_row {
  re_id : UUID;
  re_run_id : UUID;
  re_external_ref : string;
  re_category : string;
  re_status : string;
  re_ledger_transaction_id : option UUID;
  re_saga_id : option UUID;
  re_ledger_amount_minor : option Z;
  re_psp_amount_minor : option Z;
  re_currency : option string;
  re_ledger_status : option string;
  re_psp_status : option string;
  re_details : list (string * json);
  re_created_at : Time;
  re_resolved_at : option Time }.

Record DB := mkDB {
  accounts : gmap UUID account_row;
  account_balances : gmap UUID balance_row;
  transactions : gmap UUID transaction_row;
  journal_entries : list entry_row;
  idempotency_keys : gmap (string * string) idempotency_row;
  outbox : list outbox_row;
  saga_instances : gmap UUID saga_row;
  saga_steps : list step_row;
  balance_projections : gmap UUID projection_row;
  processed_events : gmap UUID string;
  reconciliation_runs : gmap UUID run_row;
  reconciliation_exceptions : list exception_row }.

Definition empty_DB : DB := mkDB ∅ ∅ ∅ [] ∅ [] ∅ [] ∅ ∅ ∅ [].

Definition set_accounts x d := mkDB x (account_balances d) (transactions d) (journal_entries d)
  (idempotency_keys d) (outbox d) (saga_instances d) (saga_steps d) (balance_projections d) (processed_events d)
  (reconciliation_runs d) (reconciliation_exceptions d).
Definition set_account_balances x d := mkDB (accounts d) x (transactions d) (journal_entries d)
  (idempotency_keys d) (outbox d) (saga_instances d) (saga_steps d) (balance_projections d) (processed_events d)
  (reconciliation_runs d) (reconciliation_exceptions d).
Definition set_transactions x d := mkDB (accounts d) (account_balances d) x (journal_entries d)
  (idempotency_keys d) (outbox d) (saga_instances d) (saga_steps d) (balance_projections d) (processed_events d)
  (reconciliation_runs d) (reconciliation_exceptions d).
Definition set_journal_entries x d := mkDB (accounts d) (account_balances d) (transactions d) x
  (idempotency_keys d) (outbox d) (saga_instances d) (saga_steps d) (balance_projections d) (processed_events d)
  (reconciliation_runs d) (reconciliation_exceptions d).
Definition set_idempotency_keys x d := mkDB (accounts d) (account_balances d) (transactions d) (journal_entries d)
  x (outbox d) (saga_instances d) (saga_steps d) (balance_projections d) (processed_events d)
  (reconciliation_runs d) (reconciliation_exceptions d).
Definition set_outbox x d := mkDB (accounts d) (account_balances d) (transactions d) (journal_entries d)
  (idempotency_keys d) x (saga_instances d) (saga_steps d) (balance_projections d) (processed_events d)
  (reconciliation_runs d) (reconciliation_exceptions d).
Definition set_saga_instances x d := mkDB (accounts d) (account_balances d) (transactions d) (journal_entries d)
  (idempotency_keys d) (outbox d) x (saga_steps d) (balance_projections d) (processed_events d)
  (reconciliation_runs d) (reconciliation_exceptions d).
Definition set_saga_steps x d := mkDB (accounts d) (account_balances d) (transactions d) (journal_entries d)
  (idempotency_keys d) (outbox d) (saga_instances d) x (balance_projections d) (processed_events d)
  (reconciliation_runs d) (reconciliation_exceptions d).
Definition set_balance_projections x d := mkDB (accounts d) (account_balances d) (transactions d) (journal_entries d)
  (idempotency_keys d) (outbox d) (saga_instances d) (saga_steps d) x (processed_events d)
  (reconciliation_runs d) (reconciliation_exceptions d).
Definition set_processed_events x d := mkDB (accounts d) (account_balances d) (transactions d) (journal_entries d)
  (idempotency_keys d) (outbox d) (saga_instances d) (saga_steps d) (balance_projections d) x
  (reconciliation_runs d) (reconciliation_exceptions d).
Definition set_reconciliation_runs x d := mkDB (accounts d) (account_balances d) (transactions d) (journal_entries d)
  (idempotency_keys d) (outbox d) (saga_instances d) (saga_steps d) (balance_projections d) (processed_events d)
  x (reconciliation_exceptions d).
Definition set_reconciliation_exceptions x d := mkDB (accounts d) (account_balances d) (transactions d) (journal_entries d)
  (idempotency_keys d) (outbox d) (saga_instances d) (saga_steps d) (balance_projections d) (processed_events d)
  (reconciliation_runs d) x.

(** The microsecond a timestamptz column or parameter holds. *)
Definition timestamptz (t : Time) : Time := t / 1000 * 1000.

(** ** The world

    The committed (or, inside a transaction, the current) database together
    with everything the code asks of its environment: the values the next
    calls of [uuid.NewV7] return (none left: the call fails), the next random
    draws, PostgreSQL's [now()] and how far it moves before each of the next
    transactions, the process clock, the outbox sequence (which a rollback does
    not rewind), what the server answers to the next statements ([Some e]: the
    statement fails with [e] instead of running, as a deadlock victim, a lost
    connection or an expired deadline does), what happens to the next COMMITs,
    and what the next checks of the request context find. *)

Inductive commit_outcome :=
| CommitDone
| CommitAborted (e : error)   (** the server rolled back and said so *)
| CommitLost (e : error).     (** the server committed; the answer never arrived *)

(** What a statement of a transaction waits for and then holds until the end of the
    transaction: a row it locks or updates, an advisory lock on an account, or the entry
    of a unique index it is about to insert. *)
Inductive lock :=
| TransactionRow (id : UUID)
| AdvisoryLock (id : UUID)
| AccountRow (id : UUID)
| BalanceRow (id : UUID)
| TransactionKey (principal key : string)
| StepKey (saga : UUID) (step direction : string) (attempt : Z)
| SagaRow (id : UUID)
| KeyRow (principal key : string).

#[export] Instance lock_eq_dec : EqDecision lock.
Proof. solve_decision. Defined.

(** [w_locks] is a history of the locks asked for so far; no code reads it. *)
Record World := mkWorld {
  w_db : DB;
  w_ids : list UUID;
  w_rand : list N;
  w_now : Time;
  w_ticks : list N;
  w_clock : Time;
  w_seq : Z;
  w_faults : list (option error);
  w_commits : list commit_outcome;
  w_ctx : list (option error);
  w_locks : list lock }.

Definition set_db x w := mkWorld x (w_ids w) (w_rand w) (w_now w) (w_ticks w) (w_clock w) (w_seq w) (w_faults w) (w_commits w) (w_ctx w) (w_locks w).
Definition set_ids x w := mkWorld (w_db w) x (w_rand w) (w_now w) (w_ticks w) (w_clock w) (w_seq w) (w_faults w) (w_commits w) (w_ctx w) (w_locks w).
Definition set_rand x w := mkWorld (w_db w) (w_ids w) x (w_now w) (w_ticks w) (w_clock w) (w_seq w) (w_faults w) (w_commits w) (w_ctx w) (w_locks w).
Definition set_now x r w := mkWorld (w_db w) (w_ids w) (w_rand w) x r (w_clock w) (w_seq w) (w_faults w) (w_commits w) (w_ctx w) (w_locks w).
Definition set_seq x w := mkWorld (w_db w) (w_ids w) (w_rand w) (w_now w) (w_ticks w) (w_clock w) x (w_faults w) (w_commits w) (w_ctx w) (w_locks w).
Definition set_faults x w := mkWorld (w_db w) (w_ids w) (w_rand w) (w_now w) (w_ticks w) (w_clock w) (w_seq w) x (w_commits w) (w_ctx w) (w_locks w).
Definition set_commits x w := mkWorld (w_db w) (w_ids w) (w_rand w) (w_now w) (w_ticks w) (w_clock w) (w_seq w) (w_faults w) x (w_ctx w) (w_locks w).
Definition set_ctx x w := mkWorld (w_db w) (w_ids w) (w_rand w) (w_now w) (w_ticks w) (w_clock w) (w_seq w) (w_faults w) (w_commits w) x (w_locks w).
Definition set_locks x w := mkWorld (w_db w) (w_ids w) (w_rand w) (w_now w) (w_ticks w) (w_clock w) (w_seq w) (w_faults w) (w_commits w) (w_ctx w) x.

(** ** The monad of effectful Go code

    A call may fail at any point and leaves the world as it is then; undoing
    the database part is what a transaction's rollback does. *)

Definition M (A : Type) : Type := World → res A * World.

#[export] Instance M_ret : MRet M := λ A a w, (Ok a, w).
#[export] Instance M_bind : MBind M := λ A B f m w,
  match m w with
  | (Ok a, w') => f a w'
  | (Err e, w') => (Err e, w')
  end.

Definition fail {A} (e : error) : M A := λ w, (Err e, w).
Definition lift {A} (r : res A) : M A := λ w, (r, w).
Definition gets {A} (f : DB → A) : M A := λ w, (Ok (f (w_db w)), w).
Definition modify (f : DB → DB) : M unit := λ w, (Ok tt, set_db (f (w_db w)) w).
Definition sql_now : M Time := λ w, (Ok (w_now w), w).
Definition clock_Now : M Time := λ w, (Ok (w_clock w), w).

(** Translating the error of a call ([return mapError(err)]). *)
Definition map_err {A} (f : error → error) (m : M A) : M A := λ w,
  match m w with
  | (Err e, w') => (Err (f e), w')
  | ok => ok
  end.

(** [guard b e]: return [e] unless [b] holds. *)
Definition guard_M (b : bool) (e : error) : M unit := if b then mret tt else fail e.

(** The next identifier; a version-7 UUID is never the nil one. *)
Definition uuid_NewV7 : M UUID := λ w,
  match w_ids w with
  | u :: rest => if (u =? uuid_Nil)%N then (Err (ErrOther "uuid: no entropy"), w) else (Ok u, set_ids rest w)
  | [] => (Err (ErrOther "uuid: no entropy"), w)
  end.

(** [rand.IntN(n)] and [rand.Int64N(n)]: some value below [n]. *)
Definition rand_IntN (n : N) : M N := λ w,
  match w_rand w with
  | r :: rest => (Ok (r `mod` n)%N, set_rand rest w)
  | [] => (Ok 0%N, w)
  end.

(** [ctx.Err()] at the next point the code checks it. *)
Definition ctx_Err : M (option error) := λ w,
  match w_ctx w with
  | x :: rest => (Ok x, set_ctx rest w)
  | [] => (Ok None, w)
  end.

(** Sending one statement: it may fail before having any effect. *)
Definition sql_exec : M unit := λ w,
  match w_faults w with
  | Some e :: rest => (Err e, set_faults rest w)
  | None :: rest => (Ok tt, set_faults rest w)
  | [] => (Ok tt, w)
  end.

(** The start of a transaction, explicit or of a single statement: [now()] is
    fixed here, and never moves back. *)
Definition tx_start : M unit := λ w,
  match w_ticks w with
  | d :: rest => (Ok tt, set_now (w_now w + Z.of_N d) rest w)
  | [] => (Ok tt, w)
  end.

(** [nextval] of the outbox sequence, which is never behind the rows it numbered. *)
Definition last_id (l : list outbox_row) : Z := foldr (λ o, Z.max (o_id o)) 0 l.
Definition next_id (w : World) : Z := Z.max (w_seq w) (last_id (outbox (w_db w))) + 1.
Definition outbox_nextval : M Z := λ w, (Ok (next_id w), set_seq (next_id w) w).

(** What the server answers to the next COMMIT. *)
Definition next_commit : M commit_outcome := λ w,
  match w_commits w with
  | x :: rest => (Ok x, set_commits rest w)
  | [] => (Ok CommitDone, w)
  end.

(** Taking locks; they are never refused, the wait is not modelled here. *)
Definition take_locks (ls : list lock) : M unit := λ w, (Ok tt, set_locks (w_locks w ++ ls)%list w).

(** A statement outside a transaction, or a pipelined batch of them, is a
    transaction of its own: an error undoes it, and its commit may be refused or
    its answer lost. *)
Definition autocommit {A} (body : M A) : M A := λ w,
  match (_ ← tx_start; body) w with
  | (Err e, w') => (Err e, set_db (w_db w) w')
  | (Ok a, w') =>
      match next_commit w' with
      | (Ok CommitDone, w'') => (Ok a, w'')
      | (Ok (CommitAborted e), w'') => (Err e, set_db (w_db w) w'')
      | (Ok (CommitLost e), w'') => (Err e, w'')
      | (Err e, w'') => (Err e, w'')
      end
  end.

(** [for _, x := range l], stopping at the first error. *)
Fixpoint foldlM {A B} (f : B → A → M B) (b : B) (l : list A) : M B :=
  match l with
  | [] => mret b
  | x :: l => b' ← f b x; foldlM f b' l
  end.

Fixpoint mapM_ {A B} (f : A → M B) (l : list A) : M (list B) :=
  match l with
  | [] => mret []
  | x :: l => y ← f x; ys ← mapM_ f l; mret (y :: ys)
  end.

(** No two rows of the outbox share an id or an event id. *)
Definition distinct_rows (l : list outbox_row) : Prop := NoDup (o_event_id <$> l) ∧ NoDup (o_id <$> l).

Lemma last_id_ge l o : o ∈ l → o_id o ≤ last_id l.
Proof. induction l as [|x l IH]; [by intros ?%not_elem_of_nil|]. intros [->|Ho]%elem_of_cons; simpl; [lia|]. apply IH in Ho. lia. Qed.

Lemma next_id_fresh w : next_id w ∉ o_id <$> outbox (w_db w).
Proof. intros (o & Heq & Ho%last_id_ge)%list_elem_of_fmap. unfold next_id in Heq. lia. Qed.

(** ** Inverting a successful run *)

Lemma M_bind_ok {A B} (m : M A) (f : A → M B) b w w' :
  (m ≫= f) w = (Ok b, w') ↔ ∃ a w1, m w = (Ok a, w1) ∧ f a w1 = (Ok b, w').
Proof.
  unfold mbind, M_bind. destruct (m w) as [[a|e] w1]; split.
  - eauto.
  - by intros (?&?&[= -> ->]&?).
  - done.
  - by intros (?&?&?&?).
Qed.

Lemma gets_ok {A} (f : DB → A) a w w' : gets f w = (Ok a, w') ↔ a = f (w_db w) ∧ w' = w.
Proof. unfold gets. split; [by intros [= <- <-] | by intros [-> ->]]. Qed.
Lemma ret_ok {A} (x a : A) w w' : (mret x : M A) w = (Ok a, w') ↔ a = x ∧ w' = w.
Proof. unfold mret, M_ret. split; [by intros [= <- <-] | by intros [-> ->]]. Qed.
Lemma modify_ok f u w w' : modify f w = (Ok u, w') ↔ w' = set_db (f (w_db w)) w.
Proof. unfold modify. destruct u. split; [by intros [= <-] | by intros ->]. Qed.
Lemma lift_ok {A} (r : res A) a w w' : lift r w = (Ok a, w') ↔ r = Ok a ∧ w' = w.
Proof. unfold lift. split; [by intros [= -> <-] | by intros [-> ->]]. Qed.
Lemma fail_ok {A} e (a : A) w w' : fail e w = (Ok a, w') ↔ False.
Proof. unfold fail. by split. Qed.
Lemma guard_M_ok b e u w w' : guard_M b e w = (Ok u, w') ↔ b = true ∧ w' = w.
Proof.
  unfold guard_M. destruct b; [rewrite ret_ok; destruct u; naive_solver|].
  rewrite fail_ok. naive_solver.
Qed.
Lemma sql_now_ok t w w' : sql_now w = (Ok t, w') ↔ t = w_now w ∧ w' = w.
Proof. unfold sql_now. split; [by intros [= <- <-] | by intros [-> ->]]. Qed.
Lemma uuid_NewV7_ok u w w' : uuid_NewV7 w = (Ok u, w') →
  ∃ rest, w_ids w = u :: rest ∧ w' = set_ids rest w.
Proof. unfold uuid_NewV7. case_match; [done|]. case_match; [done|]. intros [= <- <-]. eauto. Qed.
Lemma uuid_NewV7_nonnil u w w' : uuid_NewV7 w = (Ok u, w') → u ≠ uuid_Nil.
Proof. unfold uuid_NewV7. case_match; [done|]. case_match eqn:Hz; [done|]. intros [= <- <-]. by apply N.eqb_neq. Qed.
Lemma sql_exec_ok u w w' : sql_exec w = (Ok u, w') → ∃ l, w' = set_faults l w.
Proof.
  unfold sql_exec. repeat case_match; intros [= <-]; eauto.
  exists []. destruct w; simpl in *; by subst.
Qed.
Lemma map_err_ok {A} f (m : M A) a w w' : map_err f m w = (Ok a, w') ↔ m w = (Ok a, w').
Proof. unfold map_err. by destruct (m w) as [[?|?] ?]. Qed.
Lemma rand_IntN_ok n r w w' : rand_IntN n w = (Ok r, w') →
  ∃ l, w' = set_rand l w ∧ (n ≠ 0 → r < n)%N.
Proof.
  unfold rand_IntN. case_match eqn:Hr; intros [= <- <-].
  - exists []. split; [destruct w; simpl in *; by subst | lia].
  - eexists. split; [done|]. intros. by apply N.mod_lt.
Qed.
Lemma outbox_nextval_ok n w w' : outbox_nextval w = (Ok n, w') →
  n = next_id w ∧ w' = set_seq (next_id w) w.
Proof. by intros [= <- <-]. Qed.

Lemma take_locks_ok ls u w w' : take_locks ls w = (Ok u, w') → w' = set_locks (w_locks w ++ ls)%list w.
Proof. by intros [= _ <-]. Qed.

Lemma tx_start_ok u w w' : tx_start w = (Ok u, w') → w_db w' = w_db w.
Proof. unfold tx_start. case_match; intros Hrun; by injection Hrun as <- <-. Qed.
Lemma tx_start_db w : w_db (tx_start w).2 = w_db w.
Proof. unfold tx_start. by destruct (w_ticks w). Qed.

(** A statement that answered has committed what its body did. *)
Lemma autocommit_ok {A} (m : M A) w a w' : autocommit m w = (Ok a, w') →
  ∃ w0 w1, w_db w0 = w_db w ∧ w_clock w0 = w_clock w ∧ m w0 = (Ok a, w1) ∧ w_db w' = w_db w1 ∧
    w_clock w' = w_clock w1 ∧ w_now w' = w_now w1.
Proof.
  unfold autocommit, mbind, M_bind. intros Hrun. destruct (tx_start w) as [[u|e] w0] eqn:Hs; [|done].
  destruct (m w0) as [[a'|e] w1] eqn:Hm; [|done]. exists w0, w1.
  unfold tx_start in Hs. unfold next_commit in Hrun.
  destruct (w_ticks w); injection Hs as _ <-; destruct (w_commits w1) as [|[]]; by simplify_eq.
Qed.

(** One that failed may have committed it all the same, or not. *)
Lemma autocommit_err {A} (m : M A) w e w' : autocommit m w = (Err e, w') →
  w_db w' = w_db w ∨ ∃ a w0 w1, w_db w0 = w_db w ∧ m w0 = (Ok a, w1) ∧ w_db w' = w_db w1 ∧ w_now w' = w_now w1.
Proof.
  unfold autocommit, mbind, M_bind. intros Hrun. pose proof (tx_start_db w) as Hs.
  destruct (tx_start w) as [[u|e'] w0]; simpl in *; [|left; by simplify_eq].
  destruct (m w0) as [[a'|e'] w1] eqn:Hm; [|left; by simplify_eq].
  unfold next_commit in Hrun. destruct (w_commits w1) as [|[|e'|e'] l]; simplify_eq/=; [by left|].
  right. by exists a', w0, w1.
Qed.

(** Whatever it answers: nothing happened, or the whole body. *)
Lemma autocommit_cases {A} (m : M A) w : w_db (autocommit m w).2 = w_db w ∨
  ∃ a w0 w1, w_db w0 = w_db w ∧ m w0 = (Ok a, w1) ∧ w_db (autocommit m w).2 = w_db w1.
Proof.
  destruct (autocommit m w) as [[a|e] w'] eqn:Hrun; simpl.
  - apply autocommit_ok in Hrun as (w0 & w1 & H0 & _ & Hm & Hd & _). right. by exists a, w0, w1.
  - apply autocommit_err in Hrun as [?|(a & w0 & w1 & H0 & Hm & Hd & _)]; [by left|]. right. by exists a, w0, w1.
Qed.

(** The start of a transaction only moves the clock of the server. *)
Lemma tx_start_moves w : ∃ t rest, w_now w ≤ t ∧ tx_start w = (Ok tt, set_now t rest w).
Proof.
  unfold tx_start. destruct (w_ticks w) as [|n rest] eqn:Ht.
  - exists (w_now w), []. split; [done|]. destruct w. simpl in *. by subst.
  - exists (w_now w + Z.of_N n), rest. split; [lia|done].
Qed.

(** With a server that answers. *)
Lemma autocommit_quiet {A} (m : M A) w : ∃ t rest, w_now w ≤ t ∧
  ∀ a w1, m (set_now t rest w) = (Ok a, w1) → w_commits w1 = [] → autocommit m w = (Ok a, w1).
Proof.
  destruct (tx_start_moves w) as (t & rest & Ht & Hs). exists t, rest. split; [done|]. intros a w1 Hm Hc.
  unfold autocommit, mbind, M_bind. rewrite Hs, Hm. unfold next_commit. by rewrite Hc.
Qed.

(** A database that answers: no statement fails and no answer to COMMIT is lost. *)
Definition answering (w : World) : Prop := w_faults w = [] ∧ w_commits w = [].

Lemma answering_now t rest w : answering w → answering (set_now t rest w).
Proof. done. Qed.

Create Rewrite HintDb mrun.
#[export] Hint Rewrite @gets_ok @ret_ok modify_ok @lift_ok @fail_ok guard_M_ok sql_now_ok : mrun.

(** Take a successful run apart, one bind at a time. *)
Ltac mrun_step :=
  match goal with
  | H : mbind _ _ _ = (Ok _, _) |- _ =>
      apply M_bind_ok in H as (? & ? & ? & H)
  | H : (Ok _, _) = (Ok _, _) |- _ => injection H; clear H; intros; subst
  | H : gets _ _ = (Ok _, _) |- _ => apply gets_ok in H as [? ?]; subst
  | H : mret _ _ = (Ok _, _) |- _ => apply ret_ok in H as [? ?]; subst
  | H : modify _ _ = (Ok _, _) |- _ => apply modify_ok in H; subst
  | H : lift _ _ = (Ok _, _) |- _ => apply lift_ok in H as [? ?]; subst
  | H : fail _ _ = (Ok _, _) |- _ => by apply fail_ok in H
  | H : guard_M _ _ _ = (Ok _, _) |- _ => apply guard_M_ok in H as [? ?]; subst
  | H : sql_now _ = (Ok _, _) |- _ => apply sql_now_ok in H as [? ?]; subst
  | H : sql_exec _ = (Ok _, _) |- _ => apply sql_exec_ok in H as [? ?]; subst
  | H : uuid_NewV7 _ = (Ok _, _) |- _ => apply uuid_NewV7_ok in H as (? & ? & ?); subst
  | H : map_err _ _ _ = (Ok _, _) |- _ => apply map_err_ok in H
  | H : outbox_nextval _ = (Ok _, _) |- _ => apply outbox_nextval_ok in H as [? ?]; subst
  | H : take_locks _ _ = (Ok _, _) |- _ => apply take_locks_ok in H; subst
  end.
Ltac mrun := repeat mrun_step.
