(* ===== verification/Outbox.v ===== *)
(** * The transactional outbox (internal/outbox/writer.go)

    [outbox.Append] writes one event inside the caller's transaction.  The
    request context carries no span here, so the trace id is empty. *)

From S2P Require Import Prelude Errors Types SagaTypes Events Schema.
Open Scope string_scope.
Open Scope Z_scope.

(** The row [Append] inserts for an event. *)
Definition outbox_row_of (id : Z) (eventID : UUID) (now : Time) (e : Event) : outbox_row :=
  mk_outbox_row id (Ev_AggregateType e) (Ev_AggregateID e) (Ev_EventType e) eventID
    (Ev_EventVersion e)
    (mkEnvelope eventID (Ev_EventType e) (Ev_EventVersion e) (Ev_AggregateID e)
       (Ev_OccurredAt e) "" (Ev_Payload e))
    now None.

(** The payload is the encoding of a struct, never empty, so the length check
    of the source always passes. *)
Definition outbox_Append (e : Event) : M unit :=
  _ ← guard_M (negb (bool_decide (Ev_AggregateType e = "") || bool_decide (Ev_AggregateID e = "")
                     || bool_decide (Ev_EventType e = "")))
        (ErrOther "append outbox event: aggregate type, aggregate id and event type are required");
  _ ← guard_M (negb (Ev_EventVersion e <? 1))
        (ErrOther "append outbox event: event version must be at least 1");
  _ ← guard_M (negb (Time_IsZero (Ev_OccurredAt e))) ErrMissingOccurredAt;
  eventID ← uuid_NewV7;
  _ ← sql_exec;
  id ← outbox_nextval;
  now ← sql_now;
  taken ← gets (λ d, existsb (λ r, bool_decide (o_event_id r = eventID)) (outbox d));
  _ ← guard_M (negb taken) (PgError UniqueViolation "outbox_event_id_key" "duplicate key value");
  modify (λ d, set_outbox (outbox d ++ [outbox_row_of id eventID now e]) d).

(** What one successful [Append] does: one new row, with an event id no earlier
    row has, and nothing else in the database. *)
Lemma outbox_Append_ok e u w w' : outbox_Append e w = (Ok u, w') →
  ∃ id eventID,
    w_db w' = set_outbox (outbox (w_db w) ++ [outbox_row_of id eventID (w_now w) e]) (w_db w) ∧
    w_now w' = w_now w ∧
    id = next_id w ∧ id ∉ o_id <$> outbox (w_db w) ∧
    (eventID ∉ o_event_id <$> outbox (w_db w)) ∧
    Ev_AggregateType e ≠ "" ∧ Ev_AggregateID e ≠ "" ∧ Ev_EventType e ≠ "" ∧
    1 ≤ Ev_EventVersion e ∧ Ev_OccurredAt e ≠ time_zero.
Proof.
  unfold outbox_Append. intros H. mrun. bool_to_prop. simpl in *.
  unfold Time_IsZero in *. bool_to_prop.
  eexists _, _. split_and!; try done; [exact (next_id_fresh w)|].
  rewrite list_elem_of_fmap. intros (r & Hr & Hin).
  match goal with Ht : existsb _ _ = false |- _ =>
    apply not_true_iff_false in Ht; apply Ht end.
  apply existsb_exists. exists r. split; [by apply list_elem_of_In|].
  by rewrite bool_decide_eq_true_2.
Qed.
