(* ===== verification/PgIdem.v ===== *)
(** * The PostgreSQL idempotency store (internal/idempotency/pgidem/store.go)

    Every statement that touches [idempotency_keys].  Durations are in
    nanoseconds; the statements round them to the microsecond, which is exact
    for every duration the configuration can express. *)

From S2P Require Import Prelude Errors Types Schema.
Open Scope string_scope.
Open Scope Z_scope.

Definition IStatusInProgress := "IN_PROGRESS".
Definition IStatusCompleted := "COMPLETED".
Definition IStatusFailed := "FAILED".

(** ** The types of internal/idempotency/record.go *)

Record Reservation := mkReservation {
  Rv_PrincipalID : string;
  Rv_Key : string;
  Rv_Fingerprint : string;
  Rv_Method : string;
  Rv_Route : string;
  Rv_TTL : Z;
  Rv_Lease : Z }.

(** A nil body is [None]. *)
Record Completion := mkCompletion {
  Cp_PrincipalID : string;
  Cp_Key : string;
  Cp_ResponseStatus : Z;
  Cp_ResponseBody : option string;
  Cp_TransactionID : UUID }.

Record IRecord := mkIRecord {
  Rec_PrincipalID : string;
  Rec_Key : string;
  Rec_Fingerprint : string;
  Rec_Status : string;
  Rec_ResponseStatus : Z;
  Rec_ResponseBody : option string;
  Rec_TransactionID : option UUID;
  Rec_Method : string;
  Rec_Route : string;
  Rec_CreatedAt : Time;
  Rec_ExpiresAt : Time;
  Rec_LeaseExpiresAt : Time }.

(** ** The statements *)

Definition ik_set_lease t r := mk_idempotency_row (ik_fingerprint r) (ik_status r)
  (ik_response_status r) (ik_response_body r) (ik_transaction_id r) (ik_request_method r)
  (ik_request_route r) (ik_created_at r) (ik_expires_at r) t.

(** The columns a transition to a terminal status writes. *)
Definition ik_finish st code body tx r := mk_idempotency_row (ik_fingerprint r) st
  (Some code) body tx (ik_request_method r)
  (ik_request_route r) (ik_created_at r) (ik_expires_at r) (ik_lease_expires_at r).

Definition ik_check name := PgError CheckViolation name "violates check constraint".

(** [INSERT ... ON CONFLICT DO NOTHING]: the CHECK constraints come first. *)
Definition Store_Reserve (r : Reservation) : M bool := autocommit (
  _ ← sql_exec;
  now ← sql_now;
  _ ← guard_M (now <? now + Rv_TTL r) (ik_check "idempotency_keys_expiry_check");
  _ ← guard_M (bool_decide (String.length (Rv_Fingerprint r) = 32%nat))
        (ik_check "idempotency_keys_fingerprint_len_check");
  _ ← guard_M (now + Rv_Lease r <=? now + Rv_TTL r) (ik_check "idempotency_keys_lease_within_ttl_check");
  existing ← gets (λ d, idempotency_keys d !! (Rv_PrincipalID r, Rv_Key r));
  match existing with
  | Some _ => mret false
  | None =>
      _ ← modify (λ d, set_idempotency_keys
        (<[(Rv_PrincipalID r, Rv_Key r) :=
             mk_idempotency_row (Rv_Fingerprint r) IStatusInProgress None None None
               (Some (Rv_Method r)) (Some (Rv_Route r)) now (now + Rv_TTL r) (now + Rv_Lease r)]>
           (idempotency_keys d)) d);
      mret true
  end).

Definition FingerprintFromBytes (raw : string) : res string :=
  if bool_decide (String.length raw = 32%nat) then Ok raw else Err ErrCorruptRecord.

Definition Store_Lookup (principalID key : string) : M (option IRecord) :=
  _ ← tx_start; _ ← sql_exec;
  row ← gets (λ d, idempotency_keys d !! (principalID, key));
  match row with
  | None => mret None
  | Some r =>
      fp ← lift (FingerprintFromBytes (ik_fingerprint r));
      mret (Some (mkIRecord principalID key fp (ik_status r) (default 0 (ik_response_status r))
        (ik_response_body r) (ik_transaction_id r) (default "" (ik_request_method r))
        (default "" (ik_request_route r)) (ik_created_at r) (ik_expires_at r)
        (ik_lease_expires_at r)))
  end.

(** A guarded UPDATE of one row: the row is rewritten when the guard holds, and
    the answer says whether a row was affected. *)
Definition update_ik (k : string * string) (p : idempotency_row → bool)
    (f : idempotency_row → idempotency_row) : M bool :=
  row ← gets (λ d, idempotency_keys d !! k);
  match row with
  | Some r =>
      if p r then
        _ ← modify (λ d, set_idempotency_keys (<[k := f r]> (idempotency_keys d)) d);
        mret true
      else mret false
  | None => mret false
  end.

Definition ik_in_progress (r : idempotency_row) : bool := bool_decide (ik_status r = IStatusInProgress).

Definition Store_Reclaim (principalID key : string) (lease : Z) : M bool := autocommit (
  _ ← sql_exec;
  now ← sql_now;
  update_ik (principalID, key)
    (λ r, ik_in_progress r && (ik_lease_expires_at r <=? now))
    (λ r, ik_set_lease (Z.min (now + lease) (ik_expires_at r)) r)).

Definition Store_Fail (principalID key : string) (code : Z) (body : option string) : M unit :=
  hit ← autocommit (
    _ ← sql_exec;
    update_ik (principalID, key) ik_in_progress
      (λ r, ik_finish IStatusFailed code body (ik_transaction_id r) r));
  guard_M hit idempotency_ErrLeaseLost.

Definition Store_Release (principalID key : string) : M unit := autocommit (
  _ ← sql_exec;
  row ← gets (λ d, idempotency_keys d !! (principalID, key));
  match row with
  | Some r =>
      if ik_in_progress r
      then modify (λ d, set_idempotency_keys (delete (principalID, key) (idempotency_keys d)) d)
      else mret tt
  | None => mret tt
  end).

(** The subquery selects the oldest expired keys; the outer DELETE compares the
    [key] column only. *)
Definition expired_rows (now : Time) (m : gmap (string * string) idempotency_row)
    : list ((string * string) * idempotency_row) :=
  sort_by (λ a b, ik_expires_at a.2 <=? ik_expires_at b.2)
    (filter (λ kr, ik_expires_at kr.2 < now) (map_to_list m)).

Definition sweep_keys (now : Time) (batch : nat) (m : gmap (string * string) idempotency_row) : list string :=
  (λ kr, kr.1.2) <$> take batch (expired_rows now m).

Definition Store_Sweep (batch : nat) : M Z := autocommit (
  _ ← sql_exec;
  now ← sql_now;
  keys ← gets (λ d, sweep_keys now batch (idempotency_keys d));
  before ← gets idempotency_keys;
  let after := filter (λ kr, kr.1.2 ∉ keys) before in
  _ ← modify (set_idempotency_keys after);
  mret (Z.of_nat (size before) - Z.of_nat (size after))).

(** [Complete] runs inside the ledger's transaction. *)
Definition pgidem_Complete (c : Completion) : M unit :=
  _ ← sql_exec;
  row ← gets (λ d, idempotency_keys d !! (Cp_PrincipalID c, Cp_Key c));
  match row with
  | Some r =>
      if ik_in_progress r then
        _ ← take_locks [KeyRow (Cp_PrincipalID c) (Cp_Key c)];
        _ ← guard_M (bool_decide (is_Some (Cp_ResponseBody c)))
              (ik_check "idempotency_keys_completed_check");
        known ← gets (λ d, bool_decide (is_Some (transactions d !! Cp_TransactionID c)));
        _ ← guard_M known (PgError ForeignKeyViolation "idempotency_keys_transaction_id_fkey" "violates foreign key constraint");
        modify (λ d, set_idempotency_keys
          (<[(Cp_PrincipalID c, Cp_Key c) :=
               ik_finish IStatusCompleted (Cp_ResponseStatus c) (Cp_ResponseBody c)
                 (Some (Cp_TransactionID c)) r]> (idempotency_keys d)) d)
      else fail idempotency_ErrLeaseLost
  | None => fail idempotency_ErrLeaseLost
  end.

(** A successful [Complete] found the key in progress and made it COMPLETED with
    the transaction's id; nothing else changed. *)
Lemma pgidem_Complete_ok c u w w' : pgidem_Complete c w = (Ok u, w') →
  ∃ r, idempotency_keys (w_db w) !! (Cp_PrincipalID c, Cp_Key c) = Some r ∧
    ik_status r = IStatusInProgress ∧
    w_db w' = set_idempotency_keys
      (<[(Cp_PrincipalID c, Cp_Key c) :=
          ik_finish IStatusCompleted (Cp_ResponseStatus c) (Cp_ResponseBody c)
            (Some (Cp_TransactionID c)) r]> (idempotency_keys (w_db w))) (w_db w) ∧
    w_now w' = w_now w.
Proof.
  unfold pgidem_Complete. intros H. mrun. simpl in *.
  destruct (idempotency_keys (w_db w) !! _) as [r|] eqn:Hr; mrun.
  destruct (ik_in_progress r) eqn:Hp; mrun. unfold ik_in_progress in Hp. bool_to_prop.
  exists r. by simpl.
Qed.
