(* ===== verification/PgSaga.v ===== *)
(** * The PostgreSQL saga store (internal/saga/pgsaga/tx.go and store.go)

    Every statement that touches [saga_instances] and [saga_steps]. *)

From S2P Require Import Prelude Errors Types SagaTypes Events Schema Outbox.
Open Scope string_scope.
Open Scope Z_scope.

Definition terminalStatuses : list SagaStatus :=
  [StatusCompleted; StatusCompensated; StatusFailed; StatusNeedsManualReview].

Definition runnableStatuses : list SagaStatus :=
  [StatusPending; StatusReserved; StatusGatewaySucceeded; StatusGatewayFailed; StatusCompensating].

Definition saga_statuses : list SagaStatus :=
  [StatusPending; StatusReserved; StatusGatewayPending; StatusGatewaySucceeded; StatusGatewayFailed;
   StatusCompensating; StatusCompleted; StatusCompensated; StatusFailed; StatusNeedsManualReview].

Definition saga_check name := PgError CheckViolation name "violates check constraint".

(** [NULLIF(x, '')] *)
Definition nullif_empty (s : string) : option string := if bool_decide (s = "") then None else Some s.

(** ** Rows and instances *)

Definition instance_of (id : UUID) (r : saga_row) : Instance_ :=
  mkInstance id (sg_saga_type r) (sg_principal_id r) (sg_current_step r) (sg_status r)
    (sg_payload r) (sg_retry_count r) (default "" (sg_last_error r)) (sg_idempotency_key r)
    (sg_lease_owner r) (sg_lease_expires_at r) (sg_step_deadline_at r) (sg_created_at r)
    (sg_updated_at r).

Definition attempt_of (r : step_row) : Attempt :=
  mkAttempt (ss_id r) (ss_saga_id r) (ss_step r) (ss_attempt r) (ss_direction r) (ss_status r)
    (ss_transaction_id r) (default "" (ss_gateway_key r)) (default "" (ss_error r))
    (ss_started_at r) (ss_finished_at r).

(** ** The guarded transition *)

(** The columns [advance] writes; [updated_at] is the trigger's. *)
Definition advance_row (now : Time) (t : Transition) (r : saga_row) : saga_row :=
  mk_saga_row (sg_saga_type r) (sg_principal_id r) (Tr_CurrentStep t) (Tr_To t) (sg_payload r)
    (Tr_RetryCount t) (nullif_empty (Tr_LastError t)) (sg_idempotency_key r)
    (if Tr_ReleaseLease t then None else sg_lease_owner r)
    (if Tr_ReleaseLease t then None else sg_lease_expires_at r)
    (now + Tr_StepTimeout t) (sg_created_at r) now.

Definition check_saga_row (r : saga_row) : res unit :=
  _ ← guard_err (bool_decide (sg_current_step r ∈ [StepReserve; StepGateway; StepSettle; StepDone]))
        (saga_check "saga_instances_current_step_check");
  _ ← guard_err (bool_decide (is_Some (sg_lease_owner r) ↔ is_Some (sg_lease_expires_at r)))
        (saga_check "saga_instances_lease_check");
  _ ← guard_err (0 <=? sg_retry_count r) (saga_check "saga_instances_retry_count_check");
  guard_err (bool_decide (sg_status r ∈ saga_statuses)) (saga_check "saga_instances_status_check").

Definition advance (t : Transition) : M unit :=
  _ ← sql_exec;
  now ← sql_now;
  row ← gets (λ d, saga_instances d !! Tr_SagaID t);
  match row with
  | Some r =>
      if bool_decide (sg_status r = Tr_From t) then
        _ ← take_locks [SagaRow (Tr_SagaID t)];
        let r' := advance_row now t r in
        _ ← lift (check_saga_row r');
        modify (λ d, set_saga_instances (<[Tr_SagaID t := r']> (saga_instances d)) d)
      else fail ErrStaleTransition
  | None => fail ErrStaleTransition
  end.

Definition check_step_row (r : step_row) (d : DB) : res unit :=
  _ ← guard_err (1 <=? ss_attempt r) (saga_check "saga_steps_attempt_check");
  _ ← guard_err (bool_decide (ss_direction r ∈ [DirectionForward; DirectionCompensation]))
        (saga_check "saga_steps_direction_check");
  _ ← guard_err (bool_decide (ss_status r = StepAttempted ↔ ss_finished_at r = None))
        (saga_check "saga_steps_finished_at_check");
  _ ← guard_err (bool_decide (ss_status r ∈ [StepAttempted; StepSucceeded; StepFailed]))
        (saga_check "saga_steps_status_check");
  _ ← guard_err (bool_decide (ss_step r ∈ [StepReserve; StepGateway; StepSettle]))
        (saga_check "saga_steps_step_check");
  _ ← guard_err (negb (existsb (λ r', bool_decide (ss_id r' = ss_id r)) (saga_steps d)))
        (PgError UniqueViolation "saga_steps_pkey" "duplicate key value");
  _ ← guard_err (negb (existsb (λ r', bool_decide (ss_saga_id r' = ss_saga_id r) &&
                   bool_decide (ss_step r' = ss_step r) && bool_decide (ss_direction r' = ss_direction r) &&
                   (ss_attempt r' =? ss_attempt r)) (saga_steps d)))
        (PgError UniqueViolation "saga_steps_attempt_key" "duplicate key value");
  _ ← guard_err (bool_decide (is_Some (saga_instances d !! ss_saga_id r)))
        (PgError ForeignKeyViolation "saga_steps_saga_id_fkey" "violates foreign key constraint");
  guard_err (match ss_transaction_id r with
             | Some x => bool_decide (is_Some (transactions d !! x))
             | None => true
             end)
        (PgError ForeignKeyViolation "saga_steps_transaction_id_fkey" "violates foreign key constraint").

(** One INSERT into [saga_steps], with the constraints of migration 000015. *)
Definition insert_step (r : step_row) : M unit :=
  _ ← sql_exec;
  ok ← gets (check_step_row r);
  _ ← lift ok;
  _ ← take_locks [StepKey (ss_saga_id r) (ss_step r) (ss_direction r) (ss_attempt r)];
  modify (λ d, set_saga_steps (saga_steps d ++ [r]) d).

Definition attempt_row (now : Time) (a : Attempt) : step_row :=
  mk_step_row (At_ID a) (At_SagaID a) (At_Step a) (At_Number a) (At_Direction a) (At_Status a)
    (At_TransactionID a) (nullif_empty (At_GatewayKey a)) (nullif_empty (At_Error a)) now (Some now).

Definition pgsaga_CommitStep (c : StepCommit) : M unit :=
  now ← sql_now;
  _ ← insert_step (attempt_row now (Sc_Attempt c));
  advance (Sc_Transition c).

(** ** What the transaction-scoped statements change *)

Lemma advance_ok t u w w' : advance t w = (Ok u, w') →
  ∃ r, saga_instances (w_db w) !! Tr_SagaID t = Some r ∧ sg_status r = Tr_From t ∧
    w_db w' = set_saga_instances (<[Tr_SagaID t := advance_row (w_now w) t r]> (saga_instances (w_db w))) (w_db w) ∧
    w_now w' = w_now w.
Proof.
  unfold advance. intros H. mrun. simpl in *.
  destruct (saga_instances (w_db w) !! Tr_SagaID t) as [r|] eqn:Hr; mrun.
  case_bool_decide; mrun. exists r. by simpl.
Qed.

Lemma insert_step_ok r u w w' : insert_step r w = (Ok u, w') →
  check_step_row r (w_db w) = Ok tt ∧
  w_db w' = set_saga_steps (saga_steps (w_db w) ++ [r]) (w_db w) ∧ w_now w' = w_now w.
Proof. unfold insert_step. intros H. mrun. simpl in *. by repeat match goal with x : () |- _ => destruct x end. Qed.

Lemma pgsaga_CommitStep_ok c u w w' : pgsaga_CommitStep c w = (Ok u, w') →
  ∃ r, saga_instances (w_db w) !! Tr_SagaID (Sc_Transition c) = Some r ∧
    sg_status r = Tr_From (Sc_Transition c) ∧
    check_step_row (attempt_row (w_now w) (Sc_Attempt c)) (w_db w) = Ok tt ∧
    w_db w' = set_saga_steps (saga_steps (w_db w) ++ [attempt_row (w_now w) (Sc_Attempt c)])
      (set_saga_instances (<[Tr_SagaID (Sc_Transition c) :=
          advance_row (w_now w) (Sc_Transition c) r]> (saga_instances (w_db w))) (w_db w)) ∧
    w_now w' = w_now w.
Proof.
  unfold pgsaga_CommitStep. intros H. mrun.
  match goal with Hi : insert_step _ _ = _ |- _ => apply insert_step_ok in Hi as (Hc & Hd & Hn) end.
  apply advance_ok in H as (r & Hl & Hs & Hd' & Hn'). rewrite Hd in Hl, Hd'. rewrite Hn in Hd', Hn'.
  exists r. by rewrite Hd'.
Qed.

(** ** The standalone statements (store.go) *)

Definition saga_key_taken (principal : string) (key : option string) (d : DB) : bool :=
  match key with
  | Some k => bool_decide (map_Exists (λ _ r, sg_principal_id r = principal ∧
                 sg_idempotency_key r = Some k) (saga_instances d))
  | None => false
  end.

Definition getByIdempotencyKey (principalID key : string) : M Instance_ :=
  _ ← tx_start; _ ← sql_exec;
  found ← gets (λ d, filter (λ kr, sg_principal_id kr.2 = principalID ∧ sg_idempotency_key kr.2 = Some key)
                       (map_to_list (saga_instances d)));
  match found with
  | (id, r) :: _ => mret (instance_of id r)
  | [] => fail ErrSagaNotFound
  end.

(** [INSERT ... ON CONFLICT DO NOTHING RETURNING]: no row when the key is taken;
    [until] is [time.Until(in.StepDeadlineAt)]. *)
Definition insert_saga (i : Instance_) (until : Z) : M (option Instance_) :=
  _ ← sql_exec;
  now ← sql_now;
  let row := mk_saga_row (Inst_SagaType i) (Inst_PrincipalID i) (Inst_CurrentStep i) (Inst_Status i)
    (Inst_Payload i) 0 None (Inst_IdempotencyKey i) None None (now + until) now now in
  _ ← lift (check_saga_row row);
  taken ← gets (saga_key_taken (Inst_PrincipalID i) (Inst_IdempotencyKey i));
  if (taken : bool) then mret None
  else
    dup ← gets (λ d, bool_decide (is_Some (saga_instances d !! Inst_ID i)));
    _ ← guard_M (negb dup) (PgError UniqueViolation "saga_instances_pkey" "duplicate key value");
    _ ← modify (λ d, set_saga_instances (<[Inst_ID i := row]> (saga_instances d)) d);
    mret (Some (instance_of (Inst_ID i) row)).

Definition saga_Create (i : Instance_) : M Instance_ :=
  clock ← clock_Now;
  created ← autocommit (insert_saga i (Inst_StepDeadlineAt i - clock));
  match created with
  | Some instance => mret instance
  | None =>
      match Inst_IdempotencyKey i with
      | Some k => getByIdempotencyKey (Inst_PrincipalID i) k
      | None => fail (ErrOther "no row returned and no idempotency key to look it up by")
      end
  end.

Definition saga_Get (id : UUID) : M Instance_ :=
  _ ← tx_start; _ ← sql_exec;
  row ← gets (λ d, saga_instances d !! id);
  match row with
  | Some r => mret (instance_of id r)
  | None => fail ErrSagaNotFound
  end.

Definition lease_free (now : Time) (r : saga_row) : bool :=
  match sg_lease_expires_at r with None => true | Some t => t <? now end.

Definition set_lease (owner : string) (until now : Time) (r : saga_row) : saga_row :=
  mk_saga_row (sg_saga_type r) (sg_principal_id r) (sg_current_step r) (sg_status r) (sg_payload r)
    (sg_retry_count r) (sg_last_error r) (sg_idempotency_key r) (Some owner) (Some until)
    (sg_step_deadline_at r) (sg_created_at r) now.

(** A claim: the rows the predicate selects, in the order of [by], at most
    [batch] of them, get this owner's lease.  No other claimer holds a row lock,
    so [SKIP LOCKED] skips nothing. *)
Definition saga_claim (p : Time → saga_row → bool) (by_ : saga_row → Time)
    (owner : string) (lease : Z) (batch : nat) : M (list Instance_) := autocommit (
  _ ← sql_exec;
  now ← sql_now;
  rows ← gets (λ d, take batch (sort_by (λ a b, by_ a.2 <=? by_ b.2)
                      (filter (λ kr : UUID * saga_row, p now kr.2 = true) (map_to_list (saga_instances d)))));
  let claimed := (λ kr : UUID * saga_row, (kr.1, set_lease owner (now + lease) now kr.2)) <$> rows in
  _ ← modify (λ d, set_saga_instances (list_to_map claimed ∪ saga_instances d) d);
  mret ((λ kr : UUID * saga_row, instance_of kr.1 kr.2) <$> claimed)).

Definition saga_ClaimRunnable (sagaType owner : string) (lease : Z) (batch : nat) : M (list Instance_) :=
  saga_claim (λ now r, bool_decide (sg_saga_type r = sagaType) &&
                bool_decide (sg_status r ∈ runnableStatuses) && lease_free now r)
    sg_created_at owner lease batch.

Definition saga_ClaimExpired (sagaType owner : string) (lease : Z) (batch : nat) : M (list Instance_) :=
  saga_claim (λ now r, bool_decide (sg_saga_type r = sagaType) &&
                bool_decide (sg_status r ∉ terminalStatuses) && (sg_step_deadline_at r <? now) &&
                lease_free now r)
    sg_step_deadline_at owner lease batch.

Definition saga_Advance (t : Transition) : M unit := autocommit (advance t).

Definition saga_RenewLease (id : UUID) (owner : string) (lease : Z) : M unit := autocommit (
  _ ← sql_exec;
  now ← sql_now;
  row ← gets (λ d, saga_instances d !! id);
  match row with
  | Some r =>
      if bool_decide (sg_lease_owner r = Some owner)
      then modify (λ d, set_saga_instances (<[id := set_lease owner (now + lease) now r]> (saga_instances d)) d)
      else fail saga_ErrLeaseLost
  | None => fail saga_ErrLeaseLost
  end).

(** A transaction of several statements on the store's own pool: an error rolls
    the database back, and so does a COMMIT the server refuses. *)
Definition pool_tx {A} (body : M A) : M A := λ w0,
  match (_ ← sql_exec; tx_start) w0 with
  | (Err e, w) => (Err e, w)
  | (Ok _, w) =>
      match body w with
      | (Err e, w') => (Err e, set_db (w_db w) w')
      | (Ok a, w') =>
          match next_commit w' with
          | (Ok CommitDone, w'') => (Ok a, w'')
          | (Ok (CommitAborted e), w'') => (Err e, set_db (w_db w) w'')
          | (Ok (CommitLost e), w'') => (Err e, w'')
          | (Err e, w'') => (Err e, w'')
          end
      end
  end.

Definition saga_BeginStep (a : StartAttempt) (t : Transition) : M unit :=
  pool_tx (
    now ← sql_now;
    _ ← insert_step (mk_step_row (Sa_ID a) (Sa_SagaID a) (Sa_Step a) (Sa_Number a) (Sa_Direction a)
          StepAttempted None (nullif_empty (Sa_GatewayKey a)) None now None);
    advance t).

Definition saga_RecordAttempt (a : Attempt) : M unit := autocommit (
  now ← sql_now;
  insert_step (attempt_row now a)).

Definition saga_Escalate (t : Transition) (alert : Event) : M unit :=
  pool_tx (_ ← advance t; outbox_Append alert).

Definition finish_row (now : Time) (f : FinishAttempt) (r : step_row) : step_row :=
  mk_step_row (ss_id r) (ss_saga_id r) (ss_step r) (ss_attempt r) (ss_direction r) (Fa_Status f)
    (Fa_TransactionID f) (ss_gateway_key r) (nullif_empty (Fa_Error f)) (ss_started_at r) (Some now).

(** The UPDATE fails when a finished status is ATTEMPTED or unknown, or the
    transaction does not exist; a row that is not ATTEMPTED is left alone. *)
Definition saga_FinishAttempt (f : FinishAttempt) : M unit := autocommit (
  _ ← sql_exec;
  now ← sql_now;
  hit ← gets (λ d, existsb (λ r, bool_decide (ss_id r = Fa_ID f) &&
                                 bool_decide (ss_status r = StepAttempted)) (saga_steps d));
  known ← gets (λ d, match Fa_TransactionID f with
                     | Some x => bool_decide (is_Some (transactions d !! x))
                     | None => true
                     end);
  if (hit : bool) then
    _ ← guard_M (bool_decide (Fa_Status f ≠ StepAttempted)) (saga_check "saga_steps_finished_at_check");
    _ ← guard_M (bool_decide (Fa_Status f ∈ [StepSucceeded; StepFailed])) (saga_check "saga_steps_status_check");
    _ ← guard_M known (PgError ForeignKeyViolation "saga_steps_transaction_id_fkey" "violates foreign key constraint");
    modify (λ d, set_saga_steps
      ((λ r, if bool_decide (ss_id r = Fa_ID f) && bool_decide (ss_status r = StepAttempted)
             then finish_row now f r else r) <$> saga_steps d) d)
  else mret tt).

Definition saga_UnresolvedAttempt (sagaID : UUID) (step : Step) : M (option Attempt) :=
  _ ← tx_start; _ ← sql_exec;
  rows ← gets (λ d, sort_by (λ a b, ss_started_at b <=? ss_started_at a)
    (filter (λ r, ss_saga_id r = sagaID ∧ ss_step r = step ∧ ss_status r = StepAttempted) (saga_steps d)));
  mret (attempt_of <$> head rows).

Definition saga_Attempts (sagaID : UUID) : M (list Attempt) :=
  _ ← tx_start; _ ← sql_exec;
  rows ← gets (λ d, sort_by (λ a b, (ss_started_at a <? ss_started_at b) ||
                        ((ss_started_at a =? ss_started_at b) && (ss_attempt a <=? ss_attempt b)))
    (filter (λ r, ss_saga_id r = sagaID) (saga_steps d)));
  mret (attempt_of <$> rows).

Definition max_attempt (sagaID : UUID) (step : Step) (dir : SagaDirection) (l : list step_row) : Z :=
  foldr Z.max 0 (ss_attempt <$> filter (λ r, ss_saga_id r = sagaID ∧ ss_step r = step ∧ ss_direction r = dir) l).

Definition saga_NextAttemptNumber (sagaID : UUID) (step : Step) (dir : SagaDirection) : M Z :=
  _ ← tx_start; _ ← sql_exec;
  gets (λ d, max_attempt sagaID step dir (saga_steps d) + 1).

Definition saga_ListByStatus (status : SagaStatus) (limit : nat) : M (list Instance_) :=
  _ ← tx_start; _ ← sql_exec;
  rows ← gets (λ d, take limit (sort_by (λ a b, sg_created_at b.2 <=? sg_created_at a.2)
    (filter (λ kr, sg_status kr.2 = status) (map_to_list (saga_instances d)))));
  mret ((λ kr : UUID * saga_row, instance_of kr.1 kr.2) <$> rows).

Definition saga_CountByStatus : M (gmap SagaStatus nat) :=
  _ ← tx_start; _ ← sql_exec;
  gets (λ d, map_fold (λ _ r m, <[sg_status r := S (default 0%nat (m !! sg_status r))]> m) ∅ (saga_instances d)).

(** Seconds are kept as nanoseconds. *)
Definition saga_OldestOverdue : M Z :=
  _ ← tx_start; _ ← sql_exec;
  now ← sql_now;
  overdue ← gets (λ d, (sg_step_deadline_at ∘ snd) <$>
    filter (λ kr, sg_step_deadline_at kr.2 < now ∧ sg_status kr.2 ∉ terminalStatuses)
      (map_to_list (saga_instances d)));
  match overdue with
  | [] => mret 0
  | t :: ts => mret (now - foldr Z.min t ts)
  end.
