(* ===== verification/Retry.v ===== *)
(** * Retrying aborted transactions (internal/db/retry.go) *)

From S2P Require Import Prelude Errors Types Schema.
Open Scope string_scope.
Open Scope Z_scope.

Definition Millisecond : Z := 1000000.
Definition DefaultMaxAttempts : Z := 5.
Definition DefaultBaseBackoff : Z := 5 * Millisecond.
Definition DefaultMaxBackoff : Z := 250 * Millisecond.

Record Retrier := mkRetrier { maxAttempts : Z; baseBackoff : Z; maxBackoff : Z }.

Definition NewRetrier (attempts base max : Z) : Retrier :=
  mkRetrier (if attempts <=? 0 then DefaultMaxAttempts else attempts)
            (if base <=? 0 then DefaultBaseBackoff else base)
            (if max <=? 0 then DefaultMaxBackoff else max).

Definition retryableSQLState (err : error) : string * bool :=
  match errors_As_PgError err with
  | None => ("", false)
  | Some (code, _, _) =>
      if bool_decide (code = SerializationFailure) || bool_decide (code = DeadlockDetected)
      then (code, true) else ("", false)
  end.

(** The window of [backoff] before the random draw: [base << (attempt-1)] at
    64 bits, capped. *)
Definition backoff_window (r : Retrier) (attempt : Z) : Z :=
  let window := wrap64 (Z.shiftl (baseBackoff r) (attempt - 1)) in
  if (maxBackoff r <? window) || (window <=? 0) then maxBackoff r else window.

Definition backoff (r : Retrier) (attempt : Z) : M Z :=
  draw ← rand_IntN (Z.to_N (wrap64 (backoff_window r attempt + 1)));
  mret (Z.of_N draw).

(** The loop of [Do] from attempt number [attempt], with [more] attempts still
    allowed after this one.  The metrics and the log line are left out; waiting
    for the timer has no effect beyond the check that ends it. *)
Fixpoint Retrier_loop {A} (r : Retrier) (fn : M A) (more : nat) (attempt : Z) : M A := λ w,
  match fn w with
  | (Ok a, w1) => (Ok a, w1)
  | (Err err, w1) =>
      if negb (retryableSQLState err).2 then (Err err, w1)
      else
        (c ← ctx_Err;
         match c with
         | Some ce => fail (Wrap2 ce err)
         | None =>
             match more with
             | O => fail err
             | S more =>
                 _ ← backoff r attempt;
                 c ← ctx_Err;
                 match c with
                 | Some ce => fail (Wrap2 ce err)
                 | None => Retrier_loop r fn more (attempt + 1)
                 end
             end
         end) w1
  end.

(** [maxAttempts] is positive in every retrier [NewRetrier] builds; a loop
    bound of zero returns the nil [lastErr] wrapped, which is no error type. *)
Definition Retrier_Do {A} (r : Retrier) (fn : M A) : M A :=
  if maxAttempts r <=? 0 then fail (ErrOther "still aborting after 0 attempts")
  else Retrier_loop r fn (Z.to_nat (maxAttempts r - 1)) 1.

(** ** Properties *)

(** Anything every attempt preserves, whatever its outcome, the loop preserves,
    provided it does not look at the random draws or the context checks. *)
Section loop_invariant.
Context {A : Type} (r : Retrier) (fn : M A) (P : World → Prop).
Hypothesis HP : ∀ w, P w → P (fn w).2.
Hypothesis Hrand : ∀ l w, P w → P (set_rand l w).
Hypothesis Hctx : ∀ l w, P w → P (set_ctx l w).

Lemma ctx_Err_run w : ∃ c l, ctx_Err w = (Ok c, set_ctx l w).
Proof.
  unfold ctx_Err. destruct (w_ctx w) eqn:E; [|eauto].
  exists None, []. destruct w; simpl in *; by subst.
Qed.

Lemma backoff_run att w : ∃ d l, backoff r att w = (Ok d, set_rand l w).
Proof.
  unfold backoff, rand_IntN, mbind, M_bind. destruct (w_rand w) eqn:E; simpl; [|eauto].
  exists 0, []. destruct w; simpl in *; by subst.
Qed.

Lemma Retrier_loop_inv more att w : P w → P (Retrier_loop r fn more att w).2.
Proof.
  revert att w. induction more as [|more IH]; intros att w Hw; simpl;
    specialize (HP w Hw); destruct (fn w) as [[a|err] w1]; simpl in *; auto;
    destruct (retryableSQLState err).2; simpl; auto; unfold mbind, M_bind;
    destruct (ctx_Err_run w1) as (c & l & ->); destruct c; simpl; auto.
  destruct (backoff_run att (set_ctx l w1)) as (d & l' & ->).
  destruct (ctx_Err_run (set_rand l' (set_ctx l w1))) as (c' & l'' & ->). destruct c'; simpl; auto.
Qed.

Lemma Retrier_Do_inv w : P w → P (Retrier_Do r fn w).2.
Proof. intros Hw. unfold Retrier_Do. case_match; [done|]. by apply Retrier_loop_inv. Qed.

(** A success of the loop is the success of its last attempt, started in a
    state every earlier attempt preserved. *)
Lemma Retrier_loop_ok more att w a w' : P w → Retrier_loop r fn more att w = (Ok a, w') →
  ∃ w0, P w0 ∧ fn w0 = (Ok a, w').
Proof.
  revert att w. induction more as [|more IH]; intros att w Hw; simpl;
    pose proof (HP w Hw) as Hw1; destruct (fn w) as [[b|err] w1] eqn:Hfn; simpl in *;
    try (intros [= -> ->]; by eauto);
    destruct (retryableSQLState err).2; simpl; try done; unfold mbind, M_bind;
    destruct (ctx_Err_run w1) as (c & l & ->); destruct c; simpl; try done.
  destruct (backoff_run att (set_ctx l w1)) as (d & l' & ->).
  destruct (ctx_Err_run (set_rand l' (set_ctx l w1))) as (c' & l'' & ->). destruct c'; simpl; try done.
  apply IH. auto.
Qed.

Lemma Retrier_Do_ok w a w' : P w → Retrier_Do r fn w = (Ok a, w') → ∃ w0, P w0 ∧ fn w0 = (Ok a, w').
Proof. intros Hw. unfold Retrier_Do. case_match; [done|]. by apply Retrier_loop_ok. Qed.
End loop_invariant.

(** ** What is retried, and how often *)

Section attempts.
Context {A : Type} (r : Retrier) (fn : M A).

(** From [w], attempt number [n] starts in [wl]: each earlier attempt ended in
    an abort PostgreSQL rolled back, and between attempts only the context and
    the random source are consulted. *)
Inductive attempt_chain : Z → World → World → Prop :=
| chain_first w : attempt_chain 1 w w
| chain_next n w w1 w2 err ctx rnd ctx' : fn w = (Err err, w1) → (retryableSQLState err).2 = true →
    w2 = set_ctx ctx' (set_rand rnd (set_ctx ctx w1)) →
    ∀ wl, attempt_chain n w2 wl → attempt_chain (n + 1) w wl.

(** How a run of attempts ends, at attempt [n] of at most [limit]. *)
Definition ends_with (n limit : Z) (wl : World) (out : res A * World) : Prop :=
  match out with
  | (Ok a, w') => fn wl = (Ok a, w')
  | (Err e, _) => ∃ err w1, fn wl = (Err err, w1) ∧
      (e = err ∧ ((retryableSQLState err).2 = false ∨ n = limit) ∨ ∃ ce, e = Wrap2 ce err)
  end.

Lemma Retrier_loop_attempts more att w : ∃ n wl, 1 ≤ n ≤ Z.of_nat more + 1 ∧
  attempt_chain n w wl ∧ ends_with n (Z.of_nat more + 1) wl (Retrier_loop r fn more att w).
Proof.
  revert att w. induction more as [|more IH]; intros att w;
    destruct (fn w) as [[a|err] w1] eqn:Hfn.
  1,3: exists 1, w; simpl; rewrite Hfn; split_and!; [lia|lia|constructor|done].
  all: destruct (retryableSQLState err).2 eqn:Hre;
    [|exists 1, w; simpl; rewrite Hfn, Hre; simpl; split_and!; [lia|lia|constructor|eauto 10]].
  all: destruct (ctx_Err_run w1) as (c & l & Hc); destruct c as [ce|];
    [exists 1, w; simpl; rewrite Hfn, Hre; simpl; unfold mbind, M_bind; rewrite Hc; simpl;
     split_and!; [lia|lia|constructor|eauto 10]|].
  - exists 1, w. simpl. rewrite Hfn, Hre. simpl. unfold mbind, M_bind. rewrite Hc. simpl.
    split_and!; [lia|lia|constructor|eauto 10].
  - destruct (backoff_run r att (set_ctx l w1)) as (d & l' & Hb).
    destruct (ctx_Err_run (set_rand l' (set_ctx l w1))) as (c' & l'' & Hc'). destruct c' as [ce|].
    + exists 1, w. simpl. rewrite Hfn, Hre. simpl. unfold mbind, M_bind. rewrite Hc, Hb, Hc'. simpl.
      split_and!; [lia|lia|constructor|eauto 10].
    + destruct (IH (att + 1) (set_ctx l'' (set_rand l' (set_ctx l w1)))) as (n & wl & Hn & Hch & Hend).
      exists (n + 1), wl. split_and!; [lia|lia|by eapply chain_next|].
      simpl. rewrite Hfn, Hre. simpl. unfold mbind, M_bind. rewrite Hc, Hb, Hc'.
      unfold ends_with in *. destruct (Retrier_loop r fn more (att + 1) _) as [[a|e] w']; [done|].
      destruct Hend as (err' & w1' & Hfn' & Hcase). exists err', w1'. split; [done|].
      destruct Hcase as [[-> [?|?]]|?]; [left|left|right]; auto. split; [done|]. right. lia.
Qed.
End attempts.

(** The retry loop runs the transaction between one and [maxAttempts]
    times; it goes on only after an abort with SQLSTATE 40001 or 40P01, which
    PostgreSQL rolled back; a success is the success of the last attempt, and a
    failure carries the error of the last attempt, given up on because it is not
    retryable, because the attempts are used up or because the context ended. *)
Theorem Retrier_Do_attempts {A} attempts base max (fn : M A) w :
  let r := NewRetrier attempts base max in
  ∃ n wl, 1 ≤ n ≤ maxAttempts r ∧ attempt_chain fn n w wl ∧
    ends_with fn n (maxAttempts r) wl (Retrier_Do r fn w).
Proof.
  intros r. assert (Hpos : 0 < maxAttempts r).
  { unfold r, NewRetrier, DefaultMaxAttempts. simpl. case_match; lia. }
  unfold Retrier_Do. rewrite (proj2 (Z.leb_gt _ _)) by done.
  destruct (Retrier_loop_attempts r fn (Z.to_nat (maxAttempts r - 1)) 1 w) as (n & wl & Hn & Hch & Hend).
  replace (Z.of_nat (Z.to_nat (maxAttempts r - 1)) + 1) with (maxAttempts r) in * by lia.
  exists n, wl. done.
Qed.

(** ** The backoff *)

(** Wrapping at 64 bits keeps a multiple of a power of two one. *)
Lemma wrap64_multiple x j : 0 ≤ j → ∃ q, wrap64 (x * 2 ^ j) = q * 2 ^ j.
Proof.
  intros Hj. destruct (Z.lt_ge_cases j 64) as [Hlt|Hge].
  - unfold wrap64. pose proof (Z.div_mod (x * 2 ^ j - min_int64) two64) as Hdm.
    set (q := (x * 2 ^ j - min_int64) / two64) in *. exists (x - q * 2 ^ (64 - j)).
    assert (H64 : two64 = 2 ^ (64 - j) * 2 ^ j) by (rewrite <- Z.pow_add_r by lia; by replace (64 - j + j) with 64 by lia).
    specialize (Hdm ltac:(done)). rewrite Z.mul_sub_distr_r, <- Z.mul_assoc, <- H64. lia.
  - exists 0. replace (x * 2 ^ j) with (0 + (x * 2 ^ (j - 64)) * two64); [by rewrite wrap64_add_two64|].
    rewrite Z.add_0_l, <- Z.mul_assoc. f_equal. change two64 with (2 ^ 64).
    rewrite <- Z.pow_add_r by lia. f_equal. lia.
Qed.

Lemma backoff_window_range r attempt : 0 < maxBackoff r → 0 < backoff_window r attempt ≤ maxBackoff r.
Proof.
  intros Hm. unfold backoff_window. case_match eqn:Hc; [lia|].
  apply orb_false_iff in Hc as [H1%Z.ltb_ge H2%Z.leb_gt]. lia.
Qed.

(** The backoff window is exactly [min (base * 2^(attempt-1)) max] for every
    attempt number, however large: the shift at 64 bits may wrap, and every
    wrapped value is caught by the two guards, as long as [base * max] fits int64
    (the defaults are far below).  The delay drawn lies in [0, window], so never
    above the cap. *)
Theorem backoff_is_capped_doubling r attempt d w w' :
  0 < baseBackoff r → 0 < maxBackoff r → baseBackoff r * maxBackoff r < max_int64 → 1 ≤ attempt →
  backoff r attempt w = (Ok d, w') →
  backoff_window r attempt = Z.min (baseBackoff r * 2 ^ (attempt - 1)) (maxBackoff r) ∧
  0 ≤ d ≤ backoff_window r attempt.
Proof.
  intros Hb Hm Hprod Ha Hrun. split.
  - unfold backoff_window. rewrite Z.shiftl_mul_pow2 by lia. set (j := attempt - 1) in *.
    pose proof (Z.pow_pos_nonneg 2 j ltac:(lia) ltac:(lia)) as Hp.
    destruct (Z.le_gt_cases (baseBackoff r * 2 ^ j) max_int64) as [Hle|Hgt].
    + rewrite wrap64_id by (unfold min_int64; nia).
      destruct (Z.ltb_spec (maxBackoff r) (baseBackoff r * 2 ^ j)); simpl; [lia|].
      rewrite (proj2 (Z.leb_gt _ _)) by nia. lia.
    + assert (Hlarge : maxBackoff r < 2 ^ j) by nia. assert (2 ^ j ≤ baseBackoff r * 2 ^ j) by nia.
      destruct (wrap64_multiple (baseBackoff r) j) as [q Hq]; [lia|]. rewrite Hq.
      destruct (Z.leb_spec (q * 2 ^ j) 0); [rewrite orb_true_r; lia|].
      assert (0 < q) by nia. assert (2 ^ j ≤ q * 2 ^ j) by nia.
      rewrite (proj2 (Z.ltb_lt _ _)) by lia. simpl. lia.
  - pose proof (backoff_window_range r attempt Hm) as Hw. unfold backoff in Hrun. mrun.
    match goal with Hr : rand_IntN _ _ = _ |- _ => apply rand_IntN_ok in Hr as (l & _ & Hlt) end.
    assert (maxBackoff r < max_int64) by nia.
    rewrite wrap64_id in Hlt by (unfold min_int64; lia). lia.
Qed.

Lemma backoff_is_capped_doubling_witness :
  backoff_window (NewRetrier 0 0 0) 70 = 250 * Millisecond.
Proof.
  refine (eq_trans (proj1 (backoff_is_capped_doubling (NewRetrier 0 0 0) 70 0
    (mkWorld empty_DB [] [] 0 [] 0 0 [] [] [] []) _ _ _ _ _ eq_refl)) _);
    first [lia | vm_compute; reflexivity | vm_compute; congruence].
Defined.
