(* ===== verification/PgLedger.v ===== *)
(** * The PostgreSQL ledger repository (internal/ledger/pgledger/repository.go)

    The statements a ledger transaction issues, with the constraints and
    triggers of the migrations they can run into, and [InTx]. *)

From S2P Require Import Prelude Errors Money Strconv Json Types SagaTypes Events Schema Outbox.
From S2P Require Import PgIdem PgSaga Retry.
Open Scope string_scope.
Open Scope Z_scope.

(** ** The types of internal/ledger/ports.go *)

Record LockedAccount := mkLockedAccount {
  La_ID : UUID;
  La_Currency : string;
  La_Type : AccountType;
  La_NormalBalance : Direction;
  La_Status : AccountStatus;
  La_AllowNegative : bool;
  La_AvailableMinor : Z;
  La_PendingMinor : Z;
  La_Version : Z }.

(** The zero value a Go map lookup of a missing key returns. *)
Definition zeroLockedAccount : LockedAccount := mkLockedAccount uuid_Nil "" "" "" "" false 0 0 0.

Record BalanceDelta := mkBalanceDelta {
  Bd_AccountID : UUID;
  Bd_DeltaMinor : Z;
  Bd_ExpectedVersion : Z;
  Bd_LastEntryID : UUID }.

Record PendingDelta := mkPendingDelta {
  Pd_AccountID : UUID;
  Pd_DeltaMinor : Z }.

(** ** [mapError] *)

Fixpoint strings_HasPrefix (s prefix : string) : bool :=
  match prefix, s with
  | EmptyString, _ => true
  | String a p, String b s => bool_decide (a = b) && strings_HasPrefix s p
  | _, _ => false
  end.

Fixpoint strings_Contains (s sub : string) : bool :=
  strings_HasPrefix s sub ||
  match s with String _ s => strings_Contains s sub | EmptyString => false end.

Definition mapError (err : error) : error :=
  match errors_As_PgError err with
  | None => err
  | Some (code, constraint, message) =>
      if bool_decide (code = CheckViolation) then
        if bool_decide (constraint = "account_balances_no_overdraft_check") then ErrInsufficientFunds
        else if strings_Contains message "does not balance" then ErrUnbalancedTransaction
        else if bool_decide (constraint = "journal_entries_amount_check") then ErrInvalidEntry
        else err
      else if bool_decide (code = RestrictViolation) then
        if strings_Contains message "append-only" then ErrImmutableJournal else err
      else if bool_decide (code = UniqueViolation) then
        if bool_decide (constraint = "transactions_idempotency_key_key") then ErrDuplicateIdempotencyKey
        else err
      else if bool_decide (code = ForeignKeyViolation) then
        if bool_decide (constraint = "journal_entries_account_currency_fkey") then ErrCurrencyMismatch
        else if bool_decide (constraint = "journal_entries_transaction_id_fkey") then ErrTransactionNotFound
        else err
      else err
  end.

Definition pg_check name := PgError CheckViolation name "violates check constraint".
Definition pg_unique name := PgError UniqueViolation name "duplicate key value violates unique constraint".
Definition pg_fk name := PgError ForeignKeyViolation name "violates foreign key constraint".
Definition pg_out_of_range := PgError NumericValueOutOfRange "" "bigint out of range".

(** ** The statements of one transaction *)

(** A batch of one advisory lock request per account. *)
Definition takeAdvisoryLocks (enabled : bool) (ids : list UUID) : M unit :=
  if negb enabled || bool_decide (ids = []) then mret tt
  else _ ← mapM_ (λ id, _ ← sql_exec; take_locks [AdvisoryLock id]) ids; mret tt.

(** The shard rows of the query, in its order. *)
Definition shard_rows (ids : list UUID) (m : gmap UUID account_row) : list (UUID * UUID * Z) :=
  sort_by (λ x y, (x.1.1 <? y.1.1)%N || ((x.1.1 =? y.1.1)%N && (x.2 <=? y.2)))
    (omap (λ kr : UUID * account_row,
       match a_parent_account_id kr.2, a_shard_index kr.2 with
       | Some parent, Some index =>
           if bool_decide (parent ∈ ids) && bool_decide (a_status kr.2 = AccountStatusActive)
           then Some (parent, kr.1, index) else None
       | _, _ => None
       end) (map_to_list m)).

Definition ResolveShards (ids : list UUID) : M (gmap UUID (list UUID)) :=
  map_err mapError (
    _ ← sql_exec;
    rows ← gets (λ d, shard_rows ids (accounts d));
    mret (foldl (λ (m : gmap UUID (list UUID)) (x : UUID * UUID * Z),
             <[x.1.1 := (default [] (m !! x.1.1) ++ [x.1.2])%list]> m) ∅ rows)).

Definition locked_of (id : UUID) (a : account_row) (b : balance_row) : LockedAccount :=
  mkLockedAccount id (a_currency a) (a_account_type a) (a_normal_balance a) (a_status a)
    (b_allow_negative b) (b_available_minor b) (b_pending_minor b) (b_version b).

(** The join of [accounts] and [account_balances] restricted to [ids], by id. *)
Definition locked_rows (ids : list UUID) (d : DB) : list LockedAccount :=
  sort_by (λ x y, (La_ID x <=? La_ID y)%N)
    (omap (λ kr : UUID * account_row,
       if bool_decide (kr.1 ∈ ids)
       then locked_of kr.1 kr.2 <$> account_balances d !! kr.1 else None)
     (map_to_list (accounts d))).

(** ORDER BY id FOR NO KEY UPDATE OF a FOR UPDATE OF ab: both rows of one account, then
    those of the next. *)
Definition row_locks (locked : list LockedAccount) : list lock :=
  mjoin ((λ a, [AccountRow (La_ID a); BalanceRow (La_ID a)]) <$> locked).

Definition LockAccounts (advisoryLocks : bool) (ids : list UUID) : M (list LockedAccount) :=
  map_err mapError (
    _ ← takeAdvisoryLocks advisoryLocks ids;
    _ ← sql_exec;
    locked ← gets (locked_rows ids);
    _ ← take_locks (row_locks locked);
    mret locked).

(** [INSERT INTO accounts], with the constraints of migrations 000002 and 000012 and the
    trigger of migration 000009, which creates the balance row. *)
Definition insert_account_row (id : UUID) (r : account_row) : M unit :=
  _ ← guard_M (AccountType_Valid (a_account_type r)) (pg_check "accounts_account_type_check");
  _ ← guard_M (currencyPattern (a_currency r)) (pg_check "accounts_currency_check");
  _ ← guard_M (bool_decide (a_parent_account_id r = None) || (a_shard_count r =? 1)) (pg_check "accounts_no_nested_sharding_check");
  _ ← guard_M (bool_decide (a_parent_account_id r ≠ Some id)) (pg_check "accounts_no_self_parent_check");
  _ ← guard_M (Direction_Valid (a_normal_balance r)) (pg_check "accounts_normal_balance_check");
  _ ← guard_M (bool_decide (a_normal_balance r = AccountType_NormalBalance (a_account_type r)))
        (pg_check "accounts_normal_balance_matches_type_check");
  _ ← guard_M (1 <=? a_shard_count r) (pg_check "accounts_shard_count_check");
  _ ← guard_M (match a_shard_index r with Some i => 0 <=? i | None => true end) (pg_check "accounts_shard_index_check");
  _ ← guard_M (bool_decide (a_parent_account_id r = None ↔ a_shard_index r = None)) (pg_check "accounts_shard_pair_check");
  _ ← guard_M (bool_decide (a_status r ∈ [AccountStatusActive; AccountStatusFrozen; AccountStatusClosed]))
        (pg_check "accounts_status_check");
  dup ← gets (λ d, bool_decide (is_Some (accounts d !! id)));
  _ ← guard_M (negb dup) (pg_unique "accounts_pkey");
  ref ← gets (λ d, bool_decide (map_Exists (λ _ x, a_external_ref x = a_external_ref r) (accounts d)));
  _ ← guard_M (negb ref) (pg_unique "accounts_external_ref_key");
  position ← gets (λ d, bool_decide (a_parent_account_id r ≠ None) && bool_decide (map_Exists
    (λ _ x, a_parent_account_id x = a_parent_account_id r ∧ a_shard_index x = a_shard_index r) (accounts d)));
  _ ← guard_M (negb position) (pg_unique "accounts_shard_position_key");
  parent ← gets (λ d, match a_parent_account_id r with Some p => bool_decide (is_Some (accounts d !! p)) | None => true end);
  _ ← guard_M parent (pg_fk "accounts_parent_account_id_fkey");
  _ ← modify (λ d, set_accounts (<[id := r]> (accounts d)) d);
  modify (λ d, match account_balances d !! id with
    | Some _ => d
    | None => set_account_balances (<[id :=
        mk_balance_row 0 0 (a_allow_negative r) None 0 (a_created_at r)]> (account_balances d)) d
    end).

(** The sharding columns take their defaults.  The currency comes from a validated
    request, so CHAR(3) stores it unchanged. *)
Definition InsertAccount (a : Account) : M Account :=
  map_err mapError (
    _ ← sql_exec;
    now ← sql_now;
    _ ← insert_account_row (Account_ID a)
          (mk_account_row (Account_ExternalRef a) (Account_Type a) (Account_NormalBalance a)
            (Account_Currency a) (Account_OwnerID a) (Account_AllowNegative a) (Account_Status a)
            1 now now None None 1);
    mret (mkAccount (Account_ID a) (Account_ExternalRef a) (Account_Type a) (Account_NormalBalance a)
            (Account_Currency a) (Account_OwnerID a) (Account_AllowNegative a) (Account_Status a)
            1 now now)).

(** ** Sharding (migration 000012) *)

(** The parent after [UPDATE accounts SET shard_count]; [updated_at] is the trigger's. *)
Definition set_shard_count (n : Z) (now : Time) (a : account_row) : account_row :=
  mk_account_row (a_external_ref a) (a_account_type a) (a_normal_balance a) (a_currency a) (a_owner_id a)
    (a_allow_negative a) (a_status a) (a_version a) (a_created_at a) now (a_parent_account_id a) (a_shard_index a) n.

Definition shard_row (a : account_row) (parent : UUID) (i : Z) (now : Time) : account_row :=
  mk_account_row (a_external_ref a +:+ "#shard-" +:+ FormatInt i) (a_account_type a) (a_normal_balance a) (a_currency a)
    (a_owner_id a) (a_allow_negative a) (a_status a) 1 now now (Some parent) (Some i) 1.

(** [gen_random_uuid()]: some identifier, never the nil one. *)
Definition gen_random_uuid : M UUID := uuid_NewV7.

(** [SELECT ledger_shard_account(account, n)], which an operator runs. *)
Definition ledger_shard_account (id : UUID) (shards : Z) : M unit := autocommit (
  _ ← sql_exec;
  _ ← guard_M (2 <=? shards) (ErrOther "shard count must be at least 2");
  row ← gets (λ d, accounts d !! id);
  match row with
  | None => fail (ErrOther "account does not exist")
  | Some a =>
      _ ← guard_M (bool_decide (a_parent_account_id a = None)) (ErrOther "account is itself a shard and cannot be sharded");
      if 1 <? a_shard_count a then mret tt
      else
        now ← sql_now;
        _ ← modify (λ d, set_accounts (<[id := set_shard_count shards now a]> (accounts d)) d);
        _ ← mapM_ (λ i, shard ← gen_random_uuid; insert_account_row shard (shard_row a id i now)) (seqZ 0 shards);
        mret tt
  end).

(** The partial unique index on (principal_id, idempotency_key). *)
Definition tx_key_taken (principal : string) (key : option string) (d : DB) : bool :=
  match key with
  | Some k => bool_decide (map_Exists (λ _ r, t_principal_id r = principal ∧
                 t_idempotency_key r = Some k) (transactions d))
  | None => false
  end.

Definition transaction_row_of (now : Time) (t : Transaction) : transaction_row :=
  mk_transaction_row (Tx_IdempotencyKey t) (Tx_PrincipalID t) (Tx_Type t) (Tx_Status t)
    (Tx_ExternalRef t) (Tx_Metadata t) now
    (if bool_decide (Tx_Status t = TransactionStatusPending) then None else Some now).

(** The header as the caller sees it after the statement: [RETURNING] fills in
    the two timestamps.  Metadata that is a JSON object always encodes. *)
Definition InsertTransaction (t : Transaction) : M Transaction :=
  map_err mapError (
    _ ← sql_exec;
    now ← sql_now;
    _ ← guard_M (bool_decide (Tx_Status t ∈ [TransactionStatusPending; TransactionStatusPosted; TransactionStatusReversed]))
          (pg_check "transactions_status_check");
    _ ← guard_M (TransactionType_Valid (Tx_Type t)) (pg_check "transactions_type_check");
    dup ← gets (λ d, bool_decide (is_Some (transactions d !! Tx_ID t)));
    _ ← guard_M (negb dup) (pg_unique "transactions_pkey");
    taken ← gets (tx_key_taken (Tx_PrincipalID t) (Tx_IdempotencyKey t));
    _ ← guard_M (negb taken) (pg_unique "transactions_idempotency_key_key");
    _ ← take_locks (match Tx_IdempotencyKey t with Some k => [TransactionKey (Tx_PrincipalID t) k] | None => [] end);
    let row := transaction_row_of now t in
    _ ← modify (λ d, set_transactions (<[Tx_ID t := row]> (transactions d)) d);
    mret (mkTransaction (Tx_ID t) (Tx_IdempotencyKey t) (Tx_PrincipalID t) (Tx_Type t) (Tx_Status t)
            (Tx_ExternalRef t) (Tx_Metadata t) (t_created_at row) (t_posted_at row) (Tx_Entries t))).

(** [int32(x)]. *)
Definition wrap32 (z : Z) : Z := (z + 2147483648) mod 4294967296 - 2147483648.

Definition entry_row_of (now : Time) (e : JournalEntry) : entry_row :=
  mk_entry_row (Entry_ID e) (Entry_TransactionID e) (Entry_AccountID e) (Entry_Direction e)
    (amountMinor (Entry_Amount e)) (currency (Entry_Amount e)) (wrap32 (Entry_EntrySeq e)) now.

(** The CHECK constraints and unique indexes one inserted row meets. *)
Definition check_entry_row (r : entry_row) (l : list entry_row) : res unit :=
  _ ← guard_err (0 <? je_amount_minor r) (pg_check "journal_entries_amount_check");
  _ ← guard_err (Direction_Valid (je_direction r)) (pg_check "journal_entries_direction_check");
  _ ← guard_err (0 <=? je_entry_seq r) (pg_check "journal_entries_entry_seq_check");
  _ ← guard_err (negb (existsb (λ r', bool_decide (je_id r' = je_id r)) l)) (pg_unique "journal_entries_pkey");
  guard_err (negb (existsb (λ r', bool_decide (je_transaction_id r' = je_transaction_id r) &&
                                  (je_entry_seq r' =? je_entry_seq r)) l))
    (pg_unique "journal_entries_transaction_id_entry_seq_key").

Definition insert_entry_row (l : list entry_row) (r : entry_row) : res (list entry_row) :=
  _ ← check_entry_row r l; Ok (l ++ [r])%list.

(** The foreign keys, checked at the end of the statement. *)
Definition check_entry_fk (d : DB) (r : entry_row) : res unit :=
  _ ← guard_err (bool_decide (is_Some (transactions d !! je_transaction_id r)))
        (pg_fk "journal_entries_transaction_id_fkey");
  guard_err (match accounts d !! je_account_id r with
             | Some a => bool_decide (a_currency a = je_currency r)
             | None => false
             end) (pg_fk "journal_entries_account_currency_fkey").

Definition Entry_set_CreatedAt (t : Time) (e : JournalEntry) : JournalEntry :=
  mkJournalEntry (Entry_ID e) (Entry_TransactionID e) (Entry_AccountID e) (Entry_Direction e)
    (Entry_Amount e) (Entry_EntrySeq e) t.

(** The slice is updated in place with the timestamps the statement returns,
    matched by id. *)
Definition InsertEntries (entries : list JournalEntry) : M (list JournalEntry) :=
  if bool_decide (entries = []) then mret entries
  else map_err mapError (
    _ ← sql_exec;
    now ← sql_now;
    let rows := entry_row_of now <$> entries in
    old ← gets journal_entries;
    new ← lift (foldM insert_entry_row old rows);
    d ← gets (λ d, d);
    _ ← lift (foldM (λ _ r, check_entry_fk d r) tt rows);
    _ ← modify (set_journal_entries new);
    let created : gmap UUID Time := list_to_map ((λ r, (je_id r, je_created_at r)) <$> rows) in
    mret ((λ e, Entry_set_CreatedAt (default time_zero (created !! Entry_ID e)) e) <$> entries)).

(** [account_balances]: bigint arithmetic raises instead of wrapping, and the
    CHECK constraints of migration 000006. *)
Definition check_balance_row (b : balance_row) : res unit :=
  _ ← guard_err (in_int64 (b_available_minor b) && in_int64 (b_pending_minor b) && in_int64 (b_version b))
        pg_out_of_range;
  _ ← guard_err (b_allow_negative b || (0 <=? b_available_minor b)) (pg_check "account_balances_no_overdraft_check");
  _ ← guard_err (0 <=? b_pending_minor b) (pg_check "account_balances_pending_check");
  guard_err (0 <=? b_version b) (pg_check "account_balances_version_check").

Definition apply_delta_row (now : Time) (delta : Z) (entry : UUID) (b : balance_row) : balance_row :=
  mk_balance_row (b_available_minor b + delta) (b_pending_minor b) (b_allow_negative b)
    (Some entry) (b_version b + 1) now.

(** [UPDATE account_balances ... FROM accounts] under the expected version. *)
Definition ApplyBalanceDelta (d : BalanceDelta) : M Balance :=
  map_err mapError (
    _ ← sql_exec;
    now ← sql_now;
    row ← gets (λ s, account_balances s !! Bd_AccountID d);
    acct ← gets (λ s, accounts s !! Bd_AccountID d);
    match row, acct with
    | Some b, Some a =>
        if b_version b =? Bd_ExpectedVersion d then
          _ ← take_locks [BalanceRow (Bd_AccountID d)];
          let b' := apply_delta_row now (Bd_DeltaMinor d) (Bd_LastEntryID d) b in
          _ ← lift (check_balance_row b');
          _ ← modify (λ s, set_account_balances (<[Bd_AccountID d := b']> (account_balances s)) s);
          available ← lift (NewMoney (b_available_minor b') (a_currency a));
          pending ← lift (NewMoney (b_pending_minor b') (a_currency a));
          mret (mkBalance (Bd_AccountID d) available pending (b_version b') (b_updated_at b'))
        else fail ErrBalanceVersionConflict
    | _, _ => fail ErrBalanceVersionConflict
    end).

(** The entries of a transaction in the order of [entry_seq]. *)
Definition entries_of (tx : UUID) (l : list entry_row) : list entry_row :=
  sort_by (λ x y, je_entry_seq x <=? je_entry_seq y) (filter (λ r, je_transaction_id r = tx) l).

Definition scan_entry (r : entry_row) : res JournalEntry :=
  amount ← NewMoney (je_amount_minor r) (je_currency r);
  Ok (mkJournalEntry (je_id r) (je_transaction_id r) (je_account_id r) (je_direction r) amount
        (je_entry_seq r) (je_created_at r)).

(** The two queries of [LoadTransactionForUpdate] and of [GetTransaction]: the
    header (without the principal, which neither selects), which the first locks, and the
    entries. *)
Definition scan_transaction (for_update : bool) (id : UUID) : M Transaction :=
  _ ← sql_exec;
  row ← gets (λ d, transactions d !! id);
  match row with
  | None => fail ErrTransactionNotFound
  | Some t =>
      _ ← take_locks (if for_update then [TransactionRow id] else []);
      _ ← sql_exec;
      rows ← gets (λ d, entries_of id (journal_entries d));
      entries ← lift (foldM (λ acc r, e ← scan_entry r; Ok (acc ++ [e])%list) [] rows);
      mret (mkTransaction id (t_idempotency_key t) "" (t_transaction_type t) (t_status t)
              (t_external_ref t) (t_metadata t) (t_created_at t) (t_posted_at t) entries)
  end.

Definition LoadTransactionForUpdate (id : UUID) : M Transaction :=
  map_err mapError (scan_transaction true id).

Definition set_status (s : TransactionStatus) (t : transaction_row) : transaction_row :=
  mk_transaction_row (t_idempotency_key t) (t_principal_id t) (t_transaction_type t) s
    (t_external_ref t) (t_metadata t) (t_created_at t) (t_posted_at t).

Definition MarkReversed (id : UUID) : M unit :=
  map_err mapError (
    _ ← sql_exec;
    row ← gets (λ d, transactions d !! id);
    match row with
    | Some t =>
        if bool_decide (t_status t = TransactionStatusPosted)
        then _ ← take_locks [TransactionRow id];
             modify (λ d, set_transactions (<[id := set_status TransactionStatusReversed t]> (transactions d)) d)
        else fail ErrTransactionNotPosted
    | None => fail ErrTransactionNotPosted
    end).

Definition AppendEvent (e : Event) : M unit := outbox_Append e.

Definition add_pending (now : Time) (delta : Z) (b : balance_row) : balance_row :=
  mk_balance_row (b_available_minor b) (b_pending_minor b + delta) (b_allow_negative b)
    (b_last_entry_id b) (b_version b) now.

Definition ApplyPendingDelta (d : PendingDelta) : M unit :=
  map_err mapError (
    _ ← sql_exec;
    now ← sql_now;
    row ← gets (λ s, account_balances s !! Pd_AccountID d);
    match row with
    | Some b =>
        _ ← take_locks [BalanceRow (Pd_AccountID d)];
        let b' := add_pending now (Pd_DeltaMinor d) b in
        _ ← lift (check_balance_row b');
        modify (λ s, set_account_balances (<[Pd_AccountID d := b']> (account_balances s)) s)
    | None => fail ErrAccountNotFound
    end).

Definition CommitSagaStep (c : StepCommit) : M unit := pgsaga_CommitStep c.
Definition CompleteIdempotency (c : Completion) : M unit := pgidem_Complete c.

(** ** COMMIT *)

(** The signed sum the deferred trigger of migration 000005 computes. *)
Definition tx_currency_sum (tx : UUID) (cur : string) (l : list entry_row) : Z :=
  zsum (λ r, transaction_signed (je_direction r) (je_amount_minor r))
    (filter (λ r, je_transaction_id r = tx ∧ je_currency r = cur) l).

(** The trigger for one new row: some currency of its transaction whose sum is
    not zero, if there is one. *)
Definition offending (all : list entry_row) (new : entry_row) : option entry_row :=
  head (filter (λ r, je_transaction_id r = je_transaction_id new ∧
                     tx_currency_sum (je_transaction_id new) (je_currency r) all ≠ 0) all).

Section repository.
Context `{UuidLib}.

Definition unbalanced_error (all : list entry_row) (o : entry_row) : error :=
  PgError CheckViolation ""
    ("transaction " +:+ uuid_String (je_transaction_id o) +:+ " does not balance in " +:+
     je_currency o +:+ ": signed sum is " +:+
     FormatInt (tx_currency_sum (je_transaction_id o) (je_currency o) all) +:+
     " minor units, expected 0").

Definition assert_transaction_balanced (all : list entry_row) (new : entry_row) : res unit :=
  match offending all new with
  | Some o => Err (unbalanced_error all o)
  | None => Ok tt
  end.

(** The deferred triggers COMMIT fires: one per row the transaction inserted. *)
Definition deferred_triggers (before after : DB) : res unit :=
  foldM (λ _ r, assert_transaction_balanced (journal_entries after) r) tt
    (drop (length (journal_entries before)) (journal_entries after)).

(** One attempt: begin, run, commit.  An error of [fn], of a deferred trigger
    or of the COMMIT rolls the database back, except that a COMMIT whose answer
    is lost has taken effect. *)
Definition runTx {A} (fn : M A) : M A := λ w0,
  match (_ ← sql_exec; tx_start) w0 with
  | (Err e, w) => (Err e, w)
  | (Ok _, w) =>
      match fn w with
      | (Err e, w1) => (Err e, set_db (w_db w) w1)
      | (Ok a, w1) =>
          match deferred_triggers (w_db w) (w_db w1) with
          | Err e => (Err (mapError e), set_db (w_db w) w1)
          | Ok _ =>
              match next_commit w1 with
              | (Ok CommitDone, w2) => (Ok a, w2)
              | (Ok (CommitAborted e), w2) => (Err (mapError e), set_db (w_db w) w2)
              | (Ok (CommitLost e), w2) => (Err (mapError e), w2)
              | (Err e, w2) => (Err e, w2)
              end
          end
      end
  end.

(** [Repository]: the options that change what the write path does. *)
Record Repository := mkRepository { retrier : option Retrier; advisoryLocks : bool }.

Definition InTx {A} (r : Repository) (fn : M A) : M A :=
  match retrier r with
  | None => runTx fn
  | Some rt => Retrier_Do rt (runTx fn)
  end.
End repository.
