(* ===== verification/Service.v ===== *)
(** * The ledger service (internal/ledger/service.go)

    Posting, reversing and opening accounts, each one database transaction.
    The metrics wrappers ([PostTransaction] around [postTransaction], [reverse]
    around [doReverse]) record and return what they wrap. *)

From S2P Require Import Prelude Errors Money Json Types SagaTypes Events Schema Outbox PgIdem.
From S2P Require Import PgSaga Retry PgLedger.
Open Scope string_scope.
Open Scope Z_scope.

Definition MetadataKeyReverses := "reverses_transaction_id".
Definition MetadataKeyReason := "reversal_reason".

(** ** Requests *)

Record EntryRequest := mkEntryRequest {
  Er_AccountID : UUID;
  Er_Direction : Direction;
  Er_Amount : Money }.

(** A nil renderer is [None]; a rendered nil body is [None]. *)
Record Idempotent := mkIdempotent {
  Idem_PrincipalID : string;
  Idem_Key : string;
  Idem_Render : option (Transaction → res (Z * option string)) }.

(** A [Recorder] works on the transaction it is handed, which is the world the
    statements of [Tx] act on. *)
Definition Recorder : Type := Transaction → M unit.

Record TransactionRequest := mkTransactionRequest {
  Rq_PrincipalID : string;
  Rq_Type : TransactionType;
  Rq_ExternalRef : option string;
  Rq_Metadata : list (string * json);
  Rq_Entries : list EntryRequest;
  Rq_IdempotencyKey : option string;
  Rq_Idempotency : option Idempotent;
  Rq_Record : option Recorder }.

Record CreateAccountRequest := mkCreateAccountRequest {
  Ca_ExternalRef : string;
  Ca_Type : AccountType;
  Ca_Currency : string;
  Ca_OwnerID : option string;
  Ca_AllowNegative : bool }.

(** ** Validation *)

Definition CreateAccountRequest_validate (r : CreateAccountRequest) : res unit :=
  _ ← guard_err (bool_decide (Ca_ExternalRef r ≠ "")) ErrInvalidEntry;
  _ ← guard_err (AccountType_Valid (Ca_Type r)) ErrInvalidAccountType;
  _ ← NewMoney 0 (Ca_Currency r);
  Ok tt.

(** The body of the loop of [validate]: the running debits and credits. *)
Definition validate_entry (cur : string) (acc : Money * Money) (e : EntryRequest) : res (Money * Money) :=
  let '(debits, credits) := acc in
  _ ← guard_err (bool_decide (Er_AccountID e ≠ uuid_Nil)) ErrInvalidEntry;
  _ ← guard_err (Direction_Valid (Er_Direction e)) ErrInvalidEntry;
  _ ← Money_Validate (Er_Amount e);
  _ ← guard_err (negb (amountMinor (Er_Amount e) <=? 0)) ErrInvalidEntry;
  _ ← guard_err (bool_decide (currency (Er_Amount e) = cur)) ErrMixedCurrency;
  if bool_decide (Er_Direction e = DirectionDebit)
  then d ← Money_Add debits (Er_Amount e); Ok (d, credits)
  else c ← Money_Add credits (Er_Amount e); Ok (debits, c).

Definition TransactionRequest_validate (r : TransactionRequest) : res unit :=
  _ ← guard_err (TransactionType_Valid (Rq_Type r)) ErrInvalidTransactionType;
  _ ← guard_err (negb (length (Rq_Entries r) <? 2)%nat) ErrTooFewEntries;
  match Rq_Entries r with
  | [] => Err ErrTooFewEntries
  | e :: _ =>
      let cur := currency (Er_Amount e) in
      zero ← NewMoney 0 cur;
      totals ← foldM (validate_entry cur) (zero, zero) (Rq_Entries r);
      guard_err (Money_Equal totals.1 totals.2) ErrUnbalancedTransaction
  end.

Section service.
Context `{UuidLib}.

(** ** Posting mechanics *)

(** The distinct ids in the order they first appear. *)
Fixpoint distinct (seen : list UUID) (l : list UUID) : list UUID :=
  match l with
  | [] => []
  | x :: l => if bool_decide (x ∈ seen) then distinct seen l else x :: distinct (x :: seen) l
  end.

Definition uuid_text_le (a b : UUID) : bool := negb (String.ltb (uuid_String b) (uuid_String a)).

Definition sortedAccountIDs (entries : list EntryRequest) : list UUID :=
  sort_by uuid_text_le (distinct [] (Er_AccountID <$> entries)).

(** One random shard per sharded account. *)
Definition choose_shard (chosen : gmap UUID UUID) (kv : UUID * list UUID) : M (gmap UUID UUID) :=
  i ← rand_IntN (N.of_nat (length kv.2));
  mret (<[kv.1 := nth (N.to_nat i) kv.2 uuid_Nil]> chosen).

Definition route_entry (chosen : gmap UUID UUID) (e : EntryRequest) : EntryRequest :=
  match chosen !! Er_AccountID e with
  | Some shard => mkEntryRequest shard (Er_Direction e) (Er_Amount e)
  | None => e
  end.

Definition routeToShards (entries : list EntryRequest) : M (list EntryRequest) :=
  shards ← ResolveShards (sortedAccountIDs entries);
  if bool_decide (shards = ∅) then mret entries
  else
    chosen ← foldlM choose_shard ∅ (map_to_list shards);
    mret (route_entry chosen <$> entries).

(** The checks of [lockAndValidate] on one locked account and on one entry. *)
Definition check_postable (accounts : gmap UUID LockedAccount) (id : UUID) : res unit :=
  match accounts !! id with
  | None => Err ErrAccountNotFound
  | Some a => if negb (AccountStatus_Postable (La_Status a)) then Err ErrAccountNotPostable else Ok tt
  end.

Definition account_at (accounts : gmap UUID LockedAccount) (id : UUID) : LockedAccount :=
  default zeroLockedAccount (accounts !! id).

Definition check_entry_currency (accounts : gmap UUID LockedAccount) (e : EntryRequest) : res unit :=
  guard_err (bool_decide (currency (Er_Amount e) = La_Currency (account_at accounts (Er_AccountID e))))
    ErrCurrencyMismatch.

Definition lockAndValidate (adv : bool) (accountIDs : list UUID) (entries : list EntryRequest)
    : M (gmap UUID LockedAccount) :=
  locked ← LockAccounts adv accountIDs;
  let accounts : gmap UUID LockedAccount := foldl (λ m a, <[La_ID a := a]> m) ∅ locked in
  _ ← lift (foldM (λ _ id, check_postable accounts id) tt accountIDs);
  _ ← lift (foldM (λ _ e, check_entry_currency accounts e) tt entries);
  mret accounts.

Fixpoint buildEntries_from (i : Z) (txID : UUID) (requests : list EntryRequest) : M (list JournalEntry) :=
  match requests with
  | [] => mret []
  | r :: rest =>
      id ← uuid_NewV7;
      entries ← buildEntries_from (i + 1) txID rest;
      mret (mkJournalEntry id txID (Er_AccountID r) (Er_Direction r) (Er_Amount r) i time_zero :: entries)
  end.

Definition buildEntries (txID : UUID) (requests : list EntryRequest) : M (list JournalEntry) :=
  buildEntries_from 0 txID requests.

(** The first loop of [applyEntries]: one delta and one last entry per account. *)
Definition aggregate_entry (accounts : gmap UUID LockedAccount)
    (acc : gmap UUID Z * gmap UUID UUID) (e : JournalEntry) : res (gmap UUID Z * gmap UUID UUID) :=
  let '(deltas, lastEntry) := acc in
  signed ← signedAmount (Entry_Direction e) (La_NormalBalance (account_at accounts (Entry_AccountID e)))
             (amountMinor (Entry_Amount e));
  let '(total, ok) := addInt64 (default 0 (deltas !! Entry_AccountID e)) signed in
  if negb ok then Err ErrMoneyOverflow
  else Ok (<[Entry_AccountID e := total]> deltas, <[Entry_AccountID e := Entry_ID e]> lastEntry).

(** The body of its second loop, on one account in lock order. *)
Definition apply_one (accounts : gmap UUID LockedAccount) (deltas : gmap UUID Z)
    (lastEntry : gmap UUID UUID) (id : UUID) : M eventBalance :=
  let account := account_at accounts id in
  let delta := default 0 (deltas !! id) in
  let '(projected, ok) := addInt64 (La_AvailableMinor account) delta in
  _ ← guard_M ok ErrMoneyOverflow;
  _ ← guard_M (negb ((projected <? 0) && negb (La_AllowNegative account))) ErrInsufficientFunds;
  balance ← ApplyBalanceDelta (mkBalanceDelta id delta (La_Version account) (default uuid_Nil (lastEntry !! id)));
  mret (mk_eventBalance id (Balance_Available balance) (Balance_Version balance)).

Definition applyEntries (entries : list JournalEntry) (accounts : gmap UUID LockedAccount)
    (order : list UUID) : M (list eventBalance) :=
  agg ← lift (foldM (aggregate_entry accounts) (∅, ∅) entries);
  mapM_ (apply_one accounts agg.1 agg.2) order.

(** ** Events *)

Definition uniformCurrency (entries : list JournalEntry) : string :=
  match entries with
  | [] => ""
  | e :: rest =>
      if forallb (λ e', bool_decide (currency (Entry_Amount e') = currency (Entry_Amount e))) rest
      then currency (Entry_Amount e) else ""
  end.

Definition eventEntry_of (e : JournalEntry) : eventEntry :=
  mk_eventEntry (Entry_ID e) (Entry_AccountID e) (Entry_Direction e) (Entry_Amount e) (Entry_EntrySeq e).

Definition appendBalanceUpdatedEvent (header : Transaction) (occurredAt : Time) (b : eventBalance) : M unit :=
  payload ← lift (json_Marshal (PBalanceUpdated
    (mk_balanceUpdatedEvent (eb_AccountID b) (Tx_ID header) (eb_Available b) (eb_Version b))));
  AppendEvent (mkEvent AggregateAccount (uuid_String (eb_AccountID b)) EventTypeBalanceUpdated
    eventVersion occurredAt payload).

Definition appendBalanceUpdatedEvents (header : Transaction) (balances : list eventBalance)
    (occurredAt : Time) : M unit :=
  _ ← mapM_ (appendBalanceUpdatedEvent header occurredAt) balances; mret tt.

Definition appendTransactionEvent (eventType : string) (header : Transaction)
    (balances : list eventBalance) (reverses : option UUID) (reason : string) : M unit :=
  payload ← lift (json_Marshal (PTransaction
    (mk_transactionEvent (Tx_ID header) (Tx_Type header) (Tx_Status header)
       (uniformCurrency (Tx_Entries header)) (Tx_CreatedAt header) (Tx_PostedAt header)
       reverses reason (eventEntry_of <$> Tx_Entries header) balances)));
  let occurredAt := default (Tx_CreatedAt header) (Tx_PostedAt header) in
  _ ← AppendEvent (mkEvent AggregateTransaction (uuid_String (Tx_ID header)) eventType
        eventVersion occurredAt payload);
  appendBalanceUpdatedEvents header balances occurredAt.

(** ** The three operations *)

Definition completeIdempotency (idem : option Idempotent) (header : Transaction) : M unit :=
  match idem with
  | None => mret tt
  | Some i =>
      match Idem_Render i with
      | None => fail ErrMissingRenderer
      | Some render =>
          rendered ← lift (render header);
          CompleteIdempotency (mkCompletion (Idem_PrincipalID i) (Idem_Key i) rendered.1 rendered.2 (Tx_ID header))
      end
  end.

Definition runRecorder (record : option Recorder) (header : Transaction) : M unit :=
  match record with
  | None => mret tt
  | Some f => f header
  end.

Definition with_entries (t : Transaction) (entries : list JournalEntry) : Transaction :=
  mkTransaction (Tx_ID t) (Tx_IdempotencyKey t) (Tx_PrincipalID t) (Tx_Type t) (Tx_Status t)
    (Tx_ExternalRef t) (Tx_Metadata t) (Tx_CreatedAt t) (Tx_PostedAt t) entries.

(** The statements posting and reversing share: lock, write the header and the
    legs, move the balances.  The result is the header with its entries. *)
Definition write_transaction (adv : bool) (txID : UUID) (header : Transaction)
    (requests : list EntryRequest) : M (Transaction * list eventBalance) :=
  let accountIDs := sortedAccountIDs requests in
  accounts ← lockAndValidate adv accountIDs requests;
  header ← InsertTransaction header;
  entries ← buildEntries txID requests;
  entries ← InsertEntries entries;
  balances ← applyEntries entries accounts accountIDs;
  mret (with_entries header entries, balances).

Definition post_key (req : TransactionRequest) : option string :=
  match Rq_Idempotency req with
  | Some i => Some (Idem_Key i)
  | None => Rq_IdempotencyKey req
  end.

(** The header [postTransaction] builds. *)
Definition post_header (txID : UUID) (req : TransactionRequest) : Transaction :=
  mkTransaction txID (post_key req) (Rq_PrincipalID req) (Rq_Type req)
    TransactionStatusPosted (Rq_ExternalRef req) (Rq_Metadata req) time_zero None [].

(** The closure [postTransaction] hands to [InTx]. *)
Definition post_body (adv : bool) (txID : UUID) (req : TransactionRequest) : M Transaction :=
  entryRequests ← routeToShards (Rq_Entries req);
  hb ← write_transaction adv txID (post_header txID req) entryRequests;
  let '(header, balances) := hb in
  _ ← appendTransactionEvent EventTypeTransactionPosted header balances None "";
  _ ← runRecorder (Rq_Record req) header;
  _ ← completeIdempotency (Rq_Idempotency req) header;
  mret header.

Definition postTransaction (repo : Repository) (req : TransactionRequest) : M Transaction :=
  _ ← lift (TransactionRequest_validate req);
  txID ← uuid_NewV7;
  InTx repo (post_body (advisoryLocks repo) txID req).

Definition mirror (e : JournalEntry) : EntryRequest :=
  mkEntryRequest (Entry_AccountID e) (Direction_Opposite (Entry_Direction e)) (Entry_Amount e).

(** The header [doReverse] builds. *)
Definition reverse_header (reversalID txID : UUID) (reason : string) (idem : option Idempotent) : Transaction :=
  mkTransaction reversalID (Idem_Key <$> idem) (default "" (Idem_PrincipalID <$> idem))
    TransactionTypeReversal TransactionStatusPosted None
    [(MetadataKeyReverses, JString (uuid_String txID)); (MetadataKeyReason, JString reason)]
    time_zero None [].

(** The closure [doReverse] hands to [InTx]. *)
Definition reverse_body (adv : bool) (reversalID txID : UUID) (reason : string)
    (idem : option Idempotent) (record : option Recorder) : M Transaction :=
  original ← LoadTransactionForUpdate txID;
  _ ← (if bool_decide (Tx_Status original = TransactionStatusReversed) then fail ErrAlreadyReversed
       else if bool_decide (Tx_Status original = TransactionStatusPosted) then mret tt
       else fail ErrTransactionNotPosted);
  _ ← guard_M (bool_decide (Tx_Entries original ≠ [])) ErrTooFewEntries;
  hb ← write_transaction adv reversalID (reverse_header reversalID txID reason idem)
    (mirror <$> Tx_Entries original);
  let '(header, balances) := hb in
  _ ← MarkReversed txID;
  _ ← appendTransactionEvent EventTypeTransactionReversed header balances (Some txID) reason;
  _ ← runRecorder record header;
  _ ← completeIdempotency idem header;
  mret header.

Definition doReverse (repo : Repository) (txID : UUID) (reason : string)
    (idem : option Idempotent) (record : option Recorder) : M Transaction :=
  _ ← guard_M (bool_decide (reason ≠ "")) ErrReversalReasonRequired;
  reversalID ← uuid_NewV7;
  InTx repo (reverse_body (advisoryLocks repo) reversalID txID reason idem record).

Definition ReverseTransaction repo txID reason := doReverse repo txID reason None None.
Definition ReverseTransactionIdempotent repo txID reason idem := doReverse repo txID reason idem None.
Definition ReverseTransactionRecorded repo txID reason record := doReverse repo txID reason None record.

(** The closure [CreateAccount] hands to [InTx]. *)
Definition create_body (id : UUID) (req : CreateAccountRequest) : M Account :=
  account ← InsertAccount (mkAccount id (Ca_ExternalRef req) (Ca_Type req)
    (AccountType_NormalBalance (Ca_Type req)) (Ca_Currency req) (Ca_OwnerID req)
    (Ca_AllowNegative req) AccountStatusActive 0 time_zero time_zero);
  payload ← lift (json_Marshal (PAccountCreated
    (mk_accountCreatedEvent (Account_ID account) (Account_ExternalRef account) (Account_Type account)
       (Account_NormalBalance account) (Account_Currency account) (Account_OwnerID account)
       (Account_AllowNegative account))));
  _ ← AppendEvent (mkEvent AggregateAccount (uuid_String (Account_ID account)) EventTypeAccountCreated
        eventVersion (Account_CreatedAt account) payload);
  mret account.

Definition CreateAccount (repo : Repository) (req : CreateAccountRequest) : M Account :=
  _ ← lift (CreateAccountRequest_validate req);
  id ← uuid_NewV7;
  InTx repo (create_body id req).
End service.
