(* ===== verification/PgLedgerSpec.v ===== *)
(** * What each ledger statement does when it succeeds

    One lemma per statement of the repository, in terms of the database before
    and after. *)

From S2P Require Import Prelude Errors Money Strconv Json Types SagaTypes Events Schema Outbox.
From S2P Require Import PgIdem PgSaga Retry PgLedger.
Open Scope string_scope.
Open Scope Z_scope.

(** The run read the database and left it alone. *)
Definition same_db (w w' : World) : Prop := w_db w' = w_db w ∧ w_now w' = w_now w.

Lemma same_db_refl w : same_db w w.
Proof. done. Qed.
Lemma same_db_trans w1 w2 w3 : same_db w1 w2 → same_db w2 w3 → same_db w1 w3.
Proof. unfold same_db. intros [-> ->] [-> ->]. done. Qed.
#[export] Hint Resolve same_db_refl : core.

Lemma sql_exec_same u w w' : sql_exec w = (Ok u, w') → same_db w w'.
Proof. intros H. mrun. done. Qed.
Lemma uuid_NewV7_same u w w' : uuid_NewV7 w = (Ok u, w') → same_db w w'.
Proof. intros H. mrun. done. Qed.

Lemma uuid_NewV7_err e w w' : uuid_NewV7 w = (Err e, w') → w' = w.
Proof. unfold uuid_NewV7. repeat case_match; try done; by intros [= _ <-]. Qed.

(** A loop of steps that each leave the database alone leaves it alone. *)
Lemma mapM_same {A B} (f : A → M B) l ys w w' :
  (∀ x y w w', f x w = (Ok y, w') → same_db w w') →
  mapM_ f l w = (Ok ys, w') → same_db w w'.
Proof.
  intros Hf. revert ys w. induction l as [|x l IH]; simpl; intros ys w Hrun; mrun; [done|].
  eapply same_db_trans; [by eapply Hf|]. by eapply IH.
Qed.

Lemma foldlM_same {A B} (f : B → A → M B) b l y w w' :
  (∀ b x y w w', f b x w = (Ok y, w') → same_db w w') →
  foldlM f b l w = (Ok y, w') → same_db w w'.
Proof.
  intros Hf. revert b w. induction l as [|x l IH]; simpl; intros b w Hrun; mrun; [done|].
  eapply same_db_trans; [by eapply Hf|]. by eapply IH.
Qed.

(** ** Checks over a list *)

Lemma foldM_check_ok {A} (f : A → res unit) l u :
  foldM (λ _ x, f x) tt l = Ok u → ∀ x, x ∈ l → f x = Ok tt.
Proof.
  induction l as [|y l IH]; simpl; intros Hrun x Hx; [by apply not_elem_of_nil in Hx|].
  apply result_bind_ok in Hrun as ([] & Hy & Hl).
  apply elem_of_cons in Hx as [->|Hx]; auto.
Qed.

(** ** Maps built by a loop of insertions *)

Lemma foldl_insert_Some {A} (key : A → UUID) (l : list A) (m : gmap UUID A) k a :
  foldl (λ m a, <[key a := a]> m) m l !! k = Some a →
  (a ∈ l ∧ key a = k) ∨ m !! k = Some a.
Proof.
  revert m. induction l as [|x l IH]; simpl; intros m Hk; [by right|].
  apply IH in Hk as [[? ?]|Hk]; [left; set_solver|].
  apply lookup_insert_Some in Hk as [[<- <-]|[? ?]]; [left; set_solver | by right].
Qed.

Lemma foldl_insert_is_Some {A} (key : A → UUID) (l : list A) (m : gmap UUID A) a :
  a ∈ l → is_Some (foldl (λ m a, <[key a := a]> m) m l !! key a).
Proof.
  revert m. induction l as [|x l IH]; simpl; intros m Ha; [by apply not_elem_of_nil in Ha|].
  assert (Hkeep : ∀ m' : gmap UUID A, is_Some (m' !! key a) →
    is_Some (foldl (λ m a, <[key a := a]> m) m' l !! key a)).
  { clear. induction l as [|y l IH]; simpl; intros m' Hm; [done|]. apply IH.
    destruct (decide (key y = key a)) as [->|];
      [rewrite lookup_insert_eq; eauto | by rewrite lookup_insert_ne]. }
  apply elem_of_cons in Ha as [->|Ha]; [apply Hkeep; rewrite lookup_insert_eq; eauto | by apply IH].
Qed.

(** ** Locking *)

Lemma takeAdvisoryLocks_same b ids u w w' : takeAdvisoryLocks b ids w = (Ok u, w') → same_db w w'.
Proof.
  unfold takeAdvisoryLocks. case_match; intros Hrun; mrun; [done|].
  eapply mapM_same; [|done]. clear. intros ???? Hrun. cbn beta in Hrun. mrun. done.
Qed.

Lemma ResolveShards_same ids s w w' : ResolveShards ids w = (Ok s, w') → same_db w w'.
Proof. unfold ResolveShards. intros H. mrun. done. Qed.

Lemma locked_rows_elem ids d la : la ∈ locked_rows ids d ↔
  ∃ id a b, id ∈ ids ∧ accounts d !! id = Some a ∧ account_balances d !! id = Some b ∧
    la = locked_of id a b.
Proof.
  unfold locked_rows. rewrite sort_by_elem, list_elem_of_omap. split.
  - intros ([id a] & Hin & Hb). simpl in *. apply elem_of_map_to_list in Hin.
    case_bool_decide; [|done]. apply fmap_Some in Hb as (b & Hb & ->). eauto 10.
  - intros (id & a & b & Hid & Ha & Hb & ->). exists (id, a). simpl.
    rewrite elem_of_map_to_list, bool_decide_eq_true_2, Hb by done. done.
Qed.

Lemma LockAccounts_ok adv ids locked w w' : LockAccounts adv ids w = (Ok locked, w') →
  same_db w w' ∧ locked = locked_rows ids (w_db w).
Proof.
  unfold LockAccounts. intros H. mrun.
  match goal with Ht : takeAdvisoryLocks _ _ _ = _ |- _ =>
    apply takeAdvisoryLocks_same in Ht as [Hd Hn] end.
  simpl. by rewrite <- Hd.
Qed.

(** ** Inserting *)

Lemma existsb_false {A} (p : A → bool) l : existsb p l = false → ∀ x, x ∈ l → p x = false.
Proof.
  intros Hl x Hx. apply not_true_iff_false. intros Hp. apply not_true_iff_false in Hl.
  apply Hl, existsb_exists. exists x. split; [by apply list_elem_of_In | done].
Qed.

Definition je_key (r : entry_row) : UUID * Z := (je_transaction_id r, je_entry_seq r).

Lemma check_entry_row_ok r l : check_entry_row r l = Ok tt →
  0 < je_amount_minor r ∧ Direction_Valid (je_direction r) = true ∧ 0 ≤ je_entry_seq r ∧
  (je_id r ∉ je_id <$> l) ∧ (je_key r ∉ je_key <$> l).
Proof.
  unfold check_entry_row. intros H. checks H. bool_to_prop. split_and!; auto;
    rewrite list_elem_of_fmap; intros (r' & Heq & Hin);
    repeat match goal with He : existsb _ _ = false |- _ =>
      pose proof (existsb_false _ _ He r' Hin); clear He end; simpl in *.
  - bool_to_prop. congruence.
  - injection Heq as Heq1 Heq2. rewrite Heq1, Heq2 in *.
    rewrite (bool_decide_eq_true_2 (je_transaction_id r' = _)), Z.eqb_refl in * by done. done.
Qed.

Definition entry_row_ok (r : entry_row) : Prop :=
  0 < je_amount_minor r ∧ Direction_Valid (je_direction r) = true ∧ 0 ≤ je_entry_seq r.

Lemma foldM_insert_entry_row rows : ∀ old new, foldM insert_entry_row old rows = Ok new →
  new = (old ++ rows)%list ∧ (∀ r, r ∈ rows → entry_row_ok r) ∧
  (NoDup (je_id <$> old) → NoDup (je_id <$> new)) ∧
  (NoDup (je_key <$> old) → NoDup (je_key <$> new)).
Proof.
  induction rows as [|r rows IH]; simpl; intros old new Hrun.
  { injection Hrun as <-. rewrite app_nil_r. set_solver. }
  apply result_bind_ok in Hrun as (l & Hl & Hrun). unfold insert_entry_row in Hl.
  apply result_bind_ok in Hl as ([] & Hc & [= <-]).
  apply check_entry_row_ok in Hc as (? & ? & ? & Hid & Hkey).
  apply IH in Hrun as (-> & Hrows & Hn1 & Hn2). split_and!.
  - by rewrite <- app_assoc.
  - intros r' [->|Hr']%elem_of_cons; [done | auto].
  - intros Hnd. apply Hn1. by apply NoDup_fmap_snoc.
  - intros Hnd. apply Hn2. by apply NoDup_fmap_snoc.
Qed.

Lemma check_entry_fk_ok d r : check_entry_fk d r = Ok tt →
  is_Some (transactions d !! je_transaction_id r) ∧
  ∃ a, accounts d !! je_account_id r = Some a ∧ a_currency a = je_currency r.
Proof.
  unfold check_entry_fk. intros H. checks H. bool_to_prop. split; [done|].
  destruct (accounts d !! je_account_id r) as [a|]; [|done]. bool_to_prop. eauto.
Qed.

(** Matching the returned timestamps by id finds the transaction's own. *)
Lemma created_lookup now entries e : e ∈ entries →
  (list_to_map ((λ r, (je_id r, je_created_at r)) <$> (entry_row_of now <$> entries)) : gmap UUID Time)
    !! Entry_ID e = Some now.
Proof.
  intros He. rewrite <- list_fmap_compose. set (l := _ <$> entries).
  destruct ((list_to_map l : gmap UUID Time) !! Entry_ID e) as [t|] eqn:Ht; simpl.
  - apply elem_of_list_to_map_2 in Ht. unfold l in Ht.
    apply list_elem_of_fmap in Ht as (e' & [= _ ->] & _). done.
  - apply not_elem_of_list_to_map_2 in Ht. destruct Ht. unfold l.
    rewrite <- list_fmap_compose. by apply (list_elem_of_fmap_2 Entry_ID).
Qed.

(** The rows are appended, in order, with the constraints holding of each, and
    the caller's entries carry the transaction's timestamp. *)
Lemma InsertEntries_ok entries entries' w w' : entries ≠ [] →
  InsertEntries entries w = (Ok entries', w') →
  let rows := entry_row_of (w_now w) <$> entries in
  w_db w' = set_journal_entries (journal_entries (w_db w) ++ rows)%list (w_db w) ∧
  w_now w' = w_now w ∧
  entries' = Entry_set_CreatedAt (w_now w) <$> entries ∧
  (∀ r, r ∈ rows → entry_row_ok r ∧ check_entry_fk (w_db w) r = Ok tt) ∧
  (NoDup (je_id <$> journal_entries (w_db w)) → NoDup (je_id <$> journal_entries (w_db w'))) ∧
  (NoDup (je_key <$> journal_entries (w_db w)) → NoDup (je_key <$> journal_entries (w_db w'))).
Proof.
  intros Hne. unfold InsertEntries. rewrite bool_decide_eq_false_2 by done.
  intros H. mrun. simpl in *.
  match goal with Hi : foldM insert_entry_row _ _ = Ok _ |- _ =>
    apply foldM_insert_entry_row in Hi as (-> & Hrows & Hn1 & Hn2) end.
  split_and!; [done|done| |by eauto using foldM_check_ok|done|done].
  apply list_fmap_ext. intros i e He. by erewrite created_lookup by by eapply list_elem_of_lookup_2.
Qed.

Lemma tx_key_taken_false p key d : tx_key_taken p key d = false →
  ∀ k id t, key = Some k → transactions d !! id = Some t →
    ¬ (t_principal_id t = p ∧ t_idempotency_key t = Some k).
Proof.
  unfold tx_key_taken. destruct key as [k'|]; [|done]. intros Hn k id t [= <-] Ht Hk.
  bool_to_prop. apply Hn. exists id, t. done.
Qed.

Lemma InsertTransaction_ok t t' w w' : InsertTransaction t w = (Ok t', w') →
  transactions (w_db w) !! Tx_ID t = None ∧
  tx_key_taken (Tx_PrincipalID t) (Tx_IdempotencyKey t) (w_db w) = false ∧
  TransactionType_Valid (Tx_Type t) = true ∧
  w_db w' = set_transactions (<[Tx_ID t := transaction_row_of (w_now w) t]> (transactions (w_db w))) (w_db w) ∧
  w_now w' = w_now w ∧
  t' = mkTransaction (Tx_ID t) (Tx_IdempotencyKey t) (Tx_PrincipalID t) (Tx_Type t) (Tx_Status t)
         (Tx_ExternalRef t) (Tx_Metadata t) (w_now w)
         (t_posted_at (transaction_row_of (w_now w) t)) (Tx_Entries t).
Proof.
  unfold InsertTransaction. intros H. mrun. simpl in *. bool_to_prop.
  split_and!; try done. by apply eq_None_not_Some.
Qed.

(** ** Updating *)

Record balance_row_ok (b : balance_row) : Prop := {
  bro_available : is_int64 (b_available_minor b);
  bro_version : is_int64 (b_version b);
  bro_overdraft : b_allow_negative b = true ∨ 0 ≤ b_available_minor b;
  bro_pending : 0 ≤ b_pending_minor b;
  bro_version_pos : 0 ≤ b_version b }.

Lemma check_balance_row_ok b u : check_balance_row b = Ok u → balance_row_ok b.
Proof.
  unfold check_balance_row. intros H. checks H. bool_to_prop.
  rewrite in_int64_spec in *. split; auto.
  match goal with Ho : _ || _ = true |- _ => apply orb_true_iff in Ho as [?|?] end; bool_to_prop; auto.
Qed.

Lemma NewMoney_ok amt cur m : NewMoney amt cur = Ok m → currencyPattern cur = true ∧ m = mkMoney amt cur.
Proof. unfold NewMoney. destruct (currencyPattern cur); simpl; [by intros [= <-] | done]. Qed.

Lemma ApplyBalanceDelta_ok d bal w w' : ApplyBalanceDelta d w = (Ok bal, w') →
  ∃ b a, account_balances (w_db w) !! Bd_AccountID d = Some b ∧
    accounts (w_db w) !! Bd_AccountID d = Some a ∧
    b_version b = Bd_ExpectedVersion d ∧
    let b' := apply_delta_row (w_now w) (Bd_DeltaMinor d) (Bd_LastEntryID d) b in
    balance_row_ok b' ∧
    w_db w' = set_account_balances (<[Bd_AccountID d := b']> (account_balances (w_db w))) (w_db w) ∧
    w_now w' = w_now w ∧
    Balance_Available bal = mkMoney (b_available_minor b') (a_currency a) ∧
    Balance_Version bal = b_version b'.
Proof.
  unfold ApplyBalanceDelta. intros H. mrun. simpl in *.
  destruct (account_balances (w_db w) !! _) as [b|] eqn:Hb; mrun.
  destruct (accounts (w_db w) !! _) as [a|] eqn:Ha; mrun.
  destruct (Z.eqb_spec (b_version b) (Bd_ExpectedVersion d)) as [Hv|]; mrun.
  repeat match goal with Hm : NewMoney _ _ = Ok _ |- _ => apply NewMoney_ok in Hm as [? ->] end.
  exists b, a. split_and!; try done. by eapply check_balance_row_ok.
Qed.

Lemma ApplyPendingDelta_ok d u w w' : ApplyPendingDelta d w = (Ok u, w') →
  ∃ b, account_balances (w_db w) !! Pd_AccountID d = Some b ∧
    let b' := add_pending (w_now w) (Pd_DeltaMinor d) b in
    balance_row_ok b' ∧
    w_db w' = set_account_balances (<[Pd_AccountID d := b']> (account_balances (w_db w))) (w_db w) ∧
    w_now w' = w_now w.
Proof.
  unfold ApplyPendingDelta. intros H. mrun. simpl in *.
  destruct (account_balances (w_db w) !! _) as [b|] eqn:Hb; mrun. simpl in *.
  exists b. split_and!; try done. by eapply check_balance_row_ok.
Qed.

Lemma MarkReversed_ok id u w w' : MarkReversed id w = (Ok u, w') →
  ∃ t, transactions (w_db w) !! id = Some t ∧ t_status t = TransactionStatusPosted ∧
    w_db w' = set_transactions (<[id := set_status TransactionStatusReversed t]> (transactions (w_db w))) (w_db w) ∧
    w_now w' = w_now w.
Proof.
  unfold MarkReversed. intros H. mrun. simpl in *.
  destruct (transactions (w_db w) !! id) as [t|] eqn:Ht; mrun.
  case_bool_decide; mrun. exists t. by simpl.
Qed.

(** The journal entry a row scans into. *)
Definition entry_of_row (r : entry_row) : JournalEntry :=
  mkJournalEntry (je_id r) (je_transaction_id r) (je_account_id r) (je_direction r)
    (mkMoney (je_amount_minor r) (je_currency r)) (je_entry_seq r) (je_created_at r).

Lemma foldM_scan_entry rows : ∀ acc entries,
  foldM (λ acc r, e ← scan_entry r; Ok (acc ++ [e])%list) acc rows = Ok entries →
  entries = (acc ++ (entry_of_row <$> rows))%list.
Proof.
  induction rows as [|r rows IH]; simpl; intros acc entries Hrun.
  { injection Hrun as <-. by rewrite app_nil_r. }
  apply result_bind_ok in Hrun as (acc' & Hr & Hrun).
  apply result_bind_ok in Hr as (e & He & [= <-]).
  unfold scan_entry in He. apply result_bind_ok in He as (m & [? ->]%NewMoney_ok & [= <-]).
  apply IH in Hrun as ->. by rewrite <- app_assoc.
Qed.

Lemma scan_transaction_ok lk id tx w w' : scan_transaction lk id w = (Ok tx, w') →
  ∃ t, transactions (w_db w) !! id = Some t ∧ same_db w w' ∧
    Tx_Status tx = t_status t ∧ Tx_ID tx = id ∧
    Tx_Entries tx = entry_of_row <$> entries_of id (journal_entries (w_db w)).
Proof.
  unfold scan_transaction. intros H. mrun. simpl in *.
  destruct (transactions (w_db w) !! id) as [t|] eqn:Ht; mrun. simpl in *.
  match goal with Hf : foldM _ _ _ = Ok _ |- _ => apply foldM_scan_entry in Hf as -> end.
  exists t. done.
Qed.

(** The tables after an account is inserted. *)
Definition account_inserted (id : UUID) (r : account_row) (d : DB) : DB :=
  let d1 := set_accounts (<[id := r]> (accounts d)) d in
  match account_balances d !! id with
  | Some _ => d1
  | None => set_account_balances (<[id := mk_balance_row 0 0 (a_allow_negative r) None 0 (a_created_at r)]> (account_balances d)) d1
  end.

Lemma insert_account_row_ok id r u w w' : insert_account_row id r w = (Ok u, w') →
  accounts (w_db w) !! id = None ∧ currencyPattern (a_currency r) = true ∧ Direction_Valid (a_normal_balance r) = true ∧
  AccountType_Valid (a_account_type r) = true ∧ a_normal_balance r = AccountType_NormalBalance (a_account_type r) ∧
  map_Forall (λ _ x, a_external_ref x ≠ a_external_ref r) (accounts (w_db w)) ∧
  w_now w' = w_now w ∧ w_db w' = account_inserted id r (w_db w) ∧
  (∀ p, a_parent_account_id r = Some p → p ≠ id ∧
     map_Forall (λ _ x, ¬ (a_parent_account_id x = Some p ∧ a_shard_index x = a_shard_index r)) (accounts (w_db w))).
Proof.
  unfold insert_account_row. intros H. mrun. simpl in *. bool_to_prop. split_and!; try done.
  - by apply eq_None_not_Some.
  - intros i a Hi Heq. match goal with Hx : ¬ map_Exists (λ _ x, a_external_ref x = _) _ |- _ => apply Hx end. by exists i, a.
  - intros p Hp. rewrite Hp in *. split; [congruence|]. intros i a Hi [Hx1 Hx2].
    match goal with Hx : _ && _ = false |- _ => apply andb_false_iff in Hx as [Hx|Hx]; bool_to_prop; [by destruct Hx|apply Hx] end.
    by exists i, a.
Qed.

Lemma InsertAccount_ok a a' w w' : InsertAccount a w = (Ok a', w') →
  accounts (w_db w) !! Account_ID a = None ∧
  currencyPattern (Account_Currency a) = true ∧
  Direction_Valid (Account_NormalBalance a) = true ∧
  AccountType_Valid (Account_Type a) = true ∧
  Account_NormalBalance a = AccountType_NormalBalance (Account_Type a) ∧
  map_Forall (λ _ r, a_external_ref r ≠ Account_ExternalRef a) (accounts (w_db w)) ∧
  w_now w' = w_now w ∧
  w_db w' = account_inserted (Account_ID a)
    (mk_account_row (Account_ExternalRef a) (Account_Type a) (Account_NormalBalance a)
       (Account_Currency a) (Account_OwnerID a) (Account_AllowNegative a) (Account_Status a)
       1 (w_now w) (w_now w) None None 1) (w_db w) ∧
  a' = mkAccount (Account_ID a) (Account_ExternalRef a) (Account_Type a) (Account_NormalBalance a)
            (Account_Currency a) (Account_OwnerID a) (Account_AllowNegative a) (Account_Status a)
            1 (w_now w) (w_now w).
Proof.
  unfold InsertAccount. intros H. mrun.
  match goal with Hi : insert_account_row _ _ _ = _ |- _ => apply insert_account_row_ok in Hi as (?&?&?&?&?&?&Hn&?&_) end.
  simpl in *. split_and!; try done; congruence.
Qed.

(** ** COMMIT and [InTx] *)

Lemma offending_None all new : offending all new = None →
  ∀ cur, tx_currency_sum (je_transaction_id new) cur all = 0.
Proof.
  unfold offending. intros Ho%head_None cur.
  destruct (decide (tx_currency_sum (je_transaction_id new) cur all = 0)) as [|Hne]; [done|].
  unfold tx_currency_sum in Hne.
  destruct (filter (λ r, je_transaction_id r = je_transaction_id new ∧ je_currency r = cur) all)
    as [|r l] eqn:Hf; [done|].
  assert (Hr : r ∈ filter (λ r, je_transaction_id r = je_transaction_id new ∧ je_currency r = cur) all)
    by (rewrite Hf; set_solver).
  apply list_elem_of_filter in Hr as [[Htx Hcur] Hin].
  assert (Hr : r ∈ filter (λ r, je_transaction_id r = je_transaction_id new ∧
     tx_currency_sum (je_transaction_id new) (je_currency r) all ≠ 0) all).
  { apply list_elem_of_filter. split_and!; auto. unfold tx_currency_sum. by rewrite Hcur, Hf. }
  rewrite Ho in Hr. set_solver.
Qed.

Section intx.
Context `{UuidLib}.

(** What passing the deferred triggers means: every transaction that got a new
    row sums to zero in every currency. *)
Lemma deferred_triggers_ok before after u : deferred_triggers before after = Ok u →
  ∀ r, r ∈ drop (length (journal_entries before)) (journal_entries after) →
  ∀ cur, tx_currency_sum (je_transaction_id r) cur (journal_entries after) = 0.
Proof.
  intros Hrun r Hr. eapply foldM_check_ok in Hrun; [|done].
  unfold assert_transaction_balanced in Hrun.
  destruct (offending _ r) eqn:Ho; [done|]. by apply offending_None.
Qed.

(** The state a body starts in has the database it was given. *)
Lemma begin_run w0 : ∃ r w, (_ ← sql_exec; tx_start) w0 = (r, w) ∧ w_db w = w_db w0.
Proof.
  unfold mbind, M_bind, sql_exec, tx_start.
  destruct (w_faults w0) as [|[e|] l]; simpl; try destruct (w_ticks w0) eqn:Ht; simpl;
    rewrite ?Ht; by eexists _, _.
Qed.

Definition tx_committed {A} (fn : M A) (w : World) (a : A) (w1 : World) : Prop :=
  fn w = (Ok a, w1) ∧ deferred_triggers (w_db w) (w_db w1) = Ok tt.

(** One attempt either leaves the database alone and reports an error, or
    commits the effect of a successful run of the body. *)
Lemma runTx_cases {A} (fn : M A) w0 r w' : runTx fn w0 = (r, w') →
  (is_ok r = false ∧ w_db w' = w_db w0) ∨
  (∃ w a w1, w_db w = w_db w0 ∧ tx_committed fn w a w1 ∧ w_db w' = w_db w1 ∧
     (r = Ok a ∨ is_ok r = false)).
Proof.
  unfold runTx. destruct (begin_run w0) as ([u|e] & w & -> & Hw);
    [|intros [= <- <-]; by left].
  destruct (fn w) as [[a|e] w1] eqn:Hfn; [|intros [= <- <-]; by left].
  destruct (deferred_triggers (w_db w) (w_db w1)) as [[]|e] eqn:Hd; [|intros [= <- <-]; by left].
  unfold next_commit. destruct (w_commits w1) as [|[|e|e] l]; intros [= <- <-];
    first [by left | right; exists w, a, w1; unfold tx_committed; by auto 10].
Qed.

Context {A : Type} (repo : Repository) (fn : M A) (I : DB → Prop).
Hypothesis Hbody : ∀ w a w1, I (w_db w) → tx_committed fn w a w1 → I (w_db w1).

Lemma runTx_inv w : I (w_db w) → I (w_db (runTx fn w).2).
Proof.
  intros HI. destruct (runTx fn w) as [r w'] eqn:Hr.
  apply runTx_cases in Hr as [[_ Hd]|(w0 & a & w1 & Hw & Hc & Hd & _)]; simpl; rewrite Hd; [done|].
  eapply Hbody; [|done]. by rewrite Hw.
Qed.

(** [InTx] preserves what every committed run of the body preserves, whatever
    statements fail, however COMMITs end and however often it retries. *)
Lemma InTx_inv w : I (w_db w) → I (w_db (InTx repo fn w).2).
Proof.
  intros HI. unfold InTx. destruct (retrier repo); [|by apply runTx_inv].
  apply (Retrier_Do_inv _ _ (λ w, I (w_db w))); auto using runTx_inv.
Qed.

(** A success of [InTx] is a committed run of the body. *)
Lemma InTx_ok w a w' : I (w_db w) → InTx repo fn w = (Ok a, w') →
  ∃ w0 w1, I (w_db w0) ∧ tx_committed fn w0 a w1 ∧ w_db w' = w_db w1.
Proof.
  intros HI Hrun.
  assert (∃ w0, I (w_db w0) ∧ runTx fn w0 = (Ok a, w')) as (w0 & HI0 & Hr).
  { unfold InTx in Hrun. destruct (retrier repo); [|by eauto].
    eapply (Retrier_Do_ok _ _ (λ w, I (w_db w))); eauto using runTx_inv. }
  apply runTx_cases in Hr as [[? _]|(w2 & a' & w1 & Hw & Hc & Hd & [[= <-]|?])]; [done| |done].
  exists w2, w1. rewrite Hw. auto.
Qed.
End intx.
