(* ===== verification/ServiceSpec.v ===== *)
(** * What writing one transaction does

    The lemmas that describe the shared part of posting and reversing
    ([write_transaction]): the rows it appends, the header it inserts and the
    balance rows it moves. *)

From S2P Require Import Prelude Errors Money Json Types SagaTypes Events Schema Outbox PgIdem.
From S2P Require Import PgSaga Retry PgLedger Service PgLedgerSpec.
Open Scope string_scope.
Open Scope Z_scope.

(** The net movement of an account over a list of journal rows. *)
Definition account_sum (nb : Direction) (id : UUID) (l : list entry_row) : Z :=
  zsum (λ r, account_signed nb (je_direction r) (je_amount_minor r))
    (filter (λ r, je_account_id r = id) l).

Lemma account_sum_app nb id l1 l2 :
  account_sum nb id (l1 ++ l2)%list = account_sum nb id l1 + account_sum nb id l2.
Proof. unfold account_sum. rewrite list.filter_app. apply zsum_app. Qed.

(** ** Distinct, sorted account ids *)

Lemma distinct_elem seen l x : x ∈ distinct seen l ↔ x ∈ l ∧ x ∉ seen.
Proof.
  revert seen. induction l as [|y l IH]; intros seen; simpl; [set_solver|].
  case_bool_decide; [rewrite IH; set_solver|].
  rewrite elem_of_cons, IH. destruct (decide (x = y)); set_solver.
Qed.

Lemma distinct_NoDup seen l : NoDup (distinct seen l).
Proof.
  revert seen. induction l as [|y l IH]; intros seen; simpl; [constructor|].
  case_bool_decide; [done|]. constructor; [|done]. rewrite distinct_elem. set_solver.
Qed.

Section spec.
Context `{UuidLib}.

Lemma sortedAccountIDs_elem id reqs : id ∈ sortedAccountIDs reqs ↔ id ∈ Er_AccountID <$> reqs.
Proof. unfold sortedAccountIDs. rewrite sort_by_elem, distinct_elem. set_solver. Qed.

Lemma sortedAccountIDs_NoDup reqs : NoDup (sortedAccountIDs reqs).
Proof. unfold sortedAccountIDs. apply sort_by_NoDup, distinct_NoDup. Qed.

(** ** Locking *)

Lemma lockAndValidate_ok adv ids reqs m w w' : lockAndValidate adv ids reqs w = (Ok m, w') →
  same_db w w' ∧
  (∀ id, id ∈ ids → ∃ a b, accounts (w_db w) !! id = Some a ∧
     account_balances (w_db w) !! id = Some b ∧ m !! id = Some (locked_of id a b) ∧
     a_status a = AccountStatusActive) ∧
  (∀ e, e ∈ reqs → check_entry_currency m e = Ok tt).
Proof.
  unfold lockAndValidate. intros Hrun. mrun.
  match goal with Hl : LockAccounts _ _ _ = _ |- _ => apply LockAccounts_ok in Hl as [Hs ->] end.
  split_and!; [done| |by eapply foldM_check_ok].
  intros id Hid.
  match goal with Hc : foldM (λ _ id, check_postable _ id) _ _ = Ok _ |- _ =>
    eapply foldM_check_ok in Hc; [|exact Hid]; unfold check_postable in Hc end.
  destruct (_ !! id) as [la|] eqn:Hm; [|done].
  apply foldl_insert_Some in Hm as Hm'. destruct Hm' as [[Hin Hla]|?]; [|done].
  apply locked_rows_elem in Hin as (id' & a & b & _ & Ha & Hb & ->). simpl in Hla. subst id'.
  exists a, b. split_and!; auto.
  unfold AccountStatus_Postable in *. simpl in *. case_bool_decide; done.
Qed.

(** ** Building the entries *)

Lemma buildEntries_from_ok txID reqs : ∀ i entries w w',
  buildEntries_from i txID reqs w = (Ok entries, w') →
  same_db w w' ∧
  Forall2 (λ e r, Entry_TransactionID e = txID ∧ Entry_AccountID e = Er_AccountID r ∧
             Entry_Direction e = Er_Direction r ∧ Entry_Amount e = Er_Amount r) entries reqs ∧
  Entry_EntrySeq <$> entries = seqZ i (Z.of_nat (length reqs)).
Proof.
  induction reqs as [|r reqs IH]; simpl; intros i entries w w' Hrun; mrun.
  { split_and!; [done|constructor|done]. }
  match goal with Hb : buildEntries_from _ _ _ _ = _ |- _ =>
    apply IH in Hb as ([Hd Hn] & Hf & Hq) end.
  split_and!; [done| |].
  - by constructor.
  - rewrite seqZ_cons by lia. csimpl. rewrite Hq. f_equal. f_equal; lia.
Qed.

(** ** Aggregating and applying *)

Definition entry_sum (nb : Direction) (id : UUID) (l : list JournalEntry) : Z :=
  zsum (λ e, account_signed nb (Entry_Direction e) (amountMinor (Entry_Amount e)))
    (filter (λ e, Entry_AccountID e = id) l).

Lemma aggregate_ok accts entries : ∀ deltas lasts deltas' lasts',
  (∀ e, e ∈ entries → amountMinor (Entry_Amount e) ≤ max_int64) →
  (∀ id, is_int64 (default 0 (deltas !! id))) →
  foldM (aggregate_entry accts) (deltas, lasts) entries = Ok (deltas', lasts') →
  (∀ id, is_int64 (default 0 (deltas' !! id)) ∧
     default 0 (deltas' !! id) =
       default 0 (deltas !! id) + entry_sum (La_NormalBalance (account_at accts id)) id entries) ∧
  (∀ e, e ∈ entries → Direction_Valid (La_NormalBalance (account_at accts (Entry_AccountID e))) = true).
Proof.
  induction entries as [|e entries IH]; simpl; intros deltas lasts deltas' lasts' Hamt Hd Hrun.
  { injection Hrun as <- <-. split; [|set_solver]. intros id. split; [done|]. unfold entry_sum. simpl. lia. }
  apply result_bind_ok in Hrun as ([d1 l1] & He & Hrun). unfold aggregate_entry in He.
  apply result_bind_ok in He as (s & Hs & He).
  apply signedAmount_ok in Hs as (Hv & Hnb & Hpos & ->); [|by apply Hamt; set_solver].
  assert (Hamt_e : amountMinor (Entry_Amount e) ≤ max_int64) by (apply Hamt; set_solver).
  assert (Hsi : is_int64 (account_signed (La_NormalBalance (account_at accts (Entry_AccountID e)))
                            (Entry_Direction e) (amountMinor (Entry_Amount e)))).
  { unfold account_signed, is_int64, min_int64, max_int64 in *. case_bool_decide; lia. }
  rewrite addInt64_spec in He by done.
  destruct (in_int64 _) eqn:Hin in He; [|done]. injection He as <- <-.
  apply in_int64_spec in Hin.
  apply IH in Hrun as [Hall Hdir]; [|set_solver|]; last first.
  { intros id. destruct (decide (id = Entry_AccountID e)) as [->|];
      [by rewrite lookup_insert_eq | by rewrite lookup_insert_ne]. }
  split.
  - intros id. destruct (Hall id) as [Hi Heq]. split; [done|]. rewrite Heq. unfold entry_sum at 2.
    rewrite filter_cons. destruct (decide (Entry_AccountID e = id)) as [<-|Hne].
    + rewrite lookup_insert_eq. autorewrite with zsum. unfold entry_sum. simpl. lia.
    + by rewrite lookup_insert_ne.
  - intros e' [->|?]%elem_of_cons; auto.
Qed.

(** What the loop over the accounts leaves in [account_balances]. *)
Record balances_moved (now : Time) (deltas : UUID → Z) (order : list UUID)
    (acc : gmap UUID account_row) (bals bals' : gmap UUID balance_row) (ebs : list eventBalance) : Prop := {
  bm_other : ∀ id, id ∉ order → bals' !! id = bals !! id;
  bm_moved : ∀ id, id ∈ order → ∃ a b last,
    acc !! id = Some a ∧ bals !! id = Some b ∧
    bals' !! id = Some (apply_delta_row now (deltas id) last b) ∧
    balance_row_ok (apply_delta_row now (deltas id) last b);
  bm_events : Forall2 (λ id eb, ∃ a b', acc !! id = Some a ∧ bals' !! id = Some b' ∧
    eb = mk_eventBalance id (mkMoney (b_available_minor b') (a_currency a)) (b_version b')) order ebs }.

Lemma apply_one_ok accts deltas lasts id eb w w' :
  apply_one accts deltas lasts id w = (Ok eb, w') →
  ∃ a b, accounts (w_db w) !! id = Some a ∧ account_balances (w_db w) !! id = Some b ∧
    let b' := apply_delta_row (w_now w) (default 0 (deltas !! id)) (default uuid_Nil (lasts !! id)) b in
    balance_row_ok b' ∧
    w_db w' = set_account_balances (<[id := b']> (account_balances (w_db w))) (w_db w) ∧
    w_now w' = w_now w ∧
    eb = mk_eventBalance id (mkMoney (b_available_minor b') (a_currency a)) (b_version b').
Proof.
  unfold apply_one. destruct (addInt64 _ _) as [proj ok]. intros Hrun. mrun.
  match goal with Ha : ApplyBalanceDelta _ _ = _ |- _ =>
    apply ApplyBalanceDelta_ok in Ha as (b & a & Hb & Hac & _ & Hok & Hd & Hn & HA & HV) end.
  simpl in *. exists a, b. split_and!; auto. by rewrite HA, HV.
Qed.

Lemma apply_loop_ok accts deltas lasts order : ∀ ebs w w', NoDup order →
  mapM_ (apply_one accts deltas lasts) order w = (Ok ebs, w') →
  ∃ bals', w_db w' = set_account_balances bals' (w_db w) ∧ w_now w' = w_now w ∧
    balances_moved (w_now w) (λ id, default 0 (deltas !! id)) order
      (accounts (w_db w)) (account_balances (w_db w)) bals' ebs.
Proof.
  induction order as [|id order IH]; simpl; intros ebs w w' Hnd Hrun.
  { mrun. exists (account_balances (w_db w)). split_and!; [by destruct (w_db w) | done |].
    split; [done|set_solver|constructor]. }
  apply list.NoDup_cons in Hnd as [Hid Hnd]. mrun.
  match goal with Ha : apply_one _ _ _ _ _ = _ |- _ =>
    apply apply_one_ok in Ha as (a & b & Ha & Hb & Hok & Hd & Hn & ->) end.
  match goal with Hl : mapM_ _ _ _ = _ |- _ =>
    apply IH in Hl as (bals' & Hd' & Hn' & [Ho Hm He]); [|done] end.
  rewrite Hd in *. rewrite Hn in *. simpl in *.
  exists bals'. split_and!; [by rewrite Hd' | congruence |]. split.
  - intros id' Hid'. rewrite Ho by set_solver. rewrite lookup_insert_ne by set_solver. done.
  - intros id' [->|Hin]%elem_of_cons.
    + exists a, b. eexists. split_and!; eauto. by rewrite Ho, lookup_insert_eq.
    + destruct (Hm id' Hin) as (a' & b' & l' & ? & Hb' & ? & ?).
      rewrite lookup_insert_ne in Hb' by set_solver. eauto 10.
  - constructor; [|done]. eexists a, _. rewrite Ho, lookup_insert_eq by done. done.
Qed.

(** ** The whole of [write_transaction] *)

(** A row records a requested leg. *)
Definition row_of_request (txID : UUID) (r : entry_row) (e : EntryRequest) : Prop :=
  je_transaction_id r = txID ∧ je_account_id r = Er_AccountID e ∧ je_direction r = Er_Direction e ∧
  je_amount_minor r = amountMinor (Er_Amount e) ∧ je_currency r = currency (Er_Amount e).

Record tx_written (now : Time) (header : Transaction) (reqs : list EntryRequest)
    (rows : list entry_row) (ebs : list eventBalance) (d d' : DB) : Prop := {
  tw_fresh : transactions d !! Tx_ID header = None;
  tw_key : tx_key_taken (Tx_PrincipalID header) (Tx_IdempotencyKey header) d = false;
  tw_type : TransactionType_Valid (Tx_Type header) = true;
  tw_requests : Forall2 (row_of_request (Tx_ID header)) rows reqs;
  tw_seq : je_entry_seq <$> rows = wrap32 <$> seqZ 0 (Z.of_nat (length reqs));
  tw_rows_ok : ∀ r, r ∈ rows → entry_row_ok r ∧
    ∃ a, accounts d !! je_account_id r = Some a ∧ a_currency a = je_currency r ∧
      Direction_Valid (a_normal_balance a) = true ∧ a_status a = AccountStatusActive;
  tw_ids : NoDup (je_id <$> journal_entries d) → NoDup (je_id <$> (journal_entries d ++ rows)%list);
  tw_keys : NoDup (je_key <$> journal_entries d) → NoDup (je_key <$> (journal_entries d ++ rows)%list);
  tw_db : ∃ bals', d' = set_account_balances bals' (set_journal_entries (journal_entries d ++ rows)%list
      (set_transactions (<[Tx_ID header := transaction_row_of now header]> (transactions d)) d)) ∧
    balances_moved now
      (λ id, account_sum (default "" (a_normal_balance <$> accounts d !! id)) id rows)
      (sortedAccountIDs reqs) (accounts d) (account_balances d) bals' ebs }.

Lemma entry_sum_rows nb id now entries :
  entry_sum nb id entries = account_sum nb id (entry_row_of now <$> entries).
Proof.
  unfold entry_sum, account_sum. induction entries as [|e l IH]; [done|].
  csimpl. rewrite !filter_cons. simpl. destruct (decide _); [|done].
  rewrite !zsum_cons. simpl in *. by rewrite IH.
Qed.

Lemma entry_sum_created nb id t entries :
  entry_sum nb id (Entry_set_CreatedAt t <$> entries) = entry_sum nb id entries.
Proof.
  unfold entry_sum. induction entries as [|e l IH]; [done|].
  csimpl. rewrite !filter_cons. simpl. destruct (decide _); [|done].
  rewrite !zsum_cons. simpl in *. by rewrite IH.
Qed.

Lemma balances_moved_ext now f g order acc bals bals' ebs :
  (∀ id, id ∈ order → f id = g id) →
  balances_moved now f order acc bals bals' ebs → balances_moved now g order acc bals bals' ebs.
Proof.
  intros Hfg [Ho Hm He]. split; [done| |done]. intros id Hid. rewrite <- Hfg by done. by apply Hm.
Qed.

(** The locked copies the service works on are the rows of the database. *)
Definition locks (accts : gmap UUID LockedAccount) (order : list UUID) (d : DB) : Prop :=
  ∀ id, id ∈ order → ∃ a b, accounts d !! id = Some a ∧ account_balances d !! id = Some b ∧
    accts !! id = Some (locked_of id a b) ∧ a_status a = AccountStatusActive.

Lemma applyEntries_ok entries accts order ebs w w' :
  NoDup order → locks accts order (w_db w) →
  (∀ e, e ∈ entries → amountMinor (Entry_Amount e) ≤ max_int64) →
  applyEntries entries accts order w = (Ok ebs, w') →
  ∃ bals', w_db w' = set_account_balances bals' (w_db w) ∧ w_now w' = w_now w ∧
    balances_moved (w_now w)
      (λ id, entry_sum (default "" (a_normal_balance <$> accounts (w_db w) !! id)) id entries)
      order (accounts (w_db w)) (account_balances (w_db w)) bals' ebs ∧
    (∀ e, e ∈ entries → Direction_Valid (La_NormalBalance (account_at accts (Entry_AccountID e))) = true).
Proof.
  intros Hnd Hlock Hamt. unfold applyEntries. intros Hrun. mrun.
  destruct x as [deltas lasts].
  match goal with Hf : foldM _ _ _ = Ok _ |- _ =>
    apply aggregate_ok in Hf as [Hdelta Hdir]; [|done|by intros; rewrite lookup_empty] end.
  apply apply_loop_ok in Hrun as (bals' & Hd & Hn & Hm); [|done].
  exists bals'. split_and!; auto. eapply balances_moved_ext; [|done].
  intros id Hid. simpl. destruct (Hdelta id) as [_ ->]. rewrite lookup_empty. simpl.
  destruct (Hlock id Hid) as (a & b & Ha & Hb & Hm' & _). unfold account_at. by rewrite Ha, Hm'.
Qed.

Lemma write_transaction_ok adv header reqs h ebs w w' :
  reqs ≠ [] → (∀ e, e ∈ reqs → amountMinor (Er_Amount e) ≤ max_int64) →
  write_transaction adv (Tx_ID header) header reqs w = (Ok (h, ebs), w') →
  ∃ rows, tx_written (w_now w) header reqs rows ebs (w_db w) (w_db w') ∧ w_now w' = w_now w ∧
    Tx_ID h = Tx_ID header ∧ Tx_PostedAt h = t_posted_at (transaction_row_of (w_now w) header) ∧
    Tx_CreatedAt h = w_now w ∧ Tx_Status h = Tx_Status header ∧ Tx_Type h = Tx_Type header ∧
    entry_row_of (w_now w) <$> Tx_Entries h = rows.
Proof.
  intros Hne Hamt. unfold write_transaction. intros Hrun. mrun.
  repeat match goal with x : _ * _ |- _ => destruct x end.
  match goal with Hl : lockAndValidate _ _ _ _ = _ |- _ =>
    apply lockAndValidate_ok in Hl as ([Hd1 Hn1] & Hlock & Hcur) end.
  match goal with Hl : InsertTransaction _ _ = _ |- _ =>
    apply InsertTransaction_ok in Hl as (Hfresh & Hkey & Hty & Hd2 & Hn2 & ->) end.
  match goal with Hl : buildEntries _ _ _ = _ |- _ =>
    apply buildEntries_from_ok in Hl as ([Hd3 Hn3] & Hents & Hseq) end.
  match goal with Hl : InsertEntries ?es _ = _ |- _ => rename es into entries;
    assert (Hne' : entries ≠ []) by (intros ->; apply Forall2_nil_inv_l in Hents; done);
    apply InsertEntries_ok in Hl as (Hd4 & Hn4 & -> & Hrows & Hid & Hk); [|done] end.
  match goal with Ha : applyEntries _ _ _ _ = _ |- _ =>
    apply applyEntries_ok in Ha as (bals' & Hd5 & Hn5 & Hmoved & Hdir) end.
  2: apply sortedAccountIDs_NoDup.
  2: { rewrite Hd4, Hd3, Hd2, Hd1. exact Hlock. }
  2: { intros e (e' & -> & Hin)%list_elem_of_fmap. simpl.
       eapply Forall2_elem_l in Hents as (r & Hr & _ & _ & _ & ->); [|done]. auto. }
  simplify_eq.
  rewrite Hn4, Hn3, Hn2, Hn1, Hd4, Hd3, Hd2, Hd1 in *. simpl in *.
  exists (entry_row_of (w_now w) <$> entries). split; [split|split_and!]; try done.
  - apply Forall2_fmap_l. eapply list.Forall2_impl; [done|]. intros e r (Ht & Ha & Hdr & Hm). unfold row_of_request. simpl. by rewrite Hm.
  - rewrite <- Hseq. rewrite <- !list_fmap_compose. done.
  - intros r Hr. destruct (Hrows r Hr) as [Hok Hfk]. split; [done|].
    apply list_elem_of_fmap in Hr as (e & -> & He).
    apply check_entry_fk_ok in Hfk as [_ (a & Ha & Hc)].
    destruct (Forall2_elem_l _ _ _ _ Hents He) as (r & Hr & _ & Hacc & _).
    destruct (Hlock (Entry_AccountID e)) as (a' & b & Ha' & _ & Hm & Hst).
    { rewrite Hacc. by apply sortedAccountIDs_elem, list_elem_of_fmap_2. }
    simpl in *. rewrite Ha in Ha'. injection Ha' as <-. exists a. split_and!; auto.
    specialize (Hdir (Entry_set_CreatedAt (w_now w) e)). unfold account_at in Hdir. simpl in Hdir.
    rewrite Hm in Hdir. by apply Hdir, list_elem_of_fmap_2.
  - exists bals'. split; [done|]. eapply balances_moved_ext; [|done]. intros id _. simpl.
    rewrite entry_sum_created. apply entry_sum_rows.
  - rewrite <- list_fmap_compose. done.
Qed.
End spec.
