(* ===== verification/Invariant.v ===== *)
(** * The invariant of the ledger's tables

    [ledger_wf] is what every committed state satisfies: balances are the signed
    sums of the journal, every transaction sums to zero in every currency, no
    account that forbids it is overdrawn, and the outbox carries, for every
    account, the balance and version its row now has. *)

From S2P Require Import Prelude Errors Money Json Types SagaTypes Events Schema Outbox PgIdem.
From S2P Require Import PgSaga Retry PgLedger Service PgLedgerSpec ServiceSpec.
Open Scope string_scope.
Open Scope Z_scope.

(** The balances a transaction event carries. *)
Definition row_balances (o : outbox_row) : list eventBalance :=
  match Env_Payload (o_payload o) with PTransaction e => te_Balances e | _ => [] end.

Definition is_transaction_event (ty : string) : bool :=
  bool_decide (ty = EventTypeTransactionPosted) || bool_decide (ty = EventTypeTransactionReversed).

(** The columns of an outbox row repeat those of its envelope, and the payload
    is of the kind the event type announces. *)
Definition outbox_row_ok (o : outbox_row) : Prop :=
  Env_EventID (o_payload o) = o_event_id o ∧
  (Env_EventType (o_payload o) = o_event_type o ∧
   (is_transaction_event (o_event_type o) = true → o_aggregate_type o = AggregateTransaction)) ∧
  (is_transaction_event (o_event_type o) = true ↔ ∃ e, Env_Payload (o_payload o) = PTransaction e).

(** A balance an event announced: no newer than the row, and equal to it when
    it is as new. *)
Definition announced (d : DB) (eb : eventBalance) : Prop :=
  ∃ a b, accounts d !! eb_AccountID eb = Some a ∧ account_balances d !! eb_AccountID eb = Some b ∧
    currency (eb_Available eb) = a_currency a ∧ 1 ≤ eb_Version eb ≤ b_version b ∧
    (eb_Version eb = b_version b → amountMinor (eb_Available eb) = b_available_minor b).

Definition tx_rows (id : UUID) (l : list entry_row) : list entry_row :=
  filter (λ r, je_transaction_id r = id) l.

Record ledger_wf (d : DB) : Prop := {
  wf_accounts : ∀ id a, accounts d !! id = Some a →
    currencyPattern (a_currency a) = true ∧ Direction_Valid (a_normal_balance a) = true ∧
    is_Some (account_balances d !! id);
  wf_balance_account : ∀ id b, account_balances d !! id = Some b → is_Some (accounts d !! id);
  wf_balance_sum : ∀ id a b, accounts d !! id = Some a → account_balances d !! id = Some b →
    b_available_minor b = account_sum (a_normal_balance a) id (journal_entries d);
  wf_balance_ok : ∀ id b, account_balances d !! id = Some b → balance_row_ok b;
  wf_untouched : ∀ id b, account_balances d !! id = Some b → b_version b = 0 → b_available_minor b = 0;
  wf_entries : ∀ r, r ∈ journal_entries d → entry_row_ok r ∧ je_amount_minor r ≤ max_int64 ∧
    is_Some (transactions d !! je_transaction_id r) ∧
    ∃ a, accounts d !! je_account_id r = Some a ∧ a_currency a = je_currency r;
  wf_ids : NoDup (je_id <$> journal_entries d);
  wf_seqs : NoDup (je_key <$> journal_entries d);
  wf_zero : ∀ tx cur, tx_currency_sum tx cur (journal_entries d) = 0;
  wf_txs : ∀ id t, transactions d !! id = Some t →
    t_status t ∈ [TransactionStatusPosted; TransactionStatusReversed] ∧ is_Some (t_posted_at t) ∧
    (2 ≤ length (tx_rows id (journal_entries d)))%nat;
  wf_tx_keys : ∀ i j t u k, transactions d !! i = Some t → transactions d !! j = Some u →
    t_principal_id t = t_principal_id u → t_idempotency_key t = Some k → t_idempotency_key u = Some k → i = j;
  wf_event_ids : distinct_rows (outbox d);
  wf_outbox : ∀ o, o ∈ outbox d → outbox_row_ok o;
  wf_announced : ∀ o eb, o ∈ outbox d → eb ∈ row_balances o → announced d eb;
  wf_announced_all : ∀ id b, account_balances d !! id = Some b → 0 < b_version b →
    ∃ o eb, o ∈ outbox d ∧ eb ∈ row_balances o ∧ eb_AccountID eb = id ∧ eb_Version eb = b_version b }.

Lemma empty_DB_wf : ledger_wf empty_DB.
Proof. split; simpl; try (intros; set_solver); try (by constructor); try done. by split; constructor. Qed.

(** ** Steps that do not move money *)

Definition balance_frame (b b' : balance_row) : Prop :=
  b_available_minor b' = b_available_minor b ∧ b_version b' = b_version b ∧
  b_allow_negative b' = b_allow_negative b ∧ (balance_row_ok b → balance_row_ok b').

(** The ledger tables are unchanged but for holds, only events that are not
    about transactions are added, and the projector's tables are unchanged. *)
Record ledger_frame (d d' : DB) : Prop := {
  lf_accounts : accounts d' = accounts d;
  lf_transactions : transactions d' = transactions d;
  lf_journal : journal_entries d' = journal_entries d;
  lf_projections : balance_projections d' = balance_projections d;
  lf_processed : processed_events d' = processed_events d;
  lf_balances : ∀ id, option_Forall2 balance_frame (account_balances d !! id) (account_balances d' !! id);
  lf_outbox : ∃ new, outbox d' = (outbox d ++ new)%list ∧
    (∀ o, o ∈ new → outbox_row_ok o ∧ row_balances o = []) ∧
    (distinct_rows (outbox d) → distinct_rows (outbox d')) }.

Lemma balance_frame_refl b : balance_frame b b.
Proof. done. Qed.

Lemma ledger_frame_refl d : ledger_frame d d.
Proof.
  split; try done.
  - intros id. destruct (account_balances d !! id); constructor. apply balance_frame_refl.
  - exists []. rewrite app_nil_r. set_solver.
Qed.

Lemma ledger_frame_trans d1 d2 d3 : ledger_frame d1 d2 → ledger_frame d2 d3 → ledger_frame d1 d3.
Proof.
  intros [A1 T1 J1 P1 E1 B1 (n1 & O1 & W1 & N1)] [A2 T2 J2 P2 E2 B2 (n2 & O2 & W2 & N2)].
  split; try congruence.
  - intros id. specialize (B1 id). specialize (B2 id).
    destruct B1 as [b1 b2 (?&?&?&?)|]; inversion B2 as [? b3 (?&?&?&?)|]; subst; constructor.
    unfold balance_frame. split_and!; try congruence. auto.
  - exists (n1 ++ n2)%list. split_and!; [by rewrite O2, O1, app_assoc| |auto].
    intros o [?|?]%elem_of_app; auto.
Qed.

(** Equal balance tables are framed. *)
Lemma balances_frame_eq d d' : account_balances d' = account_balances d →
  ∀ id, option_Forall2 balance_frame (account_balances d !! id) (account_balances d' !! id).
Proof. intros -> id. destruct (account_balances d !! id); constructor. apply balance_frame_refl. Qed.

Lemma announced_frame d d' eb : ledger_frame d d' → announced d eb → announced d' eb.
Proof.
  intros [A _ _ _ _ B _] (a & b & Ha & Hb & ? & ? & ?).
  specialize (B (eb_AccountID eb)). rewrite Hb in B. inversion B as [? b' (Hav & Hv & _)|]; subst.
  exists a, b'. rewrite A, Hav, Hv. auto.
Qed.

Lemma ledger_wf_frame d d' : ledger_frame d d' → ledger_wf d → ledger_wf d'.
Proof.
  intros Hf Hwf. pose proof Hf as [A T J _ _ B (new & O & Wn & Nn)].
  assert (Hback : ∀ id b', account_balances d' !! id = Some b' →
    ∃ b, account_balances d !! id = Some b ∧ balance_frame b b').
  { intros id b' Hb'. specialize (B id). rewrite Hb' in B. inversion B; subst; eauto. }
  split; rewrite ?A, ?T, ?J; try apply Hwf.
  - intros id a Ha. destruct (wf_accounts d Hwf id a Ha) as (? & ? & [b Hb]). split_and!; auto.
    specialize (B id). rewrite Hb in B. inversion B; eauto.
  - intros id b' (b & Hb & _)%Hback. by eapply wf_balance_account.
  - intros id a b' Ha (b & Hb & -> & _)%Hback. by eapply wf_balance_sum.
  - intros id b' (b & Hb & _ & _ & _ & Hok)%Hback. by eapply Hok, wf_balance_ok.
  - intros id b' (b & Hb & -> & -> & _)%Hback. by eapply wf_untouched.
  - apply Nn, Hwf.
  - intros o. rewrite O. intros [Ho|Ho]%elem_of_app; [by apply (wf_outbox d Hwf) | by apply Wn].
  - intros o eb. rewrite O. intros [Ho|Ho]%elem_of_app Heb.
    + eapply announced_frame; [done|]. by eapply wf_announced.
    + apply Wn in Ho as [_ Ho]. rewrite Ho in Heb. set_solver.
  - intros id b' (b & Hb & _ & Hv & _)%Hback. rewrite Hv. intros Hpos.
    destruct (wf_announced_all d Hwf id b Hb Hpos) as (o & eb & Ho & ? & ? & ?).
    exists o, eb. split_and!; auto. rewrite O. set_solver.
Qed.

(** ** Appending events *)

Record events_appended (new : list outbox_row) (w w' : World) : Prop := {
  ea_db : w_db w' = set_outbox (outbox (w_db w) ++ new)%list (w_db w);
  ea_now : w_now w' = w_now w;
  ea_ids : distinct_rows (outbox (w_db w)) → distinct_rows (outbox (w_db w) ++ new)%list }.

Lemma events_appended_trans n1 n2 w1 w2 w3 :
  events_appended n1 w1 w2 → events_appended n2 w2 w3 → events_appended (n1 ++ n2)%list w1 w3.
Proof.
  intros [D1 N1 I1] [D2 N2 I2]. rewrite D1 in *. simpl in *. split.
  - rewrite D2. by rewrite app_assoc.
  - congruence.
  - intros Hn. rewrite app_assoc. auto.
Qed.

Lemma outbox_Append_events e u w w' : outbox_Append e w = (Ok u, w') →
  ∃ id eventID, events_appended [outbox_row_of id eventID (w_now w) e] w w' ∧
    Ev_OccurredAt e ≠ time_zero.
Proof.
  intros (id & ev & Hd & Hn & _ & Hid & Hfresh & _ & _ & _ & _ & Ht)%outbox_Append_ok.
  exists id, ev. split; [|done]. split; [done|done|]. intros [Hnd Hni]. split; by apply NoDup_fmap_snoc.
Qed.

Lemma json_Marshal_ok p p' : json_Marshal p = Ok p' → p' = p.
Proof. unfold json_Marshal. case_match; [by intros [= <-] | done]. Qed.

Section events.
Context `{UuidLib}.

Definition quiet (o : outbox_row) : Prop := outbox_row_ok o ∧ row_balances o = [].

Lemma appendBalanceUpdatedEvents_ok header bs at_ : ∀ u w w',
  appendBalanceUpdatedEvents header bs at_ w = (Ok u, w') →
  ∃ new, events_appended new w w' ∧ ∀ o, o ∈ new → quiet o.
Proof.
  unfold appendBalanceUpdatedEvents. intros u w w' Hrun. mrun. rename x into ys.
  match goal with Hm : mapM_ _ _ _ = _ |- _ => rename Hm into Hrun end.
  revert ys w Hrun. induction bs as [|b bs IH]; simpl; intros ys w Hrun; mrun.
  { exists []. split; [|set_solver]. split; rewrite ?app_nil_r; [by destruct (w_db w)|done|done]. }
  match goal with Hl : mapM_ _ _ _ = _ |- _ => apply IH in Hl as (n2 & He2 & Hq2) end.
  match goal with Hl : appendBalanceUpdatedEvent _ _ _ _ = _ |- _ => rename Hl into H1 end.
  unfold appendBalanceUpdatedEvent in H1. mrun.
  match goal with Hj : json_Marshal _ = _ |- _ => apply json_Marshal_ok in Hj as -> end.
  apply outbox_Append_events in H1 as (id & ev & He1 & _).
  eexists (_ ++ n2)%list. split; [by eapply events_appended_trans|].
  intros o [->%list_elem_of_singleton|?]%elem_of_app; [|auto].
  split; [|done]. split_and!; simpl; try done. split; [done|]. by intros (? & ?).
Qed.

Lemma appendTransactionEvent_ok ty header bs rev reason u w w' :
  is_transaction_event ty = true →
  appendTransactionEvent ty header bs rev reason w = (Ok u, w') →
  ∃ o new, events_appended (o :: new) w w' ∧ outbox_row_ok o ∧ row_balances o = bs ∧
    o_event_type o = ty ∧ (∀ o', o' ∈ new → quiet o').
Proof.
  intros Hty. unfold appendTransactionEvent. intros Hrun. mrun.
  match goal with Hj : json_Marshal _ = _ |- _ => apply json_Marshal_ok in Hj as -> end.
  match goal with Ha : AppendEvent _ _ = _ |- _ =>
    apply outbox_Append_events in Ha as (id & ev & He1 & _) end.
  apply appendBalanceUpdatedEvents_ok in Hrun as (new & He2 & Hq).
  eexists _, new. split_and!.
  - by eapply (events_appended_trans [_]).
  - split_and!; simpl; try done. split; [by eauto | done].
  - done.
  - done.
  - done.
Qed.
End events.

(** ** Writing a transaction *)

Lemma tx_currency_sum_app tx cur l1 l2 :
  tx_currency_sum tx cur (l1 ++ l2)%list = tx_currency_sum tx cur l1 + tx_currency_sum tx cur l2.
Proof. unfold tx_currency_sum. rewrite list.filter_app. apply zsum_app. Qed.

Lemma tx_currency_sum_none tx cur l : (∀ r, r ∈ l → je_transaction_id r ≠ tx) → tx_currency_sum tx cur l = 0.
Proof.
  intros Hl. unfold tx_currency_sum. rewrite zsum_filter. apply zsum_zero. intros r Hr.
  rewrite decide_False; [done|]. intros [? _]. by eapply Hl.
Qed.

Lemma account_sum_none nb id l : (∀ r, r ∈ l → je_account_id r ≠ id) → account_sum nb id l = 0.
Proof.
  intros Hl. unfold account_sum. rewrite zsum_filter. apply zsum_zero. intros r Hr.
  rewrite decide_False; [done|]. by apply Hl.
Qed.

Lemma tx_rows_app id l1 l2 : tx_rows id (l1 ++ l2)%list = (tx_rows id l1 ++ tx_rows id l2)%list.
Proof. apply list.filter_app. Qed.

Lemma tx_rows_all id l : (∀ r, r ∈ l → je_transaction_id r = id) → tx_rows id l = l.
Proof. apply filter_all_true. Qed.

Section written.
Context `{UuidLib}.
Context (now : Time) (header : Transaction) (reqs : list EntryRequest)
  (rows : list entry_row) (ebs : list eventBalance) (d d1 d2 : DB).
Hypothesis Hwf : ledger_wf d.
Hypothesis Hw : tx_written now header reqs rows ebs d d1.
Hypothesis Hstatus : Tx_Status header = TransactionStatusPosted.
Hypothesis Hlen : (2 ≤ length reqs)%nat.
Hypothesis Hmax : ∀ e, e ∈ reqs → amountMinor (Er_Amount e) ≤ max_int64.
(** The events of the transaction, as [appendTransactionEvent] leaves them. *)
Context (o : outbox_row) (new : list outbox_row).
Hypothesis Hd2 : d2 = set_outbox (outbox d ++ o :: new)%list d1.
Hypothesis Ho : outbox_row_ok o ∧ row_balances o = ebs.
Hypothesis Hnew : ∀ o', o' ∈ new → quiet o'.
Hypothesis Hnodup : distinct_rows (outbox d ++ o :: new)%list.
(** What the deferred trigger checked. *)
Hypothesis Hzero : ∀ r, r ∈ rows → ∀ cur, tx_currency_sum (je_transaction_id r) cur (journal_entries d1) = 0.

Lemma written_rows_tx r : r ∈ rows → je_transaction_id r = Tx_ID header.
Proof. intros Hr. by destruct (Forall2_elem_l _ _ _ _ (tw_requests _ _ _ _ _ _ _ Hw) Hr) as (? & _ & ? & _). Qed.

Lemma written_rows_account r : r ∈ rows → je_account_id r ∈ sortedAccountIDs reqs.
Proof.
  intros Hr. destruct (Forall2_elem_l _ _ _ _ (tw_requests _ _ _ _ _ _ _ Hw) Hr) as (e & He & _ & -> & _).
  apply sortedAccountIDs_elem. by apply list_elem_of_fmap_2.
Qed.

Lemma written_length : length rows = length reqs.
Proof. eapply Forall2_length, Hw. Qed.

Lemma old_rows_tx r : r ∈ journal_entries d → je_transaction_id r ≠ Tx_ID header.
Proof.
  intros Hr Heq. destruct (wf_entries d Hwf r Hr) as (_ & _ & [t Ht] & _).
  rewrite Heq, (tw_fresh _ _ _ _ _ _ _ Hw) in Ht. done.
Qed.

Lemma written_db : ∃ bals', d2 = set_outbox (outbox d ++ o :: new)%list
    (set_account_balances bals' (set_journal_entries (journal_entries d ++ rows)%list
      (set_transactions (<[Tx_ID header := transaction_row_of now header]> (transactions d)) d))) ∧
  balances_moved now (λ id, account_sum (default "" (a_normal_balance <$> accounts d !! id)) id rows)
    (sortedAccountIDs reqs) (accounts d) (account_balances d) bals' ebs.
Proof. destruct (tw_db _ _ _ _ _ _ _ Hw) as (bals' & Hd1 & Hm). exists bals'. by rewrite Hd2, Hd1. Qed.

(** Where a balance row of the new state comes from. *)
Lemma written_balance id b' : account_balances d2 !! id = Some b' →
  ∃ b, account_balances d !! id = Some b ∧ b_version b ≤ b_version b' ∧
    ((b' = b ∧ id ∉ sortedAccountIDs reqs) ∨
     (id ∈ sortedAccountIDs reqs ∧ b_version b < b_version b' ∧ balance_row_ok b' ∧
      b_available_minor b' = b_available_minor b +
        account_sum (default "" (a_normal_balance <$> accounts d !! id)) id rows)).
Proof.
  destruct written_db as (bals' & -> & [Hother Hmoved _]). simpl. intros Hb'.
  destruct (decide (id ∈ sortedAccountIDs reqs)) as [Hid|Hid].
  - destruct (Hmoved id Hid) as (a & b & last & _ & Hb & Hb2 & Hok). exists b.
    rewrite Hb' in Hb2. injection Hb2 as ->. simpl in *. split_and!; [done|lia|].
    right. split_and!; auto; lia.
  - exists b'. rewrite Hother in Hb' by done. split_and!; [done|lia|auto].
Qed.

Lemma written_balance_exists id : is_Some (account_balances d !! id) → is_Some (account_balances d2 !! id).
Proof.
  destruct written_db as (bals' & -> & [Hother Hmoved _]). simpl. intros Hb.
  destruct (decide (id ∈ sortedAccountIDs reqs)) as [Hid|Hid]; [|by rewrite Hother].
  destruct (Hmoved id Hid) as (? & ? & ? & _ & _ & -> & _). eauto.
Qed.

Lemma written_balance_sum id a b' : accounts d !! id = Some a → account_balances d2 !! id = Some b' →
  b_available_minor b' = account_sum (a_normal_balance a) id (journal_entries d ++ rows)%list.
Proof.
  intros Ha (b & Hb & _ & [[-> Hid]|(Hid & _ & _ & ->)])%written_balance;
    rewrite account_sum_app, <- (wf_balance_sum d Hwf id a b Ha Hb).
  - rewrite account_sum_none; [lia|]. intros r Hr <-. by apply Hid, written_rows_account.
  - by rewrite Ha.
Qed.

Lemma written_entry r : r ∈ (journal_entries d ++ rows)%list →
  entry_row_ok r ∧ je_amount_minor r ≤ max_int64 ∧
  is_Some (<[Tx_ID header := transaction_row_of now header]> (transactions d) !! je_transaction_id r) ∧
  ∃ a, accounts d !! je_account_id r = Some a ∧ a_currency a = je_currency r.
Proof.
  intros [Hr|Hr]%elem_of_app.
  - destruct (wf_entries d Hwf r Hr) as (? & ? & ? & ?). split_and!; auto.
    rewrite lookup_insert_ne; [done|]. intros Heq. by eapply old_rows_tx.
  - destruct (tw_rows_ok _ _ _ _ _ _ _ Hw r Hr) as (? & a & Ha & Hc & _).
    split_and!; auto; [|rewrite (written_rows_tx r Hr), lookup_insert_eq; eauto|by eauto].
    destruct (Forall2_elem_l _ _ _ _ (tw_requests _ _ _ _ _ _ _ Hw) Hr) as (e & He & _ & _ & _ & -> & _).
    by apply Hmax.
Qed.

Lemma written_zero tx cur : tx_currency_sum tx cur (journal_entries d ++ rows)%list = 0.
Proof.
  destruct (decide (tx = Tx_ID header)) as [->|Hne].
  - assert (∃ r, r ∈ rows) as [r Hr].
    { pose proof written_length. destruct rows; simpl in *; [lia|]. exists e. set_solver. }
    destruct (tw_db _ _ _ _ _ _ _ Hw) as (bals' & Hd1 & _).
    specialize (Hzero r Hr cur). rewrite Hd1, (written_rows_tx r Hr) in Hzero. done.
  - rewrite tx_currency_sum_app, (wf_zero d Hwf), tx_currency_sum_none; [done|].
    intros r Hr Heq. apply Hne. rewrite <- Heq. by apply written_rows_tx.
Qed.

Lemma written_tx id t : <[Tx_ID header := transaction_row_of now header]> (transactions d) !! id = Some t →
  t_status t ∈ [TransactionStatusPosted; TransactionStatusReversed] ∧ is_Some (t_posted_at t) ∧
  (2 ≤ length (tx_rows id (journal_entries d ++ rows)%list))%nat.
Proof.
  rewrite tx_rows_app, length_app. intros [[<- <-]|[_ Ht]]%lookup_insert_Some.
  - unfold transaction_row_of. rewrite Hstatus. simpl. split_and!; [set_solver|eauto|].
    rewrite (tx_rows_all _ rows) by apply written_rows_tx. rewrite written_length. lia.
  - destruct (wf_txs d Hwf id t Ht) as (? & ? & ?). split_and!; auto. lia.
Qed.

Lemma written_tx_keys i j t u k :
  <[Tx_ID header := transaction_row_of now header]> (transactions d) !! i = Some t →
  <[Tx_ID header := transaction_row_of now header]> (transactions d) !! j = Some u →
  t_principal_id t = t_principal_id u → t_idempotency_key t = Some k → t_idempotency_key u = Some k → i = j.
Proof.
  intros Hi Hj Hp Hkt Hku.
  pose proof (tx_key_taken_false _ _ _ (tw_key _ _ _ _ _ _ _ Hw)) as Hfree.
  apply lookup_insert_Some in Hi as [[<- <-]|[? Hi]]; apply lookup_insert_Some in Hj as [[<- <-]|[? Hj]];
    simpl in *; auto.
  - exfalso. by eapply (Hfree k j u).
  - exfalso. by eapply (Hfree k i t).
  - by eapply (wf_tx_keys d Hwf).
Qed.

Lemma written_announced_new eb : eb ∈ ebs → announced d2 eb.
Proof.
  destruct written_db as (bals' & Hdb & [Hother Hmoved Hevents]). intros Heb.
  destruct (Forall2_elem_r _ _ _ _ Hevents Heb) as (id & Hid & a & b' & Ha & Hb' & ->).
  exists a, b'. rewrite Hdb. simpl. split_and!; auto; [|lia].
  destruct (Hmoved id Hid) as (_ & b & last & _ & Hb & Hb2 & _). rewrite Hb' in Hb2. injection Hb2 as ->.
  simpl. pose proof (bro_version_pos _ (wf_balance_ok d Hwf _ _ Hb)). lia.
Qed.

Lemma written_announced_old eb : announced d eb → announced d2 eb.
Proof.
  intros (a & b & Ha & Hb & Hc & Hv & Heq).
  destruct (written_balance_exists (eb_AccountID eb)) as [b' Hb']; [by eauto|].
  assert (Hacc : accounts d2 = accounts d) by (by destruct written_db as (? & -> & _)).
  exists a, b'. rewrite Hacc. split_and!; auto;
    apply written_balance in Hb' as (b0 & Hb0 & Hle & Hcase); rewrite Hb in Hb0; injection Hb0 as <-; try lia.
  destruct Hcase as [[-> _]|(_ & Hlt & _)]; [done | lia].
Qed.

Lemma written_announced_all id b' : account_balances d2 !! id = Some b' → 0 < b_version b' →
  ∃ o' eb, o' ∈ outbox d2 ∧ eb ∈ row_balances o' ∧ eb_AccountID eb = id ∧ eb_Version eb = b_version b'.
Proof.
  intros Hb' Hpos. destruct Ho as [_ Hobal].
  assert (Hout : outbox d2 = (outbox d ++ o :: new)%list) by (by destruct written_db as (? & -> & _)).
  destruct (written_balance id b' Hb') as (b & Hb & _ & [[-> _]|(Hid & _)]).
  - destruct (wf_announced_all d Hwf id b Hb Hpos) as (o' & eb & Ho' & ? & ? & ?).
    exists o', eb. rewrite Hout. set_solver.
  - destruct written_db as (bals' & Hdb & [_ _ Hevents]).
    destruct (Forall2_elem_l _ _ _ _ Hevents Hid) as (eb & Heb & a & b2 & _ & Hb2 & ->).
    rewrite Hdb in Hb'. simpl in Hb'. rewrite Hb' in Hb2. injection Hb2 as <-.
    eexists o, _. rewrite Hout, Hobal. split_and!; [set_solver|exact Heb|done|done].
Qed.

Lemma ledger_wf_written : ledger_wf d2.
Proof.
  destruct written_db as (bals' & Hdb & _). destruct Ho as [Hook Hobal].
  assert (Hacc : accounts d2 = accounts d) by by rewrite Hdb.
  assert (Hj : journal_entries d2 = (journal_entries d ++ rows)%list) by by rewrite Hdb.
  assert (Ht : transactions d2 = <[Tx_ID header := transaction_row_of now header]> (transactions d)) by by rewrite Hdb.
  assert (Hout : outbox d2 = (outbox d ++ o :: new)%list) by by rewrite Hdb.
  clear Hdb. split; rewrite ?Hacc, ?Hj, ?Ht.
  - intros id a Ha. destruct (wf_accounts d Hwf id a Ha) as (? & ? & ?).
    split_and!; auto using written_balance_exists.
  - intros id b' (b & Hb & _)%written_balance. by eapply wf_balance_account.
  - exact written_balance_sum.
  - intros id b' (b & Hb & _ & [[-> _]|(_ & _ & ? & _)])%written_balance; [by eapply wf_balance_ok | done].
  - intros id b' (b & Hb & _ & [[-> _]|(_ & Hlt & _ & _)])%written_balance Hv; [by eapply wf_untouched|].
    pose proof (bro_version_pos _ (wf_balance_ok d Hwf _ _ Hb)). lia.
  - exact written_entry.
  - apply (tw_ids _ _ _ _ _ _ _ Hw), Hwf.
  - apply (tw_keys _ _ _ _ _ _ _ Hw), Hwf.
  - exact written_zero.
  - exact written_tx.
  - exact written_tx_keys.
  - by rewrite Hout.
  - intros o'. rewrite Hout.
    intros [Ho'|[->|Ho']%elem_of_cons]%elem_of_app; [by apply (wf_outbox d Hwf)|done|by apply Hnew].
  - intros o' eb. rewrite Hout. intros [Ho'|[->|Ho']%elem_of_cons]%elem_of_app Heb.
    + eapply written_announced_old, wf_announced; eauto.
    + rewrite Hobal in Heb. by apply written_announced_new.
    + apply Hnew in Ho' as [_ Hq]. rewrite Hq in Heb. set_solver.
  - exact written_announced_all.
Qed.
End written.
