(* ===== verification/Validate.v ===== *)
(** * Which requests [TransactionRequest.validate] accepts

    (internal/ledger/service.go, the method [validate]) *)

From S2P Require Import Prelude Errors Money Json Types SagaTypes Events Schema Outbox PgIdem.
From S2P Require Import PgSaga Retry PgLedger Service.
Open Scope string_scope.
Open Scope Z_scope.

(** What the code asks of one leg of a transaction in the currency [cur]. *)
Record entry_valid (cur : string) (e : EntryRequest) : Prop := {
  ev_account : Er_AccountID e ≠ uuid_Nil;
  ev_direction : Direction_Valid (Er_Direction e) = true;
  ev_pattern : currencyPattern (currency (Er_Amount e)) = true;
  ev_positive : 0 < amountMinor (Er_Amount e);
  ev_currency : currency (Er_Amount e) = cur }.

Definition debit_total (l : list EntryRequest) : Z :=
  zsum (λ e, if bool_decide (Er_Direction e = DirectionDebit) then amountMinor (Er_Amount e) else 0) l.
Definition credit_total (l : list EntryRequest) : Z :=
  zsum (λ e, if bool_decide (Er_Direction e = DirectionDebit) then 0 else amountMinor (Er_Amount e)) l.

Lemma Money_Add_same cur a b : is_int64 a → is_int64 b →
  Money_Add (mkMoney a cur) (mkMoney b cur) =
  if in_int64 (a + b) then Ok (mkMoney (a + b) cur) else Err ErrMoneyOverflow.
Proof.
  intros Ha Hb. unfold Money_Add, Money_sameCurrency. simpl.
  rewrite bool_decide_eq_false_2 by auto. simpl. rewrite addInt64_spec by done. by destruct (in_int64 _).
Qed.

Lemma bind_guard_iff {A} (b : bool) e (m : res A) a (P Q : Prop) :
  (b = true ↔ P) → (P → (m = Ok a ↔ Q)) → ((_ ← guard_err b e; m) = Ok a ↔ P ∧ Q).
Proof. destruct b; simpl; naive_solver. Qed.

Lemma True_and_eq {A} {x y : A} {Q : Prop} : x = y → (x = y ∧ Q) ↔ Q.
Proof. naive_solver. Qed.

Lemma validate_entry_iff cur D C e acc :
  0 ≤ D ≤ max_int64 → 0 ≤ C ≤ max_int64 → is_int64 (amountMinor (Er_Amount e)) →
  validate_entry cur (mkMoney D cur, mkMoney C cur) e = Ok acc ↔
  entry_valid cur e ∧
  (let D' := D + debit_total [e] in let C' := C + credit_total [e] in
   D' ≤ max_int64 ∧ C' ≤ max_int64 ∧ acc = (mkMoney D' cur, mkMoney C' cur)).
Proof.
  intros HD HC Hint. unfold validate_entry, debit_total, credit_total. autorewrite with zsum.
  assert (Hiv : entry_valid cur e ↔ Er_AccountID e ≠ uuid_Nil ∧ Direction_Valid (Er_Direction e) = true ∧
    currencyPattern (currency (Er_Amount e)) = true ∧ 0 < amountMinor (Er_Amount e) ∧
    currency (Er_Amount e) = cur).
  { split; [intros []; auto | intros (?&?&?&?&?); by split]. }
  rewrite Hiv. clear Hiv. rewrite <- !(assoc and).
  apply bind_guard_iff; [by rewrite bool_decide_eq_true|intros _].
  apply bind_guard_iff; [done|intros _].
  unfold Money_Validate. destruct (currencyPattern _) eqn:Hp; simpl; [|naive_solver].
  rewrite (True_and_eq eq_refl).
  apply bind_guard_iff; [by rewrite negb_true_iff, Z.leb_gt|intros Hpos].
  apply bind_guard_iff; [by rewrite bool_decide_eq_true|intros Hcur].
  destruct (Er_Amount e) as [amt c] eqn:He. simpl in *. subst c.
  destruct (bool_decide (Er_Direction e = DirectionDebit)); simpl;
    rewrite Money_Add_same by (unfold is_int64, min_int64, max_int64 in *; lia);
    rewrite !Z.add_0_r; destruct (in_int64 _) eqn:Hin; simpl;
    [apply in_int64_spec in Hin | apply not_true_iff_false in Hin; rewrite in_int64_spec in Hin
    |apply in_int64_spec in Hin | apply not_true_iff_false in Hin; rewrite in_int64_spec in Hin];
    unfold min_int64, max_int64, is_int64 in *.
  - split; [intros [= <-]; split_and!; auto; lia | by intros (_ & _ & ->)].
  - split; [done|]. intros (? & ? & _). exfalso. lia.
  - split; [intros [= <-]; split_and!; auto; lia | by intros (_ & _ & ->)].
  - split; [done|]. intros (? & ? & _). exfalso. lia.
Qed.

Lemma validate_loop_iff cur l : ∀ D C acc,
  0 ≤ D ≤ max_int64 → 0 ≤ C ≤ max_int64 → (∀ e, e ∈ l → is_int64 (amountMinor (Er_Amount e))) →
  foldM (validate_entry cur) (mkMoney D cur, mkMoney C cur) l = Ok acc ↔
  Forall (entry_valid cur) l ∧ D + debit_total l ≤ max_int64 ∧ C + credit_total l ≤ max_int64 ∧
  acc = (mkMoney (D + debit_total l) cur, mkMoney (C + credit_total l) cur).
Proof.
  induction l as [|e l IH]; intros D C acc HD HC Hint.
  { unfold debit_total, credit_total. simpl. rewrite !Z.add_0_r. split.
    - intros [= <-]. split_and!; [constructor|lia|lia|done].
    - by intros (_ & _ & _ & ->). }
  assert (Hd : debit_total (e :: l) = debit_total [e] + debit_total l) by (unfold debit_total; autorewrite with zsum; lia).
  assert (Hc : credit_total (e :: l) = credit_total [e] + credit_total l) by (unfold credit_total; autorewrite with zsum; lia).
  cbn [foldM]. rewrite result_bind_ok, Hd, Hc, list.Forall_cons.
  assert (Hpos : Forall (entry_valid cur) l → 0 ≤ debit_total l ∧ 0 ≤ credit_total l).
  { rewrite list.Forall_forall. intros Hall.
    split; apply zsum_nonneg; intros x Hx; case_bool_decide; try lia; destruct (Hall x Hx); lia. }
  assert (Hpe : entry_valid cur e → 0 ≤ debit_total [e] ∧ 0 ≤ credit_total [e]).
  { intros []. unfold debit_total, credit_total. autorewrite with zsum. case_bool_decide; lia. }
  split.
  - intros (acc' & He & Hl). apply validate_entry_iff in He as (Hv & HD' & HC' & ->); [|done|done|apply Hint; set_solver].
    destruct (Hpe Hv). apply IH in Hl as (? & ? & ? & ->); [|lia|lia|set_solver].
    rewrite !Z.add_assoc. split_and!; auto; lia.
  - intros ([Hv Hall] & HD' & HC' & ->). destruct (Hpe Hv). destruct (Hpos Hall).
    eexists. split.
    + apply validate_entry_iff; [done|done|apply Hint; set_solver|]. split; [done|]. split_and!; [lia|lia|reflexivity].
    + apply IH; [lia|lia|set_solver|]. rewrite !Z.add_assoc in *. split_and!; auto.
Qed.

(** C32: on 64-bit amounts, [validate] accepts exactly the requests of a known
    type with at least two legs, each naming an account, a valid direction and a
    positive amount in one and the same well-formed currency, whose debits and
    credits have equal totals that fit in 64 bits; it never accepts a request
    whose totals only agree after wrapping around. *)
Theorem validate_accepts_iff req :
  (∀ e, e ∈ Rq_Entries req → is_int64 (amountMinor (Er_Amount e))) →
  TransactionRequest_validate req = Ok tt ↔
  TransactionType_Valid (Rq_Type req) = true ∧ (2 ≤ length (Rq_Entries req))%nat ∧
  debit_total (Rq_Entries req) = credit_total (Rq_Entries req) ∧
  debit_total (Rq_Entries req) ≤ max_int64 ∧
  ∃ cur, Forall (entry_valid cur) (Rq_Entries req).
Proof.
  intros Hint. unfold TransactionRequest_validate.
  apply bind_guard_iff; [done|intros _].
  apply bind_guard_iff; [by rewrite negb_true_iff, Nat.ltb_ge|intros Hlen].
  destruct (Rq_Entries req) as [|e l] eqn:Hl; [simpl in Hlen; lia|]. cbv zeta.
  set (cur := currency (Er_Amount e)). unfold NewMoney.
  destruct (currencyPattern cur) eqn:Hp; simpl negb; cbn iota; cbn [mbind result_bind].
  - rewrite result_bind_ok. split.
    + intros (acc & Hacc & Heq%guard_err_ok).
      apply validate_loop_iff in Hacc as (Hall & Hd & Hc & ->); [|done|done|done].
      unfold Money_Equal in Heq. cbn [fst snd amountMinor currency] in Heq. bool_to_prop.
      rewrite !Z.add_0_l in *. split_and!; eauto.
    + intros (Heq & Hmax & cur' & Hall).
      assert (cur' = cur) as -> by (apply list.Forall_cons in Hall as [[] _]; by subst).
      eexists. split; [apply validate_loop_iff; [done|done|done|]; split_and!; eauto; lia|].
      apply guard_err_ok. unfold Money_Equal. cbn [fst snd amountMinor currency].
      rewrite Heq, Z.eqb_refl. by rewrite bool_decide_eq_true_2.
  - split; [done|]. intros (_ & _ & cur' & Hall). apply list.Forall_cons in Hall as [[] _]. unfold cur in Hp. congruence.
Qed.

Lemma validate_accepts_iff_witness :
  TransactionRequest_validate (mkTransactionRequest "p" "TRANSFER" None []
    [mkEntryRequest 1%N "DEBIT" (mkMoney 5 "INR"); mkEntryRequest 2%N "CREDIT" (mkMoney 5 "INR")]
    None None None) = Ok tt.
Proof.
  apply (validate_accepts_iff (mkTransactionRequest "p" "TRANSFER" None []
    [mkEntryRequest 1%N "DEBIT" (mkMoney 5 "INR"); mkEntryRequest 2%N "CREDIT" (mkMoney 5 "INR")]
    None None None)); simpl.
  - intros e He. repeat (apply elem_of_cons in He as [->|He]; [split; vm_compute; congruence|]).
    by apply not_elem_of_nil in He.
  - split_and!; [done|lia|done|vm_compute; congruence|]. exists "INR".
    repeat constructor; simpl; try done; lia.
Defined.

(** ** Consequences the posting path uses *)

Lemma transaction_signed_split l :
  zsum (λ e, transaction_signed (Er_Direction e) (amountMinor (Er_Amount e))) l = debit_total l - credit_total l.
Proof.
  unfold debit_total, credit_total, transaction_signed.
  induction l as [|e l IH]; [done|]. autorewrite with zsum. case_bool_decide; lia.
Qed.
