(* ===== verification/Posting.v ===== *)
(** * Posting and reversing, end to end

    The effect of a committed run of the bodies of [postTransaction] and
    [doReverse], and that both keep the invariant of the ledger's tables. *)

From S2P Require Import Prelude Errors Money Json Types SagaTypes Events Schema Outbox PgIdem.
From S2P Require Import PgSaga Retry PgLedger Service PgLedgerSpec ServiceSpec Invariant Validate.
Open Scope string_scope.
Open Scope Z_scope.

(** ** Routing *)

(** A routed leg keeps its direction and amount and goes to the account named
    or to one of its active shards. *)
Definition routed (d : DB) (e' e : EntryRequest) : Prop :=
  Er_Direction e' = Er_Direction e ∧ Er_Amount e' = Er_Amount e ∧
  (Er_AccountID e' = Er_AccountID e ∨
   ∃ a, accounts d !! Er_AccountID e' = Some a ∧ a_parent_account_id a = Some (Er_AccountID e) ∧
     a_status a = AccountStatusActive).

Definition shard_of (d : DB) (parent shard : UUID) : Prop :=
  ∃ a, accounts d !! shard = Some a ∧ a_parent_account_id a = Some parent ∧
    a_status a = AccountStatusActive.

Lemma shard_rows_elem ids m x : x ∈ shard_rows ids m →
  ∃ a, m !! x.1.2 = Some a ∧ a_parent_account_id a = Some x.1.1 ∧ a_status a = AccountStatusActive.
Proof.
  unfold shard_rows. rewrite sort_by_elem, list_elem_of_omap. intros ([id a] & Hin & Hx). simpl in *.
  apply elem_of_map_to_list in Hin.
  destruct (a_parent_account_id a) as [p|] eqn:Hp; [|done].
  destruct (a_shard_index a); [|done]. case_match eqn:Hc; [|done]. injection Hx as <-. bool_to_prop.
  exists a. done.
Qed.

(** Every list the query's rows are grouped into is non-empty and holds shards
    of its key. *)
Definition shards_ok (d : DB) (m : gmap UUID (list UUID)) : Prop :=
  ∀ parent l, m !! parent = Some l → l ≠ [] ∧ ∀ s, s ∈ l → shard_of d parent s.

Lemma shards_ok_group d (rows : list (UUID * UUID * Z)) : ∀ m : gmap UUID (list UUID), shards_ok d m →
  (∀ x, x ∈ rows → shard_of d x.1.1 x.1.2) →
  shards_ok d (foldl (λ (m : gmap UUID (list UUID)) (x : UUID * UUID * Z),
    <[x.1.1 := (default [] (m !! x.1.1) ++ [x.1.2])%list]> m) m rows).
Proof.
  induction rows as [|x rows IH]; simpl; intros m Hm Hrows; [done|].
  apply IH; [|set_solver]. intros p l [[<- <-]|[_ Hl]]%lookup_insert_Some; [|by apply Hm].
  split; [by destruct (default [] _)|]. intros s [Hs| ->%list_elem_of_singleton]%elem_of_app; [|apply Hrows; set_solver].
  destruct (m !! x.1.1) as [l|] eqn:Hl; [|set_solver]. by eapply Hm.
Qed.

Lemma ResolveShards_ok ids s w w' : ResolveShards ids w = (Ok s, w') → shards_ok (w_db w) s.
Proof.
  unfold ResolveShards. intros Hrun. mrun. simpl. apply shards_ok_group; [done|].
  intros y Hy. by eapply shard_rows_elem.
Qed.

Lemma choose_shards_ok d l : ∀ chosen chosen' w w',
  (∀ kv, kv ∈ l → kv.2 ≠ [] ∧ ∀ s, s ∈ kv.2 → shard_of d kv.1 s) →
  (∀ p s, chosen !! p = Some s → shard_of d p s) →
  foldlM choose_shard chosen l w = (Ok chosen', w') →
  same_db w w' ∧ ∀ p s, chosen' !! p = Some s → shard_of d p s.
Proof.
  induction l as [|[p ids] l IH]; simpl; intros chosen chosen' w w' Hl Hc Hrun; [mrun; done|].
  mrun. match goal with Hs : choose_shard _ _ _ = _ |- _ => rename Hs into H1 end.
  unfold choose_shard in H1. mrun. simpl in *.
  match goal with Hr : rand_IntN _ _ = _ |- _ => apply rand_IntN_ok in Hr as (l' & -> & Hlt) end.
  destruct (Hl (p, ids)) as [Hne Hsh]; [set_solver|]. simpl in *.
  apply IH in Hrun as [Hs Hres]; [|set_solver|]; [done|].
  intros q s [[<- <-]|[_ Hq]]%lookup_insert_Some; [|auto].
  apply Hsh. apply list_elem_of_In, nth_In. destruct ids; [done|]. simpl in *. lia.
Qed.

Lemma route_entry_ok d (chosen : gmap UUID UUID) e :
  (∀ p s, chosen !! p = Some s → shard_of d p s) → routed d (route_entry chosen e) e.
Proof.
  intros Hc. unfold route_entry, routed.
  destruct (chosen !! Er_AccountID e) eqn:Hl; simpl; [|by auto].
  split_and!; auto. right. by apply Hc.
Qed.

Section posting.
Context `{UuidLib}.

Lemma routeToShards_ok entries entries' w w' : routeToShards entries w = (Ok entries', w') →
  same_db w w' ∧ Forall2 (routed (w_db w)) entries' entries.
Proof.
  unfold routeToShards. intros Hrun. mrun.
  match goal with Hr : ResolveShards _ _ = _ |- _ =>
    pose proof (ResolveShards_ok _ _ _ _ Hr) as Hs; apply ResolveShards_same in Hr as [Hd Hn] end.
  case_bool_decide; mrun.
  { split; [done|]. apply Forall_Forall2_diag, list.Forall_forall. intros e _. unfold routed. auto. }
  match goal with Hc : foldlM _ _ _ _ = _ |- _ => apply (choose_shards_ok (w_db w)) in Hc as [[Hd' Hn'] Hch] end.
  - split; [split; congruence|]. apply Forall2_fmap_l, Forall_Forall2_diag, list.Forall_forall. intros e _.
    by apply route_entry_ok.
  - intros [p l] Hin%elem_of_map_to_list. by apply Hs.
  - intros p s. by rewrite lookup_empty.
Qed.

(** ** Completing the idempotency key *)

(** Nothing but the key's own row changes, from IN_PROGRESS to COMPLETED with the
    response rendered for the transaction. *)
Definition key_completed (idem : option Idempotent) (txID : UUID) (d d' : DB) : Prop :=
  match idem with
  | None => d' = d
  | Some i => ∃ r code body,
      (∃ render h, Idem_Render i = Some render ∧ Tx_ID h = txID ∧ render h = Ok (code, body)) ∧
      idempotency_keys d !! (Idem_PrincipalID i, Idem_Key i) = Some r ∧
      ik_status r = IStatusInProgress ∧
      d' = set_idempotency_keys (<[(Idem_PrincipalID i, Idem_Key i) :=
             ik_finish IStatusCompleted code body (Some txID) r]> (idempotency_keys d)) d
  end.

Lemma completeIdempotency_ok idem h u w w' : completeIdempotency idem h w = (Ok u, w') →
  key_completed idem (Tx_ID h) (w_db w) (w_db w').
Proof.
  unfold completeIdempotency. destruct idem as [i|]; intros Hrun; [|by mrun].
  destruct (Idem_Render i) as [render|] eqn:Hren; [|by mrun]. mrun.
  apply pgidem_Complete_ok in Hrun as (r & Hr & Hs & Hd & _). simpl in *.
  match goal with Hx : render h = Ok ?p |- _ => destruct p as [code body] end.
  exists r, code, body. eauto 10.
Qed.

Lemma key_completed_frame idem tx d d' : key_completed idem tx d d' → ledger_frame d d'.
Proof.
  unfold key_completed. destruct idem; [|by intros ->; apply ledger_frame_refl].
  intros (r & code & body & _ & _ & _ & ->). split; try done; simpl.
  - intros id. apply (balances_frame_eq d d). done.
  - exists []. rewrite app_nil_r. set_solver.
Qed.

(** ** Recorders *)

(** What the code that supplies a recorder promises: it leaves the ledger's own
    tables alone, apart from holds, and the idempotency keys. *)
Definition recorder_ok (r : option Recorder) : Prop :=
  ∀ f, r = Some f → ∀ t u w w', f t w = (Ok u, w') →
    ledger_frame (w_db w) (w_db w') ∧ idempotency_keys (w_db w') = idempotency_keys (w_db w).

Lemma recorder_none : recorder_ok None.
Proof. by intros f. Qed.

Lemma runRecorder_ok r t u w w' : recorder_ok r → runRecorder r t w = (Ok u, w') →
  ledger_frame (w_db w) (w_db w') ∧ idempotency_keys (w_db w') = idempotency_keys (w_db w).
Proof.
  intros Hr. unfold runRecorder. destruct r as [f|]; intros Hrun; [by eapply Hr|].
  mrun. split; [apply ledger_frame_refl | done].
Qed.

(** ** The committed effect of a posting or a reversal *)

Definition mark_reversed (reversed : option UUID) (d d' : DB) : Prop :=
  match reversed with
  | None => d' = d
  | Some id => ∃ t, transactions d !! id = Some t ∧ t_status t = TransactionStatusPosted ∧
      d' = set_transactions (<[id := set_status TransactionStatusReversed t]> (transactions d)) d
  end.

(** From [d] to [d']: the transaction is written, the one it reverses (if any)
    is marked, its events are appended, the recorder runs and the idempotency
    key is completed. *)
Record tx_recorded (now : Time) (header : Transaction) (reqs : list EntryRequest)
    (idem : option Idempotent) (reversed : option UUID) (rows : list entry_row)
    (ebs : list eventBalance) (d d' : DB) : Prop := {
  tr_steps : ∃ d1 d2 o new dr,
    tx_written now header reqs rows ebs d d1 ∧
    mark_reversed reversed d1 d2 ∧
    outbox_row_ok o ∧ row_balances o = ebs ∧ (∀ o', o' ∈ new → quiet o') ∧
    (distinct_rows (outbox d) → distinct_rows (outbox d ++ o :: new)%list) ∧
    ledger_frame (set_outbox (outbox d ++ o :: new)%list d2) dr ∧
    idempotency_keys dr = idempotency_keys d ∧
    key_completed idem (Tx_ID header) dr d' }.

Lemma mark_reversed_keep reversed d d' : mark_reversed reversed d d' →
  accounts d' = accounts d ∧ journal_entries d' = journal_entries d ∧ outbox d' = outbox d ∧
  account_balances d' = account_balances d ∧ idempotency_keys d' = idempotency_keys d.
Proof. destruct reversed; simpl; [intros (t & _ & _ & ->) | intros ->]; done. Qed.

Lemma tx_written_keep now header reqs rows ebs d d1 : tx_written now header reqs rows ebs d d1 →
  outbox d1 = outbox d ∧ idempotency_keys d1 = idempotency_keys d ∧ accounts d1 = accounts d ∧
  journal_entries d1 = (journal_entries d ++ rows)%list.
Proof. intros Hw. destruct (tw_db _ _ _ _ _ _ _ Hw) as (bals' & -> & _). done. Qed.

Lemma post_body_ok adv txID req h w w' :
  recorder_ok (Rq_Record req) → Rq_Entries req ≠ [] →
  (∀ e, e ∈ Rq_Entries req → amountMinor (Er_Amount e) ≤ max_int64) →
  post_body adv txID req w = (Ok h, w') →
  ∃ reqs rows ebs, Forall2 (routed (w_db w)) reqs (Rq_Entries req) ∧
    tx_recorded (w_now w) (post_header txID req) reqs (Rq_Idempotency req) None rows ebs (w_db w) (w_db w') ∧
    Tx_ID h = txID ∧ entry_row_of (w_now w) <$> Tx_Entries h = rows.
Proof.
  intros Hrec Hne Hmax. unfold post_body. intros Hrun. mrun.
  match goal with Hr : routeToShards _ _ = _ |- _ => apply routeToShards_ok in Hr as [[Hd0 Hn0] Hroute] end.
  destruct x1 as [h1 ebs]. mrun.
  match goal with Hr : write_transaction _ _ _ ?rs _ = _ |- _ => rename rs into reqs;
    apply (write_transaction_ok adv (post_header txID req)) in Hr
      as (rows & Hw & Hn1 & Hid & Hpost & _ & _ & _ & Hrows) end.
  2: { intros ->. apply Forall2_nil_inv_l in Hroute. done. }
  2: { intros e He. destruct (Forall2_elem_l _ _ _ _ Hroute He) as (e' & He' & _ & -> & _). auto. }
  match goal with Hr : appendTransactionEvent _ _ _ _ _ _ = _ |- _ =>
    apply appendTransactionEvent_ok in Hr as (o & new & [Hd2 Hn2 Hnd] & Hok & Hbal & _ & Hq); [|done] end.
  match goal with Hr : runRecorder _ _ _ = _ |- _ => apply runRecorder_ok in Hr as [Hfr Hik]; [|done] end.
  match goal with Hr : completeIdempotency _ _ _ = _ |- _ => apply completeIdempotency_ok in Hr as Hkey end.
  rewrite Hd0, Hn0 in *. destruct (tx_written_keep _ _ _ _ _ _ _ Hw) as (Ho & Hi & _ & _).
  rewrite Hid in Hkey. rewrite Ho in *. rewrite Hd2 in *. simpl in *.
  exists reqs, rows, ebs. split_and!; auto. split.
  eexists _, _, o, new, _. split_and!; eauto; [done|]. by rewrite Hik.
Qed.

(** The requests a reversal writes: the mirrored legs of the original. *)
Definition mirrored (txID : UUID) (d : DB) : list EntryRequest :=
  mirror <$> (entry_of_row <$> entries_of txID (journal_entries d)).

Lemma entries_of_perm tx l : entries_of tx l ≡ₚ tx_rows tx l.
Proof. apply sort_by_perm. Qed.

Lemma mirrored_length txID d : length (mirrored txID d) = length (tx_rows txID (journal_entries d)).
Proof. unfold mirrored. rewrite !length_fmap. by rewrite entries_of_perm. Qed.

Lemma mirrored_max txID d e : ledger_wf d → e ∈ mirrored txID d → amountMinor (Er_Amount e) ≤ max_int64.
Proof.
  intros Hwf (e' & -> & (r & -> & Hr)%list_elem_of_fmap)%list_elem_of_fmap. simpl.
  rewrite entries_of_perm in Hr. apply list_elem_of_filter in Hr as [_ Hr].
  by destruct (wf_entries d Hwf r Hr) as (_ & ? & _).
Qed.

Lemma reverse_body_ok adv revID txID reason idem record h w w' :
  ledger_wf (w_db w) → recorder_ok record →
  reverse_body adv revID txID reason idem record w = (Ok h, w') →
  ∃ t rows ebs, transactions (w_db w) !! txID = Some t ∧ t_status t = TransactionStatusPosted ∧
    tx_recorded (w_now w) (reverse_header revID txID reason idem) (mirrored txID (w_db w)) idem (Some txID)
      rows ebs (w_db w) (w_db w') ∧
    Tx_ID h = revID.
Proof.
  intros Hwf Hrec. unfold reverse_body. intros Hrun. mrun.
  match goal with Hr : LoadTransactionForUpdate _ _ = _ |- _ => unfold LoadTransactionForUpdate in Hr;
    rewrite map_err_ok in Hr; apply scan_transaction_ok in Hr as (t & Ht & [Hd0 Hn0] & Hst & _ & Hent) end.
  destruct (bool_decide (Tx_Status x = TransactionStatusReversed)); mrun.
  destruct (bool_decide (Tx_Status x = TransactionStatusPosted)) eqn:Hposted; mrun. bool_to_prop.
  match goal with p : Transaction * list eventBalance |- _ => destruct p as [h1 ebs] end. mrun.
  rewrite Hent in *.
  match goal with Hr : write_transaction _ _ _ _ _ = _ |- _ =>
    apply (write_transaction_ok adv (reverse_header revID txID reason idem)) in Hr
      as (rows & Hw & Hn1 & Hid & _) end.
  2: { intros Hnil%fmap_nil_inv. done. }
  2: { intros e He. by eapply (mirrored_max txID (w_db w)). }
  match goal with Hr : MarkReversed _ _ = _ |- _ => apply MarkReversed_ok in Hr as (t' & Ht' & Hst' & Hd2 & Hn2) end.
  match goal with Hr : appendTransactionEvent _ _ _ _ _ _ = _ |- _ =>
    apply appendTransactionEvent_ok in Hr as (o & new & [Hd3 Hn3 Hnd] & Hok & Hbal & _ & Hq); [|done] end.
  match goal with Hr : runRecorder _ _ _ = _ |- _ => apply runRecorder_ok in Hr as [Hfr Hik]; [|done] end.
  match goal with Hr : completeIdempotency _ _ _ = _ |- _ => apply completeIdempotency_ok in Hr as Hkey end.
  rewrite Hd0, Hn0 in *. destruct (tx_written_keep _ _ _ _ _ _ _ Hw) as (Ho & Hi & _ & _).
  rewrite Hid in Hkey. rewrite Hd3 in *. rewrite Hd2 in *. simpl in *. rewrite Ho in *.
  exists t, rows, ebs. split_and!; auto; [congruence|]. split.
  eexists _, _, o, new, _. split_and!; eauto; [by exists t'|]. by rewrite Hik.
Qed.

(** ** Both keep the invariant *)

Lemma ledger_wf_mark id t d : ledger_wf d → transactions d !! id = Some t →
  ledger_wf (set_transactions (<[id := set_status TransactionStatusReversed t]> (transactions d)) d).
Proof.
  intros Hwf Ht. split; simpl; try apply Hwf.
  - intros r Hr. destruct (wf_entries d Hwf r Hr) as (? & ? & ? & ?). split_and!; auto.
    rewrite lookup_insert_is_Some'. auto.
  - intros i u [[<- <-]|[_ Hu]]%lookup_insert_Some; [|by eapply wf_txs].
    destruct (wf_txs d Hwf id t Ht) as (_ & ? & ?). split_and!; auto. set_solver.
  - intros i j u v k Hi Hj Hp Hku Hkv.
    assert (Hold : ∀ i u, <[id := set_status TransactionStatusReversed t]> (transactions d) !! i = Some u →
      ∃ u', transactions d !! i = Some u' ∧ t_principal_id u' = t_principal_id u ∧
        t_idempotency_key u' = t_idempotency_key u).
    { intros i' u' [[<- <-]|[_ Hu']]%lookup_insert_Some; eauto. }
    apply Hold in Hi as (u' & Hi & Hpu & Hku'). apply Hold in Hj as (v' & Hj & Hpv & Hkv').
    eapply (wf_tx_keys d Hwf i j u' v' k); congruence.
Qed.

Lemma ledger_wf_recorded now header reqs idem reversed rows ebs d d' :
  ledger_wf d → tx_recorded now header reqs idem reversed rows ebs d d' →
  Tx_Status header = TransactionStatusPosted → (2 ≤ length reqs)%nat →
  (∀ e, e ∈ reqs → amountMinor (Er_Amount e) ≤ max_int64) →
  deferred_triggers d d' = Ok tt → ledger_wf d'.
Proof.
  intros Hwf [(d1 & d2 & o & new & dr & Hw & Hm & Hok & Hbal & Hq & Hnd & Hfr & Hik & Hkey)] Hst Hlen Hmax Htrig.
  apply key_completed_frame in Hkey. pose proof (ledger_frame_trans _ _ _ Hfr Hkey) as Hfr'.
  eapply ledger_wf_frame; [exact Hfr'|].
  destruct (tx_written_keep _ _ _ _ _ _ _ Hw) as (Ho & Hi & Ha & Hj).
  destruct (mark_reversed_keep _ _ _ Hm) as (_ & Hj2 & Ho2 & _).
  assert (Hw1 : ledger_wf (set_outbox (outbox d ++ o :: new)%list d1)).
  { eapply (ledger_wf_written now header reqs rows ebs d d1); eauto; [by apply Hnd, wf_event_ids|].
    intros r Hr cur. pose proof (lf_journal _ _ Hfr') as Hj'. simpl in Hj'.
    rewrite Hj2 in Hj'. rewrite <- Hj'. eapply deferred_triggers_ok; [done|].
    rewrite Hj', Hj, drop_app_length. done. }
  destruct reversed as [id|]; simpl in Hm; [|by rewrite Hm].
  destruct Hm as (t & Ht & _ & ->). by apply (ledger_wf_mark id t (set_outbox _ d1)).
Qed.
End posting.
