(* ===== verification/Ledger.v ===== *)
(** * The guarantees of the ledger service

    Theorems about [postTransaction], [doReverse] and [CreateAccount] as a
    caller sees them: for every world, that is whatever statements fail, however
    COMMITs end and however often the retrier runs the body again. *)

From S2P Require Import Prelude Errors Money Json Types SagaTypes Events Schema Outbox PgIdem.
From S2P Require Import PgSaga Retry PgLedger Service PgLedgerSpec ServiceSpec Invariant Validate.
From S2P Require Import Posting.
Open Scope string_scope.
Open Scope Z_scope.

(** What Go's types and the callers of the package ensure of a request: amounts
    are 64-bit integers and a recorder only writes its own tables. *)
Definition request_ok (req : TransactionRequest) : Prop :=
  (∀ e, e ∈ Rq_Entries req → is_int64 (amountMinor (Er_Amount e))) ∧ recorder_ok (Rq_Record req).

Section ledger.
Context `{UuidLib}.

(** ** A call changes the database at most once *)

(** The database holds transaction [header], recorded once on top of [d]. *)
Definition recorded_once (header : Transaction) (idem : option Idempotent) (reversed : option UUID)
    (P : DB → list EntryRequest → Prop) (d d' : DB) : Prop :=
  ∃ now reqs rows ebs, P d reqs ∧ tx_recorded now header reqs idem reversed rows ebs d d' ∧
    deferred_triggers d d' = Ok tt.

Lemma tx_recorded_exists now header reqs idem reversed rows ebs d d' :
  tx_recorded now header reqs idem reversed rows ebs d d' → is_Some (transactions d' !! Tx_ID header).
Proof.
  intros [(d1 & d2 & o & new & dr & Hw & Hm & _ & _ & _ & _ & Hfr & _ & Hkey)].
  apply key_completed_frame in Hkey.
  rewrite (lf_transactions _ _ Hkey), (lf_transactions _ _ Hfr). simpl.
  destruct (tw_db _ _ _ _ _ _ _ Hw) as (bals' & -> & _).
  destruct reversed as [id|]; simpl in Hm; [destruct Hm as (t & _ & _ & ->) | rewrite Hm];
    simpl; rewrite ?lookup_insert_is_Some', ?lookup_insert_eq; eauto.
Qed.

Section once.
Context (repo : Repository) (body : M Transaction) (header : Transaction)
  (idem : option Idempotent) (reversed : option UUID) (P : DB → list EntryRequest → Prop)
  (Q : Transaction → list entry_row → Time → Prop).
Hypothesis Hbody : ∀ w h w', ledger_wf (w_db w) → body w = (Ok h, w') →
  ∃ reqs rows ebs, P (w_db w) reqs ∧
    tx_recorded (w_now w) header reqs idem reversed rows ebs (w_db w) (w_db w') ∧
    Q h rows (w_now w).
Hypothesis Hkeep : ∀ d d', ledger_wf d → recorded_once header idem reversed P d d' → ledger_wf d'.

Lemma InTx_once w r w' : ledger_wf (w_db w) → InTx repo body w = (r, w') →
  (w_db w' = w_db w ∧ is_ok r = false) ∨
  (recorded_once header idem reversed P (w_db w) (w_db w') ∧
   ∀ h, r = Ok h → ∃ now reqs rows ebs, P (w_db w) reqs ∧
     tx_recorded now header reqs idem reversed rows ebs (w_db w) (w_db w') ∧ Q h rows now).
Proof.
  intros Hwf Hrun. set (d0 := w_db w) in *.
  set (I := λ d, d = d0 ∨ recorded_once header idem reversed P d0 d).
  assert (Hno : ∀ w1 h w2, recorded_once header idem reversed P d0 (w_db w1) → body w1 = (Ok h, w2) → False).
  { intros w1 h w2 Hr Hb.
    destruct (Hbody _ _ _ (Hkeep _ _ Hwf Hr) Hb) as (reqs & rows & ebs & _ & [(d1 & _ & _ & _ & _ & Hw & _)] & _).
    destruct Hr as (n & rq & rw & eb & _ & Hrec & _). apply tx_recorded_exists in Hrec as [t Ht].
    pose proof (tw_fresh _ _ _ _ _ _ _ Hw). congruence. }
  assert (Hstep : ∀ w1 h w2, I (w_db w1) → tx_committed body w1 h w2 → I (w_db w2)).
  { intros w1 h w2 [Heq|Hr] [Hb Htr]; [|by destruct (Hno _ _ _ Hr Hb)]. right.
    destruct (Hbody _ _ _ ltac:(by rewrite Heq) Hb) as (reqs & rows & ebs & HP & Hrec & _).
    rewrite Heq in *. exists (w_now w1), reqs, rows, ebs. done. }
  assert (HI : I (w_db w)) by by left.
  pose proof (InTx_inv repo body I Hstep w HI) as HI'. rewrite Hrun in HI'. simpl in HI'.
  destruct r as [h|e].
  - destruct (InTx_ok repo body I Hstep w h w' HI Hrun) as (w0 & w1 & [Heq|Hr] & [Hb Htr] & Hd);
      [|by destruct (Hno _ _ _ Hr Hb)].
    destruct (Hbody _ _ _ ltac:(by rewrite Heq) Hb) as (reqs & rows & ebs & HP & Hrec & HQ).
    rewrite Heq in *. rewrite Hd. right. split; [by exists (w_now w0), reqs, rows, ebs|].
    intros h' [= <-]. by exists (w_now w0), reqs, rows, ebs.
  - destruct HI' as [?|Hr]; [by left|]. right. split; [done|]. by intros h.
Qed.
End once.

(** ** Posting *)

Definition post_routed (req : TransactionRequest) (d : DB) (reqs : list EntryRequest) : Prop :=
  Forall2 (routed d) reqs (Rq_Entries req).

Lemma validate_lengths req : TransactionRequest_validate req = Ok tt → (2 ≤ length (Rq_Entries req))%nat.
Proof.
  unfold TransactionRequest_validate. intros [_ [Hlen _]%guard_err_bind_ok]%guard_err_bind_ok.
  apply negb_true_iff, Nat.ltb_ge in Hlen. done.
Qed.

Lemma post_keeps txID req d d' : request_ok req → TransactionRequest_validate req = Ok tt →
  ledger_wf d → recorded_once (post_header txID req) (Rq_Idempotency req) None (post_routed req) d d' →
  ledger_wf d'.
Proof.
  intros [Hint _] Hv%validate_lengths Hwf (now & reqs & rows & ebs & HP & Hrec & Htr).
  eapply ledger_wf_recorded; eauto.
  - by erewrite (list.Forall2_length _ _ _ HP).
  - intros e He. destruct (Forall2_elem_l _ _ _ _ HP He) as (e' & He' & _ & -> & _). by apply Hint.
Qed.

Lemma post_once repo req w r w' : ledger_wf (w_db w) → request_ok req →
  postTransaction repo req w = (r, w') →
  (w_db w' = w_db w ∧ is_ok r = false) ∨
  (TransactionRequest_validate req = Ok tt ∧ ∃ txID,
   recorded_once (post_header txID req) (Rq_Idempotency req) None (post_routed req) (w_db w) (w_db w') ∧
   ∀ h, r = Ok h → Tx_ID h = txID ∧ ∃ now reqs rows ebs, post_routed req (w_db w) reqs ∧
     tx_recorded now (post_header txID req) reqs (Rq_Idempotency req) None rows ebs (w_db w) (w_db w') ∧
     entry_row_of now <$> Tx_Entries h = rows).
Proof.
  intros Hwf Hok Hrun. unfold postTransaction, lift, mbind, M_bind in Hrun.
  destruct (TransactionRequest_validate req) as [[]|e] eqn:Hv; [|injection Hrun as <- <-; by left].
  destruct (uuid_NewV7 w) as [[txID|e] w1] eqn:Hid;
    [|apply uuid_NewV7_err in Hid as ->; injection Hrun as <- <-; by left].
  apply uuid_NewV7_same in Hid as [Hd _]. rewrite <- Hd in Hwf |- *.
  eapply (InTx_once repo (post_body (advisoryLocks repo) txID req) (post_header txID req) _ None
    (post_routed req) (λ h rows now, Tx_ID h = txID ∧ entry_row_of now <$> Tx_Entries h = rows))
    in Hrun as [?|[Hrec Hres]]; [by left| | | |done].
  - right. split; [done|]. exists txID. split; [done|]. intros h Hh.
    destruct (Hres h Hh) as (now & reqs & rows & ebs & ? & ? & ? & ?). eauto 10.
  - intros w2 h w3 _ Hb. destruct Hok as [Hint Hrec].
    apply post_body_ok in Hb as (reqs & rows & ebs & ? & ? & ? & ?); eauto 10.
    + intros Hnil. apply validate_lengths in Hv. rewrite Hnil in Hv. simpl in Hv. lia.
    + intros e He. by apply Hint.
  - intros d d'. by apply post_keeps.
Qed.

(** Posting keeps the invariant in every environment. *)
Lemma post_wf repo req w :
  ledger_wf (w_db w) → request_ok req → ledger_wf (w_db (postTransaction repo req w).2).
Proof.
  intros Hwf Hok. destruct (postTransaction repo req w) as [r w'] eqn:Hrun.
  apply post_once in Hrun as [[Hd _]|(Hv & txID & Hrec & _)]; auto; simpl; [by rewrite Hd|].
  by eapply post_keeps.
Qed.

(** ** Reversing *)

Definition is_mirrored (txID : UUID) (d : DB) (reqs : list EntryRequest) : Prop :=
  reqs = mirrored txID d ∧ ∃ t, transactions d !! txID = Some t ∧ t_status t = TransactionStatusPosted.

Lemma reverse_keeps revID txID reason idem d d' : ledger_wf d →
  recorded_once (reverse_header revID txID reason idem) idem (Some txID) (is_mirrored txID) d d' →
  ledger_wf d'.
Proof.
  intros Hwf (now & reqs & rows & ebs & [-> (t & Ht & _)] & Hrec & Htr).
  eapply ledger_wf_recorded; eauto.
  - rewrite mirrored_length. by destruct (wf_txs d Hwf txID t Ht) as (_ & _ & ?).
  - intros e He. by eapply mirrored_max.
Qed.

Lemma reverse_once repo txID reason idem record w r w' :
  ledger_wf (w_db w) → recorder_ok record →
  doReverse repo txID reason idem record w = (r, w') →
  (w_db w' = w_db w ∧ is_ok r = false) ∨
  (∃ revID, recorded_once (reverse_header revID txID reason idem) idem (Some txID)
      (is_mirrored txID) (w_db w) (w_db w') ∧ ∀ h, r = Ok h → Tx_ID h = revID).
Proof.
  intros Hwf Hrecd Hrun. unfold doReverse, guard_M, mbind, M_bind in Hrun.
  destruct (bool_decide (reason ≠ "")); [|injection Hrun as <- <-; by left]. simpl in Hrun.
  destruct (uuid_NewV7 w) as [[revID|e] w1] eqn:Hid;
    [|apply uuid_NewV7_err in Hid as ->; injection Hrun as <- <-; by left].
  apply uuid_NewV7_same in Hid as [Hd _]. rewrite <- Hd in Hwf |- *.
  eapply (InTx_once repo (reverse_body (advisoryLocks repo) revID txID reason idem record)
    (reverse_header revID txID reason idem) _ (Some txID)
    (is_mirrored txID) (λ h rows now, Tx_ID h = revID))
    in Hrun as [?|[Hrec Hres]]; [by left| | | |done].
  - right. exists revID. split; [done|]. intros h Hh.
    by destruct (Hres h Hh) as (? & ? & ? & ? & _ & _ & ?).
  - intros w2 h w3 Hwf2 Hb. apply reverse_body_ok in Hb as (t & rows & ebs & Ht & Hst & Hrec & Hh); [|done|done].
    exists (mirrored txID (w_db w2)), rows, ebs. split_and!; auto. split; eauto.
  - intros d d'. apply reverse_keeps.
Qed.

(** So does reversing, in any of its three forms. *)
Lemma reverse_wf repo txID reason idem record w :
  ledger_wf (w_db w) → recorder_ok record →
  ledger_wf (w_db (doReverse repo txID reason idem record w).2).
Proof.
  intros Hwf Hok. destruct (doReverse repo txID reason idem record w) as [r w'] eqn:Hrun.
  apply reverse_once in Hrun as [[Hd _]|(revID & Hrec & _)]; auto; simpl; [by rewrite Hd|].
  by eapply reverse_keeps.
Qed.

(** ** Opening an account *)

Definition new_account_row (req : CreateAccountRequest) (now : Time) : account_row :=
  mk_account_row (Ca_ExternalRef req) (Ca_Type req) (AccountType_NormalBalance (Ca_Type req))
    (Ca_Currency req) (Ca_OwnerID req) (Ca_AllowNegative req) AccountStatusActive 1 now now None None 1.

(** The database gained one account with an empty balance, and one event. *)
Definition account_opened (id : UUID) (req : CreateAccountRequest) (d d' : DB) : Prop :=
  ∃ now o, accounts d !! id = None ∧ currencyPattern (Ca_Currency req) = true ∧ quiet o ∧
    (distinct_rows (outbox d) → distinct_rows (outbox d ++ [o])%list) ∧
    map_Forall (λ _ r, a_external_ref r ≠ Ca_ExternalRef req) (accounts d) ∧
    d' = set_outbox (outbox d ++ [o])%list
      (set_account_balances (<[id := mk_balance_row 0 0 (Ca_AllowNegative req) None 0 now]> (account_balances d))
        (set_accounts (<[id := new_account_row req now]> (accounts d)) d)).

(** A new account with an empty balance row keeps the invariant. *)
Lemma ledger_wf_inserted id r d : ledger_wf d → accounts d !! id = None →
  currencyPattern (a_currency r) = true → Direction_Valid (a_normal_balance r) = true → ledger_wf (account_inserted id r d).
Proof.
  intros Hwf Hfresh Hcur Hdir.
  assert (Hnone : account_balances d !! id = None).
  { apply eq_None_not_Some. intros [b Hb]. destruct (wf_balance_account d Hwf id b Hb). congruence. }
  assert (Hacc : ∀ r, r ∈ journal_entries d → je_account_id r ≠ id).
  { intros x Hx <-. destruct (wf_entries d Hwf x Hx) as (_ & _ & _ & a & Ha & _). congruence. }
  unfold account_inserted. rewrite Hnone. split; simpl; try apply Hwf.
  - intros i a [[<- <-]|[Hne Ha]]%lookup_insert_Some; simpl.
    + rewrite lookup_insert_eq. eauto.
    + destruct (wf_accounts d Hwf i a Ha) as (? & ? & ?). rewrite lookup_insert_ne; auto.
  - intros i b [[<- <-]|[Hne Hb]]%lookup_insert_Some; rewrite lookup_insert_is_Some'; [auto|].
    right. by eapply wf_balance_account.
  - intros i a b Ha [[<- <-]|[Hne Hb]]%lookup_insert_Some; simpl; [by rewrite account_sum_none|].
    rewrite lookup_insert_ne in Ha by done. by eapply wf_balance_sum.
  - intros i b [[<- <-]|[Hne Hb]]%lookup_insert_Some; [|by eapply wf_balance_ok].
    split; simpl; unfold is_int64, min_int64, max_int64; lia.
  - intros i b [[<- <-]|[Hne Hb]]%lookup_insert_Some; [done | by eapply wf_untouched].
  - intros x Hx. destruct (wf_entries d Hwf x Hx) as (? & ? & ? & a & Ha & ?). split_and!; auto.
    exists a. rewrite lookup_insert_ne; [done|]. intros Heq. by eapply Hacc.
  - intros o' eb Ho' Heb. destruct (wf_announced d Hwf o' eb Ho' Heb) as (a & b & Ha & Hb & ?).
    exists a, b. simpl. rewrite !lookup_insert_ne by congruence. done.
  - intros i b [[<- <-]|[Hne Hb]]%lookup_insert_Some Hpos; [simpl in *; lia|]. by eapply wf_announced_all.
Qed.

Lemma frame_quiet_event o d : quiet o → (distinct_rows (outbox d) → distinct_rows (outbox d ++ [o])%list) →
  ledger_frame d (set_outbox (outbox d ++ [o])%list d).
Proof.
  intros Hq Hnd. split; try done; simpl; [by apply (balances_frame_eq d d)|]. exists [o]. split_and!; [done| |done].
  intros o' ->%list_elem_of_singleton. exact Hq.
Qed.

Lemma opened_inserted id req d d' : ledger_wf d → account_opened id req d d' → ∃ now o, d' = set_outbox (outbox d ++ [o])%list
    (account_inserted id (new_account_row req now) d) ∧ accounts d !! id = None ∧ currencyPattern (Ca_Currency req) = true ∧ quiet o ∧
    (distinct_rows (outbox d) → distinct_rows (outbox d ++ [o])%list).
Proof.
  intros Hwf (now & o & Hfresh & Hcur & Hq & Hnd & _ & ->). exists now, o. split_and!; try done.
  assert (Hnone : account_balances d !! id = None).
  { apply eq_None_not_Some. intros [b Hb]. destruct (wf_balance_account d Hwf id b Hb). congruence. }
  unfold account_inserted. by rewrite Hnone.
Qed.

Lemma account_inserted_outbox id r d : outbox (account_inserted id r d) = outbox d.
Proof. unfold account_inserted. by destruct (_ !! _). Qed.

Lemma ledger_wf_opened id req d d' : ledger_wf d → account_opened id req d d' → ledger_wf d'.
Proof.
  intros Hwf Ho. destruct (opened_inserted id req d d' Hwf Ho) as (now & o & -> & Hfresh & Hcur & Hq & Hnd).
  rewrite <- (account_inserted_outbox id (new_account_row req now) d) in Hnd |- *.
  eapply ledger_wf_frame; [by apply frame_quiet_event|]. apply ledger_wf_inserted; [done|done|done|apply NormalBalance_valid].
Qed.

Lemma create_body_ok id req a w w' : create_body id req w = (Ok a, w') →
  ledger_wf (w_db w) → account_opened id req (w_db w) (w_db w') ∧ Account_ID a = id.
Proof.
  unfold create_body. intros Hrun Hwf. mrun.
  match goal with Hi : InsertAccount _ _ = _ |- _ =>
    apply InsertAccount_ok in Hi as (Hf & Hc & _ & _ & _ & Href & Hn & Hd & ->) end.
  match goal with Hj : json_Marshal _ = _ |- _ => apply json_Marshal_ok in Hj as -> end.
  match goal with Ha : AppendEvent _ _ = _ |- _ =>
    apply outbox_Append_events in Ha as (oid & ev & [Hd2 _ Hnd] & _) end.
  simpl in *. split; [|done].
  assert (Hnone : account_balances (w_db w) !! id = None).
  { apply eq_None_not_Some. intros [b Hb]. destruct (wf_balance_account _ Hwf id b Hb). congruence. }
  unfold account_inserted in Hd. rewrite Hnone in Hd. rewrite Hd in *. simpl in *. eexists (w_now w), _. split_and!; eauto.
  split; [|done]. split_and!; simpl; try done. split; [done|]. by intros (? & ?).
Qed.

Lemma create_once repo req w r w' : ledger_wf (w_db w) → CreateAccount repo req w = (r, w') →
  (w_db w' = w_db w ∧ is_ok r = false) ∨
  (∃ id, account_opened id req (w_db w) (w_db w') ∧ ∀ a, r = Ok a → Account_ID a = id).
Proof.
  intros Hwf Hrun. unfold CreateAccount, lift, mbind, M_bind in Hrun.
  destruct (CreateAccountRequest_validate req) as [[]|e]; [|injection Hrun as <- <-; by left].
  destruct (uuid_NewV7 w) as [[id|e] w1] eqn:Hid;
    [|apply uuid_NewV7_err in Hid as ->; injection Hrun as <- <-; by left].
  apply uuid_NewV7_same in Hid as [Hd _]. rewrite <- Hd in Hwf |- *.
  set (I := λ d, d = w_db w1 ∨ account_opened id req (w_db w1) d).
  set (body := create_body id req) in *.
  assert (Hno : ∀ w2 a w3, account_opened id req (w_db w1) (w_db w2) → body w2 = (Ok a, w3) → False).
  { intros w2 a w3 Ho Hb. pose proof (ledger_wf_opened _ _ _ _ Hwf Ho) as Hwf2.
    apply create_body_ok in Hb as [(now & o & Hf & _) _]; [|done].
    destruct Ho as (? & ? & _ & _ & _ & _ & _ & Hd2). rewrite Hd2 in Hf. simpl in Hf.
    rewrite lookup_insert_eq in Hf. done. }
  assert (Hstep : ∀ w2 a w3, I (w_db w2) → tx_committed body w2 a w3 → I (w_db w3)).
  { intros w2 a w3 [Heq|Ho] [Hb _]; [|by destruct (Hno _ _ _ Ho Hb)]. right.
    apply create_body_ok in Hb as [Hb _]; [|by rewrite Heq]. by rewrite Heq in Hb. }
  assert (HI : I (w_db w1)) by by left.
  pose proof (InTx_inv repo body I Hstep w1 HI) as HI'. rewrite Hrun in HI'. simpl in HI'.
  destruct r as [a|e].
  - destruct (InTx_ok repo body I Hstep w1 a w' HI Hrun) as (w0 & w2 & [Heq|Ho] & [Hb Htr] & Hd2);
      [|by destruct (Hno _ _ _ Ho Hb)].
    apply create_body_ok in Hb as [Hb Ha]; [|by rewrite Heq]. rewrite Heq in Hb. rewrite Hd2.
    right. exists id. split; [done|]. by intros a' [= <-].
  - destruct HI' as [?|Ho]; [by left|]. right. exists id. done.
Qed.

Lemma create_wf repo req w : ledger_wf (w_db w) → ledger_wf (w_db (CreateAccount repo req w).2).
Proof.
  intros Hwf. destruct (CreateAccount repo req w) as [r w'] eqn:Hrun.
  apply create_once in Hrun as [[Hd _]|(id & Ho & _)]; auto; simpl; [by rewrite Hd|].
  by eapply ledger_wf_opened.
Qed.
End ledger.
