(* ===== verification/Frames.v ===== *)
(** * Operations that leave the ledger's tables alone

    A program logic of one predicate: [framed m] says that [m], whatever it
    returns, changes the ledger's tables by at most holds and events that are
    not about transactions.  A hint database proves it of straight-line code. *)

From S2P Require Import Prelude Errors Money Json Types SagaTypes Events Schema Outbox PgIdem.
From S2P Require Import PgSaga Retry PgLedger Service PgLedgerSpec ServiceSpec Invariant Posting.
Open Scope string_scope.
Open Scope Z_scope.

Definition framed {A} (m : M A) : Prop := ∀ w, ledger_frame (w_db w) (w_db (m w).2).

Create HintDb framed.

Section rules.
Context {A B : Type}.

Lemma framed_bind (m : M A) (f : A → M B) : framed m → (∀ a, framed (f a)) → framed (m ≫= f).
Proof.
  intros Hm Hf w. unfold mbind, M_bind. specialize (Hm w). destruct (m w) as [[a|e] w1]; simpl in *; [|done].
  eapply ledger_frame_trans; [done|]. apply Hf.
Qed.
Lemma framed_ret (a : A) : framed (mret a).
Proof. intros w. apply ledger_frame_refl. Qed.
Lemma framed_fail e : framed (fail e : M A).
Proof. intros w. apply ledger_frame_refl. Qed.
Lemma framed_lift (r : res A) : framed (lift r).
Proof. intros w. apply ledger_frame_refl. Qed.
Lemma framed_gets (f : DB → A) : framed (gets f).
Proof. intros w. apply ledger_frame_refl. Qed.
Lemma framed_guard b e : framed (guard_M b e).
Proof. intros w. unfold guard_M. destruct b; apply ledger_frame_refl. Qed.
Lemma framed_map_err f (m : M A) : framed m → framed (map_err f m).
Proof. intros Hm w. specialize (Hm w). unfold map_err. by destruct (m w) as [[?|?] ?]. Qed.
Lemma framed_mapM (f : A → M B) l : (∀ x, framed (f x)) → framed (mapM_ f l).
Proof.
  intros Hf. induction l as [|x l IH]; simpl; [intros w; apply ledger_frame_refl|].
  intros w. unfold mbind, M_bind. pose proof (Hf x w) as H1. destruct (f x w) as [[y|e] w1]; simpl in *; [|done].
  pose proof (IH w1) as H2. destruct (mapM_ f l w1) as [[ys|e] w2]; simpl in *; by eapply ledger_frame_trans.
Qed.
End rules.

Lemma framed_id {A} (m : M A) : (∀ w, w_db (m w).2 = w_db w) → framed m.
Proof. intros Hm w. rewrite Hm. apply ledger_frame_refl. Qed.

Lemma framed_modify (f : DB → DB) : (∀ d, ledger_frame d (f d)) → framed (modify f).
Proof. intros Hf w. apply Hf. Qed.

Lemma sql_exec_db w : w_db (sql_exec w).2 = w_db w.
Proof. unfold sql_exec. by destruct (w_faults w) as [|[?|] ?]. Qed.
Lemma uuid_NewV7_db w : w_db (uuid_NewV7 w).2 = w_db w.
Proof. unfold uuid_NewV7. by repeat case_match. Qed.
Lemma ctx_Err_db w : w_db (ctx_Err w).2 = w_db w.
Proof. unfold ctx_Err. by destruct (w_ctx w). Qed.

Lemma framed_autocommit {A} (m : M A) : framed m → framed (autocommit m).
Proof.
  intros Hm w. destruct (autocommit_cases m w) as [->|(a & w0 & w1 & H0 & Hr & ->)]; [apply ledger_frame_refl|].
  specialize (Hm w0). rewrite Hr, H0 in Hm. done.
Qed.

(** Tables the ledger does not own. *)
Lemma frame_idempotency x d : ledger_frame d (set_idempotency_keys x d).
Proof.
  split; try done; simpl; [by apply (balances_frame_eq d d)|].
  exists []. rewrite app_nil_r. set_solver.
Qed.
Lemma frame_saga_instances x d : ledger_frame d (set_saga_instances x d).
Proof.
  split; try done; simpl; [by apply (balances_frame_eq d d)|].
  exists []. rewrite app_nil_r. set_solver.
Qed.
Lemma frame_saga_steps x d : ledger_frame d (set_saga_steps x d).
Proof.
  split; try done; simpl; [by apply (balances_frame_eq d d)|].
  exists []. rewrite app_nil_r. set_solver.
Qed.
(** A failing run left the database alone. *)
Definition fails_clean {A} (m : M A) : Prop := ∀ w e w', m w = (Err e, w') → w_db w' = w_db w.

Lemma fails_clean_bind {A B} (m : M A) (f : A → M B) :
  (∀ w, w_db (m w).2 = w_db w) → (∀ a, fails_clean (f a)) → fails_clean (m ≫= f).
Proof.
  intros Hm Hf w e w' Hrun. unfold mbind, M_bind in Hrun. specialize (Hm w).
  destruct (m w) as [[a|e1] w1]; simpl in *; [|congruence]. apply Hf in Hrun. congruence.
Qed.

Lemma fails_clean_map_err {A} f (m : M A) : fails_clean m → fails_clean (map_err f m).
Proof.
  intros Hm w e w' Hrun. unfold map_err in Hrun. destruct (m w) as [[a|e1] w1] eqn:Hw; [done|].
  injection Hrun as _ <-. by eapply Hm.
Qed.

Lemma guard_M_db b e w : w_db (guard_M b e w).2 = w_db w.
Proof. by destruct b. Qed.

Lemma outbox_Append_fails_clean e : fails_clean (outbox_Append e).
Proof.
  unfold outbox_Append.
  do 3 (apply fails_clean_bind; [intros; apply guard_M_db|intros _]).
  apply fails_clean_bind; [apply uuid_NewV7_db|intros ev].
  apply fails_clean_bind; [apply sql_exec_db|intros _].
  do 3 (apply fails_clean_bind; [done|intros ?]).
  apply fails_clean_bind; [intros; apply guard_M_db|intros _]. done.
Qed.

(** An event that is not about a transaction. *)
Lemma framed_Append e :
  (is_transaction_event (Ev_EventType e) = false ∧ ∀ t, Ev_Payload e ≠ PTransaction t) → framed (outbox_Append e).
Proof.
  intros [Hty Hpl] w. destruct (outbox_Append e w) as [[u|er] w'] eqn:Hrun; simpl.
  2: { apply outbox_Append_fails_clean in Hrun as ->. apply ledger_frame_refl. }
  apply outbox_Append_events in Hrun as (id & ev & [Hd _ Hnd] & _). rewrite Hd.
  split; try done; simpl; [by apply (balances_frame_eq (w_db w) (w_db w))|].
  eexists. split_and!; [done| |done]. intros o ->%list_elem_of_singleton.
  split; [|unfold row_balances; simpl; destruct (Ev_Payload e) eqn:Hp; try done; by destruct (Hpl e0)].
  split_and!; simpl; [done|done|by rewrite Hty|]. rewrite Hty. split; [done|]. intros [t Ht]. by destruct (Hpl t).
Qed.

#[export] Hint Resolve framed_ret framed_fail framed_lift framed_gets framed_guard
  framed_map_err framed_mapM framed_modify framed_Append
  frame_idempotency frame_saga_instances frame_saga_steps : framed.
#[export] Hint Extern 1 (framed sql_exec) => (apply framed_id; apply sql_exec_db) : framed.
#[export] Hint Extern 1 (framed tx_start) => (apply framed_id; apply tx_start_db) : framed.
#[export] Hint Extern 1 (framed uuid_NewV7) => (apply framed_id; apply uuid_NewV7_db) : framed.
#[export] Hint Extern 1 (framed ctx_Err) => (apply framed_id; apply ctx_Err_db) : framed.
#[export] Hint Extern 1 (framed sql_now) => (apply framed_id; reflexivity) : framed.
#[export] Hint Extern 1 (framed (take_locks _)) => (apply framed_id; reflexivity) : framed.
#[export] Hint Extern 1 (framed clock_Now) => (apply framed_id; reflexivity) : framed.

(** Straight-line code: follow the binds and the branches. *)
Ltac framed :=
  repeat first
    [ progress intros
    | match goal with
      | |- framed (mbind _ _) => apply framed_bind
      | |- framed (autocommit _) => apply framed_autocommit
      | |- framed (let '_ := ?x in _) => destruct x
      | |- framed (match ?x with _ => _ end) => destruct x
      | |- framed (if ?b then _ else _) => destruct b
      end
    | solve [eauto with framed] ].

(** ** The idempotency store *)

Lemma framed_update_ik k p f : framed (update_ik k p f).
Proof. unfold update_ik. framed. Qed.
#[export] Hint Resolve framed_update_ik : framed.

Lemma framed_Reserve r : framed (Store_Reserve r).
Proof. unfold Store_Reserve. framed. Qed.
Lemma framed_Lookup p k : framed (Store_Lookup p k).
Proof. unfold Store_Lookup. framed. Qed.
Lemma framed_Reclaim p k l : framed (Store_Reclaim p k l).
Proof. unfold Store_Reclaim. framed. Qed.
Lemma framed_Fail p k c b : framed (Store_Fail p k c b).
Proof. unfold Store_Fail. framed. Qed.
Lemma framed_Release p k : framed (Store_Release p k).
Proof. unfold Store_Release. framed. Qed.
Lemma framed_Sweep n : framed (Store_Sweep n).
Proof. unfold Store_Sweep. framed. Qed.

(** ** The saga store *)

Lemma framed_advance t : framed (advance t).
Proof. unfold advance. framed. Qed.
Lemma framed_insert_step r : framed (insert_step r).
Proof. unfold insert_step. framed. Qed.
#[export] Hint Resolve framed_advance framed_insert_step : framed.
Lemma framed_CommitStep c : framed (pgsaga_CommitStep c).
Proof. unfold pgsaga_CommitStep. framed. Qed.
Lemma framed_saga_claim p b o l n : framed (saga_claim p b o l n).
Proof. unfold saga_claim. framed. Qed.
#[export] Hint Resolve framed_CommitStep framed_saga_claim : framed.

Lemma framed_pool_tx {A} (m : M A) : framed m → framed (pool_tx m).
Proof.
  intros Hm w. unfold pool_tx, mbind, M_bind.
  pose proof (sql_exec_db w) as H1. destruct (sql_exec w) as [[u|e] w1]; simpl in *;
    [|rewrite H1; apply ledger_frame_refl].
  pose proof (tx_start_db w1) as H2. destruct (tx_start w1) as [[u'|e] w2]; simpl in *;
    [|rewrite H2, H1; apply ledger_frame_refl].
  specialize (Hm w2). rewrite H2, H1 in Hm. destruct (m w2) as [[a|e] w3]; simpl in *;
    [|rewrite H2, H1; apply ledger_frame_refl].
  unfold next_commit. destruct (w_commits w3) as [|[|e|e] l]; simpl; try done.
  rewrite H2, H1. apply ledger_frame_refl.
Qed.

Lemma framed_Create i : framed (saga_Create i).
Proof. unfold saga_Create, insert_saga, getByIdempotencyKey. framed. Qed.
Lemma framed_ClaimRunnable t o l n : framed (saga_ClaimRunnable t o l n).
Proof. unfold saga_ClaimRunnable. apply framed_saga_claim. Qed.
Lemma framed_ClaimExpired t o l n : framed (saga_ClaimExpired t o l n).
Proof. unfold saga_ClaimExpired. apply framed_saga_claim. Qed.
Lemma framed_Advance t : framed (saga_Advance t).
Proof. unfold saga_Advance. framed. Qed.
Lemma framed_RenewLease i o l : framed (saga_RenewLease i o l).
Proof. unfold saga_RenewLease. framed. Qed.
Lemma framed_BeginStep a t : framed (saga_BeginStep a t).
Proof. unfold saga_BeginStep. apply framed_pool_tx. framed. Qed.
Lemma framed_RecordAttempt a : framed (saga_RecordAttempt a).
Proof. unfold saga_RecordAttempt. framed. Qed.
Lemma framed_FinishAttempt f : framed (saga_FinishAttempt f).
Proof. unfold saga_FinishAttempt. framed. Qed.

(** The alert of an escalation is a saga event. *)
Lemma framed_Escalate t alert :
  (is_transaction_event (Ev_EventType alert) = false ∧ ∀ x, Ev_Payload alert ≠ PTransaction x) →
  framed (saga_Escalate t alert).
Proof. intros Ha. unfold saga_Escalate. apply framed_pool_tx. framed. Qed.

(** ** Holds *)

Lemma ApplyPendingDelta_fails_clean x : fails_clean (ApplyPendingDelta x).
Proof.
  unfold ApplyPendingDelta. apply fails_clean_map_err.
  apply fails_clean_bind; [apply sql_exec_db|intros _].
  do 2 (apply fails_clean_bind; [done|intros ?]).
  case_match; [|by intros w e w' [= _ <-]].
  do 2 (apply fails_clean_bind; [done|intros ?]). done.
Qed.

Lemma framed_ApplyPendingDelta x : framed (ApplyPendingDelta x).
Proof.
  intros w. destruct (ApplyPendingDelta x w) as [[u|e] w'] eqn:Hrun; simpl.
  - apply ApplyPendingDelta_ok in Hrun as (b & Hb & Hok & -> & _). split; try done; simpl.
    + intros id. destruct (decide (id = Pd_AccountID x)) as [->|Hne].
      * rewrite Hb, lookup_insert_eq. constructor. done.
      * rewrite lookup_insert_ne by done. by apply (balances_frame_eq (w_db w) (w_db w)).
    + exists []. rewrite app_nil_r. set_solver.
  - apply ApplyPendingDelta_fails_clean in Hrun as ->. apply ledger_frame_refl.
Qed.

#[export] Hint Resolve framed_Reserve framed_Lookup framed_Reclaim framed_Fail framed_Release framed_Sweep
  framed_Create framed_ClaimRunnable framed_ClaimExpired framed_Advance framed_RenewLease framed_BeginStep
  framed_RecordAttempt framed_FinishAttempt framed_Escalate framed_ApplyPendingDelta : framed.

Lemma framed_wf {A} (m : M A) w : framed m → ledger_wf (w_db w) → ledger_wf (w_db (m w).2).
Proof. intros Hm. apply ledger_wf_frame, Hm. Qed.
