(* ===== verification/Uuid.v ===== *)
(** * A concrete textual form of UUIDs

    The canonical form of [github.com/google/uuid], 32 lower-case hexadecimal
    digits in groups of 8, 4, 4, 4 and 12, shown to satisfy what the development
    assumes of the package.  The examples use it. *)

From S2P Require Import Prelude Errors Types.
From Stdlib Require Import Ascii.
Open Scope string_scope.
Open Scope Z_scope.

Definition hex_digit (n : N) : ascii :=
  if (n <? 10)%N then ascii_of_N (48 + n) else ascii_of_N (87 + n).

Fixpoint hex_digits (width : nat) (u : N) : list N :=
  match width with
  | O => []
  | S k => (hex_digits k (u / 16) ++ [u mod 16])%N%list
  end.

(** The digits from position [i] on, with a dash before positions 8, 12, 16
    and 20. *)
Fixpoint hex_render (i : nat) (ds : list N) : string :=
  match ds with
  | [] => EmptyString
  | x :: ds =>
      let rest := String (hex_digit x) (hex_render (S i) ds) in
      if bool_decide (i ∈ [8; 12; 16; 20]%nat) then String "-" rest else rest
  end.

#[export] Instance hex_uuid : UuidLib := λ u, hex_render 0 (hex_digits 32 u).

(** ** Comparing texts compares numbers *)

Fixpoint lex_lt (a b : list N) : bool :=
  match a, b with
  | x :: a, y :: b => (x <? y)%N || ((x =? y)%N && lex_lt a b)
  | _, _ => false
  end.

Lemma hex_digit_code n : (n < 16)%N → N_of_ascii (hex_digit n) = (if n <? 10 then 48 + n else 87 + n)%N.
Proof. intros Hn. unfold hex_digit. destruct (N.ltb_spec n 10); rewrite N_ascii_embedding by lia; done. Qed.

Lemma ltb_cons a s b t : String.ltb (String a s) (String b t) =
  (N_of_ascii a <? N_of_ascii b)%N || ((N_of_ascii a =? N_of_ascii b)%N && String.ltb s t).
Proof.
  unfold String.ltb. simpl. unfold Ascii.compare.
  destruct (N.compare_spec (N_of_ascii a) (N_of_ascii b)) as [Heq|Hlt|Hgt].
  - rewrite Heq, N.ltb_irrefl, N.eqb_refl. done.
  - apply N.ltb_lt in Hlt as ->. done.
  - rewrite (proj2 (N.ltb_ge _ _)) by lia. rewrite (proj2 (N.eqb_neq _ _)) by lia. done.
Qed.

Lemma hex_render_lex a : ∀ b i, length a = length b → Forall (λ x, (x < 16)%N) a → Forall (λ x, (x < 16)%N) b →
  String.ltb (hex_render i a) (hex_render i b) = lex_lt a b.
Proof.
  induction a as [|x a IH]; intros [|y b] i Hlen Ha Hb; simpl in *; try done.
  apply list.Forall_cons in Ha as [Hx Ha]. apply list.Forall_cons in Hb as [Hy Hb].
  assert (Hstep : String.ltb (String (hex_digit x) (hex_render (S i) a)) (String (hex_digit y) (hex_render (S i) b))
    = (x <? y)%N || ((x =? y)%N && lex_lt a b)).
  { rewrite ltb_cons, IH, !hex_digit_code by (done || lia).
    destruct (N.ltb_spec x 10), (N.ltb_spec y 10), (N.ltb_spec x y), (N.eqb_spec x y); subst;
      repeat match goal with |- context [(?m <? ?n)%N] => destruct (N.ltb_spec m n) end;
      repeat match goal with |- context [(?m =? ?n)%N] => destruct (N.eqb_spec m n) end;
      simpl; try done; lia. }
  case_bool_decide; [|done]. rewrite ltb_cons, N.ltb_irrefl, N.eqb_refl. done.
Qed.

Lemma lex_lt_snoc a x : ∀ b y, length a = length b →
  lex_lt (a ++ [x])%list (b ++ [y])%list = lex_lt a b || (bool_decide (a = b) && (x <? y)%N).
Proof.
  induction a as [|x' a IH]; intros [|y' b] y Hlen; simpl in *; try done.
  - destruct (x <? y)%N, (x =? y)%N; done.
  - rewrite IH by lia. destruct (N.ltb_spec x' y'); simpl; [done|].
    destruct (N.eqb_spec x' y') as [->|Hne]; simpl.
    + f_equal. f_equal. apply bool_decide_ext. naive_solver.
    + rewrite bool_decide_eq_false_2 by congruence. done.
Qed.

Lemma hex_digits_length k : ∀ u, length (hex_digits k u) = k.
Proof. induction k as [|k IH]; intros u; simpl; [done|]. rewrite length_app, IH. simpl. lia. Qed.

Lemma hex_digits_bound k : ∀ u, Forall (λ x, (x < 16)%N) (hex_digits k u).
Proof.
  induction k as [|k IH]; intros u; simpl; [constructor|]. apply list.Forall_app. split; [done|].
  apply list.Forall_singleton. by apply N.mod_lt.
Qed.

Lemma hex_digits_inj k : ∀ a b, (a < 16 ^ N.of_nat k)%N → (b < 16 ^ N.of_nat k)%N →
  hex_digits k a = hex_digits k b → a = b.
Proof.
  induction k as [|k IH]; intros a b Ha Hb Heq; simpl in *; [lia|].
  rewrite Nat2N.inj_succ, N.pow_succ_r' in Ha, Hb.
  apply app_inj_tail in Heq as [Hq Hr]. apply IH in Hq; [|apply N.Div0.div_lt_upper_bound; lia..].
  rewrite (N.div_mod' a 16), (N.div_mod' b 16). lia.
Qed.

Lemma div16_lt a b : (a / 16 < b / 16)%N → (a < b)%N.
Proof.
  intros Hlt. destruct (N.lt_ge_cases a b) as [|Hge]; [done|].
  pose proof (N.Div0.div_le_mono _ _ 16 Hge). lia.
Qed.

Lemma div16_eq_ltb a b : (a / 16 = b / 16)%N → (a mod 16 <? b mod 16)%N = (a <? b)%N.
Proof.
  intros Heq. pose proof (N.div_mod' a 16) as Ha. pose proof (N.div_mod' b 16) as Hb.
  rewrite Heq in Ha. revert Ha Hb. generalize (b / 16)%N (a mod 16)%N (b mod 16)%N. intros q ra rb -> ->.
  destruct (N.ltb_spec ra rb); symmetry; [apply N.ltb_lt | apply N.ltb_ge]; lia.
Qed.

Lemma hex_digits_lex k : ∀ a b, (a < 16 ^ N.of_nat k)%N → (b < 16 ^ N.of_nat k)%N →
  lex_lt (hex_digits k a) (hex_digits k b) = (a <? b)%N.
Proof.
  induction k as [|k IH]; intros a b Ha Hb; simpl in *.
  { symmetry. apply N.ltb_ge. lia. }
  rewrite Nat2N.inj_succ, N.pow_succ_r' in Ha, Hb.
  assert (Hqa : (a / 16 < 16 ^ N.of_nat k)%N) by (apply N.Div0.div_lt_upper_bound; lia).
  assert (Hqb : (b / 16 < 16 ^ N.of_nat k)%N) by (apply N.Div0.div_lt_upper_bound; lia).
  rewrite lex_lt_snoc, IH by (rewrite ?hex_digits_length; done).
  destruct (N.ltb_spec (a / 16)%N (b / 16)%N) as [Hlt|Hge]; simpl; [symmetry; by apply N.ltb_lt, div16_lt|].
  case_bool_decide as Heq; simpl.
  - apply hex_digits_inj in Heq; [|done|done]. by apply div16_eq_ltb.
  - symmetry. apply N.ltb_ge. destruct (N.eq_dec (a / 16)%N (b / 16)%N) as [Heq'|]; [by rewrite Heq' in Heq|].
    apply N.lt_le_incl, div16_lt. lia.
Qed.

#[export] Instance hex_uuid_laws : UuidLaws.
Proof.
  split. intros a b Ha Hb. unfold uuid_valid in *. unfold uuid_String, hex_uuid.
  rewrite hex_render_lex by (rewrite ?hex_digits_length; auto using hex_digits_bound).
  apply hex_digits_lex; done.
Qed.
