(* ===== verification/Demo.v ===== *)
(** * A concrete ledger

    A small database built by running the service itself: a bank float (ASSET,
    may go negative), a customer wallet and a merchant (both LIABILITY, may
    not).  The witnesses of the theorems evaluate the model on it. *)

From S2P Require Import Prelude Errors Money Json Types SagaTypes Events Schema Outbox PgIdem.
From S2P Require Import PgSaga Retry PgLedger Service PgLedgerSpec ServiceSpec Invariant Validate.
From S2P Require Import Posting Ledger Frames Uuid.
Open Scope string_scope.
Open Scope Z_scope.

(** A quiet environment: fresh ids from [n] on, every statement and COMMIT goes
    through. *)
Definition quiet_world (d : DB) (n : N) : World :=
  mkWorld d (N.of_nat <$> seq (N.to_nat n) 40) [] 1700000000000000000 [] 1700000000000000000
    (Z.of_nat (length (outbox d))) [] [] [] [].

Definition demo_repo : Repository := mkRepository (Some (NewRetrier 0 0 0)) false.

Definition float_req := mkCreateAccountRequest "float" "ASSET" "INR" None true.
Definition wallet_req := mkCreateAccountRequest "wallet" "LIABILITY" "INR" None false.
Definition merchant_req := mkCreateAccountRequest "merchant" "LIABILITY" "INR" None false.

(** The account ids the three calls draw. *)
Definition float_id : UUID := 10%N.
Definition wallet_id : UUID := 20%N.
Definition merchant_id : UUID := 30%N.

Definition demo_db1 : DB := w_db (CreateAccount demo_repo float_req (quiet_world empty_DB 10)).2.
Definition demo_db2 : DB := w_db (CreateAccount demo_repo wallet_req (quiet_world demo_db1 20)).2.
Definition demo_db : DB := w_db (CreateAccount demo_repo merchant_req (quiet_world demo_db2 30)).2.

Definition transfer (debit credit : UUID) (amount : Z) : TransactionRequest :=
  mkTransactionRequest "alice" "TRANSFER" None []
    [mkEntryRequest debit "DEBIT" (mkMoney amount "INR"); mkEntryRequest credit "CREDIT" (mkMoney amount "INR")]
    None None None.

(** The wallet is funded with 500 minor units. *)
Definition funding : TransactionRequest := transfer float_id wallet_id 500.
Definition funding_id : UUID := 100%N.
Definition funded_db : DB := w_db (postTransaction demo_repo funding (quiet_world demo_db 100)).2.

(** The same request under an idempotency key, and a database in which the key
    is reserved. *)
Definition render : Transaction → res (Z * option string) := λ _, Ok (201, Some "{}").
Definition demo_idem : Idempotent := mkIdempotent "alice" "key-1" (Some render).
Definition keyed : TransactionRequest :=
  mkTransactionRequest "alice" "TRANSFER" None [] (Rq_Entries funding) None (Some demo_idem) None.
Definition fingerprint32 : string := "0123456789abcdef0123456789abcdef".
Definition reserved_db : DB :=
  w_db (Store_Reserve (mkReservation "alice" "key-1" fingerprint32 "POST" "/v1/transactions"
                         86400000000000 30000000000) (quiet_world demo_db 90)).2.

(** A run that is seen to succeed. *)
Lemma ran_ok {A} (m : M A) w : is_ok (m w).1 = true → ∃ a w', m w = (Ok a, w').
Proof. destruct (m w) as [[a|e] w']; [eauto|done]. Qed.

Lemma quiet_world_db d n : w_db (quiet_world d n) = d.
Proof. reflexivity. Qed.

Lemma created_wf repo req d n : ledger_wf d → ledger_wf (w_db (CreateAccount repo req (quiet_world d n)).2).
Proof. intros Hd. apply create_wf. by rewrite quiet_world_db. Qed.

Lemma posted_wf repo req d n : ledger_wf d → request_ok req →
  ledger_wf (w_db (postTransaction repo req (quiet_world d n)).2).
Proof. intros Hd Hreq. apply post_wf; [by rewrite quiet_world_db | done]. Qed.

Lemma demo_wf : ledger_wf demo_db.
Proof. exact (created_wf _ _ _ _ (created_wf _ _ _ _ (created_wf _ _ _ _ empty_DB_wf))). Qed.

Lemma transfer_ok debit credit amount : is_int64 amount → request_ok (transfer debit credit amount).
Proof.
  intros Ha. split; [|done]. intros e He. simpl in He.
  apply elem_of_cons in He as [->|He]; [done|]. by apply list_elem_of_singleton in He as ->.
Qed.

Lemma funding_ok : request_ok funding.
Proof. apply transfer_ok. split; vm_compute; congruence. Qed.

Lemma keyed_ok : request_ok keyed.
Proof. exact funding_ok. Qed.

Lemma funded_wf : ledger_wf funded_db.
Proof. exact (posted_wf _ _ _ _ demo_wf funding_ok). Qed.

Lemma reserved_wf : ledger_wf reserved_db.
Proof. unfold reserved_db. apply framed_wf; [auto with framed | exact demo_wf]. Qed.

(** The runs behind these definitions succeeded. *)
Example demo_runs :
  size (accounts demo_db) = 3%nat ∧
  (b_available_minor <$> account_balances funded_db !! wallet_id) = Some 500 ∧
  (b_available_minor <$> account_balances funded_db !! float_id) = Some 500 ∧
  length (journal_entries funded_db) = 2%nat ∧
  (ik_status <$> idempotency_keys reserved_db !! ("alice", "key-1")) = Some IStatusInProgress.
Proof. vm_compute. auto. Qed.

(** Conversion compares these databases by name; [vm_compute] still runs them. *)
(** The defining equations, for use once the databases are opaque. *)
Lemma demo_db1_eq : demo_db1 = w_db (CreateAccount demo_repo float_req (quiet_world empty_DB 10)).2.
Proof. reflexivity. Qed.
Lemma demo_db2_eq : demo_db2 = w_db (CreateAccount demo_repo wallet_req (quiet_world demo_db1 20)).2.
Proof. reflexivity. Qed.
Lemma demo_db_eq : demo_db = w_db (CreateAccount demo_repo merchant_req (quiet_world demo_db2 30)).2.
Proof. reflexivity. Qed.
Lemma funded_db_eq : funded_db = w_db (postTransaction demo_repo funding (quiet_world demo_db 100)).2.
Proof. reflexivity. Qed.

#[global] Opaque demo_db1 demo_db2 demo_db funded_db reserved_db.
