(* ===== verification/Guarantees.v ===== *)
(** * What callers of the ledger service can rely on

    Atomicity, exactly-once posting under an idempotency key, and what a
    reversal undoes; each holds in every world. *)

From S2P Require Import Prelude Errors Money Json Types SagaTypes Events Schema Outbox PgIdem.
From S2P Require Import PgSaga Retry PgLedger Service PgLedgerSpec ServiceSpec Invariant Validate.
From S2P Require Import Posting Ledger Frames Uuid Demo.
Open Scope string_scope.
Open Scope Z_scope.

Section guarantees.
Context `{UL : UuidLib}.

(** ** Reading a recorded transaction *)

Section recorded.
Context (now : Time) (header : Transaction) (reqs : list EntryRequest) (idem : option Idempotent)
  (reversed : option UUID) (rows : list entry_row) (ebs : list eventBalance) (d d' : DB).
Hypothesis Hrec : tx_recorded now header reqs idem reversed rows ebs d d'.

Lemma recorded_requests : Forall2 (row_of_request (Tx_ID header)) rows reqs.
Proof. destruct Hrec as [(d1 & d2 & o & new & dr & Hw & _)]. apply Hw. Qed.

Lemma recorded_fresh : transactions d !! Tx_ID header = None.
Proof. destruct Hrec as [(d1 & d2 & o & new & dr & Hw & _)]. apply Hw. Qed.

Lemma recorded_tables : accounts d' = accounts d ∧ journal_entries d' = (journal_entries d ++ rows)%list.
Proof.
  destruct Hrec as [(d1 & d2 & o & new & dr & Hw & Hm & _ & _ & _ & _ & Hfr & _ & Hkey)].
  apply key_completed_frame in Hkey. apply mark_reversed_keep in Hm as (Ha & Hj & _).
  destruct (tx_written_keep _ _ _ _ _ _ _ Hw) as (_ & _ & Ha1 & Hj1).
  rewrite (lf_accounts _ _ Hkey), (lf_accounts _ _ Hfr), (lf_journal _ _ Hkey), (lf_journal _ _ Hfr).
  simpl. rewrite Ha, Hj, Ha1, Hj1. done.
Qed.

Lemma recorded_transactions : match reversed with
  | None => transactions d' = <[Tx_ID header := transaction_row_of now header]> (transactions d)
  | Some r => ∃ t, <[Tx_ID header := transaction_row_of now header]> (transactions d) !! r = Some t ∧
      t_status t = TransactionStatusPosted ∧
      transactions d' = <[r := set_status TransactionStatusReversed t]>
        (<[Tx_ID header := transaction_row_of now header]> (transactions d))
  end.
Proof.
  destruct Hrec as [(d1 & d2 & o & new & dr & Hw & Hm & _ & _ & _ & _ & Hfr & _ & Hkey)].
  apply key_completed_frame in Hkey.
  rewrite (lf_transactions _ _ Hkey), (lf_transactions _ _ Hfr). simpl.
  destruct (tw_db _ _ _ _ _ _ _ Hw) as (bals' & -> & _).
  destruct reversed as [r|]; simpl in Hm; [|by rewrite Hm].
  destruct Hm as (t & Ht & Hst & ->). exists t. done.
Qed.

(** Each balance moves by the signed sum of the account's new entries, and its
    version by one when it has any leg. *)
Lemma recorded_balance id a b : accounts d !! id = Some a → account_balances d !! id = Some b →
  ∃ b', account_balances d' !! id = Some b' ∧
    b_available_minor b' = b_available_minor b + account_sum (a_normal_balance a) id rows ∧
    b_version b' = b_version b + (if decide (id ∈ Er_AccountID <$> reqs) then 1 else 0).
Proof.
  intros Ha Hb.
  destruct Hrec as [(d1 & d2 & o & new & dr & Hw & Hm & _ & _ & _ & _ & Hfr & _ & Hkey)].
  apply key_completed_frame in Hkey. pose proof (lf_balances _ _ (ledger_frame_trans _ _ _ Hfr Hkey) id) as Hbal.
  simpl in Hbal. destruct (mark_reversed_keep _ _ _ Hm) as (_ & _ & _ & Hb2 & _). rewrite Hb2 in Hbal.
  destruct (tw_db _ _ _ _ _ _ _ Hw) as (bals' & -> & [Hother Hmoved _]). simpl in Hbal.
  destruct (decide (id ∈ Er_AccountID <$> reqs)) as [Hid|Hid].
  - destruct (Hmoved id) as (a' & b1 & last & Ha' & Hb1 & Hb' & _); [by apply sortedAccountIDs_elem|].
    rewrite Hb' in Hbal. inversion Hbal as [? b2 (Hav & Hv & _)|]; subst.
    rewrite Ha in Hav, Ha'. rewrite Hb in Hb1. simplify_eq/=. exists b2. auto.
  - rewrite Hother, Hb in Hbal by by rewrite sortedAccountIDs_elem.
    inversion Hbal as [? b2 (Hav & Hv & _)|]; subst. exists b2. split_and!; [done| |lia].
    rewrite account_sum_none; [lia|]. intros r Hr <-. apply Hid.
    destruct (Forall2_elem_l _ _ _ _ recorded_requests Hr) as (e & He & _ & -> & _).
    by apply list_elem_of_fmap_2.
Qed.

Lemma recorded_key i : idem = Some i →
  (∃ r, idempotency_keys d !! (Idem_PrincipalID i, Idem_Key i) = Some r ∧ ik_status r = IStatusInProgress) ∧
  ∃ r', idempotency_keys d' !! (Idem_PrincipalID i, Idem_Key i) = Some r' ∧
    ik_status r' = IStatusCompleted ∧ ik_transaction_id r' = Some (Tx_ID header).
Proof.
  intros ->. destruct Hrec as [(d1 & d2 & o & new & dr & _ & _ & _ & _ & _ & _ & _ & Hik & Hkey)].
  destruct Hkey as (r & code & body & _ & Hr & Hst & ->). rewrite Hik in Hr. split; [by eauto|].
  simpl. rewrite lookup_insert_eq. eexists. done.
Qed.

(** The completed row is the reserved one with the rendered response in it. *)
Lemma recorded_response i : idem = Some i →
  ∃ r render h code body, idempotency_keys d !! (Idem_PrincipalID i, Idem_Key i) = Some r ∧
    Idem_Render i = Some render ∧ Tx_ID h = Tx_ID header ∧ render h = Ok (code, body) ∧
    idempotency_keys d' !! (Idem_PrincipalID i, Idem_Key i) =
      Some (ik_finish IStatusCompleted code body (Some (Tx_ID header)) r).
Proof.
  intros ->. destruct Hrec as [(d1 & d2 & o & new & dr & _ & _ & _ & _ & _ & _ & _ & Hik & Hkey)].
  destruct Hkey as (r & code & body & (render & h & Hren & Hid & Hcb) & Hr & _ & ->). rewrite Hik in Hr.
  exists r, render, h, code, body. split_and!; auto. simpl. by rewrite lookup_insert_eq.
Qed.
End recorded.

(** ** Atomicity *)

(** C2: [PostTransaction] is all or nothing and takes effect at most once,
    whatever fails.  From a consistent database, in any environment, either the
    database is untouched and an error is returned, or exactly one new
    transaction has been recorded: its journal rows are the requested legs, each
    on the account named or on one of that account's active shards, appended
    after the existing ones; every balance has moved by the signed sum of its new
    rows and every touched version by one; no other transaction changed.  A lost
    COMMIT answer followed by retries never records a second transaction, and a
    successful call names the recorded one. *)
Theorem postTransaction_all_or_nothing repo req w r w' :
  ledger_wf (w_db w) → request_ok req → postTransaction repo req w = (r, w') →
  (w_db w' = w_db w ∧ is_ok r = false) ∨
  ∃ txID reqs rows,
    Forall2 (routed (w_db w)) reqs (Rq_Entries req) ∧
    Forall2 (row_of_request txID) rows reqs ∧
    transactions (w_db w) !! txID = None ∧
    (∃ t, transactions (w_db w') = <[txID := t]> (transactions (w_db w)) ∧
       t_status t = TransactionStatusPosted) ∧
    journal_entries (w_db w') = (journal_entries (w_db w) ++ rows)%list ∧
    (∀ id a b, accounts (w_db w) !! id = Some a → account_balances (w_db w) !! id = Some b →
       ∃ b', account_balances (w_db w') !! id = Some b' ∧
         b_available_minor b' = b_available_minor b + account_sum (a_normal_balance a) id rows ∧
         b_version b' = b_version b + (if decide (id ∈ Er_AccountID <$> reqs) then 1 else 0)) ∧
    (∀ h, r = Ok h → Tx_ID h = txID).
Proof.
  intros Hwf Hok Hrun.
  apply post_once in Hrun as [?|(_ & txID & (now & reqs & rows & ebs & HP & Hrec & _) & Hres)]; [by left| |done|done].
  right. exists txID, reqs, rows. destruct (recorded_tables _ _ _ _ _ _ _ _ _ Hrec) as [_ Hj].
  split_and!; auto.
  - exact (recorded_requests _ _ _ _ _ _ _ _ _ Hrec).
  - exact (recorded_fresh _ _ _ _ _ _ _ _ _ Hrec).
  - eexists. split; [exact (recorded_transactions _ _ _ _ _ _ _ _ _ Hrec) | done].
  - intros id a b. exact (recorded_balance _ _ _ _ _ _ _ _ _ Hrec id a b).
  - intros h Hh. by destruct (Hres h Hh).
Qed.

(** ** Exactly once under an idempotency key *)

(** A request bound to an idempotency key has an effect only while that key
    is IN_PROGRESS, and a success leaves the key COMPLETED with the id of the
    transaction it posted.  So of several attempts under one reservation (a
    zombie whose lease was reclaimed included) at most one moves money. *)
Theorem keyed_post_needs_reservation repo req i w r w' :
  ledger_wf (w_db w) → request_ok req → Rq_Idempotency req = Some i →
  postTransaction repo req w = (r, w') →
  (w_db w' = w_db w ∧ is_ok r = false) ∨
  ∃ txID,
    (∃ row, idempotency_keys (w_db w) !! (Idem_PrincipalID i, Idem_Key i) = Some row ∧
       ik_status row = IStatusInProgress) ∧
    (∃ row, idempotency_keys (w_db w') !! (Idem_PrincipalID i, Idem_Key i) = Some row ∧
       ik_status row = IStatusCompleted ∧ ik_transaction_id row = Some txID) ∧
    is_Some (transactions (w_db w') !! txID) ∧
    (∀ h, r = Ok h → Tx_ID h = txID).
Proof.
  intros Hwf Hok Hi Hrun.
  apply post_once in Hrun as [?|(_ & txID & (now & reqs & rows & ebs & HP & Hrec & _) & Hres)]; [by left| |done|done].
  right. exists txID. destruct (recorded_key _ _ _ _ _ _ _ _ _ Hrec i Hi) as [Hold Hnew].
  split_and!; auto; [by apply tx_recorded_exists in Hrec|]. intros h Hh. by destruct (Hres h Hh).
Qed.

(** C3: running the same keyed request twice, in any two environments, records
    at most one transaction: once the first call has changed the database, the
    second leaves it exactly as it is and reports an error. *)
Theorem keyed_post_exactly_once repo req i w1 w2 :
  ledger_wf (w_db w1) → request_ok req → Rq_Idempotency req = Some i →
  w_db w2 = w_db (postTransaction repo req w1).2 → w_db w2 ≠ w_db w1 →
  w_db (postTransaction repo req w2).2 = w_db w2 ∧ is_ok (postTransaction repo req w2).1 = false.
Proof.
  intros Hwf Hok Hi Hw2 Hne.
  destruct (postTransaction repo req w1) as [r1 w1'] eqn:Hr1. simpl in Hw2.
  assert (Hwf2 : ledger_wf (w_db w2)).
  { rewrite Hw2. pose proof (post_wf repo req w1 Hwf Hok) as Hp. by rewrite Hr1 in Hp. }
  apply post_once in Hr1 as [[Hd _]|(_ & tx1 & (? & ? & ? & ? & _ & Hrec1 & _) & _)]; [congruence| |done|done].
  destruct (recorded_key _ _ _ _ _ _ _ _ _ Hrec1 i Hi) as [_ (row & Hrow & Hst & _)].
  destruct (postTransaction repo req w2) as [r2 w2'] eqn:Hr2. simpl.
  apply post_once in Hr2 as [[Hd He]|(_ & tx2 & (? & ? & ? & ? & _ & Hrec2 & _) & _)]; [done| |done|done].
  destruct (recorded_key _ _ _ _ _ _ _ _ _ Hrec2 i Hi) as [(row' & Hrow' & Hst') _].
  rewrite Hw2, Hrow in Hrow'. injection Hrow' as <-. rewrite Hst in Hst'. done.
Qed.

(** The database's own defence.  If any transaction already carries the
    request's principal and idempotency key, posting changes nothing, even when
    no idempotency record survives to say so (it was swept, or was never
    written because the caller set the key alone). *)
Theorem duplicate_key_posts_nothing repo req k id t w :
  ledger_wf (w_db w) → request_ok req → post_key req = Some k →
  transactions (w_db w) !! id = Some t → t_principal_id t = Rq_PrincipalID req →
  t_idempotency_key t = Some k →
  w_db (postTransaction repo req w).2 = w_db w ∧ is_ok (postTransaction repo req w).1 = false.
Proof.
  intros Hwf Hok Hk Ht Hp Hkt. destruct (postTransaction repo req w) as [r w'] eqn:Hrun. simpl.
  apply post_once in Hrun as [?|(_ & tx & (? & ? & ? & ? & _ & Hrec & _) & _)]; [done| |done|done].
  destruct Hrec as [(d1 & d2 & o & new & dr & Hw & _)].
  destruct (tx_key_taken_false _ _ _ (tw_key _ _ _ _ _ _ _ Hw) k id t); auto.
Qed.

(** ** Reversals *)

(** The movement of an account over requested legs. *)
Definition request_sum (nb : Direction) (id : UUID) (l : list EntryRequest) : Z :=
  zsum (λ e, if decide (Er_AccountID e = id)
             then account_signed nb (Er_Direction e) (amountMinor (Er_Amount e)) else 0) l.

Lemma account_sum_requests nb id txID rows reqs : Forall2 (row_of_request txID) rows reqs →
  account_sum nb id rows = request_sum nb id reqs.
Proof.
  unfold account_sum, request_sum. rewrite zsum_filter.
  induction 1 as [|r e rows reqs (_ & Ha & Hd & Hm & _) _ IH]; [done|].
  rewrite !zsum_cons, Ha, Hd, Hm, IH. done.
Qed.

(** The mirrored legs of a transaction move each account by the opposite. *)
Lemma mirrored_sum nb id txID d : ledger_wf d → Direction_Valid nb = true →
  request_sum nb id (mirrored txID d) = - account_sum nb id (tx_rows txID (journal_entries d)).
Proof.
  intros Hwf Hnb. unfold request_sum, mirrored, account_sum. rewrite !zsum_map, zsum_filter. simpl.
  rewrite (zsum_perm _ _ _ (entries_of_perm txID _)), <- zsum_opp. apply zsum_ext. intros r Hr.
  apply list_elem_of_filter in Hr as [_ Hr].
  destruct (wf_entries d Hwf r Hr) as ((_ & Hdir & _) & _).
  destruct (decide _); [|done]. by apply account_signed_opposite.
Qed.

(** An entry of a reversal and the entry of the original it mirrors. *)
Definition mirrors (revID : UUID) (new old : entry_row) : Prop :=
  je_transaction_id new = revID ∧ je_account_id new = je_account_id old ∧
  je_direction new = Direction_Opposite (je_direction old) ∧
  je_amount_minor new = je_amount_minor old ∧ je_currency new = je_currency old.

Lemma mirrored_rows revID txID d rows : Forall2 (row_of_request revID) rows (mirrored txID d) →
  Forall2 (mirrors revID) rows (entries_of txID (journal_entries d)).
Proof.
  unfold mirrored. rewrite <- list_fmap_compose, Forall2_fmap_r. intros Hf. eapply list.Forall2_impl; [exact Hf|].
  intros new old (H1 & H2 & H3 & H4 & H5). by split_and!.
Qed.

(** C8: a reversal undoes exactly its transaction.  In any environment, either
    the database is untouched and an error is returned, or the original was
    POSTED and is now REVERSED, a POSTED transaction of type REVERSAL naming it was
    added, the journal has gained exactly that transaction's entries, one for each entry
    of the original in their order with the same account, amount and currency and the
    opposite direction, and every balance has moved by the opposite of what the
    original's entries moved it by. *)
Theorem reversal_undoes repo txID reason idem record w r w' :
  ledger_wf (w_db w) → recorder_ok record → doReverse repo txID reason idem record w = (r, w') →
  (w_db w' = w_db w ∧ is_ok r = false) ∨
  ∃ revID rows t now,
    transactions (w_db w) !! txID = Some t ∧ t_status t = TransactionStatusPosted ∧
    transactions (w_db w') !! txID = Some (set_status TransactionStatusReversed t) ∧
    transactions (w_db w) !! revID = None ∧
    transactions (w_db w') !! revID = Some (transaction_row_of now (reverse_header revID txID reason idem)) ∧
    journal_entries (w_db w') = (journal_entries (w_db w) ++ rows)%list ∧
    Forall2 (mirrors revID) rows (entries_of txID (journal_entries (w_db w))) ∧
    length rows = length (tx_rows txID (journal_entries (w_db w))) ∧
    (∀ id a b, accounts (w_db w) !! id = Some a → account_balances (w_db w) !! id = Some b →
       ∃ b', account_balances (w_db w') !! id = Some b' ∧
         b_available_minor b' = b_available_minor b -
           account_sum (a_normal_balance a) id (tx_rows txID (journal_entries (w_db w)))) ∧
    (∀ h, r = Ok h → Tx_ID h = revID).
Proof.
  intros Hwf Hrecd Hrun.
  apply reverse_once in Hrun as [?|(revID & (now & reqs & rows & ebs & [-> (t & Ht & Hst)] & Hrec & _) & Hres)];
    [by left| |done|done].
  right. exists revID, rows, t, now. pose proof (recorded_requests _ _ _ _ _ _ _ _ _ Hrec) as Hrq.
  pose proof (recorded_fresh _ _ _ _ _ _ _ _ _ Hrec) as Hfresh. simpl in Hfresh.
  destruct (recorded_transactions _ _ _ _ _ _ _ _ _ Hrec) as (t' & Ht' & _ & Htx). simpl in Ht', Htx.
  assert (Hne : revID ≠ txID) by congruence. rewrite lookup_insert_ne in Ht' by done.
  split_and!; auto.
  - rewrite Htx, lookup_insert_eq. congruence.
  - by rewrite Htx, lookup_insert_ne, lookup_insert_eq by done.
  - by destruct (recorded_tables _ _ _ _ _ _ _ _ _ Hrec) as [_ Hj].
  - by apply mirrored_rows.
  - rewrite (list.Forall2_length _ _ _ Hrq). apply mirrored_length.
  - intros id a b Ha Hb. destruct (recorded_balance _ _ _ _ _ _ _ _ _ Hrec id a b Ha Hb) as (b' & Hb' & Hav & _).
    exists b'. split; [done|]. rewrite Hav, (account_sum_requests _ _ _ _ _ Hrq).
    rewrite mirrored_sum; [lia|done|]. by destruct (wf_accounts _ Hwf id a Ha) as (_ & ? & _).
Qed.

(** C9: no transaction is reversed twice.  Once a transaction is REVERSED (or if
    it does not exist), every further reversal of it, in any environment, leaves
    the database exactly as it is and reports an error. *)
Theorem no_double_reversal repo txID reason idem record w :
  ledger_wf (w_db w) → recorder_ok record →
  (∀ t, transactions (w_db w) !! txID = Some t → t_status t ≠ TransactionStatusPosted) →
  w_db (doReverse repo txID reason idem record w).2 = w_db w ∧
  is_ok (doReverse repo txID reason idem record w).1 = false.
Proof.
  intros Hwf Hrecd Hst. destruct (doReverse repo txID reason idem record w) as [r w'] eqn:Hrun.
  apply reverse_once in Hrun as [?|(revID & (? & ? & ? & ? & [_ (t & Ht & Hp)] & _) & _)]; [done| |done|done].
  by destruct (Hst t Ht).
Qed.
End guarantees.

(** ** Witnesses *)

(** A deadlock victim on the first attempt: the retrier runs the body again and
    the transfer is posted once. *)
Definition deadlock_world : World :=
  let w := quiet_world funded_db 200 in
  mkWorld (w_db w) (w_ids w) [] (w_now w) [] (w_clock w) (w_seq w)
    [None; None; Some (PgError DeadlockDetected "" "deadlock detected")] [] [] [].

Lemma postTransaction_all_or_nothing_witness :
  ∃ txID rows, transactions funded_db !! txID = None ∧
    journal_entries (w_db (postTransaction demo_repo (transfer wallet_id merchant_id 120) deadlock_world).2)
      = (journal_entries funded_db ++ rows)%list.
Proof.
  destruct (postTransaction_all_or_nothing demo_repo (transfer wallet_id merchant_id 120) deadlock_world
    (postTransaction demo_repo (transfer wallet_id merchant_id 120) deadlock_world).1
    (postTransaction demo_repo (transfer wallet_id merchant_id 120) deadlock_world).2)
    as [[_ Hf]|(tx & reqs & rows & _ & _ & Hfresh & _ & Hj & _)].
  - exact funded_wf.
  - apply transfer_ok. split; vm_compute; congruence.
  - apply surjective_pairing.
  - exfalso. vm_compute in Hf. discriminate.
  - exists tx, rows. split; [exact Hfresh | exact Hj].
Defined.

Example deadlock_retried :
  let '(r, w') := postTransaction demo_repo (transfer wallet_id merchant_id 120) deadlock_world in
  is_ok r = true ∧ length (journal_entries (w_db w')) = 4%nat ∧
  (b_available_minor <$> account_balances (w_db w') !! wallet_id) = Some 380.
Proof. vm_compute. auto. Qed.

Definition keyed_world : World := quiet_world reserved_db 200.
Definition keyed_done : World := (postTransaction demo_repo keyed keyed_world).2.


Lemma keyed_post_needs_reservation_witness :
  ∃ row, idempotency_keys (w_db keyed_done) !! ("alice", "key-1") = Some row ∧ ik_status row = IStatusCompleted.
Proof.
  destruct (keyed_post_needs_reservation demo_repo keyed demo_idem keyed_world
    (postTransaction demo_repo keyed keyed_world).1 (postTransaction demo_repo keyed keyed_world).2)
    as [[_ Hf]|(tx & _ & (row & Hrow & Hst & _) & _)].
  - exact reserved_wf.
  - exact keyed_ok.
  - reflexivity.
  - apply surjective_pairing.
  - exfalso. vm_compute in Hf. discriminate.
  - exists row. split; [exact Hrow | exact Hst].
Defined.

(** The retry of a request whose first call succeeded. *)
Definition keyed_again : World := quiet_world (w_db keyed_done) 300.

Lemma keyed_post_exactly_once_witness :
  w_db (postTransaction demo_repo keyed keyed_again).2 = w_db keyed_again ∧
  is_ok (postTransaction demo_repo keyed keyed_again).1 = false.
Proof.
  apply (keyed_post_exactly_once demo_repo keyed demo_idem keyed_world keyed_again).
  - exact reserved_wf.
  - exact keyed_ok.
  - reflexivity.
  - exact (quiet_world_db (w_db keyed_done) 300).
  - intros Heq. apply (f_equal (λ d, length (journal_entries d))) in Heq. vm_compute in Heq. discriminate.
Defined.

(** The key's record has been released, so only the unique index is left. *)
Definition swept_world : World := quiet_world (set_idempotency_keys ∅ (w_db keyed_done)) 300.

Lemma duplicate_key_posts_nothing_witness :
  w_db (postTransaction demo_repo keyed swept_world).2 = w_db swept_world.
Proof.
  destruct (transactions (w_db swept_world) !! 200%N) as [t|] eqn:Ht; [|vm_compute in Ht; discriminate].
  apply (duplicate_key_posts_nothing demo_repo keyed "key-1" 200%N t swept_world).
  - unfold swept_world. rewrite quiet_world_db. eapply ledger_wf_frame; [apply frame_idempotency|].
    exact (post_wf demo_repo keyed keyed_world reserved_wf keyed_ok).
  - exact keyed_ok.
  - reflexivity.
  - exact Ht.
  - assert (Hp : t_principal_id <$> transactions (w_db swept_world) !! 200%N = Some "alice") by (vm_compute; reflexivity).
    rewrite Ht in Hp. by injection Hp.
  - assert (Hp : t_idempotency_key <$> transactions (w_db swept_world) !! 200%N = Some (Some "key-1")) by (vm_compute; reflexivity).
    rewrite Ht in Hp. by injection Hp.
Defined.

Definition reversal_world : World := quiet_world funded_db 400.
Definition reversal_run := doReverse demo_repo funding_id "duplicate" None None reversal_world.

Lemma reversal_undoes_witness :
  ∃ b', account_balances (w_db reversal_run.2) !! wallet_id = Some b' ∧ b_available_minor b' = 0.
Proof.
  destruct (reversal_undoes demo_repo funding_id "duplicate" None None reversal_world reversal_run.1 reversal_run.2)
    as [[_ Hf]|(rev & rows & t & now & _ & _ & _ & _ & _ & _ & _ & _ & Hb & _)].
  - exact funded_wf.
  - exact recorder_none.
  - apply surjective_pairing.
  - exfalso. vm_compute in Hf. discriminate.
  - destruct (accounts funded_db !! wallet_id) as [a|] eqn:Ha; [|vm_compute in Ha; discriminate].
    destruct (account_balances funded_db !! wallet_id) as [b|] eqn:Hb0; [|vm_compute in Hb0; discriminate].
    destruct (Hb wallet_id a b Ha Hb0) as (b' & Hb' & Hav). exists b'. split; [exact Hb'|]. rewrite Hav.
    vm_compute in Ha, Hb0. injection Ha as <-. injection Hb0 as <-. vm_compute. reflexivity.
Defined.

Definition reversed_world : World := quiet_world (w_db reversal_run.2) 500.

Lemma no_double_reversal_witness :
  w_db (doReverse demo_repo funding_id "again" None None reversed_world).2 = w_db reversed_world.
Proof.
  apply (no_double_reversal demo_repo funding_id "again" None None reversed_world).
  - unfold reversed_world. rewrite quiet_world_db.
    exact (reverse_wf demo_repo funding_id "duplicate" None None reversal_world funded_wf recorder_none).
  - exact recorder_none.
  - intros t Ht. assert (Hst : t_status <$> transactions (w_db reversed_world) !! funding_id = Some "REVERSED")
      by (vm_compute; reflexivity).
    rewrite Ht in Hst. injection Hst as ->. discriminate.
Defined.
