(* ===== verification/Consistency.v ===== *)
(** * The consistency checks (internal/consistency)

    The three read-only audits, as functions of the committed database, and
    that they find nothing in any consistent state. *)

From S2P Require Import Prelude Errors Money Json Types SagaTypes Events Schema Outbox PgIdem.
From S2P Require Import PgSaga Retry PgLedger Service PgLedgerSpec ServiceSpec Invariant Validate.
From S2P Require Import Posting Ledger Frames Uuid Demo.
Open Scope string_scope.
Open Scope Z_scope.

Definition maxReported : nat := 200.

(** ** invariant.go *)

Record CurrencyViolation := mkCurrencyViolation { Cv_Currency : string; Cv_SignedTotal : Z }.

Definition currency_total (cur : string) (l : list entry_row) : Z :=
  zsum (λ r, transaction_signed (je_direction r) (je_amount_minor r)) (filter (λ r, je_currency r = cur) l).

Definition currencies (l : list entry_row) : list string := remove_dups (je_currency <$> l).

(** [SELECT currency, SUM ... GROUP BY currency HAVING SUM <> 0 ORDER BY currency] *)
Definition CheckGlobalInvariant (d : DB) : list CurrencyViolation :=
  (λ cur, mkCurrencyViolation cur (currency_total cur (journal_entries d))) <$>
  sort_by (λ a b, negb (String.ltb b a))
    (filter (λ cur, currency_total cur (journal_entries d) ≠ 0) (currencies (journal_entries d))).

Definition GlobalInvariantResult_OK (v : list CurrencyViolation) : bool := bool_decide (v = []).

(** ** drift.go *)

Record BalanceDrift := mkBalanceDrift {
  Dr_AccountID : UUID; Dr_Currency : string; Dr_RebuiltAvailable : Z; Dr_LiveAvailable : Z }.

Record DriftResult := mkDriftResult {
  Dr_AccountsCompared : nat; Dr_Drifted : list BalanceDrift; Dr_TotalDrifted : nat }.

(** The rows of the CTE [compared]. *)
Definition compared (d : DB) : list BalanceDrift :=
  omap (λ kr : UUID * account_row,
    let rebuilt := account_sum (a_normal_balance kr.2) kr.1 (journal_entries d) in
    let live := default 0 (b_available_minor <$> account_balances d !! kr.1) in
    if bool_decide (rebuilt ≠ live) then Some (mkBalanceDrift kr.1 (a_currency kr.2) rebuilt live) else None)
  (map_to_list (accounts d)).

(** [count( * ) OVER ()] is read from each row, so it stays zero without rows. *)
Definition CheckProjectionDrift (d : DB) : DriftResult :=
  let rows := sort_by (λ a b, (Dr_AccountID a <=? Dr_AccountID b)%N) (compared d) in
  let page := take maxReported rows in
  mkDriftResult (size (accounts d)) page (if bool_decide (page = []) then 0%nat else length rows).

Definition DriftResult_OK (r : DriftResult) : bool := (Dr_TotalDrifted r =? 0)%nat.

(** ** orphans.go *)

Record OrphanResult := mkOrphanResult {
  Or_FewEntryTransactions : list UUID; Or_TotalFewEntry : nat;
  Or_OrphanEntries : list UUID; Or_TotalOrphanEntries : nat }.

Definition few_entry (d : DB) : list UUID :=
  omap (λ kr : UUID * transaction_row,
    if bool_decide (t_status kr.2 ∈ [TransactionStatusPosted; TransactionStatusReversed]) &&
       (length (tx_rows kr.1 (journal_entries d)) <? 2)%nat
    then Some kr.1 else None) (map_to_list (transactions d)).

Definition orphan_entries (d : DB) : list UUID :=
  je_id <$> filter (λ r, transactions d !! je_transaction_id r = None) (journal_entries d).

Definition CheckOrphans (d : DB) : OrphanResult :=
  let few := sort_by (λ a b, (a <=? b)%N) (few_entry d) in
  let orphans := sort_by (λ a b, (a <=? b)%N) (orphan_entries d) in
  let page1 := take maxReported few in
  let page2 := take maxReported orphans in
  mkOrphanResult page1 (if bool_decide (page1 = []) then 0%nat else length few)
    page2 (if bool_decide (page2 = []) then 0%nat else length orphans).

Definition OrphanResult_OK (r : OrphanResult) : bool :=
  (Or_TotalFewEntry r =? 0)%nat && (Or_TotalOrphanEntries r =? 0)%nat.

(** ** Every audit passes in a consistent state *)

(** The total of a currency is the sum of its transactions' totals. *)
Lemma currency_total_by_tx cur txs : ∀ l, NoDup txs → (∀ r, r ∈ l → je_transaction_id r ∈ txs) →
  currency_total cur l = zsum (λ tx, tx_currency_sum tx cur l) txs.
Proof.
  intros l Hnd. induction l as [|r l IH]; intros Hl.
  { symmetry. by apply zsum_zero. }
  assert (Hr : je_transaction_id r ∈ txs) by (apply Hl; set_solver).
  set (v := if decide (je_currency r = cur) then transaction_signed (je_direction r) (je_amount_minor r) else 0).
  assert (H1 : currency_total cur (r :: l) = v + currency_total cur l).
  { unfold currency_total, v. rewrite filter_cons. destruct (decide _); by autorewrite with zsum. }
  assert (H2 : ∀ tx, tx_currency_sum tx cur (r :: l) =
    (if decide (je_transaction_id r = tx) then v else 0) + tx_currency_sum tx cur l).
  { intros tx. unfold tx_currency_sum, v. rewrite filter_cons.
    repeat destruct (decide _); autorewrite with zsum; try done; naive_solver. }
  rewrite H1, IH by set_solver. rewrite (zsum_ext _ _ _ (λ tx _, H2 tx)), zsum_add. f_equal.
  clear -Hr Hnd. induction txs as [|tx txs IHt]; [set_solver|]. autorewrite with zsum.
  apply list.NoDup_cons in Hnd as [Htx Hnd]. destruct (decide (je_transaction_id r = tx)) as [<-|Hne].
  - rewrite zsum_zero; [lia|]. intros x Hx. rewrite decide_False; [done|]. by intros <-.
  - rewrite <- IHt; [lia|done|set_solver].
Qed.

Lemma wf_currency_total d cur : ledger_wf d → currency_total cur (journal_entries d) = 0.
Proof.
  intros Hwf. rewrite (currency_total_by_tx cur (remove_dups (je_transaction_id <$> journal_entries d))).
  - apply zsum_zero. intros tx _. by apply wf_zero.
  - apply NoDup_remove_dups.
  - intros r Hr. apply elem_of_remove_dups. by apply list_elem_of_fmap_2.
Qed.

(** A consistent state gives the audits nothing to report. *)
Lemma wf_audits d : ledger_wf d →
  GlobalInvariantResult_OK (CheckGlobalInvariant d) = true ∧
  DriftResult_OK (CheckProjectionDrift d) = true ∧
  OrphanResult_OK (CheckOrphans d) = true.
Proof.
  intros Hwf. split_and!.
  - unfold CheckGlobalInvariant. rewrite filter_all_false; [done|].
    intros cur _ Hne. by apply Hne, wf_currency_total.
  - unfold CheckProjectionDrift. assert (compared d = []) as ->; [|done].
    apply omap_none. intros [id a] Hin%elem_of_map_to_list. simpl.
    destruct (wf_accounts d Hwf id a Hin) as (_ & _ & [b Hb]). rewrite Hb. simpl.
    rewrite bool_decide_eq_false_2; [done|]. intros Hne. apply Hne.
    symmetry. by eapply wf_balance_sum.
  - unfold CheckOrphans. assert (few_entry d = []) as ->; [|assert (orphan_entries d = []) as ->; [|done]].
    + apply omap_none. intros [id t] Hin%elem_of_map_to_list. simpl.
      destruct (wf_txs d Hwf id t Hin) as (_ & _ & Hlen). rewrite (proj2 (Nat.ltb_ge _ _)) by done.
      by rewrite andb_false_r.
    + unfold orphan_entries. rewrite filter_all_false; [done|]. intros r Hr Hnone.
      destruct (wf_entries d Hwf r Hr) as (_ & _ & [t Ht] & _). congruence.
Qed.

(** The audits can fail: a lone entry is both unbalanced and orphaned. *)
Example audits_detect :
  let d := set_journal_entries [mk_entry_row 1 2 wallet_id "CREDIT" 5 "INR" 0 0] demo_db in
  GlobalInvariantResult_OK (CheckGlobalInvariant d) = false ∧
  DriftResult_OK (CheckProjectionDrift d) = false ∧ OrphanResult_OK (CheckOrphans d) = false.
Proof. vm_compute. auto. Qed.
