(* ===== verification/Projector.v ===== *)
(** * The balance projector (internal/projector/apply.go and rebuild.go)

    Applying transaction events to [balance_projections], at least once and in
    any order, and the comparison of the projection with the journal. *)

From S2P Require Import Prelude Errors Money Json Types SagaTypes Events Schema Outbox PgIdem.
From S2P Require Import PgSaga Retry PgLedger Service PgLedgerSpec ServiceSpec Invariant Validate.
From S2P Require Import Posting Ledger Frames Uuid Demo.
Open Scope string_scope.
Open Scope Z_scope.

(** ** apply.go *)

(** Decoding into [transactionPayload]: the balances of a transaction payload;
    any other payload has no member named [balances] and decodes to none. *)
Definition payload_balances (p : EventPayload) : list eventBalance :=
  match p with PTransaction e => te_Balances e | _ => [] end.

(** [INSERT ... ON CONFLICT (account_id) DO UPDATE ... WHERE version < EXCLUDED.version];
    the currency column keeps its first value. *)
Definition upsert_projection (eventID : UUID) (b : eventBalance)
    (m : gmap UUID projection_row) : gmap UUID projection_row :=
  match m !! eb_AccountID b with
  | None => <[eb_AccountID b := mk_projection_row (amountMinor (eb_Available b)) (currency (eb_Available b))
               (eb_Version b) eventID]> m
  | Some p =>
      if bp_version p <? eb_Version b
      then <[eb_AccountID b := mk_projection_row (amountMinor (eb_Available b)) (bp_currency p)
               (eb_Version b) eventID]> m
      else m
  end.

Definition applyBalance (eventID : UUID) (b : eventBalance) : M unit :=
  _ ← sql_exec;
  _ ← guard_M (0 <=? eb_Version b) (PgError CheckViolation "balance_projections_version_check" "violates check constraint");
  known ← gets (λ d, bool_decide (is_Some (accounts d !! eb_AccountID b)));
  _ ← guard_M known (PgError ForeignKeyViolation "balance_projections_account_id_fkey" "violates foreign key constraint");
  modify (λ d, set_balance_projections (upsert_projection eventID b (balance_projections d)) d).

(** The body of [Apply]'s transaction: [false] when the event was seen before,
    in which case the code returns without committing. *)
Definition apply_body (env : Envelope) : M bool :=
  _ ← sql_exec;
  seen ← gets (λ d, bool_decide (is_Some (processed_events d !! Env_EventID env)));
  if (seen : bool) then mret false
  else
    _ ← modify (λ d, set_processed_events (<[Env_EventID env := Env_EventType env]> (processed_events d)) d);
    _ ← mapM_ (applyBalance (Env_EventID env)) (payload_balances (Env_Payload env));
    mret true.

Definition Apply (env : Envelope) : M bool := λ w0,
  if negb (is_transaction_event (Env_EventType env)) then (Err ErrUnknownEventType, w0)
  else
    match (_ ← sql_exec; tx_start) w0 with
    | (Err e, w) => (Err e, w)
    | (Ok _, w) =>
        match apply_body env w with
        | (Err e, w1) => (Err e, set_db (w_db w) w1)
        | (Ok false, w1) => (Ok false, set_db (w_db w) w1)
        | (Ok true, w1) =>
            match next_commit w1 with
            | (Ok CommitDone, w2) => (Ok true, w2)
            | (Ok (CommitAborted e), w2) => (Err e, set_db (w_db w) w2)
            | (Ok (CommitLost e), w2) => (Err e, w2)
            | (Err e, w2) => (Err e, w2)
            end
        end
    end.

(** ** rebuild.go *)

Record Mismatch := mkMismatch {
  Mm_AccountID : UUID; Mm_Currency : string; Mm_RebuiltAvailable : Z;
  Mm_LiveAvailable : Z; Mm_LiveVersion : Z }.

Record RebuildResult := mkRebuildResult { Rb_AccountsCompared : nat; Rb_Mismatches : list Mismatch }.

(** [filter = []] compares every account. *)
Definition Rebuild (ids : list UUID) (d : DB) : RebuildResult :=
  let rows := sort_by (λ a b : UUID * account_row, (a.1 <=? b.1)%N)
    (filter (λ kr : UUID * account_row, ids = [] ∨ kr.1 ∈ ids) (map_to_list (accounts d))) in
  mkRebuildResult (length rows)
    (omap (λ kr : UUID * account_row,
      let rebuilt := account_sum (a_normal_balance kr.2) kr.1 (journal_entries d) in
      let bp := balance_projections d !! kr.1 in
      let live := default 0 (bp_available_minor <$> bp) in
      if bool_decide (rebuilt ≠ live)
      then Some (mkMismatch kr.1 (a_currency kr.2) rebuilt live (default 0 (bp_version <$> bp))) else None) rows).

Definition RebuildResult_OK (r : RebuildResult) : bool := bool_decide (Rb_Mismatches r = []).

(** ** What the projection knows *)

Definition is_tx_row (o : outbox_row) : Prop := is_transaction_event (o_event_type o) = true.

Record projection_wf (d : DB) : Prop := {
  pw_source : ∀ id p, balance_projections d !! id = Some p →
    ∃ o eb, o ∈ outbox d ∧ eb ∈ row_balances o ∧ eb_AccountID eb = id ∧
      eb_Version eb = bp_version p ∧ amountMinor (eb_Available eb) = bp_available_minor p;
  pw_applied : ∀ o eb, o ∈ outbox d → is_Some (processed_events d !! o_event_id o) → eb ∈ row_balances o →
    ∃ p, balance_projections d !! eb_AccountID eb = Some p ∧ eb_Version eb ≤ bp_version p;
  pw_processed : ∀ ev, is_Some (processed_events d !! ev) → ev ∈ o_event_id <$> outbox d }.

(** A step that only appends events keeps it. *)
Lemma projection_wf_grow d d' new : projection_wf d →
  outbox d' = (outbox d ++ new)%list → NoDup (o_event_id <$> outbox d') →
  balance_projections d' = balance_projections d → processed_events d' = processed_events d →
  projection_wf d'.
Proof.
  intros [Hs Ha Hp] Ho Hnd Hbp Hpe. split; rewrite ?Hbp, ?Hpe.
  - intros id p Hid. destruct (Hs id p Hid) as (o & eb & Hin & ?). exists o, eb. rewrite Ho. set_solver.
  - intros o eb Hin Hev Heb. apply (Ha o); auto. rewrite Ho in Hin, Hnd.
    apply elem_of_app in Hin as [|Hin]; [done|]. exfalso. apply Hp in Hev.
    rewrite fmap_app in Hnd. apply list.NoDup_app in Hnd as (_ & Hdis & _).
    apply (Hdis _ Hev). by apply list_elem_of_fmap_2.
  - intros ev Hev. rewrite Ho, fmap_app. apply elem_of_app. left. auto.
Qed.

Lemma upsert_lookup ev b m id :
  upsert_projection ev b m !! id =
    if decide (id = eb_AccountID b) then
      match m !! id with
      | Some p => if bp_version p <? eb_Version b
                  then Some (mk_projection_row (amountMinor (eb_Available b)) (bp_currency p) (eb_Version b) ev)
                  else Some p
      | None => Some (mk_projection_row (amountMinor (eb_Available b)) (currency (eb_Available b)) (eb_Version b) ev)
      end
    else m !! id.
Proof.
  unfold upsert_projection. destruct (decide _) as [->|Hne].
  - destruct (m !! eb_AccountID b) as [p|] eqn:Hp; [|by rewrite lookup_insert_eq].
    case_match; [by rewrite lookup_insert_eq | done].
  - destruct (m !! eb_AccountID b); [case_match|]; by rewrite ?lookup_insert_ne.
Qed.

(** After a run of upserts: every row is an old one or one of the announced
    balances, no version went back, and every announced balance is covered. *)
Definition upserts (ev : UUID) (l : list eventBalance) (m : gmap UUID projection_row) :=
  foldl (λ m b, upsert_projection ev b m) m l.

Lemma upserts_ok ev l : ∀ m,
  (∀ id p', upserts ev l m !! id = Some p' → m !! id = Some p' ∨
     ∃ eb, eb ∈ l ∧ eb_AccountID eb = id ∧ eb_Version eb = bp_version p' ∧
       amountMinor (eb_Available eb) = bp_available_minor p') ∧
  (∀ id p, m !! id = Some p → ∃ p', upserts ev l m !! id = Some p' ∧ bp_version p ≤ bp_version p') ∧
  (∀ eb, eb ∈ l → ∃ p', upserts ev l m !! eb_AccountID eb = Some p' ∧ eb_Version eb ≤ bp_version p').
Proof.
  induction l as [|b l IH]; intros m; simpl.
  { split_and!; [by auto| |set_solver]. intros id p Hp. exists p. split; [done|lia]. }
  destruct (IH (upsert_projection ev b m)) as (I1 & I2 & I3).
  assert (Hup : ∀ id p, m !! id = Some p → ∃ p', upsert_projection ev b m !! id = Some p' ∧ bp_version p ≤ bp_version p').
  { intros id p Hp. rewrite upsert_lookup, Hp. destruct (decide _); [|exists p; split; [done|lia]].
    destruct (Z.ltb_spec (bp_version p) (eb_Version b)); eexists; split; try done; simpl; lia. }
  assert (Hb : ∃ p', upsert_projection ev b m !! eb_AccountID b = Some p' ∧ eb_Version b ≤ bp_version p').
  { rewrite upsert_lookup, decide_True by done. destruct (m !! eb_AccountID b) as [p|]; [|by eexists; split; [done|simpl; lia]].
    destruct (Z.ltb_spec (bp_version p) (eb_Version b)); eexists; split; try done; simpl; lia. }
  split_and!.
  - intros id p' [Hold|(eb & ? & ?)]%I1; [|right; exists eb; set_solver].
    rewrite upsert_lookup in Hold. destruct (decide _) as [->|]; [|by left].
    assert (Hcase : Some p' = m !! eb_AccountID b ∨
      (eb_Version b = bp_version p' ∧ amountMinor (eb_Available b) = bp_available_minor p')).
    { destruct (m !! eb_AccountID b) as [p|]; [case_match|]; simplify_eq; auto. }
    destruct Hcase as [->|[? ?]]; [by left|]. right. exists b. set_solver.
  - intros id p Hp. destruct (Hup id p Hp) as (p1 & Hp1 & ?). destruct (I2 id p1 Hp1) as (p2 & ? & ?).
    exists p2. split; [done|lia].
  - intros eb [->|Hin]%elem_of_cons; [|by apply I3]. destruct Hb as (p1 & Hp1 & ?).
    destruct (I2 _ _ Hp1) as (p2 & ? & ?). exists p2. split; [done|lia].
Qed.

(** ** One delivery *)

Definition applied (env : Envelope) (d : DB) : DB :=
  set_balance_projections (upserts (Env_EventID env) (payload_balances (Env_Payload env)) (balance_projections d))
    (set_processed_events (<[Env_EventID env := Env_EventType env]> (processed_events d)) d).

Lemma applyBalances_ok ev l : ∀ us w w', mapM_ (applyBalance ev) l w = (Ok us, w') →
  w_db w' = set_balance_projections (upserts ev l (balance_projections (w_db w))) (w_db w).
Proof.
  induction l as [|b l IH]; simpl; intros us w w' Hrun; mrun; [by destruct (w_db w)|].
  match goal with Hb : applyBalance _ _ _ = _ |- _ => unfold applyBalance in Hb end. mrun.
  match goal with Hl : mapM_ _ _ _ = _ |- _ => apply IH in Hl as -> end. done.
Qed.

Lemma apply_body_ok env r w w' : apply_body env w = (Ok r, w') →
  (r = false ∧ is_Some (processed_events (w_db w) !! Env_EventID env)) ∨
  (r = true ∧ processed_events (w_db w) !! Env_EventID env = None ∧ w_db w' = applied env (w_db w)).
Proof.
  unfold apply_body. intros Hrun. mrun. simpl in *. case_bool_decide as Hs; mrun; [by left|].
  right. match goal with Hl : mapM_ _ _ _ = _ |- _ => apply applyBalances_ok in Hl as -> end.
  split_and!; [done| |done]. by apply eq_None_not_Some.
Qed.

(** A delivery of a transaction event leaves the database alone or applies the
    event, which had not been applied; when it is acknowledged the event is on
    record. *)
Lemma Apply_cases env r w w' : Apply env w = (r, w') →
  (w_db w' = w_db w ∨ (is_transaction_event (Env_EventType env) = true ∧
     processed_events (w_db w) !! Env_EventID env = None ∧ w_db w' = applied env (w_db w))) ∧
  (is_ok r = true → is_Some (processed_events (w_db w') !! Env_EventID env)).
Proof.
  unfold Apply. destruct (is_transaction_event _) eqn:Hty; simpl; [|intros [= <- <-]; by split; [left|]].
  destruct (begin_run w) as ([u|e] & w1 & -> & Hw1); [|intros [= <- <-]; by split; [left|]].
  destruct (apply_body env w1) as [[[]|e] w2] eqn:Hb.
  - apply apply_body_ok in Hb as [[? _]|(_ & Hn & Hd)]; [done|]. rewrite Hw1 in *.
    assert (Hin : is_Some (processed_events (applied env (w_db w)) !! Env_EventID env))
      by (simpl; rewrite lookup_insert_eq; eauto).
    unfold next_commit. destruct (w_commits w2) as [|[|e|e] l]; intros [= <- <-]; simpl;
      rewrite ?Hd, ?Hw1; split; auto; done.
  - apply apply_body_ok in Hb as [[_ Hs]|(? & _)]; [|done]. rewrite Hw1 in *. intros [= <- <-]. simpl. auto.
  - rewrite Hw1. intros [= <- <-]. simpl. by split; [left|].
Qed.

(** Applying an event of the outbox keeps what the projection knows. *)
Lemma projection_wf_applied o d : ledger_wf d → projection_wf d → o ∈ outbox d →
  projection_wf (applied (o_payload o) d).
Proof.
  intros Hwf [Hs Ha Hp] Ho. destruct (wf_outbox d Hwf o Ho) as (Hev & _ & _).
  destruct (upserts_ok (Env_EventID (o_payload o)) (row_balances o) (balance_projections d)) as (U1 & U2 & U3).
  split; simpl.
  - intros id p' [Hold|(eb & Heb & ? & ? & ?)]%U1; [by apply Hs|]. exists o, eb. done.
  - intros o' eb Ho' Hpr Heb. rewrite Hev in Hpr.
    apply lookup_insert_is_Some' in Hpr as [Heq|Hpr].
    + assert (o' = o) as ->; [|by apply U3].
      apply list_elem_of_lookup in Ho as [i Hi]. apply list_elem_of_lookup in Ho' as [j Hj].
      assert (i = j) as ->; [|congruence].
      eapply (NoDup_lookup (o_event_id <$> outbox d) i j (o_event_id o)); [apply Hwf| |];
        rewrite list_lookup_fmap, ?Hi, ?Hj; simpl; congruence.
    + destruct (Ha o' eb Ho' Hpr Heb) as (p & Hpl & Hle). destruct (U2 _ _ Hpl) as (p' & Hp' & ?).
      exists p'. split; [exact Hp'|lia].
  - intros ev Hpr. apply lookup_insert_is_Some' in Hpr as [<-|Hpr]; [|by apply Hp].
    rewrite Hev. by apply list_elem_of_fmap_2.
Qed.

Lemma applied_wf env d : ledger_wf d → ledger_wf (applied env d).
Proof. intros Hwf. split; simpl; apply Hwf. Qed.

Lemma Apply_projection_wf o w : ledger_wf (w_db w) → projection_wf (w_db w) → o ∈ outbox (w_db w) →
  ledger_wf (w_db (Apply (o_payload o) w).2) ∧ projection_wf (w_db (Apply (o_payload o) w).2).
Proof.
  intros Hwf Hpw Ho. destruct (Apply (o_payload o) w) as [r w'] eqn:Hrun. simpl.
  apply Apply_cases in Hrun as [[->|(_ & _ & ->)] _]; [done|].
  split; [by apply applied_wf | by apply projection_wf_applied].
Qed.

(** ** Any schedule of deliveries *)

(** From [d] to [d'] by delivering rows of the outbox one after another, in any
    order, any number of times, in any environment; the event ids whose
    delivery was acknowledged (returned without error) are collected. *)
Inductive delivered (d : DB) : list UUID → DB → Prop :=
| delivered_nil : delivered d [] d
| delivered_step acks o w : o ∈ outbox d → delivered d acks (w_db w) →
    delivered d (if is_ok (Apply (o_payload o) w).1 then o_event_id o :: acks else acks)
      (w_db (Apply (o_payload o) w).2).

Lemma delivered_inv d acks d' : ledger_wf d → projection_wf d → delivered d acks d' →
  ledger_wf d' ∧ projection_wf d' ∧ outbox d' = outbox d ∧ accounts d' = accounts d ∧
  account_balances d' = account_balances d ∧
  ∀ ev, ev ∈ acks → is_Some (processed_events d' !! ev).
Proof.
  intros Hwf Hpw. induction 1 as [|acks o w Ho _ (Hwf' & Hpw' & Hout & Hacc & Hbal & Hack)].
  { split_and!; auto. set_solver. }
  destruct (Apply_projection_wf o w Hwf' Hpw') as [Hw1 Hw2]; [by rewrite Hout|].
  destruct (wf_outbox d Hwf o Ho) as (Hev & _).
  destruct (Apply (o_payload o) w) as [r w'] eqn:Hrun. simpl in *.
  apply Apply_cases in Hrun as [Hcase Hok].
  assert (Hkeep : outbox (w_db w') = outbox (w_db w) ∧ accounts (w_db w') = accounts (w_db w) ∧
    account_balances (w_db w') = account_balances (w_db w) ∧
    ∀ ev, is_Some (processed_events (w_db w) !! ev) → is_Some (processed_events (w_db w') !! ev)).
  { destruct Hcase as [->|(_ & _ & ->)]; simpl; [done|]. split_and!; auto.
    intros ev Hx. rewrite lookup_insert_is_Some'. auto. }
  destruct Hkeep as (-> & -> & -> & Hmono). split_and!; auto.
  intros ev Hin. destruct (is_ok r); [|by apply Hmono, Hack].
  apply elem_of_cons in Hin as [->|Hin]; [|by apply Hmono, Hack]. rewrite <- Hev. by apply Hok.
Qed.


(** The projection of an account once every transaction event is on record. *)
Lemma projection_current d id b : ledger_wf d → projection_wf d →
  (∀ o, o ∈ outbox d → is_tx_row o → is_Some (processed_events d !! o_event_id o)) →
  account_balances d !! id = Some b →
  default 0 (bp_available_minor <$> balance_projections d !! id) = b_available_minor b ∧
  default 0 (bp_version <$> balance_projections d !! id) = b_version b.
Proof.
  intros Hwf [Hs Ha _] Hall Hb. pose proof (bro_version_pos _ (wf_balance_ok d Hwf id b Hb)) as Hpos.
  assert (Hcov : 0 < b_version b → ∃ p, balance_projections d !! id = Some p ∧ b_version b ≤ bp_version p).
  { intros Hlt. destruct (wf_announced_all d Hwf id b Hb Hlt) as (o & eb & Ho & Heb & <- & <-).
    apply (Ha o); [done| |done]. apply Hall; [done|].
    destruct (wf_outbox d Hwf o Ho) as (_ & _ & Hty). apply Hty. unfold row_balances in Heb.
    destruct (Env_Payload (o_payload o)); try set_solver; eauto. }
  destruct (balance_projections d !! id) as [p|] eqn:Hp; simpl.
  - destruct (Hs id p Hp) as (o & eb & Ho & Heb & Hid & Hv & Hav).
    destruct (wf_announced d Hwf o eb Ho Heb) as (a & b' & _ & Hb' & _ & Hrange & Heq).
    rewrite Hid, Hb in Hb'. injection Hb' as <-.
    destruct Hcov as (p' & Hp' & Hle); [lia|]. injection Hp' as <-.
    split; [|lia]. rewrite <- Hav. apply Heq. lia.
  - destruct (Z.eq_dec (b_version b) 0) as [Hz|Hnz].
    + rewrite Hz. by rewrite (wf_untouched d Hwf id b Hb Hz).
    + destruct Hcov as (? & ? & _); [lia|done].
Qed.

(** A projection that is current everywhere agrees with the journal. *)
Lemma rebuild_agrees d ids : ledger_wf d →
  (∀ id b, account_balances d !! id = Some b →
     default 0 (bp_available_minor <$> balance_projections d !! id) = b_available_minor b) →
  RebuildResult_OK (Rebuild ids d) = true.
Proof.
  intros Hwf Hcur. unfold RebuildResult_OK, Rebuild. simpl. rewrite bool_decide_eq_true.
  apply omap_none. intros [id a] Hin. rewrite sort_by_elem in Hin.
  apply list_elem_of_filter in Hin as [_ Hin%elem_of_map_to_list]. simpl.
  destruct (wf_accounts d Hwf id a Hin) as (_ & _ & [b Hb]).
  rewrite <- (wf_balance_sum d Hwf id a b Hin Hb), <- (Hcur id b Hb).
  by rewrite bool_decide_eq_false_2 by auto.
Qed.

(** The projection converges under at-least-once, out-of-order delivery.
    Deliver the transaction events of the outbox in any order, each any number
    of times, with any of the deliveries failing, rolling back or losing their
    acknowledgement: once each event has been acknowledged at least once, every
    account's projected balance and version equal those of the authoritative
    row, and [Rebuild] finds no mismatch with the journal. *)
Theorem projection_converges d acks d' ids :
  ledger_wf d → projection_wf d → delivered d acks d' →
  (∀ o, o ∈ outbox d → is_tx_row o → o_event_id o ∈ acks) →
  (∀ id b, account_balances d' !! id = Some b →
     default 0 (bp_available_minor <$> balance_projections d' !! id) = b_available_minor b ∧
     default 0 (bp_version <$> balance_projections d' !! id) = b_version b) ∧
  RebuildResult_OK (Rebuild ids d') = true.
Proof.
  intros Hwf Hpw Hdel Hall.
  destruct (delivered_inv d acks d' Hwf Hpw Hdel) as (Hwf' & Hpw' & Hout & _ & _ & Hack).
  assert (Hcur : ∀ id b, account_balances d' !! id = Some b →
     default 0 (bp_available_minor <$> balance_projections d' !! id) = b_available_minor b ∧
     default 0 (bp_version <$> balance_projections d' !! id) = b_version b).
  { intros id b. apply projection_current; auto. rewrite Hout. auto. }
  split; [done|]. apply rebuild_agrees; [done|]. intros id b Hb. by apply Hcur.
Qed.

(** A fresh projection knows nothing, consistently. *)
Lemma projection_wf_empty d : balance_projections d = ∅ → processed_events d = ∅ → projection_wf d.
Proof.
  intros Hb Hp. split; rewrite ?Hb, ?Hp.
  - intros id p. by rewrite lookup_empty.
  - intros o eb _ [x Hx]. by rewrite lookup_empty in Hx.
  - intros ev [x Hx]. by rewrite lookup_empty in Hx.
Qed.

(** The one transaction event of the funded database. *)
Definition funding_event : outbox_row :=
  default (mk_outbox_row 0 "" "" "" 0 0 (mkEnvelope 0 "" 0 "" 0 "" (PAccountCreated
    (mk_accountCreatedEvent 0 "" "" "" "" None false))) 0 None) (outbox funded_db !! 3%nat).

(** Every transaction event of the outbox is among the acknowledged ids. *)
Definition acked_all (acks : list UUID) (d : DB) : bool :=
  forallb (λ o, negb (is_transaction_event (o_event_type o)) || bool_decide (o_event_id o ∈ acks)) (outbox d).

Definition delivery_world : World := quiet_world funded_db 600.

Lemma projection_converges_witness :
  default 0 (bp_available_minor <$>
    balance_projections (w_db (Apply (o_payload funding_event) delivery_world).2) !! wallet_id) = 500.
Proof.
  assert (Hb : (b_available_minor <$> account_balances (w_db (Apply (o_payload funding_event) delivery_world).2) !! wallet_id)
    = Some 500) by (vm_compute; reflexivity).
  apply fmap_Some in Hb as (b & Hb & ->).
  refine (proj1 (proj1 (projection_converges funded_db
    (if is_ok (Apply (o_payload funding_event) delivery_world).1 then [o_event_id funding_event] else [])
    (w_db (Apply (o_payload funding_event) delivery_world).2) [] funded_wf _ _ _) wallet_id b Hb)).
  - apply projection_wf_empty; vm_compute; reflexivity.
  - apply (delivered_step funded_db [] funding_event delivery_world); [|exact (delivered_nil funded_db)].
    apply (list_elem_of_lookup_2 _ 3%nat). vm_compute. reflexivity.
  - intros o Ho Hty.
    assert (Hall : acked_all (if is_ok (Apply (o_payload funding_event) delivery_world).1
      then [o_event_id funding_event] else []) funded_db = true) by (vm_compute; reflexivity).
    pose proof (forallb_elem _ _ o Hall Ho) as Hx. simpl in Hx.
    unfold is_tx_row in Hty. rewrite Hty in Hx. by apply bool_decide_eq_true in Hx.
Defined.
