(* ===== verification/Publish.v ===== *)
(** * The polling publisher (internal/outbox/publish/polling)

    One claim-produce-mark cycle and the drain loop, against a broker that is a
    parameter: what it answers to a batch and what it has appended to its log by
    then.  The tracing header, the metrics and the ticker are left out. *)

From S2P Require Import Prelude Errors Types SagaTypes Events Schema PgSaga PgLedgerSpec Invariant Frames.
Open Scope string_scope.
Open Scope Z_scope.

(** ** The records *)

Definition TopicForAggregate (aggregateType : string) : string := "ledger.events." +:+ aggregateType.

(** [kgo.Record], as far as the publisher fills it in. *)
Record KRecord := mkKRecord { K_Topic : string; K_Key : string; K_Value : Envelope }.

(** A claimed row. *)
Record pub_row := mk_pub_row {
  pr_id : Z;
  pr_aggregateType : string;
  pr_aggregateID : string;
  pr_payload : Envelope }.

Definition pub_row_of (o : outbox_row) : pub_row :=
  mk_pub_row (o_id o) (o_aggregate_type o) (o_aggregate_id o) (o_payload o).

Definition krecord (r : pub_row) : KRecord :=
  mkKRecord (TopicForAggregate (pr_aggregateType r)) (pr_aggregateID r) (pr_payload r).

(** [ProduceSync(...).FirstErr()]: the answer, and the records of the batch the
    broker has appended when it is given. *)
Definition Producer : Type := list KRecord → res unit * list KRecord.

(** A nil error means every record was acknowledged; nothing else is ever appended. *)
Class ProducerLaws (p : Producer) : Prop := {
  acked_all : ∀ rs out, p rs = (Ok tt, out) → ∀ r, r ∈ rs → r ∈ out;
  nothing_else : ∀ rs r, r ∈ (p rs).2 → r ∈ rs }.

(** ** The publisher *)

Record PConfig := mkPConfig { Pc_Interval : Z; Pc_BatchSize : Z; Pc_BatchTimeout : Z }.

Record Publisher := mkPublisher { pb_client : Producer; pb_cfg : PConfig }.

Definition polling_New (client : Producer) (cfg : PConfig) : Publisher :=
  mkPublisher client (mkPConfig
    (if Pc_Interval cfg <=? 0 then 500000000 else Pc_Interval cfg)
    (if Pc_BatchSize cfg <=? 0 then 100 else Pc_BatchSize cfg)
    (if Pc_BatchTimeout cfg <=? 0 then 10000000000 else Pc_BatchTimeout cfg)).

Definition unpublished (o : outbox_row) : Prop := o_published_at o = None.
#[export] Instance unpublished_dec o : Decision (unpublished o).
Proof. unfold unpublished. apply _. Defined.

Definition by_id (a b : outbox_row) : bool := o_id a <=? o_id b.

(** The rows the claim returns; [locked] are those a sibling has locked, which SKIP
    LOCKED passes over. *)
Definition claim_batch (limit : Z) (locked : Z → bool) (d : DB) : list outbox_row :=
  take (Z.to_nat limit)
    (sort_by by_id (filter (λ o, unpublished o ∧ locked (o_id o) = false) (outbox d))).

Definition set_published_at (t : Time) (o : outbox_row) : outbox_row :=
  mk_outbox_row (o_id o) (o_aggregate_type o) (o_aggregate_id o) (o_event_type o) (o_event_id o)
    (o_event_version o) (o_payload o) (o_created_at o) (Some t).

Definition mark_row (ids : list Z) (now : Time) (o : outbox_row) : outbox_row :=
  if bool_decide (o_id o ∈ ids) then set_published_at now o else o.

Definition mark_published (ids : list Z) (now : Time) (d : DB) : DB :=
  set_outbox (mark_row ids now <$> outbox d) d.

(** The whole cycle.  The broker's log is not rolled back. *)
Definition publishBatch (p : Publisher) (locked : Z → bool) (w0 : World) (log : list KRecord) :
    res Z * World * list KRecord :=
  match (_ ← sql_exec; _ ← tx_start; _ ← sql_exec;
         gets (claim_batch (Pc_BatchSize (pb_cfg p)) locked)) w0 with
  | (Err e, w) => (Err e, w, log)
  | (Ok [], w) => (Ok 0, w, log)
  | (Ok claimed, w) =>
      match pb_client p (krecord ∘ pub_row_of <$> claimed) with
      | (Err e, out) => (Err e, w, (log ++ out)%list)
      | (Ok _, out) =>
          match (_ ← sql_exec; now ← sql_now; modify (mark_published (o_id <$> claimed) now)) w with
          | (Err e, w1) => (Err e, set_db (w_db w) w1, (log ++ out)%list)
          | (Ok _, w1) =>
              match next_commit w1 with
              | (Ok CommitDone, w2) => (Ok (Z.of_nat (length claimed)), w2, (log ++ out)%list)
              | (Ok (CommitAborted e), w2) => (Err e, set_db (w_db w) w2, (log ++ out)%list)
              | (Ok (CommitLost e), w2) => (Err e, w2, (log ++ out)%list)
              | (Err e, w2) => (Err e, w2, (log ++ out)%list)
              end
          end
      end
  end.

(** Batches until one is short or fails; [None] when the rounds run out. *)
Fixpoint drainOnce (rounds : nat) (p : Publisher) (locked : Z → bool) (w : World) (log : list KRecord) :
    option (World * list KRecord) :=
  match rounds with
  | O => None
  | S rounds =>
      match publishBatch p locked w log with
      | (Err _, w', log') => Some (w', log')
      | (Ok n, w', log') => if n <? Pc_BatchSize (pb_cfg p) then Some (w', log') else drainOnce rounds p locked w' log'
      end
  end.

(** ** One cycle *)

Definition row_record (o : outbox_row) : KRecord := krecord (pub_row_of o).

Lemma mark_row_record ids now o : row_record (mark_row ids now o) = row_record o.
Proof. unfold mark_row. by case_bool_decide. Qed.
Lemma mark_row_id ids now o : o_id (mark_row ids now o) = o_id o.
Proof. unfold mark_row. by case_bool_decide. Qed.
Lemma mark_row_event ids now o : o_event_id (mark_row ids now o) = o_event_id o.
Proof. unfold mark_row. by case_bool_decide. Qed.

(** The claim only reads. *)
Lemma claim_run {A} (f : DB → A) w : let '(r, w') := (_ ← sql_exec; _ ← tx_start; _ ← sql_exec; gets f) w in
  w_db w' = w_db w ∧ ∀ a, r = Ok a → a = f (w_db w).
Proof.
  unfold mbind, M_bind, gets. pose proof (sql_exec_db w) as H1. destruct (sql_exec w) as [[u|e] w1]; simpl in H1; [|done].
  pose proof (tx_start_db w1) as H2. destruct (tx_start w1) as [[u2|e] w2]; simpl in H2; [|by split; [congruence|]].
  pose proof (sql_exec_db w2) as H3. destruct (sql_exec w2) as [[u3|e] w3]; simpl in H3; split; try congruence.
Qed.

(** What a cycle may have done: appended some of the batch's records, and marked the
    batch only when all of them were appended. *)
Lemma publishBatch_effect p locked w log r w' log' : ProducerLaws (pb_client p) →
  publishBatch p locked w log = (r, w', log') →
  let claimed := claim_batch (Pc_BatchSize (pb_cfg p)) locked (w_db w) in
  ∃ out, log' = (log ++ out)%list ∧ (∀ x, x ∈ out → x ∈ row_record <$> claimed) ∧
    (w_db w' = w_db w ∨
     ((∀ o, o ∈ claimed → row_record o ∈ out) ∧ ∃ now, w_db w' = mark_published (o_id <$> claimed) now (w_db w))).
Proof.
  intros Hlaw Hrun claimed. unfold publishBatch in Hrun. pose proof (claim_run (claim_batch (Pc_BatchSize (pb_cfg p)) locked) w) as Hc.
  destruct ((_ ← sql_exec; _ ← tx_start; _ ← sql_exec; gets _) w) as [[c|e] w1]; destruct Hc as [Hdb Hval].
  2: { injection Hrun as _ <- <-. exists []. rewrite app_nil_r. split_and!; [done|set_solver|by left]. }
  rewrite (Hval c eq_refl) in Hrun. fold claimed in Hrun.
  assert (Hnone : claimed = [] → ∃ out, log' = (log ++ out)%list ∧ (∀ x, x ∈ out → x ∈ row_record <$> claimed) ∧
    (w_db w' = w_db w ∨ ((∀ o, o ∈ claimed → row_record o ∈ out) ∧ ∃ now, w_db w' = mark_published (o_id <$> claimed) now (w_db w)))).
  { intros He. rewrite He in Hrun. injection Hrun as _ <- <-. exists []. rewrite app_nil_r. split_and!; [done|set_solver|by left]. }
  destruct claimed as [|o rest] eqn:Hcl; [by apply Hnone|]. clear Hnone. rewrite <- Hcl in *. clear Hcl o rest.
  destruct (pb_client p (krecord ∘ pub_row_of <$> claimed)) as [a out] eqn:Hp.
  assert (Hout : ∀ x, x ∈ out → x ∈ row_record <$> claimed).
  { intros x Hx. apply (nothing_else (krecord ∘ pub_row_of <$> claimed)). by rewrite Hp. }
  exists out. destruct a as [[]|e]; [|injection Hrun as _ <- <-; split_and!; [done|done|by left]].
  assert (Hall : ∀ o, o ∈ claimed → row_record o ∈ out).
  { intros o Ho. apply (acked_all _ _ Hp). by apply list_elem_of_fmap_2. }
  destruct ((_ ← sql_exec; now ← sql_now; modify _) w1) as [[u|e] w2] eqn:Hm.
  2: { injection Hrun as _ <- <-. split_and!; [done|done|by left]. }
  mrun. unfold next_commit in Hrun. simpl in Hrun. destruct (w_commits w1) as [|[|e|e] l]; injection Hrun as _ <- <-; (split_and!; [done|done|]);
    try (by left); right; split; try done; simpl; rewrite Hdb; eauto.
Qed.

(** ** Marking changes nothing else *)

Lemma mark_nothing now d : mark_published [] now d = d.
Proof.
  destruct d as [a b t j k o s st pr ev r x]. unfold mark_published, set_outbox. simpl. f_equal.
  induction o as [|y o IH]; [done|]. rewrite fmap_cons, IH. done.
Qed.

Lemma marked_records ids now d : row_record <$> outbox (mark_published ids now d) = row_record <$> outbox d.
Proof. simpl. rewrite <- list_fmap_compose. apply list_fmap_ext. intros. apply mark_row_record. Qed.
Lemma marked_ids ids now d : o_id <$> outbox (mark_published ids now d) = o_id <$> outbox d.
Proof. simpl. rewrite <- list_fmap_compose. apply list_fmap_ext. intros. apply mark_row_id. Qed.

Lemma mark_row_ok ids now o : outbox_row_ok (mark_row ids now o) ↔ outbox_row_ok o.
Proof. unfold mark_row. by case_bool_decide. Qed.
Lemma mark_row_balances ids now o : row_balances (mark_row ids now o) = row_balances o.
Proof. unfold mark_row. by case_bool_decide. Qed.

(** Publishing keeps the ledger's invariant. *)
Lemma mark_published_wf ids now d : ledger_wf d → ledger_wf (mark_published ids now d).
Proof.
  intros [Ha Hb Hs Hok Hu He Hi Hsq Hz Ht Hk Hev Hout Han Hall]. split; simpl; try done.
  - destruct Hev as [He1 He2]. split; rewrite <- list_fmap_compose.
    + rewrite (list_fmap_ext _ o_event_id); [done|]. intros. apply mark_row_event.
    + rewrite (list_fmap_ext _ o_id); [done|]. intros. apply mark_row_id.
  - intros o (o' & -> & Ho)%list_elem_of_fmap. apply mark_row_ok. by apply Hout.
  - intros o eb (o' & -> & Ho)%list_elem_of_fmap. rewrite mark_row_balances. by apply Han.
  - intros id b Hb' Hv. destruct (Hall id b Hb' Hv) as (o & eb & Ho & Heb & H1 & H2). exists (mark_row ids now o), eb.
    split_and!; [by apply list_elem_of_fmap_2|by rewrite mark_row_balances|done|done].
Qed.

(** ** Rows evolve *)

(** A row is never altered, but for the mark [published_at] it gets once. *)
Definition outbox_row_evolves (o o' : outbox_row) : Prop :=
  o' = o ∨ o_published_at o = None ∧ ∃ t, o' =
    mk_outbox_row (o_id o) (o_aggregate_type o) (o_aggregate_id o) (o_event_type o) (o_event_id o)
      (o_event_version o) (o_payload o) (o_created_at o) (Some t).

#[export] Instance outbox_row_evolves_preorder : PreOrder outbox_row_evolves.
Proof.
  split; [by left|]. intros o1 o2 o3 [->|(H1 & t1 & ->)] [->|(H2 & t2 & ->)]; [by left|right; eauto..|done].
Qed.

Lemma evolve_ids l l' : Forall2 outbox_row_evolves l l' → o_id <$> l' = o_id <$> l.
Proof. induction 1 as [|o o' l l' Ho _ IH]; [done|]. csimpl. rewrite IH. by destruct Ho as [->|(_ & t & ->)]. Qed.

(** ** What is published was delivered *)

Record pub_wf (d : DB) (log : list KRecord) : Prop := {
  pw_ids : NoDup (o_id <$> outbox d);
  pw_delivered : ∀ o, o ∈ outbox d → ¬ unpublished o → row_record o ∈ log;
  pw_genuine : ∀ r, r ∈ log → r ∈ row_record <$> outbox d }.

Lemma claim_batch_elem n locked d o : o ∈ claim_batch n locked d → o ∈ outbox d ∧ unpublished o.
Proof. unfold claim_batch. intros Ho%elem_of_take. destruct Ho as (i & Ho & _). apply list_elem_of_lookup_2 in Ho. rewrite sort_by_elem in Ho. apply list_elem_of_filter in Ho. naive_solver. Qed.

Lemma NoDup_fmap_inj {A B} (f : A → B) l x y : NoDup (f <$> l) → x ∈ l → y ∈ l → f x = f y → x = y.
Proof.
  intros Hnd (i & Hi)%list_elem_of_lookup (j & Hj)%list_elem_of_lookup Heq.
  assert (i = j) as ->; [|congruence]. eapply NoDup_lookup; [done| |]; rewrite list_lookup_fmap, ?Hi, ?Hj; simpl; [done|by rewrite Heq].
Qed.

(** With distinct ids, marking a claimed batch marks only rows without a mark. *)
Lemma claimed_evolve n locked now d : NoDup (o_id <$> outbox d) →
  Forall2 outbox_row_evolves (outbox d) (mark_row (o_id <$> claim_batch n locked d) now <$> outbox d).
Proof.
  intros Hnd. apply Forall2_fmap_r, list.Forall_Forall2_diag, list.Forall_forall. intros o Ho. unfold mark_row. simpl.
  case_bool_decide as Hid; [|by left]. apply list_elem_of_fmap in Hid as (c & Hc & [Hin Hu]%claim_batch_elem).
  rewrite (NoDup_fmap_inj o_id (outbox d) o c Hnd Ho Hin Hc). right. eauto.
Qed.

Lemma publishBatch_wf p locked w log r w' log' : ProducerLaws (pb_client p) → pub_wf (w_db w) log →
  publishBatch p locked w log = (r, w', log') → pub_wf (w_db w') log'.
Proof.
  intros Hlaw Hwf Hrun. destruct (publishBatch_effect _ _ _ _ _ _ _ Hlaw Hrun) as (out & -> & Hout & Hdb).
  set (claimed := claim_batch _ locked (w_db w)) in *.
  assert (Hgen : ∀ r, r ∈ (log ++ out)%list → r ∈ row_record <$> outbox (w_db w)).
  { intros x [Hx|Hx]%elem_of_app; [by apply (pw_genuine _ _ Hwf)|]. apply Hout in Hx as (o & -> & Ho)%list_elem_of_fmap.
    apply list_elem_of_fmap_2. by apply claim_batch_elem in Ho as [? _]. }
  destruct Hdb as [->|(Hall & now & ->)].
  - split; [by apply Hwf| |done]. intros o Ho Hp. apply elem_of_app. left. by apply (pw_delivered _ _ Hwf).
  - split; [rewrite marked_ids; by apply Hwf| |by rewrite marked_records].
    intros o (o' & -> & Ho)%list_elem_of_fmap Hp. rewrite mark_row_record. apply elem_of_app. unfold mark_row in Hp. case_bool_decide as Hid.
    + right. apply list_elem_of_fmap in Hid as (c & Hc & Hin). rewrite (NoDup_fmap_inj o_id (outbox (w_db w)) o' c); [by apply Hall|by apply Hwf|done| |done].
      by apply claim_batch_elem in Hin as [? _].
    + left. by apply (pw_delivered _ _ Hwf).
Qed.

(** Any number of publishers with any brokers' answers and any environment, while
    the ledger appends rows under fresh ids. *)
Inductive pub_step : DB * list KRecord → DB * list KRecord → Prop :=
| pub_cycle p locked w log : ProducerLaws (pb_client p) →
    pub_step (w_db w, log) (let '(_, w', log') := publishBatch p locked w log in (w_db w', log'))
| pub_write d d' new log : outbox d' = (outbox d ++ new)%list → (∀ o, o ∈ new → unpublished o) →
    NoDup (o_id <$> outbox d') → pub_step (d, log) (d', log).

Lemma pub_step_wf s s' : pub_step s s' → pub_wf s.1 s.2 → pub_wf s'.1 s'.2.
Proof.
  intros [p locked w log Hlaw|d d' new log Hd Hnew Hnd] Hwf; simpl in *.
  - destruct (publishBatch p locked w log) as [[r w'] log'] eqn:Hrun. simpl. by eapply publishBatch_wf.
  - split; [done| |].
    + rewrite Hd. intros o [Ho|Ho]%elem_of_app Hp; [by apply (pw_delivered _ _ Hwf)|]. destruct Hp. by apply Hnew.
    + intros r Hr. rewrite Hd, fmap_app. apply elem_of_app. left. by apply (pw_genuine _ _ Hwf).
Qed.

(** C24: no event is lost and none is invented.  Whatever the broker, the database
    and the sibling publishers do, a row marked published has its record in the
    broker's log, everything in the log is the record of some row, and a row whose
    record is not in the log is still unpublished, to be claimed again. *)
Theorem published_means_delivered d0 d log : outbox d0 = [] → rtc pub_step (d0, []) (d, log) →
  (∀ o, o ∈ outbox d → o_published_at o ≠ None → row_record o ∈ log) ∧
  (∀ r, r ∈ log → ∃ o, o ∈ outbox d ∧ r = row_record o).
Proof.
  intros H0 Hs. assert (Hgo : ∀ s s', rtc pub_step s s' → pub_wf s.1 s.2 → pub_wf s'.1 s'.2).
  { clear. intros s s' Hs. induction Hs; [done|]. intros Hwf. eauto using pub_step_wf. }
  assert (Hwf : pub_wf d log).
  { apply (Hgo _ _ Hs). split; simpl; rewrite ?H0; [constructor|by intros o Ho%not_elem_of_nil|by intros r Hr%not_elem_of_nil]. }
  split; [apply (pw_delivered _ _ Hwf)|]. intros r Hr. apply (pw_genuine _ _ Hwf) in Hr as (o & -> & Ho)%list_elem_of_fmap. eauto.
Qed.

(** ** A drain publishes everything *)

Definition backlog (d : DB) : list outbox_row := sort_by by_id (filter unpublished (outbox d)).
Definition no_locks (id : Z) : bool := false.

Lemma sorted_unique {A} (k : A → Z) l1 : ∀ l2, l1 ≡ₚ l2 → NoDup (k <$> l1) →
  StronglySorted (λ a b, k a ≤ k b) l1 → StronglySorted (λ a b, k a ≤ k b) l2 → l1 = l2.
Proof.
  induction l1 as [|x l1 IH]; intros l2 Hp Hnd H1 H2; [by apply Permutation_nil_l in Hp|].
  destruct l2 as [|y l2]; [by apply Permutation_nil_r in Hp|].
  assert (Hxy : x = y).
  { assert (Hy : y ∈ x :: l1) by (rewrite Hp; set_solver). assert (Hx : x ∈ y :: l2) by (rewrite <- Hp; set_solver).
    apply (NoDup_fmap_inj k (x :: l1)); [done|set_solver|done|].
    inversion H1 as [|? ? _ F1]; inversion H2 as [|? ? _ F2]; subst. rewrite Forall_forall in F1, F2.
    apply elem_of_cons in Hy as [->|Hy]; [done|]. apply elem_of_cons in Hx as [->|Hx]; [done|].
    specialize (F1 y). specialize (F2 x). rewrite <- list_elem_of_In in F1, F2. specialize (F1 Hy). specialize (F2 Hx). lia. }
  subst y. f_equal. apply IH; [by apply Permutation_cons_inv in Hp|by apply list.NoDup_cons in Hnd as [_ ?]|by inversion H1|by inversion H2].
Qed.

#[local] Instance by_id_total : Total (bool_rel by_id).
Proof. intros a b. unfold bool_rel, by_id. rewrite !Z.leb_le. lia. Qed.
#[local] Instance by_id_trans : Transitive (bool_rel by_id).
Proof. intros a b c. unfold bool_rel, by_id. rewrite !Z.leb_le. lia. Qed.

Lemma backlog_sorted l : StronglySorted (λ a b, o_id a ≤ o_id b) (sort_by by_id l).
Proof.
  pose proof (sort_by_Sorted by_id l by_id_total) as Hs. apply Sorted_StronglySorted in Hs; [|apply by_id_trans].
  revert Hs. generalize (sort_by by_id l) as s. induction 1 as [|x s Hs IH Hall]; constructor; [exact IH|]. eapply Forall_impl; [|exact Hall].
  intros y. unfold bool_rel, by_id. by rewrite Z.leb_le.
Qed.

Lemma claim_no_locks n d : claim_batch n no_locks d = take (Z.to_nat n) (backlog d).
Proof.
  unfold claim_batch, backlog. do 2 f_equal. apply list_filter_iff. intros o. unfold no_locks. naive_solver.
Qed.

Lemma filter_not_taken n l : NoDup (o_id <$> l) → filter (λ o, o_id o ∉ o_id <$> take n l) l = drop n l.
Proof.
  pose proof (take_drop n l) as Hl. revert Hl. generalize (take n l) as t. generalize (drop n l) as r. intros r t <-.
  rewrite fmap_app. intros (_ & Hdis & _)%list.NoDup_app. rewrite list.filter_app, (filter_all_false _ t), (filter_all_true _ r); [done| |].
  - intros o Ho Hi. apply (Hdis (o_id o) Hi). by apply list_elem_of_fmap_2.
  - intros o Ho Hi. apply Hi. by apply list_elem_of_fmap_2.
Qed.

(** Marking the first rows leaves the others in the backlog, in order. *)
Lemma backlog_mark n now d : NoDup (o_id <$> outbox d) →
  backlog (mark_published (o_id <$> take n (backlog d)) now d) = drop n (backlog d).
Proof.
  intros Hnd. set (ids := o_id <$> take n (backlog d)).
  assert (Hp : filter unpublished (mark_row ids now <$> outbox d) = filter (λ o, o_id o ∉ ids) (filter unpublished (outbox d))).
  { clearbody ids. clear Hnd. induction (outbox d) as [|o l IH]; [done|]. rewrite fmap_cons, (filter_cons _ (mark_row _ _ _)), (filter_cons _ o), IH.
    unfold mark_row, unpublished. case_bool_decide as Hi; simpl.
    - destruct (decide (o_published_at o = None)); [|done]. rewrite filter_cons_False; [done|tauto].
    - destruct (decide (o_published_at o = None)); [|done]. by rewrite filter_cons_True. }
  assert (Hndp : NoDup (o_id <$> backlog d)).
  { unfold backlog. rewrite sort_by_perm. eapply sublist_NoDup; [done|]. apply fmap_sublist, sublist_filter. }
  pose proof (backlog_sorted (filter unpublished (outbox d))) as Hs. fold (backlog d) in Hs.
  assert (Hsplit : filter (λ o, o_id o ∉ ids) (backlog d) = drop n (backlog d)).
  { by apply filter_not_taken. }
  symmetry. apply (sorted_unique o_id).
  - rewrite <- Hsplit. unfold backlog at 2. rewrite sort_by_perm. simpl. rewrite Hp. unfold backlog. by rewrite sort_by_perm.
  - eapply sublist_NoDup; [exact Hndp|]. apply fmap_sublist, sublist_drop.
  - rewrite <- (take_drop n (backlog d)) in Hs. by apply StronglySorted_app_1_r in Hs.
  - apply backlog_sorted.
Qed.

(** A broker that accepts everything and a database that answers. *)
Definition healthy (p : Publisher) : Prop := ∀ rs, pb_client p rs = (Ok tt, rs).

Lemma publishBatch_healthy p w log : healthy p → answering w →
  let claimed := claim_batch (Pc_BatchSize (pb_cfg p)) no_locks (w_db w) in
  ∃ w' now, publishBatch p no_locks w log = (Ok (Z.of_nat (length claimed)), w', (log ++ (row_record <$> claimed))%list) ∧
    answering w' ∧ w_db w' = mark_published (o_id <$> claimed) now (w_db w).
Proof.
  intros Hp [Hf Hc] claimed. unfold publishBatch.
  assert (Hclaim : ∃ w1, (_ ← sql_exec; _ ← tx_start; _ ← sql_exec; gets (claim_batch (Pc_BatchSize (pb_cfg p)) no_locks)) w = (Ok claimed, w1) ∧
    answering w1 ∧ w_db w1 = w_db w).
  { unfold mbind, M_bind, sql_exec, tx_start, gets. rewrite Hf. destruct (w_ticks w); simpl; rewrite Hf; eexists; split; try done. }
  destruct Hclaim as (w1 & -> & [Hf1 Hc1] & Hd1). destruct claimed as [|o l] eqn:Hcl.
  - exists w1, 0. simpl. rewrite app_nil_r, mark_nothing. done.
  - rewrite <- Hcl, Hp. exists (set_db (mark_published (o_id <$> claimed) (w_now w1) (w_db w1)) w1), (w_now w1).
    unfold mbind, M_bind, sql_exec, sql_now, modify, next_commit. rewrite Hf1. simpl. rewrite Hc1, Hd1, Hcl. done.
Qed.

(** Everything but the marks of the outbox. *)
Definition same_but_marks (d d' : DB) : Prop :=
  ∃ rows, d' = set_outbox rows d ∧ Forall2 outbox_row_evolves (outbox d) rows.

Lemma same_but_marks_trans d1 d2 d3 : same_but_marks d1 d2 → same_but_marks d2 d3 → same_but_marks d1 d3.
Proof. intros (r1 & -> & H1) (r2 & -> & H2). exists r2. simpl in *. split; [done|]. by etrans. Qed.

Lemma mark_same n locked now d : NoDup (o_id <$> outbox d) →
  same_but_marks d (mark_published (o_id <$> claim_batch n locked d) now d).
Proof. intros Hnd. eexists. split; [done|]. by apply claimed_evolve. Qed.

Lemma same_ids d d' : same_but_marks d d' → o_id <$> outbox d' = o_id <$> outbox d.
Proof. intros (rows & -> & Hf). simpl. by apply evolve_ids. Qed.

Lemma drain_loop p rounds : healthy p → 0 < Pc_BatchSize (pb_cfg p) → ∀ w log, answering w →
  NoDup (o_id <$> outbox (w_db w)) → (length (backlog (w_db w)) < rounds)%nat →
  ∃ w', drainOnce rounds p no_locks w log = Some (w', (log ++ (row_record <$> backlog (w_db w)))%list) ∧
    backlog (w_db w') = [] ∧ same_but_marks (w_db w) (w_db w') ∧ (ledger_wf (w_db w) → ledger_wf (w_db w')).
Proof.
  intros Hp Hn. induction rounds as [|rounds IH]; intros w log Hq Hnd Hlen; [lia|].
  destruct (publishBatch_healthy p w log Hp Hq) as (w1 & now & Hb & Hq1 & Hd1). simpl drainOnce. rewrite Hb. clear Hb.
  set (n := Z.to_nat (Pc_BatchSize (pb_cfg p))) in *. rewrite claim_no_locks in *. fold n in Hd1 |- *.
  pose proof (mark_same (Pc_BatchSize (pb_cfg p)) no_locks now (w_db w) Hnd) as Hsame. rewrite claim_no_locks in Hsame. fold n in Hsame. rewrite <- Hd1 in Hsame.
  assert (Hwf : ledger_wf (w_db w) → ledger_wf (w_db w1)) by (rewrite Hd1; apply mark_published_wf).
  assert (Hpend : backlog (w_db w1) = drop n (backlog (w_db w))) by (rewrite Hd1; by apply backlog_mark).
  destruct (Z.ltb_spec (Z.of_nat (length (take n (backlog (w_db w))))) (Pc_BatchSize (pb_cfg p))) as [Hlt|Hge].
  - rewrite length_take in Hlt. exists w1. rewrite take_ge by lia. rewrite Hpend, drop_ge by lia. done.
  - rewrite length_take in Hge. destruct (IH w1 (log ++ (row_record <$> take n (backlog (w_db w))))%list Hq1) as (w2 & -> & He & Hs & Hwf2).
    { by rewrite (same_ids _ _ Hsame). }
    { rewrite Hpend, length_drop. lia. }
    exists w2. split_and!; [|done|by eapply same_but_marks_trans|auto]. do 2 f_equal. rewrite <- app_assoc, Hpend, <- fmap_app, take_drop. done.
Qed.

