(* ===== verification/System.v ===== *)
(** * The system: every operation that writes the database

    The write operations of the ledger service, the idempotency store, the saga
    store and the projector, the publishers' cycles, an operator's sharding of an
    account and the reconciler's writes to its own tables, as one transition system over
    the committed state.  Each step runs one operation to its end in an arbitrary
    environment (faults, clocks, identifiers, lost COMMIT answers), so a sequence of
    steps is any serial order of the committed transactions of any number of processes. *)

From S2P Require Import Prelude Errors Money Json Types SagaTypes Events Schema Outbox PgIdem.
From S2P Require Import PgSaga Retry PgLedger Service PgLedgerSpec ServiceSpec Invariant Validate.
From S2P Require Import Posting Ledger Frames Uuid Demo Guarantees Consistency Projector Publish.
Open Scope string_scope.
Open Scope Z_scope.

Section system.
Context `{UL : UuidLib}.

Inductive operation :=
| OpPostTransaction (repo : Repository) (req : TransactionRequest)
| OpReverseTransaction (repo : Repository) (txID : UUID) (reason : string) (idem : option Idempotent)
    (record : option Recorder)
| OpCreateAccount (repo : Repository) (req : CreateAccountRequest)
| OpReserve (r : Reservation)
| OpReclaim (principalID key : string) (lockTTL : Z)
| OpFail (principalID key : string) (code : Z) (body : option string)
| OpRelease (principalID key : string)
| OpSweep (limit : nat)
| OpSagaCreate (i : Instance_)
| OpClaimRunnable (sagaType owner : string) (lease : Z) (batch : nat)
| OpClaimExpired (sagaType owner : string) (lease : Z) (batch : nat)
| OpAdvance (t : Transition)
| OpRenewLease (id : UUID) (owner : string) (lease : Z)
| OpBeginStep (a : StartAttempt) (t : Transition)
| OpRecordAttempt (a : Attempt)
| OpFinishAttempt (f : FinishAttempt)
| OpEscalate (t : Transition) (alert : Event)
| OpApply (env : Envelope)
| OpShardAccount (id : UUID) (shards : Z).

(** The world an operation leaves behind. *)
Definition run (o : operation) (w : World) : World :=
  match o with
  | OpPostTransaction repo req => (postTransaction repo req w).2
  | OpReverseTransaction repo txID reason idem record => (doReverse repo txID reason idem record w).2
  | OpCreateAccount repo req => (CreateAccount repo req w).2
  | OpReserve r => (Store_Reserve r w).2
  | OpReclaim p k ttl => (Store_Reclaim p k ttl w).2
  | OpFail p k code body => (Store_Fail p k code body w).2
  | OpRelease p k => (Store_Release p k w).2
  | OpSweep n => (Store_Sweep n w).2
  | OpSagaCreate i => (saga_Create i w).2
  | OpClaimRunnable ty owner lease n => (saga_ClaimRunnable ty owner lease n w).2
  | OpClaimExpired ty owner lease n => (saga_ClaimExpired ty owner lease n w).2
  | OpAdvance t => (saga_Advance t w).2
  | OpRenewLease id owner lease => (saga_RenewLease id owner lease w).2
  | OpBeginStep a t => (saga_BeginStep a t w).2
  | OpRecordAttempt a => (saga_RecordAttempt a w).2
  | OpFinishAttempt f => (saga_FinishAttempt f w).2
  | OpEscalate t alert => (saga_Escalate t alert w).2
  | OpApply env => (Apply env w).2
  | OpShardAccount id shards => (ledger_shard_account id shards w).2
  end.

(** What the Go types and the callers guarantee of the arguments: amounts fit
    int64, a recorder only advances its saga and holds, an escalation publishes a
    saga event, and the projector is fed rows of the outbox. *)
Definition operation_ok (o : operation) (d : DB) : Prop :=
  match o with
  | OpPostTransaction _ req => request_ok req
  | OpReverseTransaction _ _ _ _ record => recorder_ok record
  | OpEscalate _ alert => is_transaction_event (Ev_EventType alert) = false ∧
      ∀ x, Ev_Payload alert ≠ PTransaction x
  | OpApply env => ∃ row, row ∈ outbox d ∧ o_payload row = env
  | _ => True
  end.

(** A publisher's cycle with any broker and any sibling's locks; a reconciliation run,
    of which only the tables it writes matter here. *)
Inductive system_step : DB → DB → Prop :=
| sys_run o w : operation_ok o (w_db w) → system_step (w_db w) (w_db (run o w))
| sys_publish p locked w log : ProducerLaws (pb_client p) → system_step (w_db w) (w_db (publishBatch p locked w log).1.2)
| sys_reconcile runs exceptions d : system_step d (set_reconciliation_exceptions exceptions (set_reconciliation_runs runs d)).

Definition reachable (d : DB) : Prop := rtc system_step empty_DB d.

(** ** What may change *)

(** A transaction row never changes, but for POSTED becoming REVERSED. *)
Definition tx_row_evolves (t t' : transaction_row) : Prop :=
  t' = t ∨ t_status t = TransactionStatusPosted ∧ t' =
    mk_transaction_row (t_idempotency_key t) (t_principal_id t) (t_transaction_type t) TransactionStatusReversed
      (t_external_ref t) (t_metadata t) (t_created_at t) (t_posted_at t).

(** An account row never changes, but for an unsharded account becoming a sharded one:
    its [shard_count] and the trigger's [updated_at]. *)
Definition account_evolves (a a' : account_row) : Prop :=
  a' = a ∨ a_shard_count a ≤ 1 ∧ a_parent_account_id a = None ∧ ∃ n t, 2 ≤ n ∧ a' =
    mk_account_row (a_external_ref a) (a_account_type a) (a_normal_balance a) (a_currency a) (a_owner_id a)
      (a_allow_negative a) (a_status a) (a_version a) (a_created_at a) t (a_parent_account_id a) (a_shard_index a) n.

Record ledger_grows (d d' : DB) : Prop := {
  lg_journal : ∃ rows, journal_entries d' = (journal_entries d ++ rows)%list;
  lg_outbox : ∃ old new, outbox d' = (old ++ new)%list ∧ Forall2 outbox_row_evolves (outbox d) old;
  lg_accounts : ∀ id a, accounts d !! id = Some a → ∃ a', accounts d' !! id = Some a' ∧ account_evolves a a';
  lg_transactions : ∀ id t, transactions d !! id = Some t →
    ∃ t', transactions d' !! id = Some t' ∧ tx_row_evolves t t';
  lg_balances : ∀ id b, account_balances d !! id = Some b →
    ∃ b', account_balances d' !! id = Some b' ∧ b_version b ≤ b_version b';
  lg_processed : processed_events d ⊆ processed_events d' }.

#[export] Instance tx_row_evolves_preorder : PreOrder tx_row_evolves.
Proof.
  split; [by left|]. intros t1 t2 t3 [->|[H1 ->]] [->|[H2 ->]]; unfold tx_row_evolves; eauto.
Qed.

#[export] Instance account_evolves_preorder : PreOrder account_evolves.
Proof.
  split; [by left|]. intros a1 a2 a3 [->|(H1 & P1 & n1 & t1 & L1 & ->)] [->|(H2 & P2 & n2 & t2 & L2 & ->)];
    [by left|right; eauto 10..|simpl in H2; lia].
Qed.

Lemma outbox_grown d d' new : outbox d' = (outbox d ++ new)%list →
  ∃ old new, outbox d' = (old ++ new)%list ∧ Forall2 outbox_row_evolves (outbox d) old.
Proof. intros Ho. exists (outbox d), new. by split. Qed.

Lemma rows_kept {K R} `{Countable K} (E : R → R → Prop) `{!Reflexive E} (m m' : gmap K R) : m ⊆ m' →
  ∀ k r, m !! k = Some r → ∃ r', m' !! k = Some r' ∧ E r r'.
Proof. intros Hm k r Hr. exists r. split; [by eapply lookup_weaken|done]. Qed.

(** Tables that only gain rows. *)
Lemma only_gained d d' new : journal_entries d' = journal_entries d → outbox d' = (outbox d ++ new)%list →
  accounts d ⊆ accounts d' → transactions d ⊆ transactions d' → account_balances d ⊆ account_balances d' →
  processed_events d ⊆ processed_events d' → ledger_grows d d'.
Proof.
  intros J O A T B P. split; [exists []; by rewrite J, app_nil_r|by eapply outbox_grown|by apply rows_kept; [apply _|]|
    by apply rows_kept; [apply _|]| |done].
  intros id b Hb. exists b. split; [by eapply lookup_weaken|lia].
Qed.

#[export] Instance ledger_grows_preorder : PreOrder ledger_grows.
Proof.
  split.
  - intros d. apply (only_gained d d []); [done|by rewrite app_nil_r|done..].
  - intros d1 d2 d3 [[r1 J1] (o1 & n1 & O1 & E1) A1 T1 B1 P1] [[r2 J2] (o2 & n2 & O2 & E2) A2 T2 B2 P2]. split.
    + exists (r1 ++ r2)%list. by rewrite J2, J1, app_assoc.
    + rewrite O1 in E2. apply Forall2_app_inv_l in E2 as (o21 & o22 & E21 & E22 & ->).
      exists o21, (o22 ++ n2)%list. split; [by rewrite O2, app_assoc|]. by etrans.
    + intros id a (a2 & Ha2 & V1)%A1. apply A2 in Ha2 as (a3 & Ha3 & V2). exists a3. by split; [|etrans].
    + intros id t (t2 & Ht2 & V1)%T1. apply T2 in Ht2 as (t3 & Ht3 & V2). exists t3. by split; [|etrans].
    + intros id b (b2 & Hb2 & V1)%B1. apply B2 in Hb2 as (b3 & Hb3 & V2). exists b3. by split; [|lia].
    + by etrans.
Qed.

Lemma ledger_frame_grows d d' : ledger_frame d d' → ledger_grows d d'.
Proof.
  intros [A T J P1 P2 B (new & O & _)]. split.
  - exists []. by rewrite J, app_nil_r.
  - by eapply outbox_grown.
  - rewrite A. by apply rows_kept; [apply _|].
  - rewrite T. by apply rows_kept; [apply _|].
  - intros id b Hb. specialize (B id). rewrite Hb in B. inversion B as [? b' (_ & Hv & _)|]; subst.
    exists b'. by split; [|lia].
  - by rewrite P2.
Qed.

Lemma recorded_projector now header reqs idem reversed rows ebs d d' :
  tx_recorded now header reqs idem reversed rows ebs d d' →
  balance_projections d' = balance_projections d ∧ processed_events d' = processed_events d.
Proof.
  intros [(d1 & d2 & o & new & dr & Hw & Hm & _ & _ & _ & _ & Hfr & _ & Hkey)].
  apply key_completed_frame in Hkey.
  rewrite (lf_projections _ _ Hkey), (lf_processed _ _ Hkey), (lf_projections _ _ Hfr), (lf_processed _ _ Hfr).
  simpl. destruct (tw_db _ _ _ _ _ _ _ Hw) as (bals' & -> & _).
  destruct reversed; simpl in Hm; [destruct Hm as (t & _ & _ & ->)|subst]; done.
Qed.

Lemma recorded_outbox now header reqs idem reversed rows ebs d d' :
  tx_recorded now header reqs idem reversed rows ebs d d' → ∃ new, outbox d' = (outbox d ++ new)%list.
Proof.
  intros [(d1 & d2 & o & new & dr & _ & _ & _ & _ & _ & _ & Hfr & _ & Hkey)].
  apply key_completed_frame, lf_outbox in Hkey as (n2 & O2 & _). apply lf_outbox in Hfr as (n1 & O1 & _).
  simpl in O1. rewrite O2, O1, <- !app_assoc. eauto.
Qed.

Lemma recorded_grows now header reqs idem reversed rows ebs d d' : ledger_wf d →
  tx_recorded now header reqs idem reversed rows ebs d d' → ledger_grows d d'.
Proof.
  intros Hwf Hrec. destruct (recorded_tables _ _ _ _ _ _ _ _ _ Hrec) as [Ha Hj].
  pose proof (recorded_fresh _ _ _ _ _ _ _ _ _ Hrec) as Hfresh.
  split; [by exists rows| | | | |].
  - destruct (recorded_outbox _ _ _ _ _ _ _ _ _ Hrec) as [new O]. by eapply outbox_grown.
  - rewrite Ha. by apply rows_kept; [apply _|].
  - intros id t Ht. pose proof (recorded_transactions _ _ _ _ _ _ _ _ _ Hrec) as Htx.
    assert (Hne : id ≠ Tx_ID header) by (intros ->; congruence).
    destruct reversed as [r|].
    + destruct Htx as (t0 & Ht0 & Hst & Hd'). rewrite Hd'. destruct (decide (id = r)) as [->|Hner].
      * rewrite lookup_insert_ne in Ht0 by done. rewrite lookup_insert_eq. simplify_eq.
        eexists. split; [done|]. by right.
      * rewrite !lookup_insert_ne by done. exists t. by split; [|left].
    + rewrite Htx, lookup_insert_ne by done. exists t. by split; [|left].
  - intros id b Hb. destruct (wf_balance_account d Hwf id b Hb) as [a Hacc].
    destruct (recorded_balance _ _ _ _ _ _ _ _ _ Hrec id a b Hacc Hb) as (b' & Hb' & _ & Hv).
    exists b'. split; [done|]. rewrite Hv. case_decide; lia.
  - by rewrite (proj2 (recorded_projector _ _ _ _ _ _ _ _ _ Hrec)).
Qed.

(** ** One step *)

(** A shard is another account than its parent, an unsharded child of an account that is
    no shard itself, with the parent's normal balance and currency. *)
Definition shards_wf (d : DB) : Prop := ∀ s x p, accounts d !! s = Some x → a_parent_account_id x = Some p →
  s ≠ p ∧ ∃ a, accounts d !! p = Some a ∧ a_parent_account_id a = None ∧
    a_normal_balance x = a_normal_balance a ∧ a_currency x = a_currency a.

Definition consistent (d : DB) : Prop := ledger_wf d ∧ projection_wf d ∧ shards_wf d.

Lemma consistent_grown d d' new : projection_wf d → ledger_wf d' → shards_wf d' → outbox d' = (outbox d ++ new)%list →
  balance_projections d' = balance_projections d → processed_events d' = processed_events d →
  consistent d'.
Proof.
  intros Hpw Hwf Hsh O Hbp Hpe. split_and!; [done| |done]. eapply projection_wf_grow; eauto. by apply wf_event_ids.
Qed.

Lemma framed_step {A} (m : M A) w : framed m → consistent (w_db w) →
  consistent (w_db (m w).2) ∧ ledger_grows (w_db w) (w_db (m w).2).
Proof.
  intros Hm (Hwf & Hpw & Hsh). specialize (Hm w). split; [|by apply ledger_frame_grows].
  destruct (lf_outbox _ _ Hm) as (new & O & _).
  eapply consistent_grown; eauto using lf_projections, lf_processed, ledger_wf_frame.
  unfold shards_wf. by rewrite (lf_accounts _ _ Hm).
Qed.

Lemma recorded_once_step header idem reversed P d d' : consistent d → ledger_wf d' →
  recorded_once header idem reversed P d d' → consistent d' ∧ ledger_grows d d'.
Proof.
  intros (Hwf & Hpw & Hsh) Hwf' (now & reqs & rows & ebs & _ & Hrec & _).
  split; [|by eapply recorded_grows].
  destruct (recorded_projector _ _ _ _ _ _ _ _ _ Hrec) as [Hbp Hpe].
  destruct (recorded_outbox _ _ _ _ _ _ _ _ _ Hrec) as [new O].
  eapply consistent_grown; eauto. unfold shards_wf. by rewrite (proj1 (recorded_tables _ _ _ _ _ _ _ _ _ Hrec)).
Qed.

(** *** New accounts *)

Definition parent_fits (id : UUID) (r : account_row) (d : DB) : Prop :=
  ∀ p, a_parent_account_id r = Some p → p ≠ id ∧ ∃ a, accounts d !! p = Some a ∧ a_parent_account_id a = None ∧
    a_normal_balance r = a_normal_balance a ∧ a_currency r = a_currency a.

Lemma account_inserted_accounts id r d : accounts (account_inserted id r d) = <[id := r]> (accounts d).
Proof. unfold account_inserted. by destruct (_ !! _). Qed.

Lemma inserted_step id r d : consistent d → accounts d !! id = None → currencyPattern (a_currency r) = true →
  Direction_Valid (a_normal_balance r) = true → parent_fits id r d →
  consistent (account_inserted id r d) ∧ ledger_grows d (account_inserted id r d).
Proof.
  intros (Hwf & Hpw & Hsh) Hfresh Hcur Hdir Hpar. pose proof (ledger_wf_inserted id r d Hwf Hfresh Hcur Hdir) as Hwf'.
  assert (Hout : outbox (account_inserted id r d) = (outbox d ++ [])%list) by by rewrite account_inserted_outbox, app_nil_r.
  assert (Hbal : account_balances d ⊆ account_balances (account_inserted id r d)).
  { unfold account_inserted. destruct (account_balances d !! id) eqn:Hb; simpl; [done|by apply insert_subseteq]. }
  assert (Hrest : journal_entries (account_inserted id r d) = journal_entries d ∧ transactions (account_inserted id r d) = transactions d ∧
    processed_events (account_inserted id r d) = processed_events d ∧
    balance_projections (account_inserted id r d) = balance_projections d) by (unfold account_inserted; by destruct (account_balances d !! id)).
  destruct Hrest as (Hj & Ht & Hp & Hb). split.
  - eapply consistent_grown; eauto. intros s x p. rewrite account_inserted_accounts.
    intros [[<- <-]|[Hne Hx]]%lookup_insert_Some Hxp.
    + destruct (Hpar p Hxp) as (Hn & a & Ha & ?). split; [done|]. exists a. by rewrite lookup_insert_ne.
    + destruct (Hsh s x p Hx Hxp) as (Hn & a & Ha & ?). split; [done|]. exists a. rewrite lookup_insert_ne; [done|]. congruence.
  - eapply only_gained; [exact Hj|exact Hout| |by rewrite Ht|exact Hbal|by rewrite Hp].
    rewrite account_inserted_accounts. by apply insert_subseteq.
Qed.

Lemma opened_step id req d d' : consistent d → account_opened id req d d' →
  consistent d' ∧ ledger_grows d d'.
Proof.
  intros Hc Ho. destruct (opened_inserted id req d d' (proj1 Hc) Ho) as (now & o & -> & Hfresh & Hcur & Hq & Hnd).
  destruct (inserted_step id (new_account_row req now) d Hc Hfresh Hcur) as [(Hwf & Hpw & Hsh) Hg]; [apply NormalBalance_valid|by intros p|].
  rewrite <- (account_inserted_outbox id (new_account_row req now) d) in Hnd |- *.
  pose proof (frame_quiet_event _ _ Hq Hnd) as Hf. split; [|etrans; [exact Hg|by apply ledger_frame_grows]].
  eapply consistent_grown; [exact Hpw|by eapply ledger_wf_frame|done|done|done|done].
Qed.

(** *** Sharding *)

Lemma ledger_wf_account_row id a a' d : ledger_wf d → accounts d !! id = Some a → a_currency a' = a_currency a →
  a_normal_balance a' = a_normal_balance a → ledger_wf (set_accounts (<[id := a']> (accounts d)) d).
Proof.
  intros Hwf Ha Hc Hn.
  assert (Hget : ∀ i x, accounts d !! i = Some x → ∃ x', <[id := a']> (accounts d) !! i = Some x' ∧
    a_currency x' = a_currency x ∧ a_normal_balance x' = a_normal_balance x).
  { intros i x Hx. destruct (decide (i = id)) as [->|Hne]; [rewrite lookup_insert_eq|rewrite lookup_insert_ne by done]; naive_solver. }
  split; simpl; try apply Hwf.
  - intros i x [[<- <-]|[Hne Hx]]%lookup_insert_Some; [|by apply Hwf]. rewrite Hc, Hn. by apply Hwf.
  - intros i b Hb. destruct (wf_balance_account d Hwf i b Hb) as [x Hx]. by destruct (Hget i x Hx) as (x' & -> & _).
  - intros i x b [[<- <-]|[Hne Hx]]%lookup_insert_Some Hb; [rewrite Hn|]; by apply (wf_balance_sum d Hwf).
  - intros r Hr. destruct (wf_entries d Hwf r Hr) as (? & ? & ? & x & Hx & Hxc). split_and!; try done.
    destruct (Hget _ _ Hx) as (x' & ? & ? & _). exists x'. split; congruence.
  - intros o eb Ho Heb. destruct (wf_announced d Hwf o eb Ho Heb) as (x & b & Hx & Hb & Hxc & ?).
    destruct (Hget _ _ Hx) as (x' & ? & ? & _). exists x', b. simpl. split_and!; try done; [congruence|tauto..].
Qed.

Lemma shard_count_step n t id a d : consistent d → accounts d !! id = Some a → a_parent_account_id a = None →
  a_shard_count a ≤ 1 → 2 ≤ n →
  let d' := set_accounts (<[id := set_shard_count n t a]> (accounts d)) d in consistent d' ∧ ledger_grows d d'.
Proof.
  intros (Hwf & Hpw & Hsh) Ha Hp Hs Hn d'. split.
  - apply (consistent_grown d d' []); try done; [by eapply ledger_wf_account_row| |by rewrite app_nil_r].
    intros s x p Hx Hxp. simpl in Hx. apply lookup_insert_Some in Hx as [[<- <-]|[Hne Hx]]; [by simpl in Hxp; congruence|].
    destruct (Hsh s x p Hx Hxp) as (Hne' & b & Hb & ?). split; [done|]. simpl. destruct (decide (p = id)) as [->|Hpi].
    + rewrite lookup_insert_eq. rewrite Ha in Hb. injection Hb as <-. eauto.
    + rewrite lookup_insert_ne by done. eauto.
  - split; simpl; [exists []; by rewrite app_nil_r|apply (outbox_grown d d' []); by rewrite app_nil_r| | | |done].
    + intros i x Hx. destruct (decide (i = id)) as [->|Hne].
      * rewrite lookup_insert_eq. eexists. split; [done|]. right. rewrite Ha in Hx. injection Hx as <-. eauto 10.
      * rewrite lookup_insert_ne by done. exists x. by split; [|left].
    + by apply rows_kept; [apply _|].
    + intros i b Hb. exists b. by split.
Qed.

Lemma shards_step a a0 id now idx : ∀ ys w w', mapM_ (λ i, shard ← gen_random_uuid; insert_account_row shard (shard_row a id i now)) idx w = (Ok ys, w') →
  consistent (w_db w) → accounts (w_db w) !! id = Some a0 → a_parent_account_id a0 = None →
  a_normal_balance a0 = a_normal_balance a → a_currency a0 = a_currency a →
  consistent (w_db w') ∧ ledger_grows (w_db w) (w_db w').
Proof.
  induction idx as [|i idx IH]; intros ys w w' Hrun Hc Ha Hp Hn Hcur; simpl in Hrun; [by mrun|]. mrun.
  match goal with Hu : gen_random_uuid _ = _ |- _ => apply uuid_NewV7_same in Hu as [Hd _] end.
  match goal with Hi : insert_account_row _ _ _ = _ |- _ => apply insert_account_row_ok in Hi as (Hf & Hcp & Hdv & _ & _ & _ & _ & Hd1 & Hself) end.
  rewrite Hd in *.
  destruct (inserted_step _ _ _ Hc Hf Hcp Hdv) as [Hc1 Hg1].
  { intros p Hpar. split; [by apply Hself|]. simpl in Hpar. injection Hpar as <-. exists a0. simpl. auto. }
  rewrite <- Hd1 in Hc1, Hg1. edestruct IH as [Hc2 Hg2]; [eassumption|exact Hc1| |exact Hp|exact Hn|exact Hcur|].
  - rewrite Hd1, account_inserted_accounts, lookup_insert_ne; [exact Ha|]. intros ->. congruence.
  - split; [done|by etrans].
Qed.

Lemma ledger_shard_account_step id n w : consistent (w_db w) →
  consistent (w_db (ledger_shard_account id n w).2) ∧ ledger_grows (w_db w) (w_db (ledger_shard_account id n w).2).
Proof.
  intros Hc. unfold ledger_shard_account. edestruct @autocommit_cases as [->|(u & w0 & w1 & Hd & Hrun & ->)]; [by split|].
  rewrite <- Hd in *. mrun. simpl in Hrun. destruct (accounts (w_db w0) !! id) as [a|] eqn:Ha; [|by mrun]. mrun. bool_to_prop.
  destruct (1 <? a_shard_count a) eqn:Hsc; mrun; [by split|]. simpl in *.
  match goal with Hm : mapM_ _ _ ?x = _ |- _ => destruct (shard_count_step n (w_now x) id a (w_db w0)) as [Hc1 Hg1]; try done; [lia..|];
    destruct (shards_step _ (set_shard_count n (w_now x) a) _ _ _ _ _ _ Hm) as [Hc2 Hg2]; try done; simpl; [by rewrite lookup_insert_eq|] end.
  split; [done|by etrans].
Qed.

(** *** Publishing and reconciling *)

Lemma consistent_marked ids now d : consistent d → consistent (mark_published ids now d).
Proof.
  intros (Hwf & [Hs Ha Hp] & Hsh). split_and!; [by apply mark_published_wf| |exact Hsh]. split; simpl.
  - intros id p Hid. destruct (Hs id p Hid) as (o & eb & Ho & Heb & ?). exists (mark_row ids now o), eb.
    rewrite mark_row_balances. split; [by apply list_elem_of_fmap_2|done].
  - intros o eb (o' & -> & Ho)%list_elem_of_fmap. rewrite mark_row_event, mark_row_balances. by apply Ha.
  - intros ev Hev. rewrite <- list_fmap_compose, (list_fmap_ext _ o_event_id); [by apply Hp|]. intros. apply mark_row_event.
Qed.

Lemma publish_step p locked w log : ProducerLaws (pb_client p) → consistent (w_db w) →
  consistent (w_db (publishBatch p locked w log).1.2) ∧ ledger_grows (w_db w) (w_db (publishBatch p locked w log).1.2).
Proof.
  intros Hl Hc. destruct (publishBatch p locked w log) as [[r w'] log'] eqn:Hr. simpl.
  destruct (publishBatch_effect _ _ _ _ _ _ _ Hl Hr) as (out & _ & _ & [->|(_ & now & ->)]); [by split|].
  split; [by apply consistent_marked|]. split; simpl; [exists []; by rewrite app_nil_r| |by apply rows_kept; [apply _|]..| |done].
  - eexists _, []. rewrite app_nil_r. split; [done|]. apply claimed_evolve. apply (wf_event_ids _ (proj1 Hc)).
  - intros id b Hb. exists b. by split.
Qed.

Lemma reconcile_step runs exceptions d : consistent d →
  let d' := set_reconciliation_exceptions exceptions (set_reconciliation_runs runs d) in consistent d' ∧ ledger_grows d d'.
Proof.
  intros (Hwf & Hpw & Hsh) d'. split; [|apply (only_gained d d' []); simpl; rewrite ?app_nil_r; done].
  split_and!; [|by destruct Hpw|exact Hsh]. by destruct Hwf.
Qed.

Lemma Apply_step o w : consistent (w_db w) → o ∈ outbox (w_db w) →
  consistent (w_db (Apply (o_payload o) w).2) ∧ ledger_grows (w_db w) (w_db (Apply (o_payload o) w).2).
Proof.
  intros (Hwf & Hpw & Hsh) Ho. destruct (Apply_projection_wf o w Hwf Hpw Ho) as [Hwf' Hpw'].
  destruct (Apply (o_payload o) w) as [r w'] eqn:Hrun. simpl in *.
  apply Apply_cases in Hrun as [[Hd|(_ & Hnew & Hd)] _]; rewrite Hd in *; [by split|]. split; [by split|].
  apply (only_gained _ _ []); simpl; rewrite ?app_nil_r; try done. by apply insert_subseteq.
Qed.

Lemma run_step o w : consistent (w_db w) → operation_ok o (w_db w) →
  consistent (w_db (run o w)) ∧ ledger_grows (w_db w) (w_db (run o w)).
Proof.
  intros Hc Hok. pose proof Hc as [Hwf _].
  destruct o; simpl in Hok |- *.
  - destruct (postTransaction repo req w) as [r w'] eqn:Hrun. simpl.
    apply post_once in Hrun as [[-> _]|(Hv & txID & Hrec & _)]; auto; [by split|].
    eapply recorded_once_step; eauto. by eapply post_keeps.
  - destruct (doReverse repo txID reason idem record w) as [r w'] eqn:Hrun. simpl.
    apply reverse_once in Hrun as [[-> _]|(revID & Hrec & _)]; auto; [by split|].
    eapply recorded_once_step; eauto. by eapply reverse_keeps.
  - destruct (CreateAccount repo req w) as [r w'] eqn:Hrun. simpl.
    apply create_once in Hrun as [[-> _]|(id & Ho & _)]; auto; [by split|]. by eapply opened_step.
  - exact (framed_step _ w (framed_Reserve _) Hc).
  - exact (framed_step _ w (framed_Reclaim _ _ _) Hc).
  - exact (framed_step _ w (framed_Fail _ _ _ _) Hc).
  - exact (framed_step _ w (framed_Release _ _) Hc).
  - exact (framed_step _ w (framed_Sweep _) Hc).
  - exact (framed_step _ w (framed_Create _) Hc).
  - exact (framed_step _ w (framed_ClaimRunnable _ _ _ _) Hc).
  - exact (framed_step _ w (framed_ClaimExpired _ _ _ _) Hc).
  - exact (framed_step _ w (framed_Advance _) Hc).
  - exact (framed_step _ w (framed_RenewLease _ _ _) Hc).
  - exact (framed_step _ w (framed_BeginStep _ _) Hc).
  - exact (framed_step _ w (framed_RecordAttempt _) Hc).
  - exact (framed_step _ w (framed_FinishAttempt _) Hc).
  - exact (framed_step _ w (framed_Escalate _ _ Hok) Hc).
  - destruct Hok as (row & Hrow & <-). by apply Apply_step.
  - by apply ledger_shard_account_step.
Qed.

Lemma system_step_inv d d' : system_step d d' → consistent d → consistent d' ∧ ledger_grows d d'.
Proof. intros [o w Hok|p locked w log Hl|runs exceptions d0]; auto using run_step, publish_step, reconcile_step. Qed.

Lemma steps_inv d d' : rtc system_step d d' → consistent d → consistent d' ∧ ledger_grows d d'.
Proof.
  induction 1 as [d|d1 d2 d3 Hstep _ IH]; intros Hc; [by split|].
  destruct (system_step_inv _ _ Hstep Hc) as [Hc' Hg].
  destruct (IH Hc') as [Hc3 Hg3]. split; [done|by etrans].
Qed.

Lemma empty_DB_consistent : consistent empty_DB.
Proof. split_and!; [apply empty_DB_wf|by apply projection_wf_empty|done]. Qed.

Lemma reachable_consistent d : reachable d → consistent d.
Proof. intros Hr. eapply steps_inv; [exact Hr|apply empty_DB_consistent]. Qed.

(** ** The books *)

(** C1: the books of every reachable database balance.  Start from the empty
    schema and run any sequence of the system's write operations (postings,
    reversals, account openings, the idempotency store's and the saga store's
    operations, projector deliveries, publishers' cycles, shardings, reconciliations) in
    any environments: every stored balance
    is the signed sum of the account's journal entries and fits BIGINT, no
    account that forbids it is overdrawn, no hold is negative, every transaction
    sums to zero in every currency and so does the whole journal. *)
Theorem books_balance d : reachable d →
  (∀ id a b, accounts d !! id = Some a → account_balances d !! id = Some b →
     b_available_minor b = account_sum (a_normal_balance a) id (journal_entries d) ∧
     is_int64 (b_available_minor b) ∧ 0 ≤ b_pending_minor b ∧
     (b_allow_negative b = false → 0 ≤ b_available_minor b)) ∧
  (∀ tx cur, tx_currency_sum tx cur (journal_entries d) = 0) ∧
  (∀ cur, currency_total cur (journal_entries d) = 0).
Proof.
  intros [Hwf _]%reachable_consistent. split_and!.
  - intros id a b Ha Hb. destruct (wf_balance_ok d Hwf id b Hb) as [H64 _ Hover Hpend _].
    split_and!; [by apply wf_balance_sum|done|done|]. intros Hno. rewrite Hno in Hover. by destruct Hover.
  - intros tx cur. by apply wf_zero.
  - intros cur. by apply wf_currency_total.
Qed.

(** C7: recorded history never changes.  Between any two points of an execution of the
    system (its write operations, the publishers' cycles, an operator's sharding of
    accounts, reconciliation runs) the journal only gains rows at its end; the outbox too,
    but for the mark [published_at] a row gets once; an account row is never removed nor
    altered, but for an unsharded account becoming sharded; a transaction row is immutable
    but for the one change from POSTED to REVERSED; balance rows stay and their versions
    never decrease; and no event the projector has processed is forgotten. *)
Theorem history_is_append_only d d' : reachable d → rtc system_step d d' → ledger_grows d d'.
Proof. intros Hr%reachable_consistent Hs. by eapply steps_inv. Qed.

(** None of the three audits ever reports anything: in every reachable
    database each currency's debits equal its credits over the whole journal,
    every balance row equals the balance rebuilt from the journal, every posted
    or reversed transaction has at least two entries and every entry its
    transaction. *)
Theorem audits_pass d : reachable d →
  GlobalInvariantResult_OK (CheckGlobalInvariant d) = true ∧
  DriftResult_OK (CheckProjectionDrift d) = true ∧
  OrphanResult_OK (CheckOrphans d) = true.
Proof. intros [Hwf _]%reachable_consistent. by apply wf_audits. Qed.

(** Every event id is published once and every announced balance is true: in
    a reachable database the event ids of the outbox are distinct, an event never
    announces a version newer than the account's row, an event carrying the row's
    current version carries its current balance, and every account that has moved
    has such an event, so a consumer that keeps the highest version it has seen
    ends with the true balance. *)
Theorem outbox_announces_balances d : reachable d →
  NoDup (o_event_id <$> outbox d) ∧
  (∀ o eb, o ∈ outbox d → eb ∈ row_balances o →
     ∃ a b, accounts d !! eb_AccountID eb = Some a ∧ account_balances d !! eb_AccountID eb = Some b ∧
       currency (eb_Available eb) = a_currency a ∧ 1 ≤ eb_Version eb ≤ b_version b ∧
       (eb_Version eb = b_version b → amountMinor (eb_Available eb) = b_available_minor b)) ∧
  (∀ id b, account_balances d !! id = Some b → 0 < b_version b →
     ∃ o eb, o ∈ outbox d ∧ eb ∈ row_balances o ∧ eb_AccountID eb = id ∧ eb_Version eb = b_version b ∧
       amountMinor (eb_Available eb) = b_available_minor b).
Proof.
  intros [Hwf _]%reachable_consistent. split_and!; [apply (wf_event_ids d Hwf)|apply Hwf|].
  intros id b Hb Hv. destruct (wf_announced_all d Hwf id b Hb Hv) as (o & eb & Ho & Heb & Hid & Hver).
  exists o, eb. split_and!; auto. destruct (wf_announced d Hwf o eb Ho Heb) as (a & b' & _ & Hb' & _ & _ & Heq).
  rewrite Hid, Hb in Hb'. injection Hb' as <-. auto.
Qed.

Lemma step_to o w d d' : w_db w = d → d' = w_db (run o w) → operation_ok o d → system_step d d'.
Proof. intros <- -> Hok. by constructor. Qed.
End system.

(** ** A reachable database *)

Lemma demo_reachable : reachable demo_db.
Proof.
  apply (rtc_l _ _ demo_db1).
  { apply (step_to (OpCreateAccount demo_repo float_req) (quiet_world empty_DB 10));
      [apply quiet_world_db|exact demo_db1_eq|exact I]. }
  apply (rtc_l _ _ demo_db2).
  { apply (step_to (OpCreateAccount demo_repo wallet_req) (quiet_world demo_db1 20));
      [apply quiet_world_db|exact demo_db2_eq|exact I]. }
  apply rtc_once. apply (step_to (OpCreateAccount demo_repo merchant_req) (quiet_world demo_db2 30));
    [apply quiet_world_db|exact demo_db_eq|exact I].
Qed.

Lemma funded_step : system_step demo_db funded_db.
Proof.
  apply (step_to (OpPostTransaction demo_repo funding) (quiet_world demo_db 100));
    [apply quiet_world_db|exact funded_db_eq|exact funding_ok].
Qed.

Lemma funded_reachable : reachable funded_db.
Proof. exact (rtc_r _ _ _ demo_reachable funded_step). Qed.

Lemma books_balance_witness : currency_total "INR" (journal_entries funded_db) = 0.
Proof. exact (proj2 (proj2 (books_balance funded_db funded_reachable)) "INR"). Defined.

Lemma history_is_append_only_witness : ledger_grows demo_db funded_db.
Proof. exact (history_is_append_only demo_db funded_db demo_reachable (rtc_once _ _ funded_step)). Defined.

Lemma audits_pass_witness : OrphanResult_OK (CheckOrphans funded_db) = true.
Proof. exact (proj2 (proj2 (audits_pass funded_db funded_reachable))). Defined.

Lemma outbox_announces_balances_witness : NoDup (o_event_id <$> outbox funded_db).
Proof. exact (proj1 (outbox_announces_balances funded_db funded_reachable)). Defined.
