(* ===== verification/Manager.v ===== *)
(** * The idempotency manager (internal/idempotency/store.go, record.go, sweeper.go)

    [Manager] is written against two interfaces, [Store] and [Cache]; its
    theorems are proved against their contracts, and the PostgreSQL store of
    [PgIdem] is shown to satisfy the first.  Metrics are left out. *)

From S2P Require Import Prelude Errors Types Schema PgIdem Invariant Frames.
Open Scope string_scope.
Open Scope Z_scope.

Definition Second : Z := 1000000000.
Definition DefaultTTL : Z := 24 * 3600 * Second.
Definition DefaultLease : Z := 30 * Second.

(** ** The interfaces *)

Record IdemStore := mkIdemStore {
  st_Reserve : Reservation → M bool;
  st_Lookup : string → string → M (option IRecord);
  st_Reclaim : string → string → Z → M bool;
  st_Fail : string → string → Z → option string → M unit;
  st_Release : string → string → M unit;
  st_Sweep : nat → M Z }.

Definition pg_store : IdemStore :=
  mkIdemStore Store_Reserve Store_Lookup Store_Reclaim Store_Fail Store_Release Store_Sweep.

(** A cache lives outside the database; [Put] is best-effort, so it may change
    anything about the cache. *)
Record Cache := mkCache {
  cache_Get : string → World → option IRecord;
  cache_Put : string → IRecord → Z → World → World }.

Definition NoopCache : Cache := mkCache (λ _ _, None) (λ _ _ _ w, w).

(** ** Records *)

Inductive Disposition := Proceed | Replay.

Definition IStatus_Terminal (s : string) : bool :=
  bool_decide (s = IStatusCompleted) || bool_decide (s = IStatusFailed).

Definition body_empty (b : option string) : bool :=
  match b with Some s => bool_decide (s = "") | None => true end.

Definition Record_validate (r : IRecord) : res unit :=
  if IStatus_Terminal (Rec_Status r) && ((Rec_ResponseStatus r =? 0) || body_empty (Rec_ResponseBody r))
  then Err ErrCorruptRecord else Ok tt.

Definition cacheKey (principalID key : string) : string := principalID +:+ ":" +:+ key.

(** [time.Time.Sub] saturates; [Duration.Round] rounds half away from zero. *)
Definition time_Sub (a b : Time) : Z := Z.max min_int64 (Z.min max_int64 (a - b)).

Definition Duration_Round (d m : Z) : Z :=
  if m <=? 0 then d
  else
    let r := Z.rem d m in
    if d <? 0 then
      let r := - r in
      if r + r <? m then d + r
      else let d1 := wrap64 (d - m + r) in if d1 <? d then d1 else min_int64
    else
      if r + r <? m then d - r
      else let d1 := wrap64 (d + m - r) in if d <? d1 then d1 else max_int64.

Definition retryAfter (deadline now : Time) : Z :=
  let remaining := time_Sub deadline now in
  if remaining <? Second then Second else Duration_Round remaining Second.

(** ** The manager *)

Record Manager := mkManager { mg_store : IdemStore; mg_cache : Cache; mg_ttl : Z; mg_lease : Z }.

Definition NewManager (store : IdemStore) (cache : option Cache) (ttl lease : Z) : Manager :=
  mkManager store (default NoopCache cache)
    (if ttl <=? 0 then DefaultTTL else ttl) (if lease <=? 0 then DefaultLease else lease).

Definition put_cache (m : Manager) (r : IRecord) (ttl : Z) : M unit := λ w,
  (Ok tt, cache_Put (mg_cache m) (cacheKey (Rec_PrincipalID r) (Rec_Key r)) r ttl w).

Definition resolveExisting (m : Manager) (existing : IRecord) (r : Reservation)
    : M (option IRecord * Disposition) :=
  if negb (bool_decide (Rec_Fingerprint existing = Rv_Fingerprint r)) then
    fail (ConflictError (Rv_Key r) (Rec_Method existing) (Rec_Route existing))
  else
    _ ← lift (Record_validate existing);
    now ← clock_Now;
    if Rec_ExpiresAt existing <=? now then fail ErrKeyExpired
    else if IStatus_Terminal (Rec_Status existing) then
      _ ← put_cache m existing (time_Sub (Rec_ExpiresAt existing) now);
      mret (Some existing, Replay)
    else if now <? Rec_LeaseExpiresAt existing then
      fail (InProgressError (Rec_Key existing) (retryAfter (Rec_LeaseExpiresAt existing) now))
    else
      won ← st_Reclaim (mg_store m) (Rec_PrincipalID existing) (Rec_Key existing) (Rv_Lease r);
      if (won : bool) then mret (None, Proceed)
      else fail (InProgressError (Rec_Key existing) (retryAfter (now + Rv_Lease r) now)).

(** The reservation with its defaulted lifetimes. *)
Definition with_lifetimes (m : Manager) (r : Reservation) : Reservation :=
  mkReservation (Rv_PrincipalID r) (Rv_Key r) (Rv_Fingerprint r) (Rv_Method r) (Rv_Route r)
    (if Rv_TTL r <=? 0 then mg_ttl m else Rv_TTL r) (if Rv_Lease r <=? 0 then mg_lease m else Rv_Lease r).

Definition Acquire (m : Manager) (r0 : Reservation) : M (option IRecord * Disposition) := λ w,
  let r := with_lifetimes m r0 in
  match cache_Get (mg_cache m) (cacheKey (Rv_PrincipalID r) (Rv_Key r)) w with
  | Some cached => resolveExisting m cached r w
  | None =>
      (won ← st_Reserve (mg_store m) r;
       if (won : bool) then mret (None, Proceed)
       else
         existing ← st_Lookup (mg_store m) (Rv_PrincipalID r) (Rv_Key r);
         match existing with
         | None => fail (InProgressError (Rv_Key r) Second)
         | Some existing => resolveExisting m existing r
         end) w
  end.

Definition Manager_Fail (m : Manager) := st_Fail (mg_store m).
Definition Manager_Release (m : Manager) := st_Release (mg_store m).

Definition CacheCompleted (m : Manager) (record : option IRecord) : M unit :=
  match record with
  | Some r =>
      if IStatus_Terminal (Rec_Status r)
      then now ← clock_Now; put_cache m r (time_Sub (Rec_ExpiresAt r) now)
      else mret tt
  | None => mret tt
  end.

(** ** The sweeper

    One drain; the loop runs again only after a full batch, and each full batch
    removed a row, so the number of rows plus one bounds it. *)
Fixpoint sweepOnce_loop (s : IdemStore) (batch : nat) (fuel : nat) : M unit :=
  match fuel with
  | O => mret tt
  | S fuel =>
      deleted ← st_Sweep s batch;
      if deleted <? Z.of_nat batch then mret tt
      else
        c ← ctx_Err;
        match c with Some _ => mret tt | None => sweepOnce_loop s batch fuel end
  end.

Definition sweepOnce (s : IdemStore) (batch : nat) : M unit := λ w,
  match sweepOnce_loop s batch (S (size (idempotency_keys (w_db w)))) w with
  | (_, w') => (Ok tt, w')
  end.

(** ** What the store promises *)

Definition key_of (r : Reservation) : string * string := (Rv_PrincipalID r, Rv_Key r).

Definition record_of (k : string * string) (row : idempotency_row) : IRecord :=
  mkIRecord k.1 k.2 (ik_fingerprint row) (ik_status row) (default 0 (ik_response_status row))
    (ik_response_body row) (ik_transaction_id row) (default "" (ik_request_method row))
    (default "" (ik_request_route row)) (ik_created_at row) (ik_expires_at row) (ik_lease_expires_at row).

(** One key's row became [row]; everything else is as it was. *)
Definition key_written (k : string * string) (row : idempotency_row) (d d' : DB) : Prop :=
  d' = set_idempotency_keys (<[k := row]> (idempotency_keys d)) d.

(** The reservation was stored: the key was free and is now this request's, leased. *)
Definition key_reserved (r : Reservation) (now : Time) (d d' : DB) : Prop :=
  idempotency_keys d !! key_of r = None ∧
  ∃ row, key_written (key_of r) row d d' ∧ ik_status row = IStatusInProgress ∧
    ik_fingerprint row = Rv_Fingerprint r ∧ ik_lease_expires_at row = Z.min (now + Rv_Lease r) (ik_expires_at row).

(** The lease of an unfinished row had run out and was extended; nothing else changed. *)
Definition key_reclaimed (p k : string) (lease : Z) (now : Time) (d d' : DB) : Prop :=
  ∃ row, idempotency_keys d !! (p, k) = Some row ∧ ik_status row = IStatusInProgress ∧
    ik_lease_expires_at row ≤ now ∧
    key_written (p, k) (ik_set_lease (Z.min (now + lease) (ik_expires_at row)) row) d d'.

(** A write that fails was not made, or was made and only its answer was lost. *)
Class StoreLaws (s : IdemStore) : Prop := {
  law_Reserve r w b w' : st_Reserve s r w = (Ok b, w') →
    if b then key_reserved r (w_now w') (w_db w) (w_db w')
    else w_db w' = w_db w ∧ is_Some (idempotency_keys (w_db w) !! key_of r);
  law_Reserve_err r w e w' : st_Reserve s r w = (Err e, w') →
    w_db w' = w_db w ∨ key_reserved r (w_now w') (w_db w) (w_db w');
  law_Lookup p k w r w' : st_Lookup s p k w = (Ok r, w') →
    w_db w' = w_db w ∧ r = record_of (p, k) <$> idempotency_keys (w_db w) !! (p, k);
  law_Lookup_err p k w e w' : st_Lookup s p k w = (Err e, w') → w_db w' = w_db w;
  law_Reclaim p k lease w b w' : st_Reclaim s p k lease w = (Ok b, w') →
    if b then key_reclaimed p k lease (w_now w') (w_db w) (w_db w') else w_db w' = w_db w;
  law_Reclaim_err p k lease w e w' : st_Reclaim s p k lease w = (Err e, w') →
    w_db w' = w_db w ∨ key_reclaimed p k lease (w_now w') (w_db w) (w_db w') }.

(** What the cache promises: [Put] never reaches the database, and a hit is a
    terminal record of the key asked for, the one in the table if it is there. *)
Record CacheOk (c : Cache) : Prop := {
  cache_Put_db key r ttl w : w_db (cache_Put c key r ttl w) = w_db w;
  cache_Put_now key r ttl w : w_now (cache_Put c key r ttl w) = w_now w }.

Definition cache_sound (c : Cache) (w : World) : Prop := ∀ p k r,
  cache_Get c (cacheKey p k) w = Some r →
  IStatus_Terminal (Rec_Status r) = true ∧ Rec_PrincipalID r = p ∧ Rec_Key r = k ∧
  ∀ row, idempotency_keys (w_db w) !! (p, k) = Some row → r = record_of (p, k) row.

Lemma NoopCache_ok : CacheOk NoopCache.
Proof. by split. Qed.

Lemma NoopCache_sound w : cache_sound NoopCache w.
Proof. by intros p k r. Qed.

(** ** PostgreSQL keeps those promises *)

Ltac store_run :=
  repeat (mrun; match goal with
    | H : tx_start _ = (Ok _, _) |- _ => apply tx_start_ok in H
    end).

Lemma FingerprintFromBytes_ok raw fp : FingerprintFromBytes raw = Ok fp → fp = raw.
Proof. unfold FingerprintFromBytes. case_bool_decide; by intros [= <-]. Qed.

(** An autocommitted statement that keeps a promise when it ends keeps it, whatever the
    client is told, or changes nothing. *)
Lemma autocommit_keeps {A} (m : M A) (P : A → Time → DB → DB → Prop) :
  (∀ w a w', m w = (Ok a, w') → P a (w_now w') (w_db w) (w_db w')) →
  (∀ w a w', autocommit m w = (Ok a, w') → P a (w_now w') (w_db w) (w_db w')) ∧
  (∀ w e w', autocommit m w = (Err e, w') → w_db w' = w_db w ∨ ∃ a, P a (w_now w') (w_db w) (w_db w')).
Proof.
  intros Hm. split.
  - intros w a w' (w0 & w1 & Hd & _ & H1 & Hd1 & _ & Hn)%autocommit_ok. apply Hm in H1. by rewrite Hd, <- Hd1, <- Hn in H1.
  - intros w e w' [?|(a & w0 & w1 & Hd & H1 & Hd1 & Hn)]%autocommit_err; [by left|]. right. exists a. apply Hm in H1.
    by rewrite Hd, <- Hd1, <- Hn in H1.
Qed.

Lemma pg_Reserve_keeps r :
  (∀ w b w', Store_Reserve r w = (Ok b, w') → if b then key_reserved r (w_now w') (w_db w) (w_db w')
     else w_db w' = w_db w ∧ is_Some (idempotency_keys (w_db w) !! key_of r)) ∧
  (∀ w e w', Store_Reserve r w = (Err e, w') → w_db w' = w_db w ∨ key_reserved r (w_now w') (w_db w) (w_db w')).
Proof.
  unfold Store_Reserve. edestruct (autocommit_keeps (A := bool)) with (P := λ (b : bool) now d d',
    if b then key_reserved r now d d' else d' = d ∧ is_Some (idempotency_keys d !! key_of r)) as [Hok Herr];
    [|split; [apply Hok|intros w e w' [?|([] & Hb)]%Herr; [by left|right; apply Hb|left; apply (proj1 Hb)]]].
  simpl. intros w b w' Hrun. mrun. simpl in *. unfold key_reserved, key_of.
  destruct (idempotency_keys (w_db w) !! _) as [row|] eqn:Hrow; mrun; simpl; [by split|].
  split; [done|]. eexists. split_and!; [unfold key_written; by simpl|done|done|]. simpl. bool_to_prop. lia.
Qed.

Lemma pg_Lookup_ok p k w r w' : Store_Lookup p k w = (Ok r, w') →
  w_db w' = w_db w ∧ r = record_of (p, k) <$> idempotency_keys (w_db w) !! (p, k).
Proof.
  unfold Store_Lookup. intros Hrun. store_run. simpl in *.
  match goal with Ht : w_db _ = w_db w |- _ => rewrite Ht in Hrun end.
  destruct (idempotency_keys (w_db w) !! _) as [row|]; mrun; simpl; [|done].
  match goal with Hf : FingerprintFromBytes _ = _ |- _ => apply FingerprintFromBytes_ok in Hf as -> end. done.
Qed.

Lemma pg_Reclaim_keeps p k lease :
  (∀ w b w', Store_Reclaim p k lease w = (Ok b, w') →
     if b then key_reclaimed p k lease (w_now w') (w_db w) (w_db w') else w_db w' = w_db w) ∧
  (∀ w e w', Store_Reclaim p k lease w = (Err e, w') →
     w_db w' = w_db w ∨ key_reclaimed p k lease (w_now w') (w_db w) (w_db w')).
Proof.
  unfold Store_Reclaim. edestruct (autocommit_keeps (A := bool)) with (P := λ (b : bool) now d d',
    if b then key_reclaimed p k lease now d d' else d' = d) as [Hok Herr];
    [|split; [apply Hok|intros w e w' [?|([] & Hb)]%Herr; [by left|right; apply Hb|by left]]].
  simpl. unfold update_ik. intros w b w' Hrun. mrun. simpl in *.
  destruct (idempotency_keys (w_db w) !! _) as [row|] eqn:Hrow; mrun; simpl; [|done].
  destruct (ik_in_progress row && _) eqn:Hg; mrun; simpl; [|done].
  apply andb_true_iff in Hg as [Hip Hle]. unfold ik_in_progress in Hip. bool_to_prop. by exists row.
Qed.

Ltac clean :=
  repeat (apply fails_clean_bind; [first [apply tx_start_db|apply sql_exec_db|intros; apply guard_M_db|done]|intros ?]).

Lemma Lookup_fails_clean p k : fails_clean (Store_Lookup p k).
Proof. unfold Store_Lookup. clean. case_match; [clean|]; done. Qed.

#[export] Instance pg_store_laws : StoreLaws pg_store.
Proof.
  split; simpl.
  - intros r. apply (pg_Reserve_keeps r).
  - intros r. apply (pg_Reserve_keeps r).
  - apply pg_Lookup_ok.
  - intros p k. apply Lookup_fails_clean.
  - intros p k lease. apply (pg_Reclaim_keeps p k lease).
  - intros p k lease. apply (pg_Reclaim_keeps p k lease).
Qed.

(** ** The state machine *)

Lemma Duration_Round_ge d : Second ≤ d ≤ max_int64 → Second ≤ Duration_Round d Second.
Proof.
  intros Hd. unfold Duration_Round. change (Second <=? 0) with false. cbv iota.
  assert (0 < Second) by (unfold Second; lia).
  rewrite (proj2 (Z.ltb_ge d 0)) by lia. rewrite Z.rem_mod_nonneg by lia.
  pose proof (Z.mod_pos_bound d Second ltac:(lia)). pose proof (Z.div_mod d Second ltac:(lia)).
  assert (1 ≤ d / Second) by (apply Z.div_le_lower_bound; lia).
  case_match; [nia|]. case_match eqn:Hw; [apply Z.ltb_lt in Hw; lia|]. vm_compute. congruence.
Qed.

Lemma retryAfter_ge deadline now : Second ≤ retryAfter deadline now.
Proof.
  unfold retryAfter. case_match eqn:Hlt; [lia|]. apply Z.ltb_ge in Hlt. apply Duration_Round_ge.
  split; [done|]. unfold time_Sub. unfold min_int64, max_int64 in *. lia.
Qed.

(** The key is this request's: its row is IN_PROGRESS with the request's fingerprint and
    lease, and it was free, or an unfinished reservation of the same request whose lease
    had run out.  Nothing else changed. *)
Definition key_taken (m : Manager) (r : Reservation) (now : Time) (d d' : DB) : Prop :=
  (∃ row, key_written (key_of r) row d d' ∧ ik_status row = IStatusInProgress ∧
     ik_fingerprint row = Rv_Fingerprint r ∧
     ik_lease_expires_at row = Z.min (now + Rv_Lease (with_lifetimes m r)) (ik_expires_at row)) ∧
  (∀ old, idempotency_keys d !! key_of r = Some old →
     ik_status old = IStatusInProgress ∧ ik_fingerprint old = Rv_Fingerprint r ∧ ik_lease_expires_at old ≤ now).

(** What an answer of the manager means. *)
Definition acquire_post (m : Manager) (r : Reservation) (w : World)
    (out : res (option IRecord * Disposition) * World) : Prop :=
  match out with
  | (Ok (None, Proceed), w') => key_taken m r (w_now w') (w_db w) (w_db w')
  | (Ok (Some rec, Replay), w') =>
      w_db w' = w_db w ∧ IStatus_Terminal (Rec_Status rec) = true ∧
      Rec_PrincipalID rec = Rv_PrincipalID r ∧ Rec_Key rec = Rv_Key r ∧
      Rec_Fingerprint rec = Rv_Fingerprint r ∧ Rec_ResponseStatus rec ≠ 0 ∧
      body_empty (Rec_ResponseBody rec) = false ∧
      (∀ row, idempotency_keys (w_db w) !! key_of r = Some row → rec = record_of (key_of r) row)
  | (Ok _, _) => False
  | (Err _, w') => w_db w' = w_db w ∨ key_taken m r (w_now w') (w_db w) (w_db w')
  end.

Section machine.
Context (m : Manager) {L : StoreLaws (mg_store m)}.
Hypothesis Hcache : CacheOk (mg_cache m).

Lemma reclaimed_taken row r now d d' : idempotency_keys d !! key_of r = Some row → ik_fingerprint row = Rv_Fingerprint r →
  key_reclaimed (Rv_PrincipalID r) (Rv_Key r) (Rv_Lease (with_lifetimes m r)) now d d' → key_taken m r now d d'.
Proof.
  change (Rv_PrincipalID r, Rv_Key r) with (key_of r). intros Hrow Hfp (row' & Hrow' & Hst & Hle & Hw).
  change (Rv_PrincipalID r, Rv_Key r) with (key_of r) in *. rewrite Hrow in Hrow'. injection Hrow' as <-. split.
  - eexists. split; [exact Hw|]. by simpl.
  - intros old Hold. rewrite Hrow in Hold. injection Hold as <-. auto.
Qed.

Lemma resolveExisting_post existing r w :
  Rec_PrincipalID existing = Rv_PrincipalID r → Rec_Key existing = Rv_Key r →
  (∀ row, idempotency_keys (w_db w) !! key_of r = Some row → existing = record_of (key_of r) row) →
  acquire_post m r w (resolveExisting m existing (with_lifetimes m r) w).
Proof.
  intros Hp Hk Hcur. unfold resolveExisting. simpl. case_bool_decide as Hfp; simpl; [|by left].
  unfold mbind, M_bind, lift. destruct (Record_validate existing) as [[]|e] eqn:Hv; simpl; [|by left].
  destruct (Z.leb_spec (Rec_ExpiresAt existing) (w_clock w)); simpl; [by left|].
  destruct (IStatus_Terminal (Rec_Status existing)) eqn:Hterm; simpl.
  { unfold Record_validate in Hv. rewrite Hterm in Hv. simpl in Hv. case_match eqn:Hb; [done|].
    apply orb_false_iff in Hb as [H1%Z.eqb_neq H2]. rewrite (cache_Put_db _ Hcache). done. }
  destruct (Z.ltb_spec (w_clock w) (Rec_LeaseExpiresAt existing)); simpl; [by left|].
  assert (Htake : ∀ now d', key_reclaimed (Rv_PrincipalID r) (Rv_Key r) (Rv_Lease (with_lifetimes m r)) now (w_db w) d' →
    key_taken m r now (w_db w) d').
  { intros now d' Hre. pose proof Hre as (row & Hrow & _). eapply reclaimed_taken; [exact Hrow| |exact Hre].
    by rewrite (Hcur row Hrow) in Hfp. }
  rewrite Hp, Hk. destruct (st_Reclaim _ _ _ _ w) as [[b|e] w1] eqn:Hre; simpl.
  2: { apply law_Reclaim_err in Hre as [?|Hre]; [by left|]. right. by apply Htake. }
  apply law_Reclaim in Hre. destruct b; simpl; [by apply Htake|by left].
Qed.

Lemma reserved_taken r now d d' : key_reserved (with_lifetimes m r) now d d' → key_taken m r now d d'.
Proof.
  intros (Hnone & row & Hw & Hst & Hfp & Hlease). change (key_of (with_lifetimes m r)) with (key_of r) in *. split.
  - exists row. auto.
  - intros old Hold. congruence.
Qed.

Lemma Acquire_post r w : cache_sound (mg_cache m) w → acquire_post m r w (Acquire m r w).
Proof.
  intros Hsound. unfold Acquire. simpl.
  destruct (cache_Get _ _ w) as [cached|] eqn:Hget.
  { apply Hsound in Hget as (_ & Hp & Hk & Hcur). by apply resolveExisting_post. }
  unfold mbind, M_bind. destruct (st_Reserve _ _ w) as [[b|e] w1] eqn:Hres; simpl.
  2: { apply law_Reserve_err in Hres as [?|Hres]; [by left|]. right. by apply reserved_taken. }
  apply law_Reserve in Hres. destruct b; simpl; [by apply reserved_taken|].
  change (key_of (with_lifetimes m r)) with (key_of r) in Hres.
  destruct Hres as [Hd _]. destruct (st_Lookup _ _ _ w1) as [[found|e] w2] eqn:Hlk; simpl.
  2: { apply law_Lookup_err in Hlk. left. congruence. }
  apply law_Lookup in Hlk as [Hd2 ->]. rewrite Hd in *.
  destruct (idempotency_keys (w_db w) !! (Rv_PrincipalID r, Rv_Key r)) as [row|] eqn:Hrow; simpl; [|by left].
  assert (Hpost : acquire_post m r w2
    (resolveExisting m (record_of (Rv_PrincipalID r, Rv_Key r) row) (with_lifetimes m r) w2)).
  { apply resolveExisting_post; [done|done|]. rewrite Hd2. intros row'. unfold key_of. rewrite Hrow. by intros [= <-]. }
  unfold acquire_post in *. rewrite Hd2 in Hpost. exact Hpost.
Qed.
End machine.

(** ** Claims *)

(** C29: the idempotency state machine, for any store and cache that keep their
    contracts, any environment and any clock skew.  [Proceed] means the key's row
    is now IN_PROGRESS with this request's fingerprint and lease, and that before
    it was absent or was an IN_PROGRESS reservation of the same request whose
    lease had run out by the database's clock.  [Replay] means a terminal record of
    this very key and fingerprint with a stored response, and the database is
    unchanged.  An error leaves the database unchanged, or the answer of the statement
    that takes the key was lost after it took effect, and then the key has been taken
    under exactly the conditions of [Proceed].  So a key is never taken over or replayed
    for a different request body, whatever the caller is told. *)
Theorem Acquire_decides m `{!StoreLaws (mg_store m)} r w :
  CacheOk (mg_cache m) → cache_sound (mg_cache m) w → acquire_post m r w (Acquire m r w).
Proof. intros Hc Hs. by apply Acquire_post. Qed.

(** A lease is exclusive by the database's clock.  After one process was told
    to proceed, no second [Acquire] of the same key (from any process, whatever its
    own clock says) is told to proceed before the lease granted to the first, cut
    off at the record's expiry, has run out. *)
Theorem lease_is_exclusive m1 m2 `{!StoreLaws (mg_store m1)} `{!StoreLaws (mg_store m2)} r1 r2 w1 w1' w2 w2' row :
  CacheOk (mg_cache m1) → CacheOk (mg_cache m2) → cache_sound (mg_cache m1) w1 → cache_sound (mg_cache m2) w2 →
  key_of r1 = key_of r2 → Acquire m1 r1 w1 = (Ok (None, Proceed), w1') → w_db w2 = w_db w1' →
  idempotency_keys (w_db w1') !! key_of r1 = Some row →
  Acquire m2 r2 w2 = (Ok (None, Proceed), w2') →
  Z.min (w_now w1' + Rv_Lease (with_lifetimes m1 r1)) (ik_expires_at row) ≤ w_now w2'.
Proof.
  intros C1 C2 S1 S2 Hk H1 Hd Hrow H2.
  pose proof (Acquire_post m1 C1 r1 w1 S1) as P1. pose proof (Acquire_post m2 C2 r2 w2 S2) as P2.
  rewrite H1 in P1. rewrite H2 in P2. destruct P1 as [(row' & Hw & _ & _ & Hlease) _], P2 as [_ P2].
  unfold key_written in Hw. rewrite Hw in Hrow. simpl in Hrow. rewrite lookup_insert_eq in Hrow.
  injection Hrow as ->. rewrite <- Hlease.
  destruct (P2 row) as (_ & _ & Hle); [|done]. rewrite Hd, Hw, <- Hk. simpl. by rewrite lookup_insert_eq.
Qed.
