(* ===== verification/IdemSpec.v ===== *)
(** * Retrying a request end to end

    The manager of [Manager] over the PostgreSQL store and the ledger service
    together: what a client that retries observes, and what the sweeper removes. *)

From S2P Require Import Prelude Errors Money Json Types SagaTypes Events Schema Outbox PgIdem.
From S2P Require Import PgSaga Retry PgLedger Service PgLedgerSpec ServiceSpec Invariant Validate.
From S2P Require Import Posting Ledger Frames Uuid Demo Guarantees Manager.
Open Scope string_scope.
Open Scope Z_scope.

(** A reservation the CHECK constraints of the table accept. *)
Definition reservation_ok (m : Manager) (r : Reservation) : Prop :=
  0 < Rv_TTL (with_lifetimes m r) ∧ Rv_Lease (with_lifetimes m r) ≤ Rv_TTL (with_lifetimes m r) ∧
  String.length (Rv_Fingerprint r) = 32%nat.

Lemma sql_exec_quiet w : w_faults w = [] → sql_exec w = (Ok tt, w).
Proof. unfold sql_exec. by intros ->. Qed.

Lemma tx_start_run w : ∃ w1, tx_start w = (Ok tt, w1) ∧ w_db w1 = w_db w ∧ w_faults w1 = w_faults w ∧
  w_commits w1 = w_commits w ∧ w_ctx w1 = w_ctx w ∧ w_clock w1 = w_clock w ∧ w_now w ≤ w_now w1.
Proof. unfold tx_start. destruct (w_ticks w); eexists; split_and!; try done; simpl; lia. Qed.

(** What the two outcomes of [Reserve] are, when the CHECK constraints hold. *)
Lemma Reserve_runs r w : answering w → 0 < Rv_TTL r → Rv_Lease r ≤ Rv_TTL r → String.length (Rv_Fingerprint r) = 32%nat →
  ∃ w1, Store_Reserve r w = (Ok (bool_decide (idempotency_keys (w_db w) !! key_of r = None)), w1) ∧ answering w1 ∧ w_clock w1 = w_clock w ∧
    (is_Some (idempotency_keys (w_db w) !! key_of r) → w_db w1 = w_db w).
Proof.
  intros [Hf Hc] Ht Hl Hfp. destruct (tx_start_run w) as (w1 & Hs & Hd & Hf1 & Hc1 & _ & Hk & _).
  unfold Store_Reserve, autocommit, mbind, M_bind. rewrite Hs, (sql_exec_quiet w1) by congruence. simpl.
  rewrite (proj2 (Z.ltb_lt _ _)) by lia. simpl. rewrite (bool_decide_eq_true_2 _ Hfp). simpl.
  rewrite (proj2 (Z.leb_le _ _)) by lia. simpl. rewrite Hd. change (Rv_PrincipalID r, Rv_Key r) with (key_of r).
  unfold answering, next_commit. destruct (idempotency_keys (w_db w) !! key_of r) as [row|]; simpl; rewrite Hc1, Hc; eexists;
    (split_and!; [done|simpl; congruence..| ]); simpl; [done|]. by intros [].
Qed.

Lemma Reserve_taken r row w : answering w → 0 < Rv_TTL r → Rv_Lease r ≤ Rv_TTL r →
  String.length (Rv_Fingerprint r) = 32%nat → idempotency_keys (w_db w) !! key_of r = Some row →
  ∃ w1, Store_Reserve r w = (Ok false, w1) ∧ w_db w1 = w_db w ∧ answering w1 ∧ w_clock w1 = w_clock w.
Proof.
  intros Ha Ht Hl Hfp Hrow. destruct (Reserve_runs r w Ha Ht Hl Hfp) as (w1 & Hr & Ha1 & Hc & Hd).
  rewrite Hrow in *. eauto 10.
Qed.

Lemma Lookup_found p k row w : answering w → String.length (ik_fingerprint row) = 32%nat →
  idempotency_keys (w_db w) !! (p, k) = Some row →
  ∃ w1, Store_Lookup p k w = (Ok (Some (record_of (p, k) row)), w1) ∧ w_db w1 = w_db w ∧ w_clock w1 = w_clock w.
Proof.
  intros [Hf _] Hfp Hrow. destruct (tx_start_run w) as (w1 & Hs & Hd & Hf1 & _ & _ & Hc & _).
  exists w1. split_and!; [|done|done].
  unfold Store_Lookup, mbind, M_bind. rewrite Hs, (sql_exec_quiet w1) by congruence. simpl.
  rewrite Hd, Hrow. unfold lift, FingerprintFromBytes. by rewrite (bool_decide_eq_true_2 _ Hfp).
Qed.

Section replay.
Context (m : Manager) (Hstore : mg_store m = pg_store) (Hcache : mg_cache m = NoopCache).

(** A terminal record is replayed as long as the database answers. *)
Lemma Acquire_terminal r row w : answering w → reservation_ok m r →
  idempotency_keys (w_db w) !! key_of r = Some row → IStatus_Terminal (ik_status row) = true →
  ik_fingerprint row = Rv_Fingerprint r → default 0 (ik_response_status row) ≠ 0 →
  body_empty (ik_response_body row) = false → w_clock w < ik_expires_at row →
  ∃ w', Acquire m r w = (Ok (Some (record_of (key_of r) row), Replay), w') ∧ w_db w' = w_db w.
Proof.
  intros Hf (Httl & Hlease & Hfp) Hrow Hterm Hfpr Hcode Hbody Hexp.
  unfold Acquire. rewrite Hcache, Hstore. simpl.
  destruct (Reserve_taken (with_lifetimes m r) row w) as (w1 & Hr & Hd1 & Hf1 & Hc1); try done.
  simpl in Hr. unfold mbind, M_bind at 1. rewrite Hr.
  destruct (Lookup_found (Rv_PrincipalID r) (Rv_Key r) row w1) as (w2 & Hl & Hd2 & Hc2); [done|congruence|by rewrite Hd1|].
  unfold M_bind at 1. rewrite Hl. unfold resolveExisting. simpl.
  rewrite (bool_decide_eq_true_2 _ Hfpr). simpl. unfold mbind, M_bind, lift, Record_validate. simpl.
  rewrite Hterm, Hbody, (proj2 (Z.eqb_neq _ _)) by done. simpl.
  rewrite (proj2 (Z.leb_gt _ _)) by (rewrite Hc2, Hc1; lia). rewrite Hcache. simpl.
  exists w2. split; [done|congruence].
Qed.

(** A retry replays the committed result.  Suppose a keyed posting committed,
    even if its caller was told it failed because the answer to COMMIT was lost.
    Then acquiring the same key again with the same request, before the record
    expires by this process's clock and while the database answers, changes
    nothing and returns the stored record: the response rendered inside the
    posting transaction, and the id of the transaction that was posted. *)
Theorem retry_replays_response `{UL : UuidLib} repo req i r w w2 row0 :
  ledger_wf (w_db w) → request_ok req → Rq_Idempotency req = Some i →
  (∀ render h code body, Idem_Render i = Some render → render h = Ok (code, body) →
     code ≠ 0 ∧ body_empty body = false) →
  key_of r = (Idem_PrincipalID i, Idem_Key i) →
  idempotency_keys (w_db w) !! key_of r = Some row0 → ik_fingerprint row0 = Rv_Fingerprint r →
  w_db (postTransaction repo req w).2 ≠ w_db w →
  reservation_ok m r → w_db w2 = w_db (postTransaction repo req w).2 → answering w2 →
  w_clock w2 < ik_expires_at row0 →
  ∃ rec w2' txID, Acquire m r w2 = (Ok (Some rec, Replay), w2') ∧ w_db w2' = w_db w2 ∧
    Rec_TransactionID rec = Some txID ∧ is_Some (transactions (w_db w2) !! txID) ∧
    (∃ render h, Idem_Render i = Some render ∧ Tx_ID h = txID ∧
       render h = Ok (Rec_ResponseStatus rec, Rec_ResponseBody rec)) ∧
    (∀ h, (postTransaction repo req w).1 = Ok h → Tx_ID h = txID).
Proof.
  intros Hwf Hok Hi Hren Hk Hrow0 Hfp Hne Hres Hd2 Hf Hexp.
  destruct (postTransaction repo req w) as [res w'] eqn:Hrun. simpl in *.
  apply post_once in Hrun as [[? _]|(_ & txID & (now & reqs & rows & ebs & _ & Hrec & _) & Hid)]; [done| |done|done].
  destruct (recorded_response _ _ _ _ _ _ _ _ _ Hrec i Hi) as (row & render & h & code & body & Hrow & Hr & Hh & Hcb & Hrow').
  rewrite <- Hk in *. rewrite Hrow0 in Hrow. injection Hrow as <-.
  destruct (Hren render h code body Hr Hcb) as [Hcode Hbody].
  destruct (Acquire_terminal r (ik_finish IStatusCompleted code body (Some txID) row0) w2)
    as (w2' & Hacq & Hd); [done|done|by rewrite Hd2|done|done|done|done|done|].
  eexists _, w2', txID. split_and!; [exact Hacq|done|done| |by exists render, h|].
  - rewrite Hd2. by apply tx_recorded_exists in Hrec.
  - intros h' Hh'. by destruct (Hid h' Hh').
Qed.
End replay.

(** ** The sweeper *)

Definition expired (now : Time) (row : idempotency_row) : Prop := ik_expires_at row < now.

Definition swept (now : Time) (batch : nat) (m : gmap (string * string) idempotency_row) :=
  filter (λ kr : (string * string) * idempotency_row, kr.1.2 ∉ sweep_keys now batch m) m.

Lemma Sweep_run batch w : answering w →
  ∃ w1, Store_Sweep batch w =
    (Ok (Z.of_nat (size (idempotency_keys (w_db w))) - Z.of_nat (size (swept (w_now w1) batch (idempotency_keys (w_db w))))), w1) ∧
    idempotency_keys (w_db w1) = swept (w_now w1) batch (idempotency_keys (w_db w)) ∧
    answering w1 ∧ w_ctx w1 = w_ctx w ∧ w_now w ≤ w_now w1.
Proof.
  intros [Hf Hk]. destruct (tx_start_run w) as (w1 & Hs & Hd & Hf1 & Hk1 & Hc1 & _ & Hn).
  unfold Store_Sweep, autocommit, mbind, M_bind. rewrite Hs, (sql_exec_quiet w1) by congruence. simpl. rewrite Hd.
  unfold next_commit. simpl. rewrite Hk1, Hk.
  exists (set_db (set_idempotency_keys (swept (w_now w1) batch (idempotency_keys (w_db w))) (w_db w)) w1).
  split_and!; [done|done|split; simpl; congruence|done|done].
Qed.

Lemma expired_rows_elem now m k row : (k, row) ∈ expired_rows now m ↔ m !! k = Some row ∧ expired now row.
Proof.
  unfold expired_rows. rewrite sort_by_elem, list_elem_of_filter, elem_of_map_to_list. simpl. unfold expired. tauto.
Qed.

Lemma expired_rows_NoDup now m : NoDup (expired_rows now m).*1.
Proof.
  unfold expired_rows. rewrite (sort_by_perm _ _). apply NoDup_fmap_fst.
  - intros k r1 r2 [_ H1%elem_of_map_to_list]%list_elem_of_filter [_ H2%elem_of_map_to_list]%list_elem_of_filter.
    congruence.
  - apply list.NoDup_filter, NoDup_map_to_list.
Qed.

Lemma swept_lookup now batch m k row :
  swept now batch m !! k = Some row ↔ m !! k = Some row ∧ k.2 ∉ sweep_keys now batch m.
Proof. unfold swept. by rewrite map_lookup_filter_Some. Qed.

(** A batch that came back short left nothing expired behind. *)
Lemma swept_short now batch m k row :
  Z.of_nat (size m) - Z.of_nat (size (swept now batch m)) < Z.of_nat batch →
  swept now batch m !! k = Some row → ¬ expired now row.
Proof.
  intros Hshort [Hk Hkeys]%swept_lookup Hexp.
  assert (Hin : (k, row) ∈ expired_rows now m) by by apply expired_rows_elem.
  assert (Hlen : (batch < length (expired_rows now m))%nat).
  { destruct (Nat.lt_ge_cases batch (length (expired_rows now m))) as [|Hge]; [done|]. destruct Hkeys.
    unfold sweep_keys. rewrite take_ge by done. apply list_elem_of_fmap. by exists (k, row). }
  set (taken := (take batch (expired_rows now m)).*1).
  assert (Hnd : NoDup taken) by (unfold taken; rewrite fmap_take; eapply sublist_NoDup; [apply expired_rows_NoDup|apply sublist_take]).
  assert (Hsize : (size (dom (swept now batch m)) + size (list_to_set taken : gset (string * string)) ≤ size (dom m))%nat).
  { rewrite <- size_union.
    - apply subseteq_size. intros x [[r Hr]%elem_of_dom|Hx%elem_of_list_to_set]%elem_of_union; apply elem_of_dom.
      + apply swept_lookup in Hr as [Hr _]. eauto.
      + unfold taken in Hx. apply list_elem_of_fmap in Hx as ([k' r'] & -> & Hx%elem_of_take).
        destruct Hx as (j & Hx & _). apply list_elem_of_lookup_2, expired_rows_elem in Hx as [Hx _]. eauto.
    - intros x [r Hr]%elem_of_dom Hx%elem_of_list_to_set. apply swept_lookup in Hr as [_ Hr]. apply Hr.
      unfold taken in Hx. apply list_elem_of_fmap in Hx as ([k' r'] & -> & Hx).
      unfold sweep_keys. apply list_elem_of_fmap. by exists (k', r'). }
  rewrite !size_dom, size_list_to_set in Hsize by done.
  unfold taken in Hsize. rewrite length_fmap, length_take in Hsize. lia.
Qed.

Lemma swept_keeps now batch m k row : m !! k = Some row →
  (∀ k' row', m !! k' = Some row' → k'.2 = k.2 → ¬ expired now row') → swept now batch m !! k = Some row.
Proof.
  intros Hk Hlive. apply swept_lookup. split; [done|]. unfold sweep_keys.
  intros ([k' row'] & Heq & Hin)%list_elem_of_fmap. simpl in Heq.
  apply elem_of_take in Hin as (j & Hin & _). apply list_elem_of_lookup_2, expired_rows_elem in Hin as [Hin Hexp].
  by apply (Hlive k' row').
Qed.

Lemma sweepOnce_loop_spec batch fuel : ∀ w, (0 < batch)%nat → answering w → w_ctx w = [] →
  (size (idempotency_keys (w_db w)) < fuel)%nat →
  let w' := (sweepOnce_loop pg_store batch fuel w).2 in
  w_now w ≤ w_now w' ∧ idempotency_keys (w_db w') ⊆ idempotency_keys (w_db w) ∧
  (∀ k row, idempotency_keys (w_db w') !! k = Some row → ¬ expired (w_now w) row) ∧
  (∀ k row, idempotency_keys (w_db w) !! k = Some row →
     (∀ k' row', idempotency_keys (w_db w) !! k' = Some row' → k'.2 = k.2 → ¬ expired (w_now w') row') →
     idempotency_keys (w_db w') !! k = Some row).
Proof.
  induction fuel as [|fuel IH]; intros w Hb Hf Hc Hfuel; [lia|].
  destruct (Sweep_run batch w Hf) as (w1 & Hs & Hk1 & Hf1 & Hc1 & Hn1).
  assert (Hsub : swept (w_now w1) batch (idempotency_keys (w_db w)) ⊆ idempotency_keys (w_db w)) by apply map_filter_subseteq.
  pose proof (map_subseteq_size _ _ Hsub) as Hsz.
  simpl. unfold mbind, M_bind. simpl. rewrite Hs. simpl.
  destruct (Z.ltb_spec (Z.of_nat (size (idempotency_keys (w_db w))) -
    Z.of_nat (size (swept (w_now w1) batch (idempotency_keys (w_db w))))) (Z.of_nat batch)) as [Hlt|Hge]; simpl.
  - rewrite Hk1. split_and!; [done|done| |].
    + intros k row Hk Hexp. apply (swept_short _ _ _ _ _ Hlt Hk). unfold expired in *. lia.
    + intros k row Hk Hlive. by apply swept_keeps.
  - unfold ctx_Err. rewrite Hc1, Hc. destruct (IH w1) as (Hn & Hsub1 & Hexp & Hkeep); [done|done|by rewrite Hc1| |].
    { rewrite Hk1. lia. }
    split_and!; [lia|by rewrite Hk1 in Hsub1; etrans| |].
    + intros k row Hk He. apply (Hexp k row Hk). unfold expired in *. lia.
    + intros k row Hk Hlive. apply Hkeep.
      * rewrite Hk1. apply swept_keeps; [done|]. intros k' row' Hk' Heq He. apply (Hlive k' row' Hk' Heq).
        unfold expired in *. lia.
      * rewrite Hk1. intros k' row' [Hk' _]%swept_lookup. by apply Hlive.
Qed.

(** One drain of the sweeper terminates and removes every expired record:
    while the database answers and the context lives, no row that had expired when
    the drain began is left, no row is added or altered, and a row whose key string
    belongs to no expired row survives. *)
Theorem sweepOnce_drains batch w : (0 < batch)%nat → answering w → w_ctx w = [] →
  let w' := (sweepOnce pg_store batch w).2 in
  idempotency_keys (w_db w') ⊆ idempotency_keys (w_db w) ∧
  (∀ k row, idempotency_keys (w_db w') !! k = Some row → w_now w ≤ ik_expires_at row) ∧
  (∀ k row, idempotency_keys (w_db w) !! k = Some row →
     (∀ k' row', idempotency_keys (w_db w) !! k' = Some row' → k'.2 = k.2 → w_now w' ≤ ik_expires_at row') →
     idempotency_keys (w_db w') !! k = Some row).
Proof.
  intros Hb Hf Hc. unfold sweepOnce.
  destruct (sweepOnce_loop_spec batch (S (size (idempotency_keys (w_db w)))) w Hb Hf Hc) as (_ & Hsub & Hexp & Hkeep); [lia|].
  destruct (sweepOnce_loop _ _ _ w) as [r w1]. simpl in *. split_and!; [done| |].
  - intros k row Hk. apply Hexp in Hk. unfold expired in Hk. lia.
  - intros k row Hk Hlive. apply Hkeep; [done|]. intros k' row' Hk' Heq He.
    specialize (Hlive k' row' Hk' Heq). unfold expired in He. lia.
Qed.

(** C40: the sweep ignores the principal.  Its outer DELETE matches the key column
    alone: whenever the batch it selects holds an expired record of some principal [p],
    the record of every other principal [q] with the same key string is deleted with it,
    however long it had to live.  If [q]'s request had committed, its stored response can
    no longer be replayed: the retry, with the database answering, is told to proceed
    and is executed a second time. *)
Theorem sweep_crosses_principals batch p q k theirs m r w : answering w → p ≠ q →
  idempotency_keys (w_db w) !! (q, k) = Some theirs →
  let w' := (Store_Sweep batch w).2 in
  (p, k) ∈ (take batch (expired_rows (w_now w') (idempotency_keys (w_db w)))).*1 →
  ¬ expired (w_now w') theirs → IStatus_Terminal (ik_status theirs) = true →
  mg_store m = pg_store → mg_cache m = NoopCache → reservation_ok m r → key_of r = (q, k) →
  idempotency_keys (w_db w') !! (q, k) = None ∧ (Acquire m r w').1 = Ok (None, Proceed).
Proof.
  intros Ha _ Hq w' Hp _ _ Hstore Hcache (Httl & Hlease & Hfp) Hkey.
  destruct (Sweep_run batch w Ha) as (w1 & Hs & Hk1 & Ha1 & _). subst w'. rewrite Hs in *. simpl in *.
  assert (Hgone : idempotency_keys (w_db w1) !! (q, k) = None).
  { rewrite Hk1. apply eq_None_not_Some. intros [row [_ Hnot]%swept_lookup]. apply Hnot. simpl. unfold sweep_keys.
    apply list_elem_of_fmap in Hp as (kr & Hkr & Hin). apply list_elem_of_fmap. exists kr. by rewrite <- Hkr. }
  split; [done|]. unfold Acquire. rewrite Hcache, Hstore. simpl.
  destruct (Reserve_runs (with_lifetimes m r) w1 Ha1 Httl Hlease Hfp) as (w2 & Hr & _).
  change (key_of (with_lifetimes m r)) with (key_of r) in Hr. rewrite Hkey, Hgone in Hr. unfold mbind, M_bind. by rewrite Hr.
Qed.

(** Two principals hold the same key string: alice's record has expired, bob's
    completed one has an hour to live. *)
Definition shared_key_row (exp : Time) : idempotency_row :=
  mk_idempotency_row "0123456789abcdef0123456789abcdef" IStatusCompleted (Some 201) (Some "{}") None
    None None 0 exp 0.

Definition shared_key_world : World :=
  mkWorld (set_idempotency_keys
    {[("alice", "key-1") := shared_key_row 10; ("bob", "key-1") := shared_key_row (3600 * Second)]} empty_DB)
    [] [] 20 [] 20 0 [] [] [] [].

Lemma sweepOnce_drains_witness :
  idempotency_keys (w_db (sweepOnce pg_store 1 shared_key_world).2) ⊆ idempotency_keys (w_db shared_key_world).
Proof. apply (sweepOnce_drains 1 shared_key_world); [lia|by split|reflexivity]. Defined.

(** ** Witnesses *)

Definition demo_manager : Manager := NewManager pg_store None 0 0.

Definition demo_reservation : Reservation :=
  mkReservation "alice" "key-1" fingerprint32 "POST" "/v1/transactions" 0 0.

Lemma sweep_crosses_principals_witness :
  (Acquire demo_manager (mkReservation "bob" "key-1" fingerprint32 "POST" "/v1/transactions" 0 0)
    (Store_Sweep 1 shared_key_world).2).1 = Ok (None, Proceed).
Proof.
  apply (sweep_crosses_principals 1 "alice" "bob" "key-1" (shared_key_row (3600 * Second)) demo_manager
    (mkReservation "bob" "key-1" fingerprint32 "POST" "/v1/transactions" 0 0) shared_key_world).
  - by split.
  - done.
  - reflexivity.
  - vm_compute. left.
  - vm_compute. discriminate.
  - reflexivity.
  - reflexivity.
  - reflexivity.
  - split_and!; vm_compute; congruence.
  - reflexivity.
Defined.

(** The first acquisition, and a second one after its lease ran out. *)
Definition first_world : World := quiet_world demo_db 90.
Definition first_acquired : World := (Acquire demo_manager demo_reservation first_world).2.
Definition second_world : World :=
  mkWorld (w_db first_acquired) [] [] (w_now first_acquired + 60 * Second) [] (w_now first_acquired + 60 * Second) 0 [] [] [] [].
Definition second_acquired : World := (Acquire demo_manager demo_reservation second_world).2.

Lemma Acquire_decides_witness :
  acquire_post demo_manager demo_reservation first_world (Acquire demo_manager demo_reservation first_world).
Proof. exact (Acquire_decides demo_manager demo_reservation first_world NoopCache_ok (NoopCache_sound _)). Defined.

Lemma lease_is_exclusive_witness : ∃ row,
  idempotency_keys (w_db first_acquired) !! key_of demo_reservation = Some row ∧
  Z.min (w_now first_acquired + Rv_Lease (with_lifetimes demo_manager demo_reservation)) (ik_expires_at row)
    ≤ w_now second_acquired.
Proof.
  destruct (idempotency_keys (w_db first_acquired) !! key_of demo_reservation) as [row|] eqn:Hrow;
    [|vm_compute in Hrow; discriminate].
  exists row. split; [reflexivity|].
  apply (lease_is_exclusive demo_manager demo_manager demo_reservation demo_reservation
    first_world first_acquired second_world second_acquired row
    NoopCache_ok NoopCache_ok (NoopCache_sound _) (NoopCache_sound _) eq_refl).
  - vm_compute. reflexivity.
  - reflexivity.
  - exact Hrow.
  - vm_compute. reflexivity.
Defined.

Lemma retry_replays_response_witness : ∃ rec w2' txID,
  Acquire demo_manager demo_reservation keyed_again = (Ok (Some rec, Replay), w2') ∧
  Rec_TransactionID rec = Some txID ∧ is_Some (transactions (w_db keyed_again) !! txID).
Proof.
  destruct (idempotency_keys (w_db keyed_world) !! key_of demo_reservation) as [row|] eqn:Hrow;
    [|vm_compute in Hrow; discriminate].
  destruct (retry_replays_response demo_manager eq_refl eq_refl demo_repo keyed demo_idem demo_reservation
    keyed_world keyed_again row) as (rec & w2' & txID & Hacq & _ & Htx & Hin & _).
  - exact reserved_wf.
  - exact keyed_ok.
  - reflexivity.
  - intros rd h code body [= <-] [= <- <-]. split; [lia|reflexivity].
  - reflexivity.
  - exact Hrow.
  - vm_compute in Hrow. injection Hrow as <-. reflexivity.
  - intros Heq. apply (f_equal (λ d, length (journal_entries d))) in Heq. vm_compute in Heq. discriminate.
  - split_and!; vm_compute; congruence.
  - exact (quiet_world_db (w_db keyed_done) 300).
  - split; reflexivity.
  - vm_compute in Hrow. injection Hrow as <-. vm_compute. reflexivity.
  - exists rec, w2', txID. auto.
Defined.
