(* ===== verification/Gateway.v ===== *)
(** * The payment gateway client (internal/gateway/gateway.go, client.go)

    What the client makes of an HTTP exchange: a confirmed payment, a conclusive
    refusal, or "unknown".  The network and the decoding of the body are the
    exchange's outcome; everything the code decides from it is here. *)

From S2P Require Import Prelude Errors Types Schema.
Open Scope string_scope.
Open Scope Z_scope.

Definition gateway_StatusSucceeded := "SUCCEEDED".
Definition gateway_StatusFailed := "FAILED".

(** [CreatedAt] is the zero time when the wire value does not parse. *)
Record Payment := mkPayment {
  Pay_Key : string;
  Pay_Reference : string;
  Pay_Status : string;
  Pay_Reason : string;
  Pay_AmountMinor : Z;
  Pay_Currency : string;
  Pay_CreatedAt : Time }.

Record PaymentRequest := mkPaymentRequest {
  Preq_IdempotencyKey : string;
  Preq_AmountMinor : Z;
  Preq_Currency : string;
  Preq_Reference : string }.

(** A nil payment has not succeeded. *)
Definition Payment_Succeeded (p : option Payment) : bool :=
  match p with Some p => bool_decide (Pay_Status p = gateway_StatusSucceeded) | None => false end.

Definition Conclusive (err : option error) : bool :=
  match err with
  | None => true
  | Some e => errors_Is e ErrPaymentDeclined || errors_Is e ErrPaymentNotFound || errors_Is e ErrInvalidRequest
  end.

Definition IsUnknown (err : error) : bool := errors_Is err ErrGatewayUnavailable.

(** ** The exchange *)

Record paymentResponse := mk_paymentResponse {
  pr_Key : string;
  pr_Reference : string;
  pr_Status : string;
  pr_Reason : string;
  pr_AmountMinor : Z;
  pr_Currency : string;
  pr_CreatedAt : Time }.

(** What [http.Client.Do] returned: an error of the transport, or a status code
    and a body that decodes into a [paymentResponse] or does not. *)
Inductive transport_error := TransportDeadline | TransportCanceled | TransportOther (what : string).

Definition of_transport (e : transport_error) : error :=
  match e with
  | TransportDeadline => DeadlineExceeded
  | TransportCanceled => Canceled
  | TransportOther what => ErrOther what
  end.

Inductive exchange :=
| NoResponse (e : transport_error)
| Response (code : Z) (body : option paymentResponse).

(** The pair Go returns: a payment and an error, either of them possibly nil. *)
Definition answer : Type := option Payment * option error.

Definition decodePayment (body : option paymentResponse) (key : string) : answer :=
  match body with
  | None => (None, Some (Wrap2 ErrGatewayUnavailable (ErrOther "json")))
  | Some wire =>
      let payment := mkPayment (if bool_decide (pr_Key wire = "") then key else pr_Key wire)
        (pr_Reference wire) (pr_Status wire) (pr_Reason wire) (pr_AmountMinor wire)
        (pr_Currency wire) (pr_CreatedAt wire) in
      if bool_decide (Pay_Status payment = gateway_StatusSucceeded) then (Some payment, None)
      else if bool_decide (Pay_Status payment = gateway_StatusFailed) then (Some payment, Some ErrPaymentDeclined)
      else (None, Some ErrGatewayUnavailable)
  end.

Definition gateway_do (x : exchange) (key : string) : answer :=
  match x with
  | NoResponse e => (None, Some (Wrap2 ErrGatewayUnavailable (of_transport e)))
  | Response code body =>
      if (code =? 200) || (code =? 201) then decodePayment body key
      else if code =? 404 then (None, Some ErrPaymentNotFound)
      else if (code =? 400) || (code =? 422) then (None, Some ErrInvalidRequest)
      else (None, Some ErrGatewayUnavailable)
  end.

(** ** The interface the saga calls

    A client answers and leaves the database alone. *)
Record Client := mkClient_ {
  gw_Pay : PaymentRequest → World → answer * World;
  gw_Probe : string → World → answer * World }.

Record ClientOk (c : Client) : Prop := {
  Pay_db req w : w_db (gw_Pay c req w).2 = w_db w;
  Probe_db key w : w_db (gw_Probe c key w).2 = w_db w }.

(** The HTTP client over a network that decides each exchange. *)
Definition HTTPClient (net_pay : PaymentRequest → World → exchange) (net_probe : string → World → exchange) : Client :=
  mkClient_ (λ req w, (gateway_do (net_pay req w) (Preq_IdempotencyKey req), w))
    (λ key w, (gateway_do (net_probe key w) key, w)).

Lemma HTTPClient_ok np nq : ClientOk (HTTPClient np nq).
Proof. by split. Qed.

(** C16: the client's answer is three-valued and never guesses.  It confirms a
    payment only for a 200 or 201 whose body says SUCCEEDED; its answer is a
    conclusive refusal exactly for a 200 or 201 that says FAILED, a 404, a 400 or
    a 422; and everything else (a timeout, a dropped connection, an undecodable or
    unrecognised body, any other status code) is "unknown" and inconclusive. *)
Theorem gateway_three_valued x key payment err : gateway_do x key = (payment, err) →
  (err = None ↔ Payment_Succeeded payment = true) ∧
  (Payment_Succeeded payment = true ↔ ∃ code r, x = Response code (Some r) ∧ (code = 200 ∨ code = 201) ∧
     pr_Status r = gateway_StatusSucceeded) ∧
  (err ≠ None ∧ Conclusive err = true ↔ ∃ code body, x = Response code body ∧
     (code = 404 ∨ code = 400 ∨ code = 422 ∨
      (code = 200 ∨ code = 201) ∧ ∃ r, body = Some r ∧ pr_Status r = gateway_StatusFailed)) ∧
  (Conclusive err = false ↔ ∃ e, err = Some e ∧ IsUnknown e = true).
Proof.
  assert (Hdiff : gateway_StatusSucceeded ≠ gateway_StatusFailed) by done.
  destruct x as [e|code body]; simpl.
  - intros [= <- <-]. destruct e; simpl; naive_solver.
  - destruct (decide (code = 200 ∨ code = 201)) as [H2|H2].
    + assert ((code =? 200) || (code =? 201) = true) as -> by (destruct H2; subst; done).
      assert (code ≠ 404 ∧ code ≠ 400 ∧ code ≠ 422) as (? & ? & ?) by lia.
      destruct body as [r|]; simpl; [|intros [= <- <-]; simpl; naive_solver].
      case_bool_decide as Hs; [intros [= <- <-]; simpl; rewrite (bool_decide_eq_true_2 _ Hs); split_and!; [naive_solver|naive_solver| |naive_solver]|].
      { split; [by intros [? _]|]. intros (c & b & [= <- <-] & Hc).
        destruct Hc as [?|[?|[?|[_ (r' & [= <-] & ?)]]]]; congruence. }
      case_bool_decide as Hf; intros [= <- <-]; simpl; rewrite ?(bool_decide_eq_false_2 _ Hs); naive_solver.
    + assert ((code =? 200) || (code =? 201) = false) as -> by lia.
      destruct (Z.eqb_spec code 404) as [->|H404]; [intros [= <- <-]; simpl; naive_solver|].
      destruct (Z.eqb_spec code 400) as [->|H400]; [intros [= <- <-]; simpl; naive_solver|].
      destruct (Z.eqb_spec code 422) as [->|H422]; intros [= <- <-]; simpl; naive_solver.
Qed.

Lemma gateway_three_valued_witness :
  Conclusive (gateway_do (Response 503 None) "k").2 = false.
Proof. apply (gateway_three_valued (Response 503 None) "k" None (Some ErrGatewayUnavailable)); [reflexivity|eauto]. Defined.
