(* ===== verification/Payout.v ===== *)
(** * The payout saga (internal/saga/payout: payout.go, run.go, steps.go)

    The orchestrator's steps over the saga store, the ledger service and the
    gateway client.  Metrics and logging are left out, and so is the crash hook
    tests install.  An error's message is what [error_text] says it is; only
    [last_error] columns and events carry it. *)

From S2P Require Import Prelude Errors Money Json Types SagaTypes Events Schema Outbox PgIdem.
From S2P Require Import PgSaga Retry PgLedger Service Manager Gateway.
Open Scope string_scope.
Open Scope Z_scope.

Definition SagaType := "MARKETPLACE_PAYOUT".
Definition MetadataKeySagaID := "saga_id".
Definition MetadataKeyStep := "saga_step".

(** ** payout.go *)

Definition Payload_validate (p : Payload) : res unit :=
  _ ← guard_err (bool_decide (CustomerWalletID p ≠ uuid_Nil ∧ SuspenseID p ≠ uuid_Nil ∧
                              MerchantPayableID p ≠ uuid_Nil ∧ FeeRevenueID p ≠ uuid_Nil)) ErrInvalidEntry;
  _ ← guard_err (negb (Payload_AmountMinor p <=? 0)) ErrInvalidEntry;
  _ ← guard_err (negb (FeeMinor p <? 0)) ErrInvalidEntry;
  _ ← guard_err (negb (Payload_AmountMinor p <=? FeeMinor p)) ErrInvalidEntry;
  guard_err (bool_decide (Payload_Currency p ≠ "")) ErrInvalidCurrency.

Definition merchantMinor (p : Payload) : Z := wrap64 (Payload_AmountMinor p - FeeMinor p).

Record Config := mkConfig {
  Cfg_SagaType : string;
  Cfg_WorkerID : string;
  Cfg_ClaimInterval : Z;
  Cfg_ClaimBatch : Z;
  Cfg_Lease : Z;
  Cfg_StepTimeout : Z;
  Cfg_MaxStepAttempts : Z;
  Cfg_MaxCompensationAttempts : Z;
  Cfg_SweepInterval : Z;
  Cfg_MaxProbes : Z }.

Record Orchestrator := mkOrchestrator {
  o_repo : Repository;
  o_gateway : Client;
  o_cfg : Config }.

Definition payout_New (repo : Repository) (gw : Client) (cfg : Config) : Orchestrator :=
  mkOrchestrator repo gw (mkConfig
    (if bool_decide (Cfg_SagaType cfg = "") then SagaType else Cfg_SagaType cfg)
    (Cfg_WorkerID cfg)
    (if Cfg_ClaimInterval cfg <=? 0 then 250000000 else Cfg_ClaimInterval cfg)
    (if Cfg_ClaimBatch cfg <=? 0 then 50 else Cfg_ClaimBatch cfg)
    (Cfg_Lease cfg) (Cfg_StepTimeout cfg) (Cfg_MaxStepAttempts cfg) (Cfg_MaxCompensationAttempts cfg)
    (if Cfg_SweepInterval cfg <=? 0 then 10000000000 else Cfg_SweepInterval cfg)
    (if Cfg_MaxProbes cfg <=? 0 then 6 else Cfg_MaxProbes cfg)).

(** ** run.go: helpers *)

Definition terminalLedgerError (err : error) : bool :=
  existsb (errors_Is err)
    [ErrInsufficientFunds; ErrAccountNotPostable; ErrAccountNotFound; ErrCurrencyMismatch; ErrMixedCurrency;
     ErrInvalidCurrency; ErrScaleMismatch; ErrInvalidEntry; ErrTooFewEntries; ErrUnbalancedTransaction;
     ErrMoneyOverflow; ErrInvalidTransactionType; ErrDuplicateIdempotencyKey; ErrAlreadyReversed;
     ErrTransactionNotPosted].

Definition externalRef (p : Payload) : option string :=
  if bool_decide (Payload_ExternalRef p = "") then None else Some (Payload_ExternalRef p).

Definition truncate (s : string) (max : nat) : string :=
  if (String.length s <=? max)%nat then s else String.substring 0 max s +:+ "…".

(** [ledger.MustNewMoney]: a panic ends the goroutine where it is. *)
Definition must_money (amount : Z) (cur : string) : M Money :=
  match MustNewMoney amount cur with
  | Some m => mret m
  | None => fail (ErrOther "panic: MustNewMoney")
  end.

Section payout.
Context `{UL : UuidLib} `{ET : ErrorText}.

Definition gatewayKey (sagaID : UUID) : string := uuid_String sagaID +:+ ":GATEWAY".

Definition stepKey (sagaID : UUID) (step : Step) (direction : SagaDirection) : string :=
  uuid_String sagaID +:+ ":" +:+ step +:+ ":" +:+ direction.

Definition Start (o : Orchestrator) (p : Payload) (principalID : string) (idempotencyKey : option string)
    : M Instance_ :=
  _ ← lift (Payload_validate p);
  id ← uuid_NewV7;
  now ← clock_Now;
  saga_Create (mkInstance id (Cfg_SagaType (o_cfg o)) principalID StepReserve StatusPending (Some p) 0 ""
    idempotencyKey None None (now + Cfg_StepTimeout (o_cfg o)) time_zero time_zero).

Record commit := mk_commit {
  c_attemptID : UUID;
  c_number : Z;
  c_step : Step;
  c_direction : SagaDirection;
  c_transactionID : option UUID;
  c_from : SagaStatus;
  c_to : SagaStatus;
  c_nextStep : Step }.

Definition commitStep (o : Orchestrator) (in_ : Instance_) (c : commit) : M unit :=
  _ ← CommitSagaStep (mkStepCommit
        (mkAttempt (c_attemptID c) (Inst_ID in_) (c_step c) (c_number c) (c_direction c) StepSucceeded
           (c_transactionID c) "" "" time_zero None)
        (mkTransition (Inst_ID in_) (c_from c) (c_to c) (c_nextStep c) (Cfg_StepTimeout (o_cfg o)) 0 "" true));
  payload ← lift (json_Marshal (PStepCompleted (mkStepCompletedEvent (Inst_ID in_) (Inst_SagaType in_)
        (c_step c) (c_direction c) (c_number c) (c_to c) (c_transactionID c))));
  now ← clock_Now;
  AppendEvent (mkEvent AggregateSaga (uuid_String (Inst_ID in_)) EventTypeSagaStepCompleted saga_EventVersion
    now payload).

Definition nextAttempt (sagaID : UUID) (step : Step) (direction : SagaDirection) : M (UUID * Z) :=
  number ← saga_NextAttemptNumber sagaID step direction;
  id ← uuid_NewV7;
  mret (id, number).

Definition finish (attemptID : UUID) (status : StepStatus) (txID : option UUID) (failure : string) : M unit :=
  if bool_decide (attemptID = uuid_Nil) then mret tt
  else saga_FinishAttempt (mkFinishAttempt attemptID status txID (truncate failure 1000)).

Definition reserve_tx_of (attempts : list Attempt) : UUID :=
  default uuid_Nil (head (omap (λ a,
    if bool_decide (At_Step a = StepReserve ∧ At_Direction a = DirectionForward ∧ At_Status a = StepSucceeded)
    then At_TransactionID a else None) attempts)).

Definition reserveTransactionID (sagaID : UUID) : M UUID :=
  attempts ← saga_Attempts sagaID;
  mret (reserve_tx_of attempts).

Definition beginCompensation (o : Orchestrator) (in_ : Instance_) : M unit :=
  saga_Advance (mkTransition (Inst_ID in_) StatusGatewayFailed StatusCompensating StepReserve
    (Cfg_StepTimeout (o_cfg o)) 0 (Inst_LastError in_) true).

(** ** steps.go: failing and escalating *)

Record escalation := mk_escalation {
  e_from : SagaStatus;
  e_step : Step;
  e_reason : string;
  e_lastErr : string;
  e_attempts : Z }.

Definition escalate (o : Orchestrator) (in_ : Instance_) (e : escalation) : M unit :=
  payload ← lift (json_Marshal (PManualReview (mkManualReviewEvent (Inst_ID in_) (Inst_SagaType in_)
        (e_step e) (e_reason e) (truncate (e_lastErr e) 1000) (e_attempts e))));
  now ← clock_Now;
  saga_Escalate (mkTransition (Inst_ID in_) (e_from e) StatusNeedsManualReview (e_step e)
      (Cfg_StepTimeout (o_cfg o)) (e_attempts e) (truncate (e_lastErr e) 1000) true)
    (mkEvent AggregateSaga (uuid_String (Inst_ID in_)) EventTypeSagaNeedsManualReview saga_EventVersion now payload).

(** A failure to record the attempt is only logged. *)
Definition try_record (a : Attempt) : M unit := λ w, (Ok tt, (saga_RecordAttempt a w).2).

Definition failForwardStep (o : Orchestrator) (in_ : Instance_) (step : Step) (attemptID : UUID) (number : Z)
    (cause : error) : M unit :=
  _ ← try_record (mkAttempt attemptID (Inst_ID in_) step number DirectionForward StepFailed None ""
        (truncate (error_text cause) 1000) time_zero None);
  let attempts := Inst_RetryCount in_ + 1 in
  let terminal := terminalLedgerError cause || (Cfg_MaxStepAttempts (o_cfg o) <=? attempts) in
  let text := truncate (error_text cause) 1000 in
  if negb terminal then
    saga_Advance (mkTransition (Inst_ID in_) (Inst_Status in_) (Inst_Status in_) step
      (Cfg_StepTimeout (o_cfg o)) attempts text true)
  else if bool_decide (step = StepReserve) then
    saga_Advance (mkTransition (Inst_ID in_) (Inst_Status in_) StatusFailed StepDone
      (Cfg_StepTimeout (o_cfg o)) attempts text true)
  else
    saga_Advance (mkTransition (Inst_ID in_) (Inst_Status in_) StatusCompensating StepReserve
      (Cfg_StepTimeout (o_cfg o)) 0 text true).

Definition failCompensation (o : Orchestrator) (in_ : Instance_) (attemptID : UUID) (number : Z)
    (cause : error) : M unit :=
  _ ← try_record (mkAttempt attemptID (Inst_ID in_) StepReserve number DirectionCompensation StepFailed None ""
        (truncate (error_text cause) 1000) time_zero None);
  let attempts := Inst_RetryCount in_ + 1 in
  if Cfg_MaxCompensationAttempts (o_cfg o) <=? attempts then
    escalate o in_ (mk_escalation StatusCompensating StepReserve "compensation_exhausted" (error_text cause) attempts)
  else
    saga_Advance (mkTransition (Inst_ID in_) StatusCompensating StatusCompensating StepReserve
      (Cfg_StepTimeout (o_cfg o)) attempts (truncate (error_text cause) 1000) true).

Definition confirmCompensated (o : Orchestrator) (in_ : Instance_) (cause : error) : M unit :=
  current ← saga_Get (Inst_ID in_);
  if bool_decide (Inst_Status current = StatusCompensated) then mret tt
  else escalate o in_ (mk_escalation (Inst_Status current) StepReserve "reserve_reversed_outside_saga"
         (error_text cause) (Inst_RetryCount in_)).

(** ** steps.go: the steps *)

Definition saga_metadata (in_ : Instance_) (step : Step) : list (string * json) :=
  [(MetadataKeySagaID, JString (uuid_String (Inst_ID in_))); (MetadataKeyStep, JString step)].

(** The recorder of a step: adjust the hold, then commit the saga's side. *)
Definition step_recorder (o : Orchestrator) (in_ : Instance_) (p : Payload) (delta : Z)
    (c : UUID → commit) : Recorder := λ posted,
  _ ← ApplyPendingDelta (mkPendingDelta (SuspenseID p) delta);
  commitStep o in_ (c (Tx_ID posted)).

Definition reserve_commit (attemptID : UUID) (number : Z) (txID : UUID) : commit :=
  mk_commit attemptID number StepReserve DirectionForward (Some txID) StatusPending StatusReserved StepGateway.

Definition reserve_request (o : Orchestrator) (in_ : Instance_) (p : Payload) (amount : Money)
    (attemptID : UUID) (number : Z) : TransactionRequest :=
  mkTransactionRequest (Inst_PrincipalID in_) TransactionTypePayout (externalRef p)
    (saga_metadata in_ StepReserve)
    [mkEntryRequest (CustomerWalletID p) DirectionDebit amount; mkEntryRequest (SuspenseID p) DirectionCredit amount]
    (Some (stepKey (Inst_ID in_) StepReserve DirectionForward)) None
    (Some (step_recorder o in_ p (Payload_AmountMinor p) (reserve_commit attemptID number))).

(** Run a ledger call and hand its error, if any, to [handle]. *)
Definition or_else {A} (m : M A) (handle : error → M unit) : M unit := λ w,
  match m w with
  | (Ok _, w') => (Ok tt, w')
  | (Err e, w') => handle e w'
  end.

Definition reserve (o : Orchestrator) (in_ : Instance_) (p : Payload) : M unit :=
  an ← nextAttempt (Inst_ID in_) StepReserve DirectionForward;
  amount ← must_money (Payload_AmountMinor p) (Payload_Currency p);
  or_else (postTransaction (o_repo o) (reserve_request o in_ p amount an.1 an.2))
    (failForwardStep o in_ StepReserve an.1 an.2).

Definition settle_commit (attemptID : UUID) (number : Z) (txID : UUID) : commit :=
  mk_commit attemptID number StepSettle DirectionForward (Some txID) StatusGatewaySucceeded StatusCompleted StepDone.

Definition settle_request (o : Orchestrator) (in_ : Instance_) (p : Payload) (entries : list EntryRequest)
    (attemptID : UUID) (number : Z) : TransactionRequest :=
  mkTransactionRequest (Inst_PrincipalID in_) TransactionTypePayout (externalRef p)
    (saga_metadata in_ StepSettle) entries
    (Some (stepKey (Inst_ID in_) StepSettle DirectionForward)) None
    (Some (step_recorder o in_ p (wrap64 (- Payload_AmountMinor p)) (settle_commit attemptID number))).

Definition settle (o : Orchestrator) (in_ : Instance_) (p : Payload) : M unit :=
  an ← nextAttempt (Inst_ID in_) StepSettle DirectionForward;
  total ← must_money (Payload_AmountMinor p) (Payload_Currency p);
  merchant ← must_money (merchantMinor p) (Payload_Currency p);
  fee ← (if 0 <? FeeMinor p
         then m ← must_money (FeeMinor p) (Payload_Currency p);
              mret [mkEntryRequest (FeeRevenueID p) DirectionCredit m]
         else mret []);
  let entries := mkEntryRequest (SuspenseID p) DirectionDebit total ::
                 mkEntryRequest (MerchantPayableID p) DirectionCredit merchant :: fee in
  or_else (postTransaction (o_repo o) (settle_request o in_ p entries an.1 an.2))
    (failForwardStep o in_ StepSettle an.1 an.2).

Definition compensate_commit (attemptID : UUID) (number : Z) (txID : UUID) : commit :=
  mk_commit attemptID number StepReserve DirectionCompensation (Some txID) StatusCompensating StatusCompensated StepDone.

Definition compensate_reason (in_ : Instance_) : string :=
  "saga " +:+ uuid_String (Inst_ID in_) +:+ " compensating: " +:+ truncate (Inst_LastError in_) 200.

Definition compensate (o : Orchestrator) (in_ : Instance_) (p : Payload) : M unit :=
  reserveTxID ← reserveTransactionID (Inst_ID in_);
  if bool_decide (reserveTxID = uuid_Nil) then
    saga_Advance (mkTransition (Inst_ID in_) StatusCompensating StatusCompensated StepDone
      (Cfg_StepTimeout (o_cfg o)) 0 "" true)
  else
    an ← nextAttempt (Inst_ID in_) StepReserve DirectionCompensation;
    or_else (ReverseTransactionRecorded (o_repo o) reserveTxID (compensate_reason in_)
        (Some (step_recorder o in_ p (wrap64 (- Payload_AmountMinor p)) (compensate_commit an.1 an.2))))
      (λ err, if errors_Is err ErrAlreadyReversed || errors_Is err ErrStaleTransition
              then confirmCompensated o in_ err
              else failCompensation o in_ an.1 an.2 err).

(** ** steps.go: the gateway *)

Definition deferAmbiguity (o : Orchestrator) (in_ : Instance_) (callErr : option error) : M unit :=
  let attempts := Inst_RetryCount in_ + 1 in
  let detail := match callErr with Some e => error_text e | None => "gateway did not respond" end in
  if Cfg_MaxProbes (o_cfg o) <=? attempts then
    escalate o in_ (mk_escalation StatusGatewayPending StepGateway "gateway_outcome_unknown" detail attempts)
  else
    saga_Advance (mkTransition (Inst_ID in_) StatusGatewayPending StatusGatewayPending StepGateway
      (Cfg_StepTimeout (o_cfg o)) attempts detail true).

(** In the second case the code dereferences a nil error when the call returned
    no error and no successful payment: a panic. *)
Definition settleGatewayOutcome (o : Orchestrator) (in_ : Instance_) (attemptID : UUID) (a : answer) : M unit :=
  if bool_decide (a.2 = None) && Payment_Succeeded a.1 then
    _ ← finish attemptID StepSucceeded None "";
    saga_Advance (mkTransition (Inst_ID in_) StatusGatewayPending StatusGatewaySucceeded StepSettle
      (Cfg_StepTimeout (o_cfg o)) 0 "" true)
  else if Conclusive a.2 then
    match a.2 with
    | None => fail (ErrOther "panic: nil error")
    | Some callErr =>
        _ ← finish attemptID StepFailed None (error_text callErr);
        saga_Advance (mkTransition (Inst_ID in_) StatusGatewayPending StatusGatewayFailed StepGateway
          (Cfg_StepTimeout (o_cfg o)) 0 (error_text callErr) true)
    end
  else deferAmbiguity o in_ a.2.

Definition call {A} (f : World → A * World) : M A := λ w, let '(a, w') := f w in (Ok a, w').

Definition callGateway (o : Orchestrator) (in_ : Instance_) (p : Payload) : M unit :=
  an ← nextAttempt (Inst_ID in_) StepGateway DirectionForward;
  let key := gatewayKey (Inst_ID in_) in
  _ ← saga_BeginStep (mkStartAttempt an.1 (Inst_ID in_) StepGateway an.2 DirectionForward key)
        (mkTransition (Inst_ID in_) StatusReserved StatusGatewayPending StepGateway
           (Cfg_StepTimeout (o_cfg o)) (Inst_RetryCount in_) "" false);
  a ← call (gw_Pay (o_gateway o) (mkPaymentRequest key (Payload_AmountMinor p) (Payload_Currency p) (Payload_ExternalRef p)));
  settleGatewayOutcome o in_ an.1 a.

Definition resolveGateway (o : Orchestrator) (in_ : Instance_) : M unit :=
  unresolved ← saga_UnresolvedAttempt (Inst_ID in_) StepGateway;
  let attemptID := match unresolved with Some a => At_ID a | None => uuid_Nil end in
  a ← call (gw_Probe (o_gateway o) (gatewayKey (Inst_ID in_)));
  settleGatewayOutcome o in_ attemptID a.

(** ** run.go: driving *)

(** One step of one claimed saga; its error is only logged. *)
Definition driveOne (o : Orchestrator) (in_ : Instance_) : M unit :=
  if negb (bool_decide (Inst_SagaType in_ = Cfg_SagaType (o_cfg o))) then mret tt
  else
    match Inst_Payload in_ with
    | None => mret tt
    | Some p =>
        if bool_decide (Inst_Status in_ = StatusPending) then reserve o in_ p
        else if bool_decide (Inst_Status in_ = StatusReserved) then callGateway o in_ p
        else if bool_decide (Inst_Status in_ = StatusGatewayPending) then resolveGateway o in_
        else if bool_decide (Inst_Status in_ = StatusGatewaySucceeded) then settle o in_ p
        else if bool_decide (Inst_Status in_ = StatusGatewayFailed) then beginCompensation o in_
        else if bool_decide (Inst_Status in_ = StatusCompensating) then compensate o in_ p
        else mret tt
    end.

Definition claimFunc : Type := string → string → Z → nat → M (list Instance_).

(** One round of [drain]: claim a batch and drive each saga of it one step; [true]
    says the batch was full and another round follows.  The goroutines of a batch
    work on different sagas; here they run one after the other. *)
Definition drain_round (o : Orchestrator) (claim : claimFunc) : M bool :=
  claimed ← claim (Cfg_SagaType (o_cfg o)) (Cfg_WorkerID (o_cfg o)) (Cfg_Lease (o_cfg o))
              (Z.to_nat (Cfg_ClaimBatch (o_cfg o)));
  _ ← mapM_ (λ i w, (Ok tt, (driveOne o i w).2)) claimed;
  mret (negb (length claimed =? 0)%nat && negb (Z.of_nat (length claimed) <? Cfg_ClaimBatch (o_cfg o))).

(** Up to [rounds] rounds; the process may be told to stop between any two.  A
    failed claim ends the drain and is only logged. *)
Fixpoint drain (rounds : nat) (o : Orchestrator) (claim : claimFunc) : M unit := λ w,
  match rounds with
  | O => (Ok tt, w)
  | S n =>
      match drain_round o claim w with
      | (Ok true, w') => drain n o claim w'
      | (_, w') => (Ok tt, w')
      end
  end.

(** [DriveOnce] and [SweepOnce]; the gauges the sweep refreshes only read. *)
Definition DriveOnce (rounds : nat) (o : Orchestrator) : M unit := drain rounds o saga_ClaimRunnable.
Definition SweepOnce (rounds : nat) (o : Orchestrator) : M unit := drain rounds o saga_ClaimExpired.
End payout.
