(* ===== verification/LockOrder.v ===== *)
(** * Lock ordering

    The order in which a posting and a reversal ask for their locks: what the
    closures [post_body] and [reverse_body] hand to [InTx] ask for, statement by
    statement, when they run; that every such run follows one global order; and that
    clients which do so cannot deadlock.

    A lock is what a statement waits for: a row it locks or updates, an advisory lock,
    or an entry of a unique index another transaction has inserted and not yet
    committed.  Left out are the indexes over identifiers drawn fresh by the
    transaction itself, and the KEY SHARE locks of foreign keys, which fall on rows the
    transaction has inserted, on account rows (locked FOR NO KEY UPDATE, with which they
    do not conflict) and on the saga row (updated without touching its key). *)

From S2P Require Import Prelude Errors Money Json Types SagaTypes Events Schema Outbox PgIdem.
From S2P Require Import PgSaga Retry PgLedger Service PgLedgerSpec ServiceSpec Posting Uuid Demo Payout.
Open Scope string_scope.
Open Scope Z_scope.

(** ** The two orderings agree *)

Definition increasing : list UUID → Prop := StronglySorted N.lt.

Lemma ltb_asymm a b : String.ltb a b = true → String.ltb b a = false.
Proof. unfold String.ltb. rewrite (String.compare_antisym b a). by destruct (String.compare a b). Qed.

Section order.
Context `{UL : UuidLib} `{!UuidLaws}.

Lemma uuid_text_le_total : Total (bool_rel uuid_text_le).
Proof.
  intros a b. unfold bool_rel, uuid_text_le. destruct (String.ltb (uuid_String b) (uuid_String a)) eqn:Hlt; [|by left].
  right. by rewrite (ltb_asymm _ _ Hlt).
Qed.

Lemma Sorted_increasing (R : relation UUID) l : (∀ a b, a ∈ l → b ∈ l → R a b → (a ≤ b)%N) →
  NoDup l → Sorted R l → increasing l.
Proof.
  intros HR Hnd Hs. apply Sorted_StronglySorted; [intros a b c; apply N.lt_trans|].
  induction Hs as [|a l Hs IH Hhd]; constructor.
  - apply list.NoDup_cons in Hnd as [_ Hnd]. apply IH; [|done]. intros; apply HR; set_solver.
  - destruct Hhd as [|b l Hab]; constructor. apply list.NoDup_cons in Hnd as [Ha _].
    assert ((a ≤ b)%N) by (apply HR; set_solver). assert (a ≠ b) by set_solver. lia.
Qed.

Lemma sortedAccountIDs_increasing reqs : (∀ e, e ∈ reqs → uuid_valid (Er_AccountID e)) →
  increasing (sortedAccountIDs reqs).
Proof.
  intros Hv. apply (Sorted_increasing (bool_rel uuid_text_le)).
  - intros a b Ha Hb. unfold bool_rel, uuid_text_le. rewrite negb_true_iff.
    assert (Hval : ∀ x, x ∈ sortedAccountIDs reqs → uuid_valid x).
    { intros x Hx%sortedAccountIDs_elem. apply list_elem_of_fmap in Hx as (e & -> & He). auto. }
    rewrite uuid_String_order by auto. rewrite N.ltb_ge. done.
  - apply sortedAccountIDs_NoDup.
  - apply sort_by_Sorted, uuid_text_le_total.
Qed.

Lemma increasing_le l : increasing l → StronglySorted N.le l.
Proof.
  induction 1 as [|a l _ IH Hall]; constructor; [done|]. eapply list.Forall_impl; [exact Hall|].
  intros b Hb. simpl in Hb. lia.
Qed.

Lemma increasing_unique l1 l2 : increasing l1 → increasing l2 → l1 ≡ₚ l2 → l1 = l2.
Proof. intros H1 H2 Hp. apply (StronglySorted_unique N.le); auto using increasing_le. Qed.
End order.

(** The ids of the rows the locking query returns, in the order it locks them. *)
Lemma locked_rows_NoDup ids d : NoDup (La_ID <$> locked_rows ids d).
Proof.
  unfold locked_rows. rewrite (sort_by_perm _ _).
  pose proof (NoDup_fst_map_to_list (accounts d)) as Hnd.
  induction (map_to_list (accounts d)) as [|[id a] l IH]; simpl; [constructor|].
  simpl in Hnd. apply list.NoDup_cons in Hnd as [Hid Hnd].
  case_bool_decide; simpl; [|by apply IH].
  destruct (account_balances d !! id) as [b|]; simpl; [|by apply IH]. constructor; [|by apply IH].
  rewrite list_elem_of_fmap. intros (la & Hla & Hin). apply list_elem_of_omap in Hin as ([id' a'] & Hin & Hf).
  simpl in *. case_bool_decide; [|done]. apply fmap_Some in Hf as (b' & _ & ->). simpl in Hla. subst id'.
  apply Hid. apply list_elem_of_fmap. by exists (id, a').
Qed.

Lemma locked_rows_increasing ids d : increasing (La_ID <$> locked_rows ids d).
Proof.
  apply (Sorted_increasing N.le); [done|apply locked_rows_NoDup|].
  unfold locked_rows. set (l := omap _ _).
  assert (Hs : Sorted (bool_rel (λ x y, (La_ID x <=? La_ID y)%N)) (sort_by (λ x y, (La_ID x <=? La_ID y)%N) l)).
  { apply sort_by_Sorted. intros x y. unfold bool_rel. rewrite !N.leb_le. lia. }
  induction Hs as [|x k Hs IH Hhd]; simpl; constructor; [done|].
  destruct Hhd; simpl; constructor. by apply N.leb_le.
Qed.

(** The Go side and the SQL side order locks the same way.  When every
    account of a transaction exists, [LockAccounts] locks exactly the accounts
    [sortedAccountIDs] computed, in exactly that order, and the order is strictly
    increasing in the database's own [uuid] order, whatever order the client
    listed the legs in and however often an account is repeated. *)
Theorem lock_order_agrees `{UL : UuidLib} `{!UuidLaws} reqs d :
  (∀ e, e ∈ reqs → uuid_valid (Er_AccountID e)) →
  (∀ e, e ∈ reqs → is_Some (accounts d !! Er_AccountID e) ∧ is_Some (account_balances d !! Er_AccountID e)) →
  La_ID <$> locked_rows (sortedAccountIDs reqs) d = sortedAccountIDs reqs ∧
  increasing (sortedAccountIDs reqs).
Proof.
  intros Hv Hex. pose proof (sortedAccountIDs_increasing reqs Hv) as Hinc. split; [|done].
  apply increasing_unique; [apply locked_rows_increasing|done|].
  apply NoDup_Permutation; [apply locked_rows_NoDup|apply sortedAccountIDs_NoDup|].
  intros id. rewrite list_elem_of_fmap. split.
  - intros (la & -> & Hla). apply locked_rows_elem in Hla as (id & a & b & Hid & _ & _ & ->). done.
  - intros Hid. pose proof Hid as Hid'. apply sortedAccountIDs_elem, list_elem_of_fmap in Hid' as (e & -> & He).
    destruct (Hex e He) as [[a Ha] [b Hb]]. exists (locked_of (Er_AccountID e) a b). split; [done|].
    apply locked_rows_elem. eauto 10.
Qed.

Lemma lock_order_agrees_witness :
  La_ID <$> locked_rows (sortedAccountIDs
    [mkEntryRequest 30 "DEBIT" (mkMoney 1 "INR"); mkEntryRequest 10 "CREDIT" (mkMoney 1 "INR");
     mkEntryRequest 30 "DEBIT" (mkMoney 1 "INR")])
    (let a := mk_account_row "" "ASSET" "DEBIT" "INR" None true "ACTIVE" 1 0 0 None None 1 in
     let b := mk_balance_row 0 0 true None 0 0 in
     set_accounts {[10%N := a; 30%N := a]} (set_account_balances {[10%N := b; 30%N := b]} empty_DB))
  = [10; 30]%N.
Proof.
  refine (eq_trans (proj1 (lock_order_agrees _ _ _ _)) _).
  - intros e He. repeat (apply elem_of_cons in He as [->|He]; [done|]). by apply not_elem_of_nil in He.
  - intros e He. repeat (apply elem_of_cons in He as [->|He]; [vm_compute; eauto|]). by apply not_elem_of_nil in He.
  - vm_compute. reflexivity.
Defined.

(** ** The global order *)

(** Kinds in this order, and accounts by id: the two rows of an account together.  The
    last four are asked for once at most by a transaction. *)
Definition lock_rank (l : lock) : N * N :=
  match l with
  | TransactionRow id => (0, id)
  | AdvisoryLock id => (1, id)
  | AccountRow id => (2, 2 * id)
  | BalanceRow id => (2, 2 * id + 1)
  | TransactionKey _ _ => (3, 0)
  | StepKey _ _ _ _ => (4, 0)
  | SagaRow _ => (5, 0)
  | KeyRow _ _ => (6, 0)
  end%N.

Definition lock_kind (l : lock) : N := (lock_rank l).1.

Definition lock_lt (a b : lock) : Prop :=
  (lock_kind a < lock_kind b ∨ lock_kind a = lock_kind b ∧ (lock_rank a).2 < (lock_rank b).2)%N.

#[export] Instance lock_lt_dec a b : Decision (lock_lt a b).
Proof. unfold lock_lt. apply _. Defined.

(** Holding [h], the requests [ls] come one after the other: each is for a lock
    already held, or for one above all of those. *)
Fixpoint follows_order (h ls : list lock) : Prop :=
  match ls with
  | [] => True
  | l :: ls => (l ∈ h ∨ ∀ x, x ∈ h → lock_lt x l) ∧ follows_order (h ++ [l])%list ls
  end.

(** Every lock of the list is of kind [k] or a lower one. *)
Definition upto (k : N) (ls : list lock) : Prop := ∀ l, l ∈ ls → (lock_kind l ≤ k)%N.

Lemma follows_order_app l1 : ∀ h l2, follows_order h l1 → follows_order (h ++ l1)%list l2 → follows_order h (l1 ++ l2)%list.
Proof.
  induction l1 as [|l l1 IH]; intros h l2 H1 H2; simpl in *; [by rewrite app_nil_r in H2|].
  destruct H1 as [Hl H1]. split; [done|]. apply IH; [done|]. by rewrite <- app_assoc.
Qed.

Lemma follows_order_above ls : ∀ h, StronglySorted lock_lt ls → (∀ x y, x ∈ h → y ∈ ls → lock_lt x y) → follows_order h ls.
Proof.
  induction ls as [|l ls IH]; intros h Hs Hh; simpl; [done|]. inversion Hs as [|? ? Hs' Hall]; subst.
  rewrite list.Forall_forall in Hall. split; [right; set_solver|]. apply IH; [done|].
  intros x y [Hx| ->%list_elem_of_singleton]%elem_of_app Hy; [apply Hh; set_solver|by apply Hall].
Qed.

Lemma upto_app k l1 l2 : upto k l1 → upto k l2 → upto k (l1 ++ l2)%list.
Proof. intros H1 H2 l [?|?]%elem_of_app; auto. Qed.
Lemma upto_le k k' ls : (k ≤ k')%N → upto k ls → upto k' ls.
Proof. intros Hk H l Hl. apply H in Hl. lia. Qed.
Lemma upto_nil k : upto k [].
Proof. by intros l ?%not_elem_of_nil. Qed.
Lemma upto_one k l : (lock_kind l ≤ k)%N → upto k [l].
Proof. by intros Hk l' ->%list_elem_of_singleton. Qed.
Lemma upto_above k h l x : upto k h → (k < lock_kind l)%N → x ∈ h → lock_lt x l.
Proof. intros Hh Hl Hx%Hh. left. lia. Qed.
Create HintDb locks.
#[local] Hint Resolve upto_app upto_nil upto_one upto_above : locks.
#[local] Hint Extern 1 (lock_kind _ ≤ _)%N => (unfold lock_kind; simpl; lia) : locks.

(** ** What a run asks for *)

(** The requests of one run, from nothing held. *)
Definition tx_locks {A} (m : M A) (w : World) : list lock := w_locks (m (set_locks [] w)).2.

(** Run in [w] with [h] held, [m] asks in order, and when it succeeds its result and its
    requests satisfy [Q]. *)
Definition asks {A} (w : World) (h : list lock) (m : M A) (Q : A → list lock → Prop) : Prop :=
  ∃ ls, w_locks (m w).2 = (w_locks w ++ ls)%list ∧ follows_order h ls ∧ ∀ a, (m w).1 = Ok a → Q a ls.

Definition lockless {A} (m : M A) : Prop := ∀ w, w_locks (m w).2 = w_locks w.

Lemma asks_bind {A B} w h (m : M A) (f : A → M B) P Q : asks w h m P →
  (∀ a ls w', m w = (Ok a, w') → P a ls → asks w' (h ++ ls)%list (f a) (λ b ls', Q b (ls ++ ls')%list)) →
  asks w h (m ≫= f) Q.
Proof.
  intros (ls & Hls & Ho & Hp) Hf. unfold asks, mbind, M_bind in *.
  destruct (m w) as [[a|e] w'] eqn:Hm; simpl in *; [|by exists ls].
  destruct (Hf a ls w' eq_refl (Hp a eq_refl)) as (ls' & Hls' & Ho' & Hq). exists (ls ++ ls')%list.
  split_and!; [by rewrite Hls', Hls, app_assoc|by apply follows_order_app|done].
Qed.

Lemma asks_mono {A} w h (m : M A) (P Q : A → list lock → Prop) : (∀ a ls, P a ls → Q a ls) → asks w h m P → asks w h m Q.
Proof. intros HPQ (ls & Hls & Ho & Hp). exists ls. eauto. Qed.

Lemma asks_lockless {A} w h (m : M A) : lockless m → asks w h m (λ _ ls, ls = []).
Proof. intros Hm. exists []. rewrite app_nil_r. done. Qed.

Lemma asks_take w h ls : follows_order h ls → asks w h (take_locks ls) (λ _ ls', ls' = ls).
Proof. intros Ho. by exists ls. Qed.

Lemma asks_map_err {A} w h f (m : M A) Q : asks w h m Q → asks w h (map_err f m) Q.
Proof.
  intros (ls & Hls & Ho & Hq). exists ls. unfold map_err. destruct (m w) as [[a|e] w']; simpl in *; by split_and!.
Qed.

(** A step that asks for nothing. *)
Lemma asks_skip {A B} w h (m : M A) (f : A → M B) Q : lockless m →
  (∀ a w', m w = (Ok a, w') → asks w' h (f a) Q) → asks w h (m ≫= f) Q.
Proof.
  intros Hm Hf. eapply asks_bind; [by apply asks_lockless|]. intros a ls w' Hrun ->. rewrite app_nil_r. by apply Hf.
Qed.

Lemma asks_done {A} w h (m : M A) Q : lockless m → (∀ a, Q a []) → asks w h m Q.
Proof. intros Hm HQ. eapply asks_mono; [|by apply asks_lockless]. by intros a ls ->. Qed.

Lemma asks_ret {A} w h (a : A) Q : Q a [] → asks w h (mret a) Q.
Proof. intros HQ. exists []. rewrite app_nil_r. split_and!; [done..|]. by intros b [= <-]. Qed.

(** The request of a lock that is held already, or that is above everything held. *)
Lemma asks_held {B} w h l (f : unit → M B) Q : l ∈ h →
  (∀ w', asks w' (h ++ [l])%list (f tt) (λ b ls, Q b (l :: ls))) → asks w h (take_locks [l] ≫= f) Q.
Proof.
  intros Hl Hf. eapply asks_bind; [apply asks_take; simpl; auto|]. intros [] ls w' _ ->. apply Hf.
Qed.

Lemma asks_next {B} w h k l (f : unit → M B) Q : upto k h → (k < lock_kind l)%N →
  (∀ w', asks w' (h ++ [l])%list (f tt) (λ b ls, Q b (l :: ls))) → asks w h (take_locks [l] ≫= f) Q.
Proof.
  intros Hh Hl Hf. eapply asks_bind; [apply asks_take; simpl; eauto with locks|]. intros [] ls w' _ ->. apply Hf.
Qed.

(** ** Steps that take no lock *)

Create HintDb lockless.

Lemma lockless_bind {A B} (m : M A) (f : A → M B) : lockless m → (∀ a, lockless (f a)) → lockless (m ≫= f).
Proof. intros Hm Hf w. unfold mbind, M_bind. specialize (Hm w). destruct (m w) as [[a|e] w']; simpl in *; [|done]. by rewrite Hf. Qed.
Lemma lockless_map_err {A} f (m : M A) : lockless m → lockless (map_err f m).
Proof. intros Hm w. specialize (Hm w). unfold map_err. by destruct (m w) as [[a|e] w']. Qed.
Lemma lockless_id {A} (m : M A) : (∀ w, (m w).2 = w) → lockless m.
Proof. intros Hm w. by rewrite Hm. Qed.
Lemma lockless_sql_exec : lockless sql_exec.
Proof. intros w. unfold sql_exec. by repeat case_match. Qed.
Lemma lockless_uuid_NewV7 : lockless uuid_NewV7.
Proof. intros w. unfold uuid_NewV7. by repeat case_match. Qed.
Lemma lockless_rand_IntN n : lockless (rand_IntN n).
Proof. intros w. unfold rand_IntN. by repeat case_match. Qed.
Lemma lockless_guard_M b e : lockless (guard_M b e).
Proof. by destruct b. Qed.
Lemma lockless_mapM_ {A B} (f : A → M B) l : (∀ x, lockless (f x)) → lockless (mapM_ f l).
Proof. intros Hf. induction l; simpl; [done|]. apply lockless_bind; [done|intros ?]. by apply lockless_bind. Qed.
Lemma lockless_foldlM {A B} (f : B → A → M B) l : (∀ b x, lockless (f b x)) → ∀ b, lockless (foldlM f b l).
Proof. intros Hf. induction l; simpl; intros b; [done|]. by apply lockless_bind. Qed.
#[export] Hint Resolve lockless_bind lockless_map_err lockless_sql_exec lockless_uuid_NewV7 lockless_rand_IntN
  lockless_guard_M lockless_mapM_ lockless_foldlM : lockless.
#[export] Hint Extern 1 (lockless _) => (apply lockless_id; reflexivity) : lockless.
#[export] Hint Extern 1 (lockless (modify _)) => (intros ?; reflexivity) : lockless.
#[export] Hint Extern 1 (lockless outbox_nextval) => (intros ?; reflexivity) : lockless.

Ltac lockless := repeat first [progress intros | case_match | solve [eauto with lockless] | apply lockless_bind].

Lemma lockless_AppendEvent e : lockless (AppendEvent e).
Proof. unfold AppendEvent, outbox_Append. lockless. Qed.
Lemma lockless_InsertEntries entries : lockless (InsertEntries entries).
Proof. unfold InsertEntries. lockless. apply lockless_map_err. lockless. Qed.
#[export] Hint Resolve lockless_AppendEvent lockless_InsertEntries : lockless.

Section service_locks.
Context `{UL : UuidLib} `{!UuidLaws}.

Lemma lockless_routeToShards entries : lockless (routeToShards entries).
Proof. unfold routeToShards, ResolveShards, choose_shard. lockless. Qed.
Lemma lockless_buildEntries_from txID reqs : ∀ i, lockless (buildEntries_from i txID reqs).
Proof. induction reqs; intros i; simpl; lockless. Qed.
Lemma lockless_appendTransactionEvent ty h bs rev reason : lockless (appendTransactionEvent ty h bs rev reason).
Proof. unfold appendTransactionEvent, appendBalanceUpdatedEvents, appendBalanceUpdatedEvent. lockless. Qed.
Hint Resolve lockless_routeToShards lockless_buildEntries_from lockless_appendTransactionEvent : lockless.

(** ** The locks of the accounts *)

Lemma takeAdvisoryLocks_asks adv ids : increasing ids → ∀ w h, (∀ x id, x ∈ h → id ∈ ids → lock_lt x (AdvisoryLock id)) →
  asks w h (takeAdvisoryLocks adv ids) (λ _ ls, upto 1 ls).
Proof.
  intros Hinc w h Hh. unfold takeAdvisoryLocks. case_match; [apply asks_done; [lockless|auto with locks]|].
  apply asks_bind with (P := λ _ ls, upto 1 ls).
  2: { intros u ls w' _ Hls. apply asks_done; [lockless|]. by rewrite app_nil_r. }
  clear -Hinc Hh. revert w h Hh. induction Hinc as [|id ids Hinc IH Hall]; intros w h Hh; simpl.
  { apply asks_done; [lockless|auto with locks]. }
  eapply asks_bind with (P := λ _ ls, ls = [AdvisoryLock id]).
  { apply asks_skip; [lockless|]. intros _ w' _. apply asks_take. simpl. split; [|done]. right. intros x Hx. apply Hh; set_solver. }
  intros ? ? w' _ ->. eapply asks_bind; [apply IH|].
  - intros x id' [Hx| ->%list_elem_of_singleton]%elem_of_app Hid; [apply Hh; set_solver|].
    rewrite list.Forall_forall in Hall. right. split; [done|]. simpl. by apply Hall.
  - intros ys ls w'' _ Hls. apply asks_done; [lockless|]. intros _. rewrite app_nil_r. apply upto_app; [|done].
    apply upto_one. unfold lock_kind. simpl. lia.
Qed.

Lemma row_locks_elem l locked : l ∈ row_locks locked → ∃ a, a ∈ locked ∧ (l = AccountRow (La_ID a) ∨ l = BalanceRow (La_ID a)).
Proof.
  unfold row_locks. intros (xs & Hl & (a & -> & Ha)%list_elem_of_fmap)%list_elem_of_join. exists a. set_solver.
Qed.

Lemma row_locks_sorted locked : increasing (La_ID <$> locked) → StronglySorted lock_lt (row_locks locked).
Proof.
  unfold row_locks. induction locked as [|a locked IH]; simpl; intros Hinc; [constructor|].
  inversion Hinc as [|? ? Hinc' Hall]; subst. rewrite list.Forall_fmap, list.Forall_forall in Hall.
  assert (Hlt : ∀ l, l ∈ mjoin ((λ b, [AccountRow (La_ID b); BalanceRow (La_ID b)]) <$> locked) →
    lock_lt (AccountRow (La_ID a)) l ∧ lock_lt (BalanceRow (La_ID a)) l).
  { intros l (b & Hb & Hl)%row_locks_elem. apply Hall in Hb. simpl in Hb.
    destruct Hl as [-> | ->]; split; right; unfold lock_kind; simpl; lia. }
  apply SSorted_cons; [apply SSorted_cons; [exact (IH Hinc')|]|apply list.Forall_cons; split].
  - apply list.Forall_forall. intros l Hl. by apply Hlt.
  - right. unfold lock_kind; simpl; lia.
  - apply list.Forall_forall. intros l Hl. by apply Hlt.
Qed.

Lemma row_locks_kind locked l : l ∈ row_locks locked → lock_kind l = 2%N.
Proof. by intros (a & _ & [-> | ->])%row_locks_elem. Qed.

Lemma LockAccounts_asks adv ids w h : increasing ids → upto 0 h →
  asks w h (LockAccounts adv ids) (λ locked ls, upto 2 ls ∧ ∀ a, a ∈ locked → BalanceRow (La_ID a) ∈ ls).
Proof.
  intros Hinc Hh. apply asks_map_err. eapply asks_bind.
  { apply takeAdvisoryLocks_asks; [done|]. intros x id Hx _. apply (upto_above 0 h); [done| |done]. unfold lock_kind; simpl; lia. }
  intros u ls w' _ Hls. apply asks_skip; [lockless|]. intros _ w1 _. apply asks_skip; [lockless|]. intros locked w2 [= <- <-].
  eapply asks_bind.
  { apply asks_take, follows_order_above; [apply row_locks_sorted, locked_rows_increasing|].
    intros x y Hx Hy%row_locks_kind. apply (upto_above 1 (h ++ ls)%list); [|lia|done].
    apply upto_app; [|done]. by apply (upto_le 0). }
  intros u' ls' w2 _ ->. apply asks_ret. rewrite app_nil_r. split.
  - apply upto_app; [by apply (upto_le 1)|]. intros l ->%row_locks_kind. done.
  - intros a Ha. apply elem_of_app. right. unfold row_locks. apply list_elem_of_join.
    exists [AccountRow (La_ID a); BalanceRow (La_ID a)]. split; [set_solver|]. apply list_elem_of_fmap. by exists a.
Qed.

(** Success means that both rows of every account are locked. *)
Lemma lockAndValidate_asks adv ids reqs w h : increasing ids → upto 0 h →
  asks w h (lockAndValidate adv ids reqs) (λ _ ls, upto 2 ls ∧ ∀ id, id ∈ ids → BalanceRow id ∈ ls).
Proof.
  intros Hinc Hh. eapply asks_bind; [by apply LockAccounts_asks|]. intros locked ls w' _ [Hls Hrows].
  apply asks_skip; [lockless|]. intros [] w1 [Hpost _]%lift_ok. apply asks_skip; [lockless|]. intros _ w2 _.
  apply asks_done; [lockless|]. intros _. rewrite app_nil_r. split; [done|]. intros id Hid.
  pose proof (foldM_check_ok _ _ _ Hpost id Hid) as Hc. unfold check_postable in Hc. case_match eqn:Hl; [|done].
  apply (foldl_insert_Some La_ID) in Hl as [[Hin <-]|Hl]; [by apply Hrows|]. by rewrite lookup_empty in Hl.
Qed.

Lemma ApplyBalanceDelta_asks d w h : BalanceRow (Bd_AccountID d) ∈ h →
  asks w h (ApplyBalanceDelta d) (λ _ ls, upto 2 ls).
Proof.
  intros Hh. apply asks_map_err. do 4 (apply asks_skip; [lockless|]; intros ? ? _).
  do 2 (case_match; [|apply asks_done; [lockless|auto with locks]]). case_match; [|apply asks_done; [lockless|auto with locks]].
  apply asks_held; [done|]. intros w4. apply asks_done; [lockless|]. intros _. apply upto_one. unfold lock_kind; simpl; lia.
Qed.

Lemma applyEntries_asks entries accounts order w h : (∀ id, id ∈ order → BalanceRow id ∈ h) →
  asks w h (applyEntries entries accounts order) (λ _ ls, upto 2 ls).
Proof.
  intros Hh. unfold applyEntries. apply asks_skip; [lockless|]. intros agg w0 _. revert h w0 Hh.
  induction order as [|id order IH]; intros h w0 Hh; simpl; [apply asks_done; [lockless|auto with locks]|].
  apply asks_bind with (P := λ _ ls, upto 2 ls).
  { unfold apply_one. case_match. do 2 (apply asks_skip; [lockless|]; intros _ ? _).
    eapply asks_bind; [apply ApplyBalanceDelta_asks; simpl; set_solver|]. intros bal ls w4 _ Hls.
    apply asks_done; [lockless|]. intros _. by rewrite app_nil_r. }
  intros y ls w' _ Hls. eapply asks_bind; [apply IH; set_solver|]. intros ys ls' w'' _ Hls'.
  apply asks_done; [lockless|]. intros _. rewrite app_nil_r. by apply upto_app.
Qed.

Lemma InsertTransaction_asks t w h : upto 2 h → asks w h (InsertTransaction t) (λ _ ls, upto 3 ls).
Proof.
  intros Hh. apply asks_map_err. do 8 (apply asks_skip; [lockless|]; intros ? ? _).
  eapply asks_bind with (P := λ _ ls, upto 3 ls).
  { eapply asks_mono; [|apply asks_take].
    - intros _ ls ->. case_match; auto with locks.
    - case_match; simpl; [|done]. split; [|done]. right. intros x Hx. eapply upto_above; [done| |done].
      unfold lock_kind; simpl; lia. }
  intros u ls w9 _ Hls. apply asks_done; [lockless|]. intros _. by rewrite app_nil_r.
Qed.

(** ** The two transactions *)

Lemma write_transaction_asks adv txID header reqs w h :
  (∀ e, e ∈ reqs → uuid_valid (Er_AccountID e)) → upto 0 h →
  asks w h (write_transaction adv txID header reqs)
    (λ _ ls, upto 3 ls ∧ ∀ e, e ∈ reqs → BalanceRow (Er_AccountID e) ∈ ls).
Proof.
  intros Hv Hh. unfold write_transaction.
  eapply asks_bind; [apply lockAndValidate_asks; [by apply sortedAccountIDs_increasing|done]|].
  intros accts ls w1 _ [Hls Hrows]. eapply asks_bind; [apply InsertTransaction_asks|].
  { apply upto_app; [by apply (upto_le 0)|done]. }
  intros t ls1 w2 _ Hls1. do 2 (apply asks_skip; [unfold buildEntries; lockless|]; intros ? ? _).
  eapply asks_bind; [apply applyEntries_asks|].
  { intros id Hid%Hrows. set_solver. }
  intros bs ls2 w3 _ Hls2. apply asks_done; [lockless|]. intros _. rewrite app_nil_r. split.
  - repeat apply upto_app; [by apply (upto_le 2)|done|by apply (upto_le 2)].
  - intros e He. apply elem_of_app. left. apply Hrows, sortedAccountIDs_elem, list_elem_of_fmap. eauto.
Qed.

Lemma LoadTransactionForUpdate_asks id w :
  asks w [] (LoadTransactionForUpdate id) (λ _ ls, ls = [TransactionRow id]).
Proof.
  apply asks_map_err. unfold scan_transaction. do 2 (apply asks_skip; [lockless|]; intros ? ? _).
  case_match; [|exists []; rewrite app_nil_r; by split_and!].
  apply asks_bind with (P := λ _ ls, ls = [TransactionRow id]).
  { apply asks_take. simpl. split; [|done]. right. by intros x ?%not_elem_of_nil. }
  intros u ls w2 _ ->. apply asks_done; [lockless|done].
Qed.

Lemma MarkReversed_asks id w h : TransactionRow id ∈ h → asks w h (MarkReversed id) (λ _ ls, upto 3 ls).
Proof.
  intros Hh. apply asks_map_err. do 2 (apply asks_skip; [lockless|]; intros ? ? _).
  case_match; [|apply asks_done; [lockless|auto with locks]]. case_match; [|apply asks_done; [lockless|auto with locks]].
  apply asks_held; [done|]. intros w2. apply asks_done; [lockless|]. auto with locks.
Qed.

Lemma ApplyPendingDelta_asks d w h : BalanceRow (Pd_AccountID d) ∈ h → asks w h (ApplyPendingDelta d) (λ _ ls, upto 3 ls).
Proof.
  intros Hh. apply asks_map_err. do 3 (apply asks_skip; [lockless|]; intros ? ? _).
  case_match; [|apply asks_done; [lockless|auto with locks]].
  apply asks_held; [done|]. intros w2. apply asks_done; [lockless|]. auto with locks.
Qed.

Lemma insert_step_asks r w h : upto 3 h → asks w h (insert_step r) (λ _ ls, upto 4 ls).
Proof.
  intros Hh. do 3 (apply asks_skip; [lockless|]; intros ? ? _).
  apply (asks_next _ _ 3); [done|unfold lock_kind; simpl; lia|]. intros w2. apply asks_done; [lockless|]. auto with locks.
Qed.

Lemma advance_asks t w h : upto 4 h → asks w h (advance t) (λ _ ls, upto 5 ls).
Proof.
  intros Hh. do 3 (apply asks_skip; [lockless|]; intros ? ? _).
  case_match; [|apply asks_done; [lockless|auto with locks]]. case_match; [|apply asks_done; [lockless|auto with locks]].
  apply (asks_next _ _ 4); [done|unfold lock_kind; simpl; lia|]. intros w2. apply asks_done; [lockless|]. auto with locks.
Qed.

(** What the recorder of a payout step asks for, when the suspense account is among
    the accounts already locked. *)
Lemma step_recorder_asks o i p delta c t w h : BalanceRow (SuspenseID p) ∈ h → upto 3 h →
  asks w h (step_recorder o i p delta c t) (λ _ ls, upto 5 ls).
Proof.
  intros Hs Hh. unfold step_recorder, commitStep, CommitSagaStep, pgsaga_CommitStep.
  eapply asks_bind; [by apply ApplyPendingDelta_asks|]. intros u ls w1 _ Hls.
  eapply asks_bind with (P := λ _ ls, upto 5 ls).
  - apply asks_skip; [lockless|]. intros now w2 _. eapply asks_bind; [apply insert_step_asks; by apply upto_app|].
    intros u1 ls1 w3 _ Hls1. eapply asks_mono; [|apply advance_asks].
    + intros u2 ls2 Hls2. apply upto_app; [by apply (upto_le 4)|done].
    + apply upto_app; [|done]. apply (upto_le 3); [lia|]. by apply upto_app.
  - intros u1 ls1 w2 _ Hls1. apply asks_done; [lockless|]. intros _. rewrite app_nil_r.
    apply upto_app; [by apply (upto_le 3)|done].
Qed.

(** The recorders in use: none, or that of a payout step, which adjusts the hold on
    one account. *)
Definition adjusts (record : option Recorder) (hold : option UUID) : Prop :=
  match hold with
  | None => record = None
  | Some id => ∃ o i p delta c, id = SuspenseID p ∧ record = Some (step_recorder o i p delta c)
  end.

Lemma runRecorder_asks record hold t w h : adjusts record hold → (∀ id, hold = Some id → BalanceRow id ∈ h) → upto 3 h →
  asks w h (runRecorder record t) (λ _ ls, upto 5 ls).
Proof.
  destruct hold as [id|]; simpl.
  - intros (o & i & p & delta & c & -> & ->) Hb Hh. apply step_recorder_asks; auto.
  - intros -> _ _. apply asks_done; [lockless|auto with locks].
Qed.

Lemma completeIdempotency_asks idem t w h : upto 5 h → asks w h (completeIdempotency idem t) (λ _ ls, upto 6 ls).
Proof.
  intros Hh. unfold completeIdempotency. repeat case_match; try solve [apply asks_done; [lockless|by auto with locks]].
  apply asks_skip; [lockless|]. intros [code body] w1 _. unfold CompleteIdempotency, pgidem_Complete.
  do 2 (apply asks_skip; [lockless|]; intros ? ? _). repeat case_match; try solve [apply asks_done; [lockless|by auto with locks]].
  apply (asks_next _ _ 5); [done|unfold lock_kind; simpl; lia|]. intros w4. apply asks_done; [lockless|]. auto with locks.
Qed.
End service_locks.

(** The account ids the database holds are 128-bit ones, as a uuid column's are. *)
Definition valid_ids (d : DB) : Prop :=
  map_Forall (λ id _, uuid_valid id) (accounts d) ∧ Forall (λ r, uuid_valid (je_account_id r)) (journal_entries d).

#[export] Instance uuid_valid_dec u : Decision (uuid_valid u).
Proof. unfold uuid_valid. apply _. Defined.
#[export] Instance valid_ids_dec d : Decision (valid_ids d).
Proof. unfold valid_ids. apply _. Defined.

Section write_locks.
Context `{UL : UuidLib} `{!UuidLaws}.

(** What a posting needs: its accounts are 128-bit ids, and the account whose hold its
    recorder adjusts is one it posts to, not split into shards. *)
Definition posts_orderly (d : DB) (req : TransactionRequest) : Prop :=
  valid_ids d ∧ (∀ e, e ∈ Rq_Entries req → uuid_valid (Er_AccountID e)) ∧
  ∃ hold, adjusts (Rq_Record req) hold ∧
    ∀ id, hold = Some id → id ∈ Er_AccountID <$> Rq_Entries req ∧ ∀ shard, ¬ shard_of d id shard.

(** What a reversal needs: the account whose hold its recorder adjusts is one the
    original posted to. *)
Definition reverses_orderly (d : DB) (txID : UUID) (record : option Recorder) : Prop :=
  valid_ids d ∧ ∃ hold, adjusts record hold ∧
    ∀ id, hold = Some id → id ∈ je_account_id <$> entries_of txID (journal_entries d).

(** The postings of a payout are of this shape. *)
Lemma payout_posts_orderly d o i p amount att n : valid_ids d → (∀ shard, ¬ shard_of d (SuspenseID p) shard) →
  uuid_valid (SuspenseID p) → uuid_valid (CustomerWalletID p) →
  posts_orderly d (reserve_request o i p amount att n) ∧
  ∀ entries, (∀ e, e ∈ entries → uuid_valid (Er_AccountID e)) → SuspenseID p ∈ Er_AccountID <$> entries →
    posts_orderly d (settle_request o i p entries att n).
Proof.
  intros Hd Hs Hv Hw. split; [|intros entries He Hin]; (split; [done|split; [|exists (Some (SuspenseID p)); split; [simpl; eauto 10|]]]).
  - intros e. simpl. intros [->|[->|?%not_elem_of_nil]%elem_of_cons]%elem_of_cons; done.
  - intros id [= <-]. split; [simpl; set_solver|done].
  - done.
  - intros id [= <-]. split; done.
Qed.

Lemma post_body_asks adv txID req w : posts_orderly (w_db w) req →
  asks w [] (post_body adv txID req) (λ _ _, True).
Proof.
  intros ([Hacc _] & Hv & hold & Hadj & Hhold). apply asks_skip; [auto with lockless|]; [apply lockless_routeToShards|].
  intros reqs w1 [_ Hr]%routeToShards_ok. rewrite Forall2_lookup in Hr.
  assert (Hback : ∀ e', e' ∈ reqs → ∃ e, e ∈ Rq_Entries req ∧ routed (w_db w) e' e).
  { intros e' [i Hi]%list_elem_of_lookup. specialize (Hr i). rewrite Hi in Hr. inversion Hr as [? e ? Hi' Heq|]; subst.
    exists e. split; [by eapply list_elem_of_lookup_2|done]. }
  eapply asks_bind; [apply write_transaction_asks; [|apply upto_nil]|].
  { intros e' (e & He & _ & _ & [Heq|(a & Ha & _)])%Hback; [rewrite Heq; auto|by apply (Hacc _ a)]. }
  intros [header bs] ls w2 _ [Hls Hrows]. apply asks_skip; [apply lockless_appendTransactionEvent|]. intros _ w3 _.
  eapply asks_bind; [eapply runRecorder_asks; [done| |done]|].
  { intros id (Hin & Hsh)%Hhold. simpl. apply list_elem_of_fmap in Hin as (e & -> & [i Hi]%list_elem_of_lookup).
    specialize (Hr i). rewrite Hi in Hr. inversion Hr as [e' ? (_ & _ & Hacct) Hi' Heq|]; subst.
    destruct Hacct as [Heq'|Hs]; [|by edestruct Hsh]. rewrite <- Heq'. apply Hrows. by eapply list_elem_of_lookup_2. }
  intros u ls1 w4 _ Hls1. eapply asks_bind; [apply completeIdempotency_asks|].
  { simpl. apply upto_app; [by apply (upto_le 3)|done]. }
  intros u1 ls2 w5 _ _. by apply asks_ret.
Qed.

Lemma reverse_body_asks adv rid txID reason idem record w : reverses_orderly (w_db w) txID record →
  asks w [] (reverse_body adv rid txID reason idem record) (λ _ _, True).
Proof.
  intros ([_ Hje] & hold & Hadj & Hhold). eapply asks_bind; [apply LoadTransactionForUpdate_asks|].
  intros original ls w1 Hload ->. apply map_err_ok, scan_transaction_ok in Hload as (t & _ & _ & _ & _ & Hents).
  assert (Hents' : Entry_AccountID <$> Tx_Entries original = je_account_id <$> entries_of txID (journal_entries (w_db w))).
  { rewrite Hents, <- list_fmap_compose. done. }
  do 2 (apply asks_skip; [unfold guard_M; lockless|]; intros ? ? _).
  eapply asks_bind; [apply write_transaction_asks|].
  { intros e (je & -> & Hin)%list_elem_of_fmap. simpl. rewrite Hents in Hin.
    apply list_elem_of_fmap in Hin as (r & -> & Hin). rewrite list.Forall_forall in Hje. apply Hje. unfold entries_of in Hin.
    rewrite sort_by_elem in Hin. by apply list_elem_of_filter in Hin as [_ ?]. }
  { simpl. auto with locks. }
  intros [header bs] ls w4 _ [Hls Hrows]. eapply asks_bind; [apply MarkReversed_asks; set_solver|].
  intros u ls1 w5 _ Hls1. apply asks_skip; [apply lockless_appendTransactionEvent|]. intros _ w6 _.
  assert (Hh : upto 3 (([] ++ [TransactionRow txID]) ++ ls ++ ls1)%list) by auto 10 with locks.
  rewrite app_assoc in Hh. eapply asks_bind; [eapply runRecorder_asks; [done| |done]|].
  { intros id Hin%Hhold. rewrite <- Hents' in Hin. apply list_elem_of_fmap in Hin as (je & -> & Hin).
    assert (BalanceRow (Entry_AccountID je) ∈ ls); [|set_solver]. apply (Hrows (mirror je)), list_elem_of_fmap. eauto. }
  intros u1 ls2 w7 _ Hls2. eapply asks_bind; [apply completeIdempotency_asks; apply upto_app; [by apply (upto_le 3)|done]|].
  intros u2 ls3 w8 _ _. by apply asks_ret.
Qed.

(** The requests of some posting or reversal: what the closure handed to [InTx] asks
    for when it runs, on whatever database and with whatever faults. *)
Inductive asked : list lock → Prop :=
| asked_post adv txID req w : posts_orderly (w_db w) req → asked (tx_locks (post_body adv txID req) w)
| asked_reverse adv rid txID reason idem record w : reverses_orderly (w_db w) txID record →
    asked (tx_locks (reverse_body adv rid txID reason idem record) w).

Lemma asked_follows_order ls : asked ls → follows_order [] ls.
Proof.
  assert (Hrun : ∀ A (m : M A) w Q, asks (set_locks [] w) [] m Q → follows_order [] (tx_locks m w)).
  { intros A m w Q (ls' & Hls & Ho & _). unfold tx_locks. by rewrite Hls. }
  intros [adv txID req w Hp|adv rid txID reason idem record w Hp].
  - eapply Hrun, post_body_asks, Hp.
  - eapply Hrun, reverse_body_asks, Hp.
Qed.
End write_locks.

(** ** Clients acquiring their locks *)

Record client := mkClient { held : list lock; todo : list lock }.

Section deadlock.
Context `{UL : UuidLib} `{!UuidLaws}.
(** PostgreSQL's [hashtext], from which an advisory lock gets its key. *)
Variable hashtext : string → Z.

(** Two requests are for one lock of the server: the same row or index entry, or two
    advisory locks with one key. *)
Definition same_lock (a b : lock) : Prop :=
  match a, b with
  | AdvisoryLock x, AdvisoryLock y => hashtext (uuid_String x) = hashtext (uuid_String y)
  | _, _ => a = b
  end.

(** A client starts with the requests its transaction is going to make; its next one is
    granted when it holds that lock already or no other client does; and it ends (COMMIT,
    ROLLBACK or an expired lock timeout) at any time, releasing everything. *)
Inductive lock_step : gmap nat client → gmap nat client → Prop :=
| ls_start s c ls : s !! c = None → asked ls → lock_step s (<[c := mkClient [] ls]> s)
| ls_acquire s c h l rest : s !! c = Some (mkClient h (l :: rest)) →
    (∃ l', l' ∈ h ∧ same_lock l l') ∨ (∀ c' k l', c' ≠ c → s !! c' = Some k → l' ∈ held k → ¬ same_lock l l') →
    lock_step s (<[c := mkClient (h ++ [l])%list rest]> s)
| ls_end s c k : s !! c = Some k → lock_step s (delete c s).

(** Every client of [cs] waits for a lock another client of [cs] holds. *)
Definition deadlocked (s : gmap nat client) (cs : gset nat) : Prop :=
  cs ≠ ∅ ∧ ∀ c, c ∈ cs → ∃ h l rest, s !! c = Some (mkClient h (l :: rest)) ∧
    (∀ l', l' ∈ h → ¬ same_lock l l') ∧
    ∃ c' k' l', c' ∈ cs ∧ s !! c' = Some k' ∧ l' ∈ held k' ∧ same_lock l l'.

(** No account of [s] that has an advisory lock held shares its key with a different
    account that is being asked for. *)
Definition keys_apart (s : gmap nat client) : Prop :=
  ∀ c h x rest c' k y, s !! c = Some (mkClient h (AdvisoryLock x :: rest)) → s !! c' = Some k →
    AdvisoryLock y ∈ held k → hashtext (uuid_String x) = hashtext (uuid_String y) → x = y.

Lemma lock_state_follows_order s : rtc lock_step ∅ s → map_Forall (λ _ k, follows_order (held k) (todo k)) s.
Proof.
  intros Hr. remember ∅ as s0 eqn:H0. assert (Hs0 : map_Forall (λ _ k, follows_order (held k) (todo k)) s0)
    by (subst; apply map_Forall_empty). clear H0.
  induction Hr as [|s0 s1 s2 Hstep _ IH]; [done|]. apply IH. clear IH.
  destruct Hstep as [s c ls Hc Hls|s c h l rest Hc _|s c k Hc].
  - apply map_Forall_insert_2; [by apply asked_follows_order|done].
  - apply map_Forall_insert_2; [|done]. by apply (Hs0 c) in Hc as [_ Hc].
  - by apply map_Forall_delete.
Qed.

Lemma max_wanted (f : nat → option lock) (cs : list nat) : cs ≠ [] →
  (∀ c, c ∈ cs → is_Some (f c)) →
  ∃ c l, c ∈ cs ∧ f c = Some l ∧ ∀ c' l', c' ∈ cs → f c' = Some l' → ¬ lock_lt l l'.
Proof.
  induction cs as [|c cs IH]; intros Hne Hf; [done|].
  destruct (Hf c) as [l Hl]; [set_solver|].
  destruct (decide (cs = [])) as [->|Hcs].
  { exists c, l. split_and!; [set_solver|done|]. intros c' l' ->%list_elem_of_singleton. rewrite Hl.
    intros [= <-]. unfold lock_lt. lia. }
  destruct IH as (m & lm & Hm & Hlm & Hmax); [done|intros; apply Hf; set_solver|].
  destruct (decide (lock_lt lm l)) as [Hlt|Hge].
  - exists c, l. split_and!; [set_solver|done|]. intros c' l' [->|Hc']%elem_of_cons Hl' Hlt'.
    + rewrite Hl in Hl'. injection Hl' as <-. unfold lock_lt in Hlt'. lia.
    + apply (Hmax c' l' Hc' Hl'). unfold lock_lt in *. lia.
  - exists m, lm. split_and!; [set_solver|done|]. intros c' l' [->|Hc']%elem_of_cons Hl' Hlt'; [|by eapply Hmax].
    rewrite Hl in Hl'. injection Hl' as <-. by apply Hge.
Qed.

Lemma keys_apart_same s c h l rest c' k l' : keys_apart s → s !! c = Some (mkClient h (l :: rest)) →
  s !! c' = Some k → l' ∈ held k → same_lock l l' → l = l'.
Proof. intros Ha Hc Hk Hl' Hsame. destruct l, l'; simpl in Hsame; try done. f_equal. by eapply Ha. Qed.

(** C31: concurrent postings and reversals never deadlock.  Clients run the closures that
    [postTransaction] and [doReverse] hand to [InTx], advisory locks on or off, and ask for
    locks in the order these runs ask for them: the header of the transaction to reverse,
    the advisory locks and the rows of the accounts by id, the posting's idempotency key, and
    what the recorder of a payout step and the completion update.  In no reachable state is
    there a set of clients each of which waits for a lock another of them holds, as long as
    no two accounts being locked share the hash that is their advisory key.  A payout's
    suspense account must not be split into shards: the recorder updates the parent's row. *)
Theorem ordered_locking_never_deadlocks s cs : rtc lock_step ∅ s → keys_apart s → ¬ deadlocked s cs.
Proof.
  intros Hr%lock_state_follows_order Hapart [Hne Hwait].
  set (want := λ c, k ← s !! c; head (todo k)).
  destruct (max_wanted want (elements cs)) as (c & l & Hc & Hl & Hmax).
  { intros Hel. apply Hne. apply elements_empty_iff in Hel. by apply leibniz_equiv. }
  { intros c (h & l & rest & Hk & _)%elem_of_elements%Hwait. exists l. unfold want. by rewrite Hk. }
  apply elem_of_elements in Hc. destruct (Hwait c Hc) as (h & l0 & rest & Hk & _ & c' & k' & lh & Hc' & Hk' & Hheld & Hsame).
  unfold want in Hl. rewrite Hk in Hl. simpl in Hl. injection Hl as ->.
  apply (keys_apart_same s c h l rest c' k') in Hsame as ->; [|done..].
  destruct (Hwait c' Hc') as (h' & l' & rest' & Hk2 & Hfree & _). simplify_eq.
  apply (Hmax c' l'); [by apply elem_of_elements|unfold want; by rewrite Hk'|].
  apply (Hr c') in Hk' as [[Hin|Hlt] _]; [|by apply Hlt]. simpl in Hin. apply Hfree in Hin.
  destruct Hin. by destruct l'.
Qed.
End deadlock.

(** ** Two clients at work *)

(** A transfer from the wallet to the merchant, and the reversal of the wallet's
    funding, with advisory locks. *)
Definition transfer_locks : list lock :=
  tx_locks (post_body true 900%N (transfer wallet_id merchant_id 5)) (quiet_world funded_db 200).
Definition reversal_locks : list lock :=
  tx_locks (reverse_body true 901%N funding_id "duplicate" None None) (quiet_world funded_db 300).

Example locks_asked_for :
  transfer_locks = [AdvisoryLock wallet_id; AdvisoryLock merchant_id; AccountRow wallet_id; BalanceRow wallet_id;
    AccountRow merchant_id; BalanceRow merchant_id; BalanceRow wallet_id; BalanceRow merchant_id] ∧
  reversal_locks = [TransactionRow funding_id; AdvisoryLock float_id; AdvisoryLock wallet_id; AccountRow float_id;
    BalanceRow float_id; AccountRow wallet_id; BalanceRow wallet_id; BalanceRow float_id; BalanceRow wallet_id;
    TransactionRow funding_id].
Proof. vm_compute. split; reflexivity. Qed.

Lemma funded_ids : valid_ids funded_db.
Proof. apply (bool_decide_unpack _). vm_compute. exact I. Qed.

Lemma transfer_asked : asked transfer_locks.
Proof.
  apply asked_post. rewrite quiet_world_db. split; [apply funded_ids|]. split.
  - intros e He. repeat (apply elem_of_cons in He as [->|He]; [done|]). by apply not_elem_of_nil in He.
  - exists None. split; done.
Qed.

Lemma reversal_asked : asked reversal_locks.
Proof.
  apply asked_reverse. rewrite quiet_world_db. split; [apply funded_ids|]. exists None. split; done.
Qed.

(** Clients that started, the first having acquired [n] and the second [m] of the
    locks they ask for. *)
Definition two_clients (a b : list lock) (n m : nat) : gmap nat client :=
  {[ 0%nat := mkClient (take n a) (drop n a); 1%nat := mkClient (take m b) (drop m b) ]}.

Lemma two_clients_start hash a b : asked a → asked b → rtc (lock_step hash) ∅ (two_clients a b 0 0).
Proof.
  intros Ha Hb. eapply rtc_l; [apply (ls_start _ _ 1); [done|exact Hb]|].
  eapply rtc_l; [apply (ls_start _ _ 0); [done|exact Ha]|]. apply rtc_refl.
Qed.

Lemma two_clients_acquire hash a b n m l : (drop n a) !! 0%nat = Some l →
  Forall (λ l', ¬ same_lock hash l l') (take m b) →
  lock_step hash (two_clients a b n m) (two_clients a b (S n) m).
Proof.
  intros Hl Hfree. destruct (drop n a) as [|l0 rest] eqn:Hd; [done|]. injection Hl as ->.
  assert (Hla : a !! n = Some l) by (by rewrite <- (Nat.add_0_r n), <- lookup_drop, Hd).
  assert (two_clients a b (S n) m = <[0%nat := mkClient (take n a ++ [l])%list rest]> (two_clients a b n m)) as ->.
  { unfold two_clients. rewrite insert_insert_eq. f_equal. rewrite <- (take_S_r _ _ _ Hla). f_equal.
    change (S n) with (1 + n)%nat. rewrite Nat.add_comm, <- drop_drop, Hd. done. }
  apply ls_acquire; [unfold two_clients; by rewrite lookup_insert_eq, Hd|]. right.
  intros c' k l' Hne. unfold two_clients. rewrite lookup_insert_ne by done.
  intros [<- <-]%lookup_singleton_Some Hl'. rewrite list.Forall_forall in Hfree. by apply Hfree.
Qed.

Lemma two_clients_acquire' hash a b n m l : (drop m b) !! 0%nat = Some l →
  Forall (λ l', ¬ same_lock hash l l') (take n a) →
  lock_step hash (two_clients a b n m) (two_clients a b n (S m)).
Proof.
  intros Hl Hfree. destruct (drop m b) as [|l0 rest] eqn:Hd; [done|]. injection Hl as ->.
  assert (Hlb : b !! m = Some l) by (by rewrite <- (Nat.add_0_r m), <- lookup_drop, Hd).
  assert (two_clients a b n (S m) = <[1%nat := mkClient (take m b ++ [l])%list rest]> (two_clients a b n m)) as ->.
  { unfold two_clients. rewrite insert_insert_ne, insert_singleton_eq by done. do 2 f_equal.
    rewrite <- (take_S_r _ _ _ Hlb). f_equal.
    change (S m) with (1 + m)%nat. rewrite Nat.add_comm, <- drop_drop, Hd. done. }
  apply ls_acquire; [unfold two_clients; by rewrite lookup_insert_ne, lookup_singleton_eq, Hd by done|]. right.
  intros c' k l' Hne. unfold two_clients.
  intros [[<- <-]|[_ [? _]%lookup_singleton_Some]]%lookup_insert_Some Hl'; [|done].
  rewrite list.Forall_forall in Hfree. by apply Hfree.
Qed.

(** A hash that tells the three accounts apart, and one under which the float and the
    merchant collide. *)
Definition apart_hash (text : string) : Z :=
  if bool_decide (text = uuid_String float_id) then 10 else if bool_decide (text = uuid_String wallet_id) then 20 else 30.
Definition colliding_hash (text : string) : Z := if bool_decide (text = uuid_String wallet_id) then 20 else 30.

Lemma transfer_against_reversal hash :
  hash (uuid_String wallet_id) ≠ hash (uuid_String float_id) →
  rtc (lock_step hash) ∅ (two_clients transfer_locks reversal_locks 1 2).
Proof.
  intros Hne. etrans; [apply two_clients_start; [apply transfer_asked|apply reversal_asked]|].
  rewrite (proj1 locks_asked_for), (proj2 locks_asked_for).
  eapply rtc_l; [eapply two_clients_acquire; [reflexivity|constructor]|].
  eapply rtc_l; [eapply two_clients_acquire'; [reflexivity|repeat constructor; done]|].
  eapply rtc_l; [eapply two_clients_acquire'; [reflexivity|repeat constructor; simpl; congruence]|]. apply rtc_refl.
Qed.

(** The reversal waits for the wallet, which the transfer holds. *)
Lemma ordered_locking_never_deadlocks_witness :
  two_clients transfer_locks reversal_locks 1 2 !! 1%nat =
    Some (mkClient [TransactionRow funding_id; AdvisoryLock float_id] (AdvisoryLock wallet_id :: drop 3 reversal_locks)) ∧
  two_clients transfer_locks reversal_locks 1 2 !! 0%nat =
    Some (mkClient [AdvisoryLock wallet_id] (drop 1 transfer_locks)) ∧
  ¬ deadlocked apart_hash (two_clients transfer_locks reversal_locks 1 2) {[0%nat; 1%nat]}.
Proof.
  split_and!; [rewrite (proj2 locks_asked_for); reflexivity|rewrite (proj1 locks_asked_for); reflexivity|].
  apply ordered_locking_never_deadlocks; [apply transfer_against_reversal; by vm_compute|].
  rewrite (proj1 locks_asked_for), (proj2 locks_asked_for).
  intros c h x rest c' k y Hc Hk Hy Heq. unfold two_clients in Hc, Hk.
  apply lookup_insert_Some in Hc as [[<- Hc]|[_ [<- Hc]%lookup_singleton_Some]]; injection Hc as <- <- _;
    apply lookup_insert_Some in Hk as [[<- <-]|[_ [<- <-]%lookup_singleton_Some]]; simpl in Hy;
    repeat (apply elem_of_cons in Hy as [Hy|Hy]; [try discriminate Hy; injection Hy as ->; first [done|by vm_compute in Heq]|]);
    by apply not_elem_of_nil in Hy.
Defined.

(** Without the condition on the keys there is a deadlock: the reversal holds the
    float's lock and waits for the wallet's, the transfer holds the wallet's and waits for
    the merchant's, which under this hash is the float's. *)
Example colliding_keys_deadlock :
  rtc (lock_step colliding_hash) ∅ (two_clients transfer_locks reversal_locks 1 2) ∧
  deadlocked colliding_hash (two_clients transfer_locks reversal_locks 1 2) {[0%nat; 1%nat]}.
Proof.
  split; [apply transfer_against_reversal; by vm_compute|]. rewrite (proj1 locks_asked_for), (proj2 locks_asked_for).
  split; [set_solver|]. intros c [->%elem_of_singleton| ->%elem_of_singleton]%elem_of_union.
  - eexists _, _, _. split; [reflexivity|]. split.
    + intros l' Hl'. simpl in Hl'. apply list_elem_of_singleton in Hl' as ->. by vm_compute.
    + eexists 1%nat, _, (AdvisoryLock float_id). split_and!; [set_solver|reflexivity|simpl; set_solver|by vm_compute].
  - eexists _, _, _. split; [reflexivity|]. split.
    + intros l' Hl'. simpl in Hl'. apply elem_of_cons in Hl' as [->|Hl']; [done|].
      apply list_elem_of_singleton in Hl' as ->. by vm_compute.
    + eexists 0%nat, _, (AdvisoryLock wallet_id). split_and!; [set_solver|reflexivity|simpl; set_solver|by vm_compute].
Qed.
