(* ===== verification/SagaInv.v ===== *)
(** * The invariant of the payout saga

    Which statuses a saga moves between, and that the money on hold in a suspense
    account is, at every committed state, exactly the sum of the amounts of the
    sagas that hold money there. *)

From S2P Require Import Prelude Errors Money Json Types SagaTypes Events Schema Outbox PgIdem.
From S2P Require Import PgSaga Retry PgLedger Service PgLedgerSpec ServiceSpec Invariant Validate.
From S2P Require Import Posting Ledger Frames Manager Gateway Payout.
Open Scope string_scope.
Open Scope Z_scope.

(** ** The status graph *)

(** The graph docs/ARCHITECTURE.md draws. *)
Definition documented_edges : list (SagaStatus * SagaStatus) :=
  [(StatusPending, StatusReserved); (StatusPending, StatusFailed);
   (StatusReserved, StatusGatewayPending);
   (StatusGatewayPending, StatusGatewaySucceeded); (StatusGatewayPending, StatusGatewayFailed);
   (StatusGatewayPending, StatusNeedsManualReview);
   (StatusGatewaySucceeded, StatusCompleted);
   (StatusGatewayFailed, StatusCompensating);
   (StatusCompensating, StatusCompensated); (StatusCompensating, StatusNeedsManualReview)].

(** The one move the code makes and no document shows: a SETTLE that fails for good sends
    a saga whose payment the gateway confirmed into compensation. *)
Definition undocumented_edge : SagaStatus * SagaStatus := (StatusGatewaySucceeded, StatusCompensating).

Definition edge (s t : SagaStatus) : Prop := s = t ∨ (s, t) ∈ undocumented_edge :: documented_edges.

#[export] Instance edge_dec s t : Decision (edge s t).
Proof. unfold edge. apply _. Defined.

(** The statuses of a saga whose reservation is in suspense. *)
Definition holding (s : SagaStatus) : bool :=
  bool_decide (s ∈ [StatusReserved; StatusGatewayPending; StatusGatewaySucceeded; StatusGatewayFailed;
                    StatusCompensating; StatusNeedsManualReview]).

(** ** Holds *)

Definition contrib (acct : UUID) (r : saga_row) : Z :=
  match sg_payload r with
  | Some p => if holding (sg_status r) && bool_decide (SuspenseID p = acct) then Payload_AmountMinor p else 0
  | None => 0
  end.

Definition held (acct : UUID) (m : gmap UUID saga_row) : Z :=
  zsum (λ kr : UUID * saga_row, contrib acct kr.2) (map_to_list m).

Definition pending (acct : UUID) (d : DB) : Z := default 0 (b_pending_minor <$> account_balances d !! acct).

Lemma held_new acct m id r : m !! id = None → held acct (<[id := r]> m) = held acct m + contrib acct r.
Proof.
  intros Hid. unfold held. rewrite (zsum_perm _ _ _ (map_to_list_insert m id r Hid)).
  autorewrite with zsum. simpl. lia.
Qed.

Lemma held_insert acct m id r r' : m !! id = Some r →
  held acct (<[id := r']> m) = held acct m - contrib acct r + contrib acct r'.
Proof.
  intros Hid. rewrite <- insert_delete_eq, held_new by apply lookup_delete_eq.
  assert (held acct m = held acct (delete id m) + contrib acct r) as ->; [|lia].
  rewrite <- (held_new acct (delete id m) id r) by apply lookup_delete_eq. by rewrite insert_delete_id.
Qed.

(** A step row that says the reservation was posted. *)
Definition is_reserve (s : step_row) : Prop :=
  ss_step s = StepReserve ∧ ss_direction s = DirectionForward ∧ ss_status s = StepSucceeded.

(** The steps that post a ledger transaction. *)
Inductive money_step := Reserves | Settles | Refunds.

#[export] Instance money_step_eq_dec : EqDecision money_step.
Proof. solve_decision. Defined.

Definition money_key (k : money_step) : Step * SagaDirection :=
  match k with
  | Reserves => (StepReserve, DirectionForward)
  | Settles => (StepSettle, DirectionForward)
  | Refunds => (StepReserve, DirectionCompensation)
  end.

(** How often a saga in status [s] has posted each. *)
Definition expected (k : money_step) (s : SagaStatus) : nat :=
  match k with
  | Reserves => if holding s || bool_decide (s ∈ [StatusCompleted; StatusCompensated]) then 1 else 0
  | Settles => if bool_decide (s = StatusCompleted) then 1 else 0
  | Refunds => if bool_decide (s = StatusCompensated) then 1 else 0
  end.

(** All statuses that hold money have posted the same. *)
Lemma holding_expected s t k : holding s = true → holding t = true → expected k s = expected k t.
Proof.
  intros Hs Ht. assert (Hx : ∀ x, holding x = true → x ≠ StatusCompleted ∧ x ≠ StatusCompensated).
  { intros x Hx. split; intros ->; vm_compute in Hx; discriminate. }
  destruct (Hx s Hs), (Hx t Ht). destruct k; simpl; [by rewrite Hs, Ht| |]; by rewrite !bool_decide_eq_false_2.
Qed.

Definition is_posted (k : money_step) (id : UUID) (s : step_row) : Prop :=
  ss_saga_id s = id ∧ (ss_step s, ss_direction s) = money_key k ∧ ss_status s = StepSucceeded.

#[export] Instance is_posted_dec k id s : Decision (is_posted k id s).
Proof. unfold is_posted. apply _. Defined.

(** The rows on record for it. *)
Definition posted_steps (k : money_step) (id : UUID) (l : list step_row) : list step_row := filter (is_posted k id) l.

Lemma posted_steps_app k id l1 l2 : posted_steps k id (l1 ++ l2) = (posted_steps k id l1 ++ posted_steps k id l2)%list.
Proof. apply list.filter_app. Qed.

Lemma posted_steps_none k id l : (∀ s, s ∈ l → ¬ is_posted k id s) → posted_steps k id l = [].
Proof.
  intros Hno. destruct (posted_steps k id l) as [|s l'] eqn:Hs; [done|].
  assert (Hin : s ∈ posted_steps k id l) by (rewrite Hs; by apply list_elem_of_here).
  apply list_elem_of_filter in Hin as [Hp Hin]. by destruct (Hno s Hin).
Qed.

Lemma money_key_inj k k' : money_key k = money_key k' → k = k'.
Proof. by destruct k, k'. Qed.

Lemma posted_steps_one k k' id s : is_posted k id s →
  length (posted_steps k' id [s]) = if decide (k' = k) then 1%nat else 0%nat.
Proof.
  intros Hp. case_decide as Hk; [subst|].
  - unfold posted_steps. by rewrite filter_cons_True.
  - rewrite posted_steps_none; [done|]. intros x ->%list_elem_of_singleton (_ & Hk' & _).
    destruct Hp as (_ & Hk2 & _). apply Hk, money_key_inj. congruence.
Qed.

(** What every step row satisfies. *)
Definition step_ok (s : step_row) : Prop :=
  (is_reserve s → ∃ tx, ss_transaction_id s = Some tx ∧ tx ≠ uuid_Nil) ∧
  (ss_status s = StepAttempted → ss_step s = StepGateway).

(** What [Payload.validate] established of the amounts. *)
Definition payload_ok (p : Payload) : Prop :=
  0 < Payload_AmountMinor p ≤ max_int64 ∧ 0 ≤ FeeMinor p < Payload_AmountMinor p.

Record saga_wf (d : DB) : Prop := {
  sw_holds : ∀ acct, pending acct d = held acct (saga_instances d);
  sw_amounts : ∀ id r p, saga_instances d !! id = Some r → sg_payload r = Some p → payload_ok p;
  sw_posted : ∀ id k, length (posted_steps k id (saga_steps d)) =
    default 0%nat (expected k ∘ sg_status <$> saga_instances d !! id);
  sw_steps : ∀ s, s ∈ saga_steps d → step_ok s }.

Lemma saga_wf_empty d : saga_instances d = ∅ → saga_steps d = [] → account_balances d = ∅ → saga_wf d.
Proof.
  intros Hs Ht Hb. split; rewrite ?Hs, ?Ht.
  - intros acct. unfold pending. by rewrite Hb, lookup_empty.
  - intros id r p. by rewrite lookup_empty.
  - intros id k. by rewrite lookup_empty.
  - set_solver.
Qed.

(** A saga that holds money has its reservation on record. *)
Lemma sw_reserved d : saga_wf d → ∀ id r, saga_instances d !! id = Some r → holding (sg_status r) = true →
  ∃ s, s ∈ saga_steps d ∧ ss_saga_id s = id ∧ is_reserve s.
Proof.
  intros Hwf id r Hr Hh. pose proof (sw_posted d Hwf id Reserves) as Hn. rewrite Hr in Hn. simpl in Hn. rewrite Hh in Hn.
  destruct (posted_steps Reserves id (saga_steps d)) as [|s l] eqn:Hs; [done|]. exists s.
  assert (Hin : s ∈ posted_steps Reserves id (saga_steps d)) by (rewrite Hs; by apply list_elem_of_here).
  apply list_elem_of_filter in Hin as [(Hid & Hk & Hst) Hin]. injection Hk as Hk1 Hk2. by split_and!.
Qed.

(** ** How sagas evolve *)

Definition row_evolves (r r' : saga_row) : Prop :=
  sg_payload r' = sg_payload r ∧ sg_saga_type r' = sg_saga_type r ∧ rtc edge (sg_status r) (sg_status r').

Record saga_evolves (d d' : DB) : Prop := {
  se_old : ∀ id r, saga_instances d !! id = Some r →
    ∃ r', saga_instances d' !! id = Some r' ∧ row_evolves r r';
  se_new : ∀ id r', saga_instances d' !! id = Some r' → saga_instances d !! id = None →
    rtc edge StatusPending (sg_status r') }.

#[export] Instance saga_evolves_refl : Reflexive saga_evolves.
Proof.
  intros d. split; [|intros id r' H1 H2; congruence]. intros id r Hr. exists r. split; [done|].
  by split_and!.
Qed.

(** Steps that keep every saga row. *)
Lemma saga_evolves_same d d' : saga_instances d' = saga_instances d → saga_evolves d d'.
Proof. intros Hs. split; rewrite Hs; [apply saga_evolves_refl|intros id r' H1 H2; congruence]. Qed.

Lemma saga_evolves_insert d d' id r r' : saga_instances d !! id = Some r →
  saga_instances d' = <[id := r']> (saga_instances d) → row_evolves r r' → saga_evolves d d'.
Proof.
  intros Hr Hs He. split; rewrite Hs.
  - intros i x Hx. destruct (decide (i = id)) as [->|Hne].
    + rewrite lookup_insert_eq. simplify_eq. eauto.
    + rewrite lookup_insert_ne by done. exists x. split; [done|]. by split_and!.
  - intros i x Hx Hnone. rewrite lookup_insert_ne in Hx by congruence. congruence.
Qed.

#[export] Instance saga_evolves_trans : Transitive saga_evolves.
Proof.
  intros d1 d2 d3 [O1 N1] [O2 N2]. split.
  - intros id r (r2 & H2 & E1 & T1 & S1)%O1. apply O2 in H2 as (r3 & H3 & E2 & T2 & S2). exists r3.
    split; [done|]. split_and!; [congruence|congruence|by etrans].
  - intros id r3 H3 Hnone. destruct (saga_instances d2 !! id) as [r2|] eqn:H2; [|by apply (N2 id)].
    destruct (O2 id r2 H2) as (r3' & H3' & _ & _ & Hs). simplify_eq. etrans; [by apply (N1 id)|done].
Qed.

(** What an orchestrator holds is a row of some earlier state. *)
Definition snapshot (i : Instance_) (d : DB) : Prop :=
  ∃ r, saga_instances d !! Inst_ID i = Some r ∧ sg_payload r = Inst_Payload i ∧
    rtc edge (Inst_Status i) (sg_status r).

Lemma current_snapshot id r d : saga_instances d !! id = Some r → snapshot (instance_of id r) d.
Proof. intros Hr. by exists r. Qed.

Lemma snapshot_evolves i d d' : saga_evolves d d' → snapshot i d → snapshot i d'.
Proof.
  intros [Ho _] (r & Hr & Hp & Hst). destruct (Ho _ _ Hr) as (r' & Hr' & Hp' & _ & Hst').
  exists r'. split_and!; [done|congruence|by etrans].
Qed.

(** ** Preserving the invariant *)

Lemma saga_wf_same d d' : saga_wf d → saga_instances d' = saga_instances d → saga_steps d' = saga_steps d →
  (∀ acct, pending acct d' = pending acct d) → saga_wf d'.
Proof.
  intros [H1 H2 H3 H4] Hs Ht Hp. split; rewrite ?Hs, ?Ht; try done. intros acct. rewrite Hp. apply H1.
Qed.

Lemma saga_wf_update d d' id r r' new : saga_wf d → saga_instances d !! id = Some r →
  saga_instances d' = <[id := r']> (saga_instances d) → saga_steps d' = (saga_steps d ++ new)%list →
  sg_payload r' = sg_payload r → (∀ s, s ∈ new → step_ok s) →
  (∀ acct, pending acct d' = pending acct d + contrib acct r' - contrib acct r) →
  (∀ k, (length (posted_steps k id new) + expected k (sg_status r))%nat = expected k (sg_status r')) →
  (∀ k j, j ≠ id → posted_steps k j new = []) →
  saga_wf d'.
Proof.
  intros [H1 H2 H3 H4] Hr Hs Ht Hp Hnew Hpend Hcount Hown. split; rewrite ?Hs, ?Ht.
  - intros acct. rewrite Hpend, (held_insert _ _ _ r) by done. rewrite H1. lia.
  - intros i x p Hx Hxp. destruct (decide (i = id)) as [->|Hne].
    + rewrite lookup_insert_eq in Hx. simplify_eq. rewrite Hp in Hxp. by eapply H2.
    + rewrite lookup_insert_ne in Hx by done. by eapply H2.
  - intros i k. rewrite posted_steps_app, length_app, H3. destruct (decide (i = id)) as [->|Hne].
    + rewrite lookup_insert_eq, Hr. simpl. rewrite <- Hcount. lia.
    + rewrite lookup_insert_ne by done. rewrite Hown by done. simpl. lia.
  - intros s [Hin|Hin]%elem_of_app; auto.
Qed.

Lemma contrib_same_holding acct r r' : sg_payload r' = sg_payload r →
  holding (sg_status r') = holding (sg_status r) → contrib acct r' = contrib acct r.
Proof. unfold contrib. intros -> ->. done. Qed.
