(* ===== verification/SagaSafety.v ===== *)
(** * Safety of the payout saga

    Every step of the orchestrator, in every environment and from any snapshot of
    the saga however stale, keeps the invariant of [SagaInv] and moves statuses
    along the graph only. *)

From S2P Require Import Prelude Errors Money Json Types SagaTypes Events Schema Outbox PgIdem.
From S2P Require Import PgSaga Retry PgLedger Service PgLedgerSpec ServiceSpec Invariant Validate.
From S2P Require Import Posting Ledger Frames Manager Gateway Payout SagaInv.
Open Scope string_scope.
Open Scope Z_scope.

Definition sys_wf (d : DB) : Prop := ledger_wf d ∧ saga_wf d.

Definition safe_step (d d' : DB) : Prop := sys_wf d' ∧ saga_evolves d d'.

(** What the caller knows: a snapshot of a saga, or nothing. *)
Definition known (k : option Instance_) (d : DB) : Prop :=
  match k with Some i => snapshot i d | None => True end.

Definition claimed (i : Instance_) : option Instance_ := Some i.
Coercion claimed : Instance_ >-> option.

Lemma known_evolves k d d' : saga_evolves d d' → known k d → known k d'.
Proof. destruct k; [apply snapshot_evolves|done]. Qed.

(** [m] is safe for such a caller; [safe_ok] asks it of successful runs only. *)
Definition safe {A} (i : option Instance_) (m : M A) : Prop := ∀ w,
  sys_wf (w_db w) → known i (w_db w) → safe_step (w_db w) (w_db (m w).2).

Definition safe_ok {A} (i : option Instance_) (m : M A) : Prop := ∀ w a w',
  sys_wf (w_db w) → known i (w_db w) → m w = (Ok a, w') → safe_step (w_db w) (w_db w').

Section rules.
Context {A B : Type} (i : option Instance_).

Lemma safe_id (m : M A) : (∀ w, w_db (m w).2 = w_db w) → safe i m.
Proof. intros Hm w Hwf _. rewrite Hm. by split. Qed.

Lemma safe_bind (m : M A) (f : A → M B) : safe i m → (∀ a, safe i (f a)) → safe i (m ≫= f).
Proof.
  intros Hm Hf w Hwf Hsn. unfold mbind, M_bind. destruct (Hm w Hwf Hsn) as [Hwf1 He1].
  destruct (m w) as [[a|e] w1]; simpl in *; [|by split].
  destruct (Hf a w1 Hwf1) as [Hwf2 He2]; [by eapply known_evolves|]. split; [done|by etrans].
Qed.

(** A first part that leaves the database alone may tell the rest something. *)
Lemma safe_bind_read (m : M A) (f : A → M B) : (∀ w, w_db (m w).2 = w_db w) →
  (∀ w a w', sys_wf (w_db w) → known i (w_db w) → m w = (Ok a, w') → safe_step (w_db w) (w_db (f a w').2)) →
  safe i (m ≫= f).
Proof.
  intros Hm Hf w Hwf Hsn. specialize (Hm w). unfold mbind, M_bind.
  destruct (m w) as [[a|e] w1] eqn:Hrun; simpl in *; [by eapply Hf|]. rewrite Hm. by split.
Qed.

Lemma safe_clean (m : M A) : fails_clean m → safe_ok i m → safe i m.
Proof.
  intros Hc Hok w Hwf Hsn. destruct (m w) as [[a|e] w'] eqn:Hrun; simpl; [by eapply Hok|].
  apply Hc in Hrun as ->. by split.
Qed.

Lemma safe_pool_tx (m : M A) : safe_ok i m → safe i (pool_tx m).
Proof.
  intros Hok w0 Hwf Hsn. unfold pool_tx.
  assert (Hb : w_db ((_ ← sql_exec; tx_start) w0).2 = w_db w0).
  { unfold mbind, M_bind. pose proof (sql_exec_db w0) as H1. destruct (sql_exec w0) as [[?|?] w1]; simpl in *; [|done].
    by rewrite tx_start_db. }
  destruct ((_ ← sql_exec; tx_start) w0) as [[u0|e0] w] eqn:Hbegin; simpl in *; [|rewrite Hb; by split].
  destruct (m w) as [[a|e] w'] eqn:Hrun; simpl; [|rewrite Hb; by split].
  assert (Hs : safe_step (w_db w0) (w_db w')).
  { rewrite <- Hb in *. by eapply Hok. }
  unfold next_commit. destruct (w_commits w') as [|[|?|?] ?]; simpl; try done. rewrite Hb. by split.
Qed.

Lemma safe_autocommit (m : M A) : safe_ok i m → safe i (autocommit m).
Proof.
  intros Hok w Hwf Hsn. destruct (autocommit_cases m w) as [->|(a & w0 & w1 & Hd & Hrun & ->)]; [by split|].
  rewrite <- Hd in *. by eapply Hok.
Qed.

(** A transaction of the ledger: only committed runs of its body count. *)
Lemma safe_InTx `{UL : UuidLib} repo (body : M A) :
  (∀ w a w', sys_wf (w_db w) → known i (w_db w) → tx_committed body w a w' → safe_step (w_db w) (w_db w')) →
  safe i (InTx repo body).
Proof.
  intros Hbody w Hwf Hsn.
  apply (InTx_inv repo body (λ d, safe_step (w_db w) d)); [|by split].
  intros w1 a w2 [Hwf1 He1] Hc. destruct (Hbody w1 a w2 Hwf1) as [Hwf2 He2]; [by eapply known_evolves|done|].
  split; [done|by etrans].
Qed.
End rules.

Lemma framed_wf_run {A} (m : M A) w r w' : framed m → ledger_wf (w_db w) → m w = (r, w') → ledger_wf (w_db w').
Proof. intros Hm Hwf Hrun. pose proof (framed_wf m w Hm Hwf) as Hl. by rewrite Hrun in Hl. Qed.

(** ** Rows *)

Lemma evolves_advance now t r : sg_status r = Tr_From t → edge (Tr_From t) (Tr_To t) →
  row_evolves r (advance_row now t r).
Proof. intros Hst He. split_and!; [done|done|]. rewrite Hst. simpl. by apply rtc_once. Qed.

Definition keeps_hold (t : Transition) : Prop :=
  edge (Tr_From t) (Tr_To t) ∧ holding (Tr_To t) = holding (Tr_From t) ∧
  ∀ k, expected k (Tr_To t) = expected k (Tr_From t).

(** A row that is not a successful money step counts for nothing. *)
Definition unposted (s : step_row) : Prop := ss_status s ≠ StepSucceeded.

Lemma unposted_none k id l : (∀ s, s ∈ l → unposted s) → posted_steps k id l = [].
Proof. intros Hl. apply posted_steps_none. intros s Hin (_ & _ & Hst). by apply (Hl s). Qed.

(** A guarded transition that keeps the hold, possibly after new step rows. *)
Lemma safe_advance_steps i t w w1 w' new u : Tr_SagaID t = Inst_ID i → keeps_hold t →
  sys_wf (w_db w) → ledger_wf (w_db w') →
  w_db w1 = set_saga_steps (saga_steps (w_db w) ++ new)%list (w_db w) →
  (∀ s, s ∈ new → step_ok s ∧ unposted s) → advance t w1 = (Ok u, w') → safe_step (w_db w) (w_db w').
Proof.
  intros Hid (He & Hh & Hx) [_ Hs] Hl Hw1 Hnew Hrun. apply advance_ok in Hrun as (r & Hr & Hst & Hd & _).
  rewrite Hw1 in Hr, Hd. simpl in Hr, Hd. split; [split; [done|]|].
  - eapply (saga_wf_update (w_db w) _ (Tr_SagaID t) r (advance_row (w_now w1) t r) new); auto.
    + by rewrite Hd.
    + by rewrite Hd.
    + apply Hnew.
    + intros acct. rewrite (contrib_same_holding _ r) by (simpl; rewrite ?Hst; done).
      unfold pending. rewrite Hd. simpl. lia.
    + intros k. rewrite unposted_none by apply Hnew. simpl. by rewrite Hst, Hx.
    + intros k j _. apply unposted_none, Hnew.
  - eapply (saga_evolves_insert _ _ (Tr_SagaID t) r); [done|by rewrite Hd|by apply evolves_advance].
Qed.

Lemma safe_Advance i t : Tr_SagaID t = Inst_ID i → keeps_hold t → safe i (saga_Advance t).
Proof.
  intros Hid Hk. unfold saga_Advance. apply safe_autocommit. intros w u w' Hwf Hsn Hrun.
  eapply (safe_advance_steps i t w w w' []); eauto.
  - eapply framed_wf_run; [apply framed_advance|apply Hwf|done].
  - rewrite app_nil_r. by destruct (w_db w).
  - set_solver.
Qed.

(** ** Step rows *)

Lemma safe_RecordAttempt i a : At_Status a = StepFailed → safe i (saga_RecordAttempt a).
Proof.
  intros Ha. unfold saga_RecordAttempt. apply safe_autocommit. intros w u w' [Hl Hs] Hsn Hrun. mrun.
  pose proof (framed_wf_run _ _ _ _ (framed_insert_step _) Hl Hrun) as Hl'.
  apply insert_step_ok in Hrun as (_ & Hd & _). split; [split; [done|]|].
  - destruct Hs as [H1 H2 H3 H4]. split; rewrite Hd; simpl; try done.
    + intros id k. rewrite posted_steps_app, unposted_none with (l := [_]), app_nil_r; [done|].
      intros s ->%list_elem_of_singleton. unfold unposted. simpl. by rewrite Ha.
    + intros s [Hin| ->%list_elem_of_singleton]%elem_of_app; [by apply H4|].
      split; [intros (_ & _ & Hst)|intros Hst]; simpl in Hst; by rewrite Ha in Hst.
  - apply saga_evolves_same. by rewrite Hd.
Qed.

Lemma safe_try_record i a : At_Status a = StepFailed → safe i (try_record a).
Proof. intros Ha w Hwf Hsn. exact (safe_RecordAttempt i a Ha w Hwf Hsn). Qed.

(** Only ATTEMPTED rows are finished, and those are the gateway's. *)
Lemma finish_step_ok now f s : step_ok s → ss_status s = StepAttempted → Fa_Status f ≠ StepAttempted →
  step_ok (finish_row now f s).
Proof.
  intros [_ Hatt] Hst Hne. specialize (Hatt Hst). split; simpl; [|done].
  intros (Hs & _). simpl in Hs. rewrite Hatt in Hs. done.
Qed.

(** Finishing gateway rows leaves the money steps on record as they are. *)
Lemma finish_posted k id now f l : (∀ s, s ∈ l → step_ok s) →
  posted_steps k id ((λ r, if bool_decide (ss_id r = Fa_ID f) && bool_decide (ss_status r = StepAttempted)
    then finish_row now f r else r) <$> l) = posted_steps k id l.
Proof.
  induction l as [|s l IH]; intros Hok; [done|]. rewrite fmap_cons. unfold posted_steps in *. simpl.
  specialize (IH (λ x Hx, Hok x (list_elem_of_further _ _ _ Hx))).
  destruct (bool_decide (ss_id s = Fa_ID f) && bool_decide (ss_status s = StepAttempted)) eqn:Hc.
  - apply andb_true_iff in Hc as [_ Hc]. bool_to_prop. destruct (Hok s (list_elem_of_here _ _)) as [_ Hgw].
    rewrite !filter_cons_False; [done| |].
    + intros (_ & _ & Hst). by rewrite Hc in Hst.
    + intros (_ & Hk & _). simpl in Hk. rewrite (Hgw Hc) in Hk. by destruct k.
  - destruct (decide (is_posted k id s)); [rewrite !filter_cons_True by done; by f_equal|].
    by rewrite !filter_cons_False.
Qed.

Lemma safe_FinishAttempt i f : safe i (saga_FinishAttempt f).
Proof.
  unfold saga_FinishAttempt. apply safe_autocommit. intros w u w' [Hl Hs] Hsn Hrun.
  assert (Hl' : ledger_wf (w_db w')) by (eapply framed_wf_run; [|exact Hl|exact Hrun]; framed).
  mrun. simpl in *. destruct (existsb _ _) eqn:Hhit; mrun; simpl in *; [|by split].
  bool_to_prop. split; [split; [done|]|by apply saga_evolves_same].
  destruct Hs as [W1 W2 W3 W4]. split; simpl; try done.
  - intros id k. rewrite <- W3. f_equal. apply finish_posted, W4.
  - intros s (s0 & -> & Hin)%list_elem_of_fmap. simpl.
    destruct (bool_decide (ss_id s0 = Fa_ID f) && bool_decide (ss_status s0 = StepAttempted)) eqn:Hc; [|by apply W4].
    apply andb_true_iff in Hc as [_ Hc]. bool_to_prop. apply finish_step_ok; auto.
Qed.

Lemma safe_BeginStep i a t : Tr_SagaID t = Inst_ID i → keeps_hold t → Sa_Step a = StepGateway →
  safe i (saga_BeginStep a t).
Proof.
  intros Hid Hk Hstep. unfold saga_BeginStep. apply safe_pool_tx. intros w u w' Hwf Hsn Hrun.
  assert (Hl : ledger_wf (w_db w')).
  { eapply framed_wf_run; [|apply Hwf|exact Hrun]. framed. }
  mrun. match goal with Hi : insert_step _ _ = _ |- _ => apply insert_step_ok in Hi as (_ & Hd & _) end.
  eapply (safe_advance_steps i t w _ w'); eauto. intros s ->%list_elem_of_singleton.
  split; [|done]. split; [intros (_ & _ & Hst); done|intros _; exact Hstep].
Qed.

(** The saga's side of the database. *)
Definition same_saga (d d' : DB) : Prop :=
  saga_instances d' = saga_instances d ∧ saga_steps d' = saga_steps d ∧ ∀ acct, pending acct d' = pending acct d.

Lemma same_saga_trans d1 d2 d3 : same_saga d1 d2 → same_saga d2 d3 → same_saga d1 d3.
Proof. intros (H1 & H2 & H3) (H4 & H5 & H6). split_and!; [congruence|congruence|]. intros. by rewrite H6. Qed.

Lemma same_saga_wf d d' : same_saga d d' → saga_wf d → saga_wf d'.
Proof. intros (H1 & H2 & H3) Hwf. by eapply saga_wf_same. Qed.

Lemma same_saga_evolves d d' : same_saga d d' → saga_evolves d d'.
Proof. intros (H1 & _). by apply saga_evolves_same. Qed.

Lemma safe_Escalate i t alert : Tr_SagaID t = Inst_ID i → keeps_hold t →
  is_transaction_event (Ev_EventType alert) = false → (∀ x, Ev_Payload alert ≠ PTransaction x) →
  safe i (saga_Escalate t alert).
Proof.
  intros Hid Hk Hty Hpl. unfold saga_Escalate. apply safe_pool_tx. intros w u w' Hwf Hsn Hrun.
  assert (Hl : ledger_wf (w_db w')).
  { eapply framed_wf_run; [|apply Hwf|exact Hrun]. framed. }
  mrun. match goal with Ha : advance _ _ = (Ok _, ?x) |- _ => rename x into w1; rename Ha into Hadv end.
  assert (Hs1 : safe_step (w_db w) (w_db w1)).
  { eapply (safe_advance_steps i t w w w1 []); eauto.
    - eapply framed_wf_run; [apply framed_advance|apply Hwf|exact Hadv].
    - rewrite app_nil_r. by destruct (w_db w).
    - set_solver. }
  destruct Hs1 as [[_ Hs1] He1]. apply outbox_Append_ok in Hrun as (? & ? & Hd & _).
  assert (Hsame : same_saga (w_db w1) (w_db w')) by by rewrite Hd.
  split; [split; [done|by eapply same_saga_wf]|]. etrans; [done|by apply same_saga_evolves].
Qed.

(** ** Postings and reversals *)

Lemma tx_written_saga `{UL : UuidLib} now header reqs rows ebs d d1 : tx_written now header reqs rows ebs d d1 → same_saga d d1.
Proof.
  intros Hw. destruct (tw_db _ _ _ _ _ _ _ Hw) as (bals' & -> & [Hother Hmoved _]). split_and!; [done|done|].
  intros acct. unfold pending. simpl. destruct (decide (acct ∈ sortedAccountIDs reqs)) as [Hin|Hin].
  - destruct (Hmoved acct Hin) as (a & b & last & _ & -> & -> & _). done.
  - by rewrite Hother.
Qed.

Lemma key_completed_saga idem txID d d' : key_completed idem txID d d' → same_saga d d'.
Proof. destruct idem; simpl; [intros (? & ? & ? & _ & _ & _ & ->)|intros ->]; done. Qed.

Section ledger_calls.
Context `{UL : UuidLib}.

(** The recorder runs between statements that leave the sagas alone. *)
Lemma post_body_saga adv txID req h w w' : Rq_Entries req ≠ [] →
  (∀ e, e ∈ Rq_Entries req → amountMinor (Er_Amount e) ≤ max_int64) →
  post_body adv txID req w = (Ok h, w') →
  ∃ h' u wa wb, Tx_ID h' = txID ∧ same_saga (w_db w) (w_db wa) ∧
    runRecorder (Rq_Record req) h' wa = (Ok u, wb) ∧ same_saga (w_db wb) (w_db w').
Proof.
  intros Hne Hmax. unfold post_body. intros Hrun. mrun.
  match goal with Hr : routeToShards _ _ = _ |- _ => apply routeToShards_ok in Hr as [[Hd0 _] Hroute] end.
  match goal with p : Transaction * list eventBalance |- _ => destruct p as [h1 ebs] end. mrun.
  match goal with Hr : write_transaction _ _ _ ?rs _ = _ |- _ => rename rs into reqs;
    apply (write_transaction_ok adv (post_header txID req)) in Hr as (rows & Hw & _ & Hid & Hpost & _) end.
  2: { intros ->. apply Forall2_nil_inv_l in Hroute. done. }
  2: { intros e He. destruct (Forall2_elem_l _ _ _ _ Hroute He) as (e' & He' & _ & -> & _). auto. }
  match goal with Hr : appendTransactionEvent _ _ _ _ _ _ = (Ok _, ?x) |- _ => rename x into wa;
    apply appendTransactionEvent_ok in Hr as (o & new & [Hd2 _ _] & _); [|done] end.
  match goal with Hr : runRecorder _ ?h' _ = (Ok ?u, ?wb) |- _ => exists h', u, wa, wb end.
  match goal with Hr : completeIdempotency _ _ _ = _ |- _ => apply completeIdempotency_ok in Hr as Hkey end.
  apply tx_written_saga in Hw. rewrite Hd0 in Hw. split_and!; [done| |done|by eapply key_completed_saga].
  eapply same_saga_trans; [exact Hw|]. by rewrite Hd2.
Qed.

Lemma reverse_body_saga adv revID txID reason idem record h w w' : ledger_wf (w_db w) →
  reverse_body adv revID txID reason idem record w = (Ok h, w') →
  ∃ h' u wa wb, Tx_ID h' = revID ∧ same_saga (w_db w) (w_db wa) ∧
    runRecorder record h' wa = (Ok u, wb) ∧ same_saga (w_db wb) (w_db w').
Proof.
  intros Hwf. unfold reverse_body. intros Hrun. mrun.
  match goal with Hr : LoadTransactionForUpdate _ _ = _ |- _ => unfold LoadTransactionForUpdate in Hr;
    rewrite map_err_ok in Hr; apply scan_transaction_ok in Hr as (t & Ht & [Hd0 _] & Hst & _ & Hent) end.
  destruct (bool_decide (Tx_Status x = TransactionStatusReversed)); mrun.
  destruct (bool_decide (Tx_Status x = TransactionStatusPosted)); mrun. bool_to_prop.
  match goal with p : Transaction * list eventBalance |- _ => destruct p as [h1 ebs] end. mrun.
  rewrite Hent in *.
  match goal with Hr : write_transaction _ _ _ _ _ = _ |- _ =>
    apply (write_transaction_ok adv (reverse_header revID txID reason idem)) in Hr as (rows & Hw & _ & Hid & _) end.
  2: { intros Hnil%fmap_nil_inv. done. }
  2: { intros e He. by eapply (mirrored_max txID (w_db w)). }
  match goal with Hr : MarkReversed _ _ = _ |- _ => apply MarkReversed_ok in Hr as (t' & _ & _ & Hd2 & _) end.
  match goal with Hr : appendTransactionEvent _ _ _ _ _ _ = (Ok _, ?x) |- _ => rename x into wa;
    apply appendTransactionEvent_ok in Hr as (o & new & [Hd3 _ _] & _); [|done] end.
  match goal with Hr : runRecorder _ ?h' _ = (Ok ?u, ?wb) |- _ => exists h', u, wa, wb end.
  match goal with Hr : completeIdempotency _ _ _ = _ |- _ => apply completeIdempotency_ok in Hr as Hkey end.
  apply tx_written_saga in Hw. rewrite Hd0 in Hw. split_and!; [done| |done|by eapply key_completed_saga].
  eapply same_saga_trans; [exact Hw|]. by rewrite Hd3, Hd2.
Qed.

(** A recorder that keeps the sagas' invariant. *)
Definition recorder_safe (i : option Instance_) (record : option Recorder) : Prop := ∀ h u wa wb, Tx_ID h ≠ uuid_Nil →
  saga_wf (w_db wa) → known i (w_db wa) → runRecorder record h wa = (Ok u, wb) →
  saga_wf (w_db wb) ∧ saga_evolves (w_db wa) (w_db wb).

Lemma recorder_safe_step i record d wa wb u h d' : recorder_safe i record → Tx_ID h ≠ uuid_Nil →
  saga_wf d → known i d → same_saga d (w_db wa) → runRecorder record h wa = (Ok u, wb) →
  same_saga (w_db wb) d' → saga_wf d' ∧ saga_evolves d d'.
Proof.
  intros Hr Hid Hs Hsn Ha Hrun Hb. destruct (Hr h u wa wb Hid) as [Hs' He]; [by eapply same_saga_wf| |done|].
  { eapply known_evolves; [by apply same_saga_evolves|done]. }
  split; [by eapply same_saga_wf|]. etrans; [by apply same_saga_evolves|]. etrans; [done|by apply same_saga_evolves].
Qed.

Lemma safe_post i repo req : request_ok req → recorder_safe i (Rq_Record req) → safe i (postTransaction repo req).
Proof.
  intros Hok Hrs. unfold postTransaction. apply safe_bind_read; [done|].
  intros w u w1 Hwf Hsn Hv. unfold lift in Hv. injection Hv as Hv <-. destruct u.
  revert w Hwf Hsn. apply (safe_bind_read i uuid_NewV7); [apply uuid_NewV7_db|]. intros w txID w1 Hwf Hsn Hid.
  pose proof (uuid_NewV7_nonnil _ _ _ Hid) as Hnn. apply uuid_NewV7_same in Hid as [Hd _].
  rewrite <- Hd. rewrite <- Hd in Hwf, Hsn. revert Hwf Hsn. generalize w1. clear w w1 Hd.
  apply safe_InTx. intros w h w' [Hl Hs] Hsn [Hrun Htr].
  assert (Hne : Rq_Entries req ≠ []) by (intros Hnil; apply validate_lengths in Hv; rewrite Hnil in Hv; simpl in Hv; lia).
  assert (Hmax : ∀ e, e ∈ Rq_Entries req → amountMinor (Er_Amount e) ≤ max_int64) by (intros e He; by apply Hok).
  destruct (post_body_saga _ _ _ _ _ _ Hne Hmax Hrun) as (h' & u & wa & wb & Hh & Ha & Hrec & Hb).
  destruct (recorder_safe_step i _ _ _ _ _ _ _ Hrs ltac:(by rewrite Hh) Hs Hsn Ha Hrec Hb) as [Hs' He].
  split; [split; [|done]|done]. apply (post_keeps txID req (w_db w)); auto.
  destruct (post_body_ok _ _ _ _ _ _ (proj2 Hok) Hne Hmax Hrun) as (reqs & rows & ebs & Hro & Hr & _).
  exists (w_now w), reqs, rows, ebs. done.
Qed.

Lemma safe_reverse i repo txID reason idem record : recorder_ok record → recorder_safe i record →
  safe i (doReverse repo txID reason idem record).
Proof.
  intros Hok Hrs. unfold doReverse.
  apply safe_bind; [apply safe_id; intros; apply guard_M_db|intros _].
  apply (safe_bind_read i uuid_NewV7); [apply uuid_NewV7_db|]. intros w revID w1 Hwf Hsn Hid.
  pose proof (uuid_NewV7_nonnil _ _ _ Hid) as Hnn. apply uuid_NewV7_same in Hid as [Hd _].
  rewrite <- Hd. rewrite <- Hd in Hwf, Hsn. revert Hwf Hsn. generalize w1. clear w w1 Hd.
  apply safe_InTx. intros w h w' [Hl Hs] Hsn [Hrun Htr].
  destruct (reverse_body_saga _ _ _ _ _ _ _ _ _ Hl Hrun) as (h' & u & wa & wb & Hh & Ha & Hrec & Hb).
  destruct (recorder_safe_step i _ _ _ _ _ _ _ Hrs ltac:(by rewrite Hh) Hs Hsn Ha Hrec Hb) as [Hs' He].
  split; [split; [|done]|done].
  destruct (reverse_body_ok _ _ _ _ _ _ _ _ _ Hl Hok Hrun) as (t & rows & ebs & Ht & Hst & Hr & _).
  eapply (reverse_keeps revID txID reason idem (w_db w)); [done|].
  exists (w_now w), (mirrored txID (w_db w)), rows, ebs. split_and!; [|done|done]. split; [done|eauto].
Qed.
End ledger_calls.

Implicit Types i : Instance_.

(** ** The recorder of a step *)

Section steps.
Context `{UL : UuidLib} `{ET : ErrorText}.

Definition commit_transition (o : Orchestrator) (i : Instance_) (c : commit) : Transition :=
  mkTransition (Inst_ID i) (c_from c) (c_to c) (c_nextStep c) (Cfg_StepTimeout (o_cfg o)) 0 "" true.

Definition commit_attempt (i : Instance_) (c : commit) : Attempt :=
  mkAttempt (c_attemptID c) (Inst_ID i) (c_step c) (c_number c) (c_direction c) StepSucceeded
    (c_transactionID c) "" "" time_zero None.

Lemma step_recorder_run o i p delta c posted u wa wb :
  step_recorder o i p delta c posted wa = (Ok u, wb) →
  ∃ r b ev, account_balances (w_db wa) !! SuspenseID p = Some b ∧
    saga_instances (w_db wa) !! Inst_ID i = Some r ∧ sg_status r = c_from (c (Tx_ID posted)) ∧
    w_db wb = set_outbox (outbox (w_db wa) ++ [ev])%list
      (set_saga_steps (saga_steps (w_db wa) ++ [attempt_row (w_now wa) (commit_attempt i (c (Tx_ID posted)))])%list
      (set_saga_instances (<[Inst_ID i := advance_row (w_now wa) (commit_transition o i (c (Tx_ID posted))) r]> (saga_instances (w_db wa)))
      (set_account_balances (<[SuspenseID p := add_pending (w_now wa) delta b]> (account_balances (w_db wa))) (w_db wa)))).
Proof.
  unfold step_recorder, commitStep. intros Hrun. mrun.
  match goal with Ha : ApplyPendingDelta _ _ = _ |- _ => apply ApplyPendingDelta_ok in Ha as (b & Hb & _ & Hd1 & Hn1) end.
  match goal with Hc : CommitSagaStep _ _ = _ |- _ =>
    apply pgsaga_CommitStep_ok in Hc as (r & Hr & Hst & _ & Hd2 & _) end.
  match goal with Hk : clock_Now _ = _ |- _ => injection Hk as <- <- end.
  match goal with Ho : AppendEvent _ _ = _ |- _ => apply outbox_Append_ok in Ho as (? & ? & Hd3 & _) end.
  simpl in *. rewrite Hd1 in *. simpl in *. rewrite Hn1 in *. rewrite Hd2 in Hd3. simpl in Hd3.
  eexists r, b, _. split_and!; [done|done|done|exact Hd3].
Qed.

Lemma framed_lift_bind {A B} (r : res A) (f : A → M B) : (∀ a, r = Ok a → framed (f a)) → framed (lift r ≫= f).
Proof.
  intros Hf w. unfold mbind, M_bind, lift. destruct r as [a|e]; [by apply Hf|apply ledger_frame_refl].
Qed.

Lemma framed_step_recorder o i p delta c posted : framed (step_recorder o i p delta c posted).
Proof.
  unfold step_recorder, commitStep. apply framed_bind; [apply framed_ApplyPendingDelta|intros _].
  apply framed_bind; [apply framed_CommitStep|intros _].
  apply framed_lift_bind. intros pl ->%json_Marshal_ok. apply framed_bind; [by apply framed_id|intros now].
  by apply framed_Append.
Qed.

Lemma step_recorder_ok o i p delta c : recorder_ok (Some (step_recorder o i p delta c)).
Proof.
  intros f [= <-] t u w w' Hrun. split.
  - pose proof (framed_step_recorder o i p delta c t w) as Hf. by rewrite Hrun in Hf.
  - apply step_recorder_run in Hrun as (r & b & ev & _ & _ & _ & ->). done.
Qed.

(** The change of the hold a step's commit announces. *)
Record commit_ok (p : Payload) (delta : Z) (c : commit) : Prop := {
  ck_edge : edge (c_from c) (c_to c);
  ck_delta : delta = (if holding (c_to c) then Payload_AmountMinor p else 0)
                     - (if holding (c_from c) then Payload_AmountMinor p else 0);
  ck_posts : ∃ k, (c_step c, c_direction c) = money_key k ∧
    ∀ k', ((if decide (k' = k) then 1 else 0) + expected k' (c_from c))%nat = expected k' (c_to c);
  ck_tx : c_transactionID c ≠ None }.

Lemma step_recorder_safe o i p delta c : Inst_Payload i = Some p →
  (∀ txID, txID ≠ uuid_Nil → commit_ok p delta (c txID) ∧ c_transactionID (c txID) = Some txID) →
  recorder_safe i (Some (step_recorder o i p delta c)).
Proof.
  intros Hp Hc h u wa wb Hid Hs Hsn Hrun. destruct (Hc _ Hid) as [[He Hdelta (k & Hk & Hposts) _] Htx].
  apply step_recorder_run in Hrun as (r & b & ev & Hb & Hr & Hst & Hd).
  assert (Hpay : sg_payload r = Some p).
  { destruct Hsn as (r' & Hr' & Hp' & _). rewrite Hr in Hr'. injection Hr' as <-. congruence. }
  set (t := commit_transition o i (c (Tx_ID h))) in *. set (row := attempt_row _ _) in *. split.
  - eapply (saga_wf_update (w_db wa) _ (Inst_ID i) r (advance_row (w_now wa) t r) [row]); auto.
    + by rewrite Hd.
    + by rewrite Hd.
    + intros s ->%list_elem_of_singleton. split; [|done]. intros _. exists (Tx_ID h). by split.
    + intros acct. unfold pending, contrib. rewrite Hd. simpl. rewrite Hpay, Hst.
      destruct (decide (SuspenseID p = acct)) as [<-|Hne].
      * rewrite lookup_insert_eq, Hb. simpl. rewrite bool_decide_eq_true_2, !andb_true_r by done.
        rewrite Hdelta. by destruct (holding _), (holding _); lia.
      * rewrite lookup_insert_ne by done. rewrite bool_decide_eq_false_2, !andb_false_r by done. lia.
    + intros k'. rewrite (posted_steps_one k) by done. simpl. by rewrite Hst.
    + intros k' j Hj. apply posted_steps_none. intros x ->%list_elem_of_singleton (Hown & _). by apply Hj.
  - eapply (saga_evolves_insert _ _ (Inst_ID i) r); [done|by rewrite Hd|by apply evolves_advance].
Qed.

Lemma amount_bounds i p d : saga_wf d → snapshot i d → Inst_Payload i = Some p → payload_ok p.
Proof. intros Hs (r & Hr & Hp & _) Hi. eapply (sw_amounts d Hs); [exact Hr|congruence]. Qed.

(** ** Failing a step *)

Lemma safe_or_else {A} i (m : M A) handle : safe i m → (∀ e, safe i (handle e)) → safe i (or_else m handle).
Proof.
  intros Hm Hh w Hwf Hsn. unfold or_else. destruct (Hm w Hwf Hsn) as [Hwf1 He1].
  destruct (m w) as [[a|e] w1]; simpl in *; [by split|].
  destruct (Hh e w1 Hwf1) as [Hwf2 He2]; [by eapply known_evolves|]. split; [done|by etrans].
Qed.

Lemma NextAttemptNumber_db id step dir w : w_db (saga_NextAttemptNumber id step dir w).2 = w_db w.
Proof.
  unfold saga_NextAttemptNumber, mbind, M_bind. pose proof (tx_start_db w) as H1.
  destruct (tx_start w) as [[?|?] w1]; simpl in *; [|done].
  pose proof (sql_exec_db w1) as H2. destruct (sql_exec w1) as [[?|?] w2]; simpl in *; congruence.
Qed.

Lemma nextAttempt_db id step dir w : w_db (nextAttempt id step dir w).2 = w_db w.
Proof.
  unfold nextAttempt, mbind, M_bind. pose proof (NextAttemptNumber_db id step dir w) as H1.
  destruct (saga_NextAttemptNumber id step dir w) as [[n|e] w1]; simpl in *; [|done].
  pose proof (uuid_NewV7_db w1) as H2. destruct (uuid_NewV7 w1) as [[u|e] w2]; simpl in *; congruence.
Qed.

Lemma safe_nextAttempt i id step dir : safe i (nextAttempt id step dir).
Proof. apply safe_id, nextAttempt_db. Qed.

Lemma must_money_db a c w : w_db (must_money a c w).2 = w_db w.
Proof. unfold must_money. by destruct (MustNewMoney a c). Qed.

Lemma keeps_hold_refl id s step timeout n e rel : keeps_hold (mkTransition id s s step timeout n e rel).
Proof. split; [by left|by split]. Qed.

(** Each forward step fails from the status it runs in. *)
Definition forward_status (step : Step) (s : SagaStatus) : Prop :=
  step = StepReserve ∧ s = StatusPending ∨ step = StepSettle ∧ s = StatusGatewaySucceeded.

Lemma safe_failForwardStep o i step att n cause : forward_status step (Inst_Status i) →
  safe i (failForwardStep o i step att n cause).
Proof.
  intros Hst. unfold failForwardStep. apply safe_bind; [by apply safe_try_record|intros _]. simpl.
  case_match; [apply safe_Advance; [done|apply keeps_hold_refl]|].
  destruct Hst as [[-> Hs]|[-> Hs]]; rewrite Hs; simpl;
    (apply safe_Advance; [done|]; split; [right; set_solver|split; [done|by intros []]]).
Qed.

Lemma safe_escalate o i e : edge (e_from e) StatusNeedsManualReview → holding (e_from e) = true →
  safe i (escalate o i e).
Proof.
  intros He Hh. unfold escalate.
  apply safe_bind_read; [done|]. intros w pl w1 Hwf Hsn Hm.
  apply lift_ok in Hm as [Hm ->]. apply json_Marshal_ok in Hm as ->.
  revert w Hwf Hsn. apply (safe_bind i clock_Now); [by apply safe_id|intros now].
  apply safe_Escalate; [done| |done|done]. split; [exact He|]. simpl. split; [by rewrite Hh|].
  intros k. by apply holding_expected.
Qed.

Lemma safe_failCompensation o i att n cause : safe i (failCompensation o i att n cause).
Proof.
  unfold failCompensation. apply safe_bind; [by apply safe_try_record|intros _]. simpl.
  case_match; [|apply safe_Advance; [done|apply keeps_hold_refl]].
  apply safe_escalate; [right; set_solver|done].
Qed.

Lemma saga_Get_db id w : w_db (saga_Get id w).2 = w_db w.
Proof.
  unfold saga_Get, mbind, M_bind. pose proof (tx_start_db w) as H1.
  destruct (tx_start w) as [[?|?] w1]; simpl in *; [|done].
  pose proof (sql_exec_db w1) as H2. destruct (sql_exec w1) as [[?|?] w2]; simpl in *; [|congruence].
  case_match; simpl; congruence.
Qed.

Lemma saga_Get_ok id x w w' : saga_Get id w = (Ok x, w') →
  w_db w' = w_db w ∧ ∃ r, saga_instances (w_db w) !! id = Some r ∧ Inst_Status x = sg_status r.
Proof.
  unfold saga_Get. intros Hrun. store_run. simpl in *. match goal with Ht : w_db _ = w_db w |- _ => rewrite Ht in * end.
  destruct (saga_instances (w_db w) !! id) as [r|] eqn:Hr; mrun. simpl. split; [done|eauto].
Qed.

(** From COMPENSATING a saga only gets to COMPENSATED or to a human. *)
Definition compensation_side : list SagaStatus := [StatusCompensating; StatusCompensated; StatusNeedsManualReview].

Lemma compensation_closed s t : edge s t → s ∈ compensation_side → t ∈ compensation_side.
Proof.
  intros [<-|He] Hs; [done|]. unfold documented_edges, undocumented_edge in He.
  repeat (apply elem_of_cons in He as [He|He]; [injection He as -> ->; unfold compensation_side in *; set_solver|]).
  by apply not_elem_of_nil in He.
Qed.

Lemma compensating_reaches s : rtc edge StatusCompensating s → s ∈ compensation_side.
Proof.
  assert (Hgen : ∀ s0, rtc edge s0 s → s0 ∈ compensation_side → s ∈ compensation_side).
  { intros s0 Hr. induction Hr as [|s0 s1 s2 He _ IH]; [done|]. eauto using compensation_closed. }
  intros Hr. apply (Hgen _ Hr). unfold compensation_side. set_solver.
Qed.

Lemma safe_confirmCompensated o i cause : Inst_Status i = StatusCompensating →
  safe i (confirmCompensated o i cause).
Proof.
  intros Hst. unfold confirmCompensated. apply safe_bind_read; [apply saga_Get_db|].
  intros w x w1 Hwf Hsn Hrun. apply saga_Get_ok in Hrun as (Hd & r & Hr & Hx).
  assert (Hwhere : Inst_Status x ∈ compensation_side).
  { destruct Hsn as (r' & Hr' & _ & Hpath). rewrite Hr in Hr'. injection Hr' as <-.
    rewrite Hx. apply compensating_reaches. by rewrite <- Hst. }
  rewrite <- Hd. rewrite <- Hd in Hwf, Hsn. case_bool_decide as Hc; [by split|].
  eapply safe_escalate; try done.
  - simpl. apply elem_of_cons in Hwhere as [->|Hwhere]; [right; set_solver|].
    apply elem_of_cons in Hwhere as [?|Hwhere]; [done|]. apply list_elem_of_singleton in Hwhere as ->. by left.
  - simpl. apply elem_of_cons in Hwhere as [->|Hwhere]; [done|].
    apply elem_of_cons in Hwhere as [?|Hwhere]; [done|]. by apply list_elem_of_singleton in Hwhere as ->.
Qed.

(** ** The steps *)

Lemma must_money_ok a c m w w' : must_money a c w = (Ok m, w') → m = mkMoney a c ∧ w' = w.
Proof.
  unfold must_money, MustNewMoney. destruct (NewMoney a c) as [x|e] eqn:Hn; [|done].
  intros [= <- <-]. apply NewMoney_ok in Hn as [_ ->]. done.
Qed.

Lemma recorded_request_ok rq : (∀ e, e ∈ Rq_Entries rq → is_int64 (amountMinor (Er_Amount e))) →
  recorder_ok (Rq_Record rq) → request_ok rq.
Proof. done. Qed.

Lemma is_int64_pos a : 0 ≤ a ≤ max_int64 → is_int64 a.
Proof. unfold is_int64, min_int64. lia. Qed.

(** Reading the amount changes nothing and gives the payload's. *)
Lemma safe_must_bind {B} i a c (f : Money → M B) : safe i (f (mkMoney a c)) → safe i (must_money a c ≫= f).
Proof.
  intros Hf. apply safe_bind_read; [apply must_money_db|].
  intros w m w' Hwf Hsn [-> ->]%must_money_ok. by apply Hf.
Qed.

(** A fact of the payload that every state the snapshot is valid in shows. *)
Lemma safe_with_amounts {A} i p (m : M A) : Inst_Payload i = Some p → (payload_ok p → safe i m) → safe i m.
Proof.
  intros Hp Hm w Hwf Hsn. apply Hm; [|done|done]. destruct Hwf as [_ Hs]. exact (amount_bounds i p _ Hs Hsn Hp).
Qed.

Lemma reserve_recorder_safe o i p att n : Inst_Payload i = Some p →
  recorder_safe i (Some (step_recorder o i p (Payload_AmountMinor p) (reserve_commit att n))).
Proof.
  intros Hp. apply step_recorder_safe; [done|]. intros tx _. split; [|done]. split; simpl.
  - right. set_solver.
  - change (holding StatusReserved) with true. change (holding StatusPending) with false. lia.
  - exists Reserves. split; [done|by intros []].
  - done.
Qed.

Lemma reserve_request_ok o i p att n : payload_ok p →
  request_ok (reserve_request o i p (mkMoney (Payload_AmountMinor p) (Payload_Currency p)) att n).
Proof.
  intros [Ha _]. apply recorded_request_ok; [|apply step_recorder_ok]. intros e He. simpl in He.
  apply elem_of_cons in He as [->|He]; [apply is_int64_pos; simpl; lia|].
  apply list_elem_of_singleton in He as ->. apply is_int64_pos; simpl; lia.
Qed.

Lemma safe_reserve o i p : Inst_Payload i = Some p → Inst_Status i = StatusPending → safe i (reserve o i p).
Proof.
  intros Hp Hst. apply (safe_with_amounts i p _ Hp). intros Hok.
  unfold reserve. apply safe_bind; [apply safe_nextAttempt|intros [att n]].
  apply safe_must_bind. apply safe_or_else; [|intros e; apply safe_failForwardStep; by left].
  apply safe_post; [by apply reserve_request_ok|by apply reserve_recorder_safe].
Qed.

Lemma negated_amount p : payload_ok p → wrap64 (- Payload_AmountMinor p) = - Payload_AmountMinor p.
Proof. intros [[? ?] _]. apply wrap64_id. unfold min_int64, max_int64 in *. lia. Qed.

Lemma merchant_amount p : payload_ok p → merchantMinor p = Payload_AmountMinor p - FeeMinor p.
Proof. intros [[? ?] ?]. apply wrap64_id. unfold min_int64, max_int64 in *. lia. Qed.

Lemma settle_recorder_safe o i p att n : Inst_Payload i = Some p → payload_ok p →
  recorder_safe i (Some (step_recorder o i p (wrap64 (- Payload_AmountMinor p)) (settle_commit att n))).
Proof.
  intros Hp Hok. apply step_recorder_safe; [done|]. intros tx _. split; [|done]. split; simpl.
  - right. set_solver.
  - rewrite negated_amount by done. change (holding StatusCompleted) with false.
    change (holding StatusGatewaySucceeded) with true. lia.
  - exists Settles. split; [done|by intros []].
  - done.
Qed.

(** The legs [settle] posts. *)
Definition settle_entries (p : Payload) : list EntryRequest :=
  mkEntryRequest (SuspenseID p) DirectionDebit (mkMoney (Payload_AmountMinor p) (Payload_Currency p)) ::
  mkEntryRequest (MerchantPayableID p) DirectionCredit (mkMoney (merchantMinor p) (Payload_Currency p)) ::
  (if 0 <? FeeMinor p
   then [mkEntryRequest (FeeRevenueID p) DirectionCredit (mkMoney (FeeMinor p) (Payload_Currency p))] else []).

Lemma settle_request_ok o i p att n : payload_ok p → request_ok (settle_request o i p (settle_entries p) att n).
Proof.
  intros Hok. pose proof Hok as [Ha Hf]. apply recorded_request_ok; [|apply step_recorder_ok]. intros e He. simpl in He.
  apply elem_of_cons in He as [->|He]; [apply is_int64_pos; simpl; lia|].
  apply elem_of_cons in He as [->|He]; [apply wrap64_range|].
  destruct (0 <? FeeMinor p); [|set_solver]. apply list_elem_of_singleton in He as ->. apply is_int64_pos; simpl; lia.
Qed.

(** Up to reading, [settle] is one posting with its error handler. *)
Lemma settle_runs (Q : DB → DB → Prop) o i p w : (∀ d, Q d d) →
  (∀ att n w', w_db w' = w_db w → Q (w_db w') (w_db (or_else
     (postTransaction (o_repo o) (settle_request o i p (settle_entries p) att n))
     (failForwardStep o i StepSettle att n) w').2)) →
  Q (w_db w) (w_db (settle o i p w).2).
Proof.
  intros Hrefl Hpost. unfold settle, mbind, M_bind. pose proof (nextAttempt_db (Inst_ID i) StepSettle DirectionForward w) as Hd.
  destruct (nextAttempt _ _ _ w) as [[[att n]|e] w1]; simpl in *; [|rewrite Hd; apply Hrefl].
  pose proof (Hpost att n w1 Hd) as Hp. rewrite Hd in Hp. unfold settle_entries in Hp.
  unfold must_money, MustNewMoney.
  destruct (NewMoney (Payload_AmountMinor p) (Payload_Currency p)) as [m|e] eqn:Hm; simpl; [|rewrite Hd; apply Hrefl].
  apply NewMoney_ok in Hm as [_ ->].
  destruct (NewMoney (merchantMinor p) (Payload_Currency p)) as [m|e] eqn:Hm; simpl; [|rewrite Hd; apply Hrefl].
  apply NewMoney_ok in Hm as [_ ->]. destruct (0 <? FeeMinor p); simpl; [|exact Hp].
  destruct (NewMoney (FeeMinor p) (Payload_Currency p)) as [m|e] eqn:Hm; simpl; [|rewrite Hd; apply Hrefl].
  apply NewMoney_ok in Hm as [_ ->]. exact Hp.
Qed.

Lemma safe_settle o i p : Inst_Payload i = Some p → Inst_Status i = StatusGatewaySucceeded → safe i (settle o i p).
Proof.
  intros Hp Hst. apply (safe_with_amounts i p _ Hp). intros Hok w Hwf Hsn.
  assert (Hgen : sys_wf (w_db w) → snapshot i (w_db w) → safe_step (w_db w) (w_db (settle o i p w).2)); [|by apply Hgen].
  apply (settle_runs (λ d d', sys_wf d → snapshot i d → safe_step d d')); [by split|].
  intros att n w' _ Hwf' Hsn'. revert w' Hwf' Hsn'.
  apply safe_or_else; [|intros e; apply safe_failForwardStep; by right].
  apply safe_post; [by apply settle_request_ok|by apply settle_recorder_safe].
Qed.

(** *** Compensation *)

Lemma compensate_recorder_safe o i p att n : Inst_Payload i = Some p → payload_ok p →
  recorder_safe i (Some (step_recorder o i p (wrap64 (- Payload_AmountMinor p)) (compensate_commit att n))).
Proof.
  intros Hp Hok. apply step_recorder_safe; [done|]. intros tx _. split; [|done]. split; simpl.
  - right. set_solver.
  - rewrite negated_amount by done. change (holding StatusCompensated) with false.
    change (holding StatusCompensating) with true. lia.
  - exists Refunds. split; [done|by intros []].
  - done.
Qed.

Lemma reserve_tx_found l s : (∀ x, x ∈ l → step_ok x) → s ∈ l → is_reserve s →
  reserve_tx_of (attempt_of <$> l) ≠ uuid_Nil.
Proof.
  intros Hok Hin Hres. unfold reserve_tx_of. set (f := λ a : Attempt, _).
  assert (Hall : ∀ tx, tx ∈ omap f (attempt_of <$> l) → tx ≠ uuid_Nil).
  { intros tx (a & (x & -> & Hx)%list_elem_of_fmap & Hf)%list_elem_of_omap. unfold f in Hf. simpl in Hf.
    case_bool_decide as Hr; [|done]. destruct (Hok x Hx) as [Htx _]. destruct (Htx Hr) as (tx' & Heq & Hnn).
    rewrite Heq in Hf. by injection Hf as <-. }
  assert (Hsome : ∃ tx, tx ∈ omap f (attempt_of <$> l)).
  { destruct (Hok s Hin) as [Htx _]. destruct (Htx Hres) as (tx & Heq & _). exists tx.
    apply list_elem_of_omap. exists (attempt_of s). split; [by apply list_elem_of_fmap_2|].
    unfold f. simpl. by rewrite bool_decide_eq_true_2. }
  destruct Hsome as [tx Htx]. destruct (omap f _) as [|x l'] eqn:Ho; [set_solver|]. simpl. apply Hall. set_solver.
Qed.

Lemma Attempts_ok id l w w' : saga_Attempts id w = (Ok l, w') →
  w_db w' = w_db w ∧ ∃ rows, l = attempt_of <$> rows ∧
    ∀ s, s ∈ rows ↔ s ∈ saga_steps (w_db w) ∧ ss_saga_id s = id.
Proof.
  unfold saga_Attempts. intros Hrun. store_run. simpl in *. split; [done|].
  eexists. split; [done|]. intros s. rewrite sort_by_elem, list_elem_of_filter.
  match goal with Ht : w_db _ = w_db w |- _ => rewrite Ht end. tauto.
Qed.

Lemma Attempts_db id w : w_db (saga_Attempts id w).2 = w_db w.
Proof.
  unfold saga_Attempts, mbind, M_bind. pose proof (tx_start_db w) as H1.
  destruct (tx_start w) as [[?|?] w1]; simpl in *; [|done].
  pose proof (sql_exec_db w1) as H2. destruct (sql_exec w1) as [[?|?] w2]; simpl in *; congruence.
Qed.

Lemma reserveTransactionID_db id w : w_db (reserveTransactionID id w).2 = w_db w.
Proof.
  unfold reserveTransactionID, mbind, M_bind. pose proof (Attempts_db id w) as H1.
  by destruct (saga_Attempts id w) as [[?|?] w1].
Qed.

Lemma Advance_stale t w : (∀ r, saga_instances (w_db w) !! Tr_SagaID t = Some r → sg_status r ≠ Tr_From t) →
  w_db (saga_Advance t w).2 = w_db w.
Proof.
  intros Hst. unfold saga_Advance. destruct (autocommit_cases (advance t) w) as [?|(u & w0 & w1 & Hd & Hrun & _)]; [done|].
  apply advance_ok in Hrun as (r & Hr & Hs & _). rewrite Hd in Hr. by destruct (Hst r Hr).
Qed.

Lemma safe_compensate o i p : Inst_Payload i = Some p → Inst_Status i = StatusCompensating →
  safe i (compensate o i p).
Proof.
  intros Hp Hst. apply (safe_with_amounts i p _ Hp). intros Hok. pose proof Hok as [Ha _].
  unfold compensate. apply safe_bind_read; [apply reserveTransactionID_db|].
  intros w tx w' Hwf Hsn Hrun. unfold reserveTransactionID in Hrun. mrun.
  match goal with Ht : saga_Attempts _ _ = _ |- _ => apply Attempts_ok in Ht as (Hd & rows & -> & Hrows) end.
  case_bool_decide as Hnil.
  - rewrite Advance_stale; [rewrite Hd; by split|]. simpl. rewrite Hd. intros r Hr Hs.
    destruct (sw_reserved _ (proj2 Hwf) _ _ Hr) as (s & Hin & Hid & Hres); [by rewrite Hs|].
    apply (reserve_tx_found rows s); [|by apply Hrows|done|done].
    intros x [Hx _]%Hrows. by apply (sw_steps _ (proj2 Hwf)).
  - match type of Hd with w_db ?x = _ => rename x into wx end.
    rewrite <- Hd. rewrite <- Hd in Hwf, Hsn. clear Hd Hrows. revert Hwf Hsn. generalize wx. clear w wx.
    apply safe_bind; [apply safe_nextAttempt|intros [att n]].
    apply safe_or_else.
    + apply safe_reverse; [apply step_recorder_ok|by apply compensate_recorder_safe].
    + intros e. case_match; [by apply safe_confirmCompensated|apply safe_failCompensation].
Qed.

(** *** The gateway *)

Lemma safe_finish i att st tx f : safe i (finish att st tx f).
Proof. unfold finish. case_match; [by apply safe_id|apply safe_FinishAttempt]. Qed.

Lemma safe_settleGatewayOutcome o i att a : safe i (settleGatewayOutcome o i att a).
Proof.
  unfold settleGatewayOutcome, deferAmbiguity. case_match.
  { apply safe_bind; [apply safe_finish|intros _]. apply safe_Advance; [done|]. split; [right; set_solver|split; [done|by intros []]]. }
  case_match.
  { destruct a.2; [|by apply safe_id]. apply safe_bind; [apply safe_finish|intros _].
    apply safe_Advance; [done|]. split; [right; set_solver|split; [done|by intros []]]. }
  case_match; [|apply safe_Advance; [done|apply keeps_hold_refl]].
  apply safe_escalate; [right; set_solver|done].
Qed.

Lemma safe_callGateway o i p : ClientOk (o_gateway o) → safe i (callGateway o i p).
Proof.
  intros Hg. unfold callGateway. apply safe_bind; [apply safe_nextAttempt|intros [att n]].
  apply safe_bind.
  { apply safe_BeginStep; [done| |done]. split; [right; set_solver|split; [done|by intros []]]. }
  intros _. apply safe_bind.
  { apply safe_id. intros w. unfold call. pose proof (Pay_db _ Hg
      (mkPaymentRequest (gatewayKey (Inst_ID i)) (Payload_AmountMinor p) (Payload_Currency p) (Payload_ExternalRef p)) w) as Hpay.
    by destruct (gw_Pay _ _ w). }
  intros a. apply safe_settleGatewayOutcome.
Qed.

Lemma UnresolvedAttempt_db id step w : w_db (saga_UnresolvedAttempt id step w).2 = w_db w.
Proof.
  unfold saga_UnresolvedAttempt, mbind, M_bind. pose proof (tx_start_db w) as H1.
  destruct (tx_start w) as [[?|?] w1]; simpl in *; [|done].
  pose proof (sql_exec_db w1) as H2. destruct (sql_exec w1) as [[?|?] w2]; simpl in *; congruence.
Qed.

Lemma safe_resolveGateway o i : ClientOk (o_gateway o) → safe i (resolveGateway o i).
Proof.
  intros Hg. unfold resolveGateway. apply safe_bind; [apply safe_id, UnresolvedAttempt_db|intros u].
  apply safe_bind.
  { apply safe_id. intros w. unfold call. pose proof (Probe_db _ Hg (gatewayKey (Inst_ID i)) w) as Hp.
    by destruct (gw_Probe _ _ w). }
  intros a. apply safe_settleGatewayOutcome.
Qed.

Lemma safe_driveOne o i : ClientOk (o_gateway o) → safe i (driveOne o i).
Proof.
  intros Hg. unfold driveOne. destruct (bool_decide (Inst_SagaType i = _)); simpl; [|by apply safe_id].
  destruct (Inst_Payload i) as [p|] eqn:Hp; [|by apply safe_id].
  case_bool_decide; [by apply safe_reserve|]. case_bool_decide; [by apply safe_callGateway|].
  case_bool_decide; [by apply safe_resolveGateway|]. case_bool_decide; [by apply safe_settle|].
  case_bool_decide; [apply safe_Advance; [done|]; split; [right; set_solver|split; [done|by intros []]]|].
  case_bool_decide; [by apply safe_compensate|by apply safe_id].
Qed.
End steps.
