(* ===== verification/PayoutSystem.v ===== *)
(** * The system with payouts

    The ledger's API operations, the idempotency store, the projector and the
    payout orchestrators as one transition system over the committed state.  A
    drive starts from a snapshot of its saga taken at any earlier point, as a
    replica whose lease lapsed would. *)

From S2P Require Import Prelude Errors Money Json Types SagaTypes Events Schema Outbox PgIdem.
From S2P Require Import PgSaga Retry PgLedger Service PgLedgerSpec ServiceSpec Invariant Validate.
From S2P Require Import Posting Ledger Frames Uuid Demo Projector Manager Gateway Payout SagaInv.
From S2P Require Import SagaSafety.
Open Scope string_scope.
Open Scope Z_scope.

(** ** Operations that are not the saga's *)

Lemma same_saga_refl d : same_saga d d.
Proof. done. Qed.

(** [m] leaves sagas and holds alone whatever happens. *)
Definition unsaga {A} (m : M A) : Prop := ∀ w, same_saga (w_db w) (w_db (m w).2).

Lemma unsaga_id {A} (m : M A) : (∀ w, w_db (m w).2 = w_db w) → unsaga m.
Proof. intros Hm w. rewrite Hm. apply same_saga_refl. Qed.

Lemma unsaga_bind {A B} (m : M A) (f : A → M B) : unsaga m → (∀ a, unsaga (f a)) → unsaga (m ≫= f).
Proof.
  intros Hm Hf w. unfold mbind, M_bind. specialize (Hm w). destruct (m w) as [[a|e] w1]; simpl in *; [|done].
  eapply same_saga_trans; [exact Hm|]. apply Hf.
Qed.

Lemma unsaga_autocommit {A} (m : M A) : unsaga m → unsaga (autocommit m).
Proof.
  intros Hm w. destruct (autocommit_cases m w) as [->|(a & w0 & w1 & <- & Hrun & ->)]; [apply same_saga_refl|].
  specialize (Hm w0). by rewrite Hrun in Hm.
Qed.

Lemma unsaga_keys (f : DB → gmap (string * string) idempotency_row) :
  unsaga (modify (λ d, set_idempotency_keys (f d) d)).
Proof. by intros w. Qed.

Ltac unsaga :=
  repeat first
    [ progress intros
    | match goal with
      | |- unsaga (mbind _ _) => apply unsaga_bind
      | |- unsaga (autocommit _) => apply unsaga_autocommit
      | |- unsaga (match ?x with _ => _ end) => destruct x
      | |- unsaga (if ?b then _ else _) => destruct b
      | |- unsaga tx_start => apply unsaga_id, tx_start_db
      | |- unsaga sql_exec => apply unsaga_id, sql_exec_db
      | |- unsaga (guard_M _ _) => apply unsaga_id; intros; apply guard_M_db
      | |- unsaga (modify _) => apply unsaga_keys
      end
    | solve [by apply unsaga_id] ].

Lemma unsaga_Reserve r : unsaga (Store_Reserve r).
Proof. unfold Store_Reserve. unsaga. Qed.
Lemma unsaga_Reclaim p k l : unsaga (Store_Reclaim p k l).
Proof. unfold Store_Reclaim, update_ik. unsaga. Qed.
Lemma unsaga_Fail p k c b : unsaga (Store_Fail p k c b).
Proof. unfold Store_Fail, update_ik. unsaga. Qed.
Lemma unsaga_Release p k : unsaga (Store_Release p k).
Proof. unfold Store_Release. unsaga. Qed.
Lemma unsaga_Sweep n : unsaga (Store_Sweep n).
Proof. unfold Store_Sweep. unsaga. Qed.

Lemma unsaga_safe {A} (m : M A) w : framed m → unsaga m → sys_wf (w_db w) → safe_step (w_db w) (w_db (m w).2).
Proof.
  intros Hf Hu [Hl Hs]. split; [split|].
  - by apply framed_wf.
  - by eapply same_saga_wf.
  - apply same_saga_evolves, Hu.
Qed.

Section system.
Context `{UL : UuidLib} `{ET : ErrorText}.

Lemma create_safe repo req w : sys_wf (w_db w) → safe_step (w_db w) (w_db (CreateAccount repo req w).2).
Proof.
  intros [Hl Hs]. destruct (CreateAccount repo req w) as [r w'] eqn:Hrun. simpl.
  apply create_once in Hrun as [[-> _]|(id & Ho & _)]; [by split| |done].
  pose proof (ledger_wf_opened _ _ _ _ Hl Ho) as Hl'. destruct Ho as (now & o & Hfresh & _ & _ & _ & _ & Hd).
  assert (Hsame : same_saga (w_db w) (w_db w')).
  { rewrite Hd. split_and!; [done|done|]. intros acct. unfold pending. simpl.
    destruct (decide (acct = id)) as [->|Hne]; [|by rewrite lookup_insert_ne].
    rewrite lookup_insert_eq. simpl. destruct (account_balances (w_db w) !! id) as [b|] eqn:Hb; [|done].
    destruct (wf_balance_account _ Hl _ _ Hb). congruence. }
  split; [split; [done|by eapply same_saga_wf]|by apply same_saga_evolves].
Qed.

Lemma apply_safe env w : sys_wf (w_db w) → safe_step (w_db w) (w_db (Apply env w).2).
Proof.
  intros [Hl Hs]. destruct (Apply env w) as [r w'] eqn:Hrun. simpl.
  apply Apply_cases in Hrun as [[->|(_ & _ & ->)] _]; [by split|].
  assert (Hsame : same_saga (w_db w) (applied env (w_db w))) by done.
  split; [split; [by apply applied_wf|by eapply same_saga_wf]|by apply same_saga_evolves].
Qed.

Lemma recorder_safe_none k : recorder_safe k None.
Proof. intros h u wa wb _ Hs _ Hrun. simpl in Hrun. injection Hrun as _ <-. by split. Qed.

(** ** Starting, claiming and renewing *)

Lemma validate_payload_ok p : Payload_validate p = Ok tt → is_int64 (Payload_AmountMinor p) → payload_ok p.
Proof.
  unfold Payload_validate. intros H [_ Hm]. checks H. bool_to_prop. split; lia.
Qed.

Lemma fails_clean_fail {A} e : fails_clean (fail e : M A).
Proof. intros w e' w' Hrun. by injection Hrun as _ <-. Qed.

Lemma getByIdempotencyKey_db p k w : w_db (getByIdempotencyKey p k w).2 = w_db w.
Proof.
  unfold getByIdempotencyKey, mbind, M_bind. pose proof (tx_start_db w) as H1.
  destruct (tx_start w) as [[?|?] w1]; simpl in *; [|done].
  pose proof (sql_exec_db w1) as H2. destruct (sql_exec w1) as [[?|?] w2]; simpl in *; [|congruence].
  destruct (filter _ _) as [|[]]; simpl; congruence.
Qed.

(** Either nothing changes or a pending saga is added. *)
Lemma saga_Create_cases i w :
  w_db (saga_Create i w).2 = w_db w ∨
  ∃ r, saga_instances (w_db w) !! Inst_ID i = None ∧ sg_status r = Inst_Status i ∧ sg_payload r = Inst_Payload i ∧
    w_db (saga_Create i w).2 = set_saga_instances (<[Inst_ID i := r]> (saga_instances (w_db w))) (w_db w).
Proof.
  set (m := insert_saga i (Inst_StepDeadlineAt i - w_clock w)).
  assert (Heq : w_db (saga_Create i w).2 = w_db (autocommit m w).2).
  { unfold saga_Create, mbind, M_bind, clock_Now. simpl. fold m.
    destruct (autocommit m w) as [[[j|]|e] w1]; [done| |done]. destruct (Inst_IdempotencyKey i); [apply getByIdempotencyKey_db|done]. }
  rewrite Heq. destruct (autocommit_cases m w) as [->|(a & w0 & w1 & Hd & Hrun & ->)]; [by left|].
  rewrite <- Hd. unfold m, insert_saga in Hrun. mrun. simpl in *.
  destruct (saga_key_taken _ _ _); mrun; simpl; [by left|]. right. bool_to_prop.
  refine (ex_intro _ _ (conj _ (conj _ (conj _ eq_refl)))); [by apply eq_None_not_Some|done|done].
Qed.

Lemma Start_safe o p principal key w : is_int64 (Payload_AmountMinor p) → sys_wf (w_db w) →
  safe_step (w_db w) (w_db (Start o p principal key w).2).
Proof.
  intros Hint [Hl Hs]. unfold Start, mbind, M_bind, lift.
  destruct (Payload_validate p) as [[]|e] eqn:Hv; simpl; [|by split].
  pose proof (uuid_NewV7_db w) as Hd. destruct (uuid_NewV7 w) as [[id|e] w1]; simpl in *; [|rewrite Hd; by split].
  set (i := mkInstance _ _ _ _ _ _ _ _ _ _ _ _ _ _).
  assert (Hl' : ledger_wf (w_db (saga_Create i w1).2)) by (apply framed_wf; [apply framed_Create|by rewrite Hd]).
  destruct (saga_Create_cases i w1) as [Heq|(r & Hnone & Hst & Hpl & Heq)]; rewrite Hd in Heq; rewrite Heq in *; [by split|].
  rewrite Hd in Hnone. simpl in *. split; [split; [done|]|].
  - destruct Hs as [W1 W2 W3 W4]. split; simpl; try done.
    + intros acct. rewrite held_new by done. unfold contrib. rewrite Hpl, Hst. simpl.
      change (pending acct (w_db w) = held acct (saga_instances (w_db w)) + 0). rewrite W1. lia.
    + intros j x q Hx Hq. destruct (decide (j = id)) as [->|Hne].
      * rewrite lookup_insert_eq in Hx. injection Hx as <-. rewrite Hpl in Hq. injection Hq as <-.
        by apply validate_payload_ok.
      * rewrite lookup_insert_ne in Hx by done. by eapply W2.
    + intros j k. rewrite W3. destruct (decide (j = id)) as [->|Hne]; [|by rewrite lookup_insert_ne].
      rewrite lookup_insert_eq, Hnone. simpl. rewrite Hst. by destruct k.
  - split; simpl.
    + intros j x Hx. rewrite lookup_insert_ne by congruence. exists x. split; [done|]. by split_and!.
    + intros j x Hx Hn. destruct (decide (j = id)) as [->|Hne].
      * rewrite lookup_insert_eq in Hx. injection Hx as <-. by rewrite Hst.
      * rewrite lookup_insert_ne in Hx by done. congruence.
Qed.

(** A lease is all that changes of a row. *)
Definition same_core (r r' : saga_row) : Prop :=
  sg_payload r' = sg_payload r ∧ sg_saga_type r' = sg_saga_type r ∧ sg_status r' = sg_status r.

Lemma relabel_safe d d' : sys_wf d → ledger_wf d' → saga_steps d' = saga_steps d →
  (∀ acct, pending acct d' = pending acct d) →
  (∀ acct, held acct (saga_instances d') = held acct (saga_instances d)) →
  (∀ id, option_Forall2 same_core (saga_instances d !! id) (saga_instances d' !! id)) → safe_step d d'.
Proof.
  intros [_ [W1 W2 W3 W4]] Hl Ht Hp Hh Hcore. split; [split; [done|]|].
  - split; rewrite ?Ht; try done.
    + intros acct. by rewrite Hp, Hh.
    + intros id r' p Hr' Hpl. specialize (Hcore id). rewrite Hr' in Hcore.
      inversion Hcore as [r ? (Hc & _) Hr|]; subst. eapply W2; [by symmetry|congruence].
    + intros id k. rewrite W3. specialize (Hcore id). inversion Hcore as [r r' (_ & _ & Hc)|]; [|done].
      simpl. by rewrite Hc.
  - split.
    + intros id r Hr. specialize (Hcore id). rewrite Hr in Hcore.
      inversion Hcore as [? r' (H1 & H2 & H3)|]; subst. exists r'. split; [done|]. split_and!; [done|done|by rewrite H3].
    + intros id r' Hr' Hn. specialize (Hcore id). rewrite Hr', Hn in Hcore. inversion Hcore.
Qed.

Lemma same_core_refl (m : gmap UUID saga_row) id : option_Forall2 same_core (m !! id) (m !! id).
Proof. destruct (m !! id); constructor. done. Qed.

Lemma leased_core (claimed : list (UUID * saga_row)) (m : gmap UUID saga_row) : NoDup claimed.*1 →
  (∀ id r', (id, r') ∈ claimed → ∃ r, m !! id = Some r ∧ same_core r r') →
  (∀ acct, held acct (list_to_map claimed ∪ m) = held acct m) ∧
  (∀ id, option_Forall2 same_core (m !! id) ((list_to_map claimed ∪ m : gmap UUID saga_row) !! id)).
Proof.
  induction claimed as [|[id r'] l IH]; intros Hnd Hin; simpl.
  { rewrite map_empty_union. split; [done|apply same_core_refl]. }
  simpl in Hnd. apply list.NoDup_cons in Hnd as [Hid Hnd].
  destruct IH as [Hh Hc]; [done|intros; apply Hin; set_solver|].
  destruct (Hin id r') as (r & Hr & Hcore); [set_solver|].
  assert (Hsame : (list_to_map l ∪ m : gmap UUID saga_row) !! id = Some r).
  { rewrite lookup_union_r; [done|]. by apply not_elem_of_list_to_map_1. }
  rewrite <- insert_union_l. split.
  - intros acct. rewrite (held_insert _ _ _ r) by done. rewrite Hh.
    rewrite (contrib_same_holding acct r r'); [lia|apply Hcore|]. destruct Hcore as (_ & _ & ->). done.
  - intros j. destruct (decide (j = id)) as [->|Hne].
    + rewrite lookup_insert_eq, Hr. by constructor.
    + rewrite lookup_insert_ne by done. apply Hc.
Qed.

(** The rows a claim picks have distinct ids. *)
Lemma claim_rows_nodup (f : UUID * saga_row → UUID * saga_row → bool) (q : saga_row → bool) n (m : gmap UUID saga_row) :
  NoDup (take n (sort_by f (filter (λ kr : UUID * saga_row, q kr.2 = true) (map_to_list m)))).*1.
Proof.
  rewrite fmap_take. eapply sublist_NoDup; [|apply sublist_take]. rewrite (sort_by_perm _ _). apply NoDup_fmap_fst.
  - intros k r1 r2 [_ K1%elem_of_map_to_list]%list_elem_of_filter [_ K2%elem_of_map_to_list]%list_elem_of_filter.
    congruence.
  - apply list.NoDup_filter, NoDup_map_to_list.
Qed.

Lemma claim_safe p b owner lease batch w : sys_wf (w_db w) →
  safe_step (w_db w) (w_db (saga_claim p b owner lease batch w).2).
Proof.
  intros Hwf. pose proof (framed_wf _ w (framed_saga_claim p b owner lease batch) (proj1 Hwf)) as Hl. revert Hl.
  unfold saga_claim. edestruct @autocommit_cases as [->|(l & w0 & w1 & H1 & Hrun & ->)]; [by split|]. mrun. simpl in *.
  rewrite H1. set (rows := take batch _). set (claimed := fmap _ rows). intros Hl.
  assert (Hnd : NoDup rows.*1) by exact (claim_rows_nodup _ (p _) _ _).
  destruct (leased_core claimed (saga_instances (w_db w))) as [Hh Hc].
  - unfold claimed. rewrite <- list_fmap_compose. exact Hnd.
  - intros id r' ([k r] & [= -> ->] & Hin)%list_elem_of_fmap. exists r. split; [|done].
    unfold rows in Hin. apply elem_of_take in Hin as (j & Hj & _). apply list_elem_of_lookup_2 in Hj.
    rewrite sort_by_elem in Hj. apply list_elem_of_filter in Hj as [_ Hj]. by apply elem_of_map_to_list in Hj.
  - by apply relabel_safe.
Qed.

Lemma renew_safe id owner lease w : sys_wf (w_db w) → safe_step (w_db w) (w_db (saga_RenewLease id owner lease w).2).
Proof.
  intros Hwf. pose proof (framed_wf _ w (framed_RenewLease id owner lease) (proj1 Hwf)) as Hl. revert Hl.
  unfold saga_RenewLease. edestruct @autocommit_cases as [->|(u & w0 & w1 & H1 & Hrun & ->)]; [by split|]. mrun. simpl in *.
  rewrite H1 in Hrun. destruct (saga_instances (w_db w) !! id) as [r|] eqn:Hr; [|by mrun].
  case_bool_decide; [|by mrun]. mrun. simpl. rewrite H1. intros Hl.
  destruct (leased_core [(id, set_lease owner (w_now w0 + lease) (w_now w0) r)] (saga_instances (w_db w))) as [Hh Hc].
  - simpl. apply NoDup_singleton.
  - intros j r' [= -> ->]%list_elem_of_singleton. by exists r.
  - simpl in Hh, Hc. rewrite <- insert_union_l, map_empty_union in *. apply relabel_safe; try done.
Qed.

(** ** The transition system *)

Inductive payout_op :=
| PoPostTransaction (repo : Repository) (req : TransactionRequest)
| PoReverseTransaction (repo : Repository) (txID : UUID) (reason : string) (idem : option Idempotent)
| PoCreateAccount (repo : Repository) (req : CreateAccountRequest)
| PoReserve (r : Reservation)
| PoReclaim (principalID key : string) (lease : Z)
| PoFail (principalID key : string) (code : Z) (body : option string)
| PoRelease (principalID key : string)
| PoSweep (batch : nat)
| PoApply (env : Envelope)
| PoStart (o : Orchestrator) (p : Payload) (principalID : string) (idempotencyKey : option string)
| PoClaimRunnable (sagaType owner : string) (lease : Z) (batch : nat)
| PoClaimExpired (sagaType owner : string) (lease : Z) (batch : nat)
| PoRenewLease (id : UUID) (owner : string) (lease : Z)
| PoDrive (o : Orchestrator) (i : Instance_).

Definition payout_run (op : payout_op) (w : World) : World :=
  match op with
  | PoPostTransaction repo req => (postTransaction repo req w).2
  | PoReverseTransaction repo txID reason idem => (doReverse repo txID reason idem None w).2
  | PoCreateAccount repo req => (CreateAccount repo req w).2
  | PoReserve r => (Store_Reserve r w).2
  | PoReclaim p k lease => (Store_Reclaim p k lease w).2
  | PoFail p k code body => (Store_Fail p k code body w).2
  | PoRelease p k => (Store_Release p k w).2
  | PoSweep n => (Store_Sweep n w).2
  | PoApply env => (Apply env w).2
  | PoStart o p principal key => (Start o p principal key w).2
  | PoClaimRunnable ty owner lease n => (saga_ClaimRunnable ty owner lease n w).2
  | PoClaimExpired ty owner lease n => (saga_ClaimExpired ty owner lease n w).2
  | PoRenewLease id owner lease => (saga_RenewLease id owner lease w).2
  | PoDrive o i => (driveOne o i w).2
  end.

(** The API sets no recorder; amounts fit int64; a drive works on an instance
    claimed at some earlier point, through a client that leaves the database alone. *)
Definition payout_ok (op : payout_op) (d : DB) : Prop :=
  match op with
  | PoPostTransaction _ req => request_ok req ∧ Rq_Record req = None
  | PoStart _ p _ _ => is_int64 (Payload_AmountMinor p)
  | PoDrive o i => ClientOk (o_gateway o) ∧ snapshot i d
  | _ => True
  end.

Inductive payout_step : DB → DB → Prop :=
| payout_runs op w : payout_ok op (w_db w) → payout_step (w_db w) (w_db (payout_run op w)).

Definition payout_reachable (d : DB) : Prop := rtc payout_step empty_DB d.

Lemma payout_step_safe op w : sys_wf (w_db w) → payout_ok op (w_db w) →
  safe_step (w_db w) (w_db (payout_run op w)).
Proof.
  intros Hwf Hok. destruct op; simpl in *.
  - destruct Hok as [Hreq Hno]. refine (safe_post None repo req Hreq _ w Hwf I).
    rewrite Hno. apply recorder_safe_none.
  - exact (safe_reverse None repo txID reason idem None recorder_none (recorder_safe_none None) w Hwf I).
  - exact (create_safe _ _ w Hwf).
  - exact (unsaga_safe _ w (framed_Reserve _) (unsaga_Reserve _) Hwf).
  - exact (unsaga_safe _ w (framed_Reclaim _ _ _) (unsaga_Reclaim _ _ _) Hwf).
  - exact (unsaga_safe _ w (framed_Fail _ _ _ _) (unsaga_Fail _ _ _ _) Hwf).
  - exact (unsaga_safe _ w (framed_Release _ _) (unsaga_Release _ _) Hwf).
  - exact (unsaga_safe _ w (framed_Sweep _) (unsaga_Sweep _) Hwf).
  - exact (apply_safe _ w Hwf).
  - exact (Start_safe _ _ _ _ w Hok Hwf).
  - exact (claim_safe _ _ _ _ _ w Hwf).
  - exact (claim_safe _ _ _ _ _ w Hwf).
  - exact (renew_safe _ _ _ w Hwf).
  - destruct Hok as [Hg Hsn]. exact (safe_driveOne o i Hg w Hwf Hsn).
Qed.

Lemma payout_steps_safe d d' : rtc payout_step d d' → sys_wf d → safe_step d d'.
Proof.
  induction 1 as [d|d1 d2 d3 Hstep _ IH]; intros Hwf; [by split|].
  destruct Hstep as [op w Hok]. destruct (payout_step_safe op w Hwf Hok) as [Hwf2 He].
  destruct (IH Hwf2) as [Hwf3 He3]. split; [done|by etrans].
Qed.

Lemma payout_reachable_wf d : payout_reachable d → sys_wf d.
Proof.
  intros Hr. eapply payout_steps_safe; [exact Hr|]. split; [apply empty_DB_wf|by apply saga_wf_empty].
Qed.

(** C12: holds always match the sagas.  In every database reachable by API calls,
    idempotency and projector operations and any number of payout orchestrators
    (claiming, crashing, losing COMMIT answers, driving from stale claims), the
    hold on every account is exactly the sum of the amounts of the sagas that have
    money in suspense there: those RESERVED, at the gateway, COMPENSATING or
    handed to a human.  And each of those has its posted reserve transaction on
    record, for a compensation to reverse. *)
Theorem holds_match_sagas d : payout_reachable d →
  (∀ acct b, account_balances d !! acct = Some b → b_pending_minor b = held acct (saga_instances d)) ∧
  (∀ id r, saga_instances d !! id = Some r → holding (sg_status r) = true →
     ∃ s tx, s ∈ saga_steps d ∧ ss_saga_id s = id ∧ is_reserve s ∧ ss_transaction_id s = Some tx ∧ tx ≠ uuid_Nil).
Proof.
  intros [_ Hs]%payout_reachable_wf. split.
  - intros acct b Hb. rewrite <- (sw_holds d Hs acct). unfold pending. by rewrite Hb.
  - intros id r Hr Hh. destruct (sw_reserved d Hs id r Hr Hh) as (s & Hin & Hid & Hres).
    destruct (sw_steps d Hs s Hin) as [Htx _]. destruct (Htx Hres) as (tx & Heq & Hnn). eauto 10.
Qed.

Lemma terminal_stays s t : SagaStatus_Terminal s = true → edge s t → t = s.
Proof.
  intros Ht [<-|He]; [done|]. unfold documented_edges, undocumented_edge in He.
  repeat (apply elem_of_cons in He as [He|He]; [injection He as -> ->; vm_compute in Ht; discriminate|]).
  by apply not_elem_of_nil in He.
Qed.

Lemma terminal_final s t : SagaStatus_Terminal s = true → rtc edge s t → t = s.
Proof. intros Ht Hr. induction Hr as [|s1 s2 s3 He _ IH]; [done|]. apply terminal_stays in He as ->; auto. Qed.

(** C13: sagas follow a fixed state machine, which is the documented one with one edge
    more.  Along any execution a saga keeps its payload and its type, it never
    disappears, a terminal status is final, a new saga starts as PENDING, and every
    change of status is an edge of the graph of docs/ARCHITECTURE.md (PENDING to RESERVED
    or FAILED; RESERVED to GATEWAY_PENDING; from there to GATEWAY_SUCCEEDED,
    GATEWAY_FAILED or a human; and so on) or the one edge no document has, from
    GATEWAY_SUCCEEDED to COMPENSATING, which a SETTLE that fails for good takes. *)
Theorem sagas_follow_graph d d' : payout_reachable d → rtc payout_step d d' →
  (∀ id r, saga_instances d !! id = Some r → ∃ r', saga_instances d' !! id = Some r' ∧
     sg_payload r' = sg_payload r ∧ sg_saga_type r' = sg_saga_type r ∧ rtc edge (sg_status r) (sg_status r') ∧
     (SagaStatus_Terminal (sg_status r) = true → sg_status r' = sg_status r)) ∧
  (∀ id r', saga_instances d' !! id = Some r' → saga_instances d !! id = None →
     rtc edge StatusPending (sg_status r')).
Proof.
  intros Hr%payout_reachable_wf Hs. destruct (payout_steps_safe d d' Hs Hr) as [_ [Ho Hn]]. split; [|done].
  intros id r Hrow. destruct (Ho id r Hrow) as (r' & Hr' & Hp & Hty & Hpath). exists r'. split_and!; try done.
  intros Ht. by apply terminal_final.
Qed.
End system.
