(* ===== verification/PayoutDemo.v ===== *)
(** * A concrete payout

    The demo ledger with a suspense and a fee account, and one saga driven on it
    twice: once with a gateway that confirms, once with one that declines.  The
    witnesses of the payout theorems evaluate the model on these runs. *)

From S2P Require Import Prelude Errors Money Json Types SagaTypes Events Schema Outbox PgIdem.
From S2P Require Import PgSaga Retry PgLedger Service Ledger Uuid Demo Manager Gateway Payout.
From S2P Require Import SagaInv SagaSafety PayoutSystem.
Open Scope string_scope.
Open Scope Z_scope.

#[local] Instance plain_text : ErrorText := λ _, "error".

Definition suspense_req := mkCreateAccountRequest "suspense" "LIABILITY" "INR" None false.
Definition fee_req := mkCreateAccountRequest "fees" "REVENUE" "INR" None false.
Definition suspense_id : UUID := 200%N.
Definition fee_id : UUID := 210%N.
Definition saga_id : UUID := 220%N.

(** 300 minor units from the wallet to the merchant, 30 of them the fee. *)
Definition payout_payload : Payload := mkPayload wallet_id suspense_id merchant_id fee_id 300 30 "INR" "order-1".

Definition confirming : Client :=
  HTTPClient (λ r _, Response 201 (Some (mk_paymentResponse (Preq_IdempotencyKey r) "ref" "SUCCEEDED" "" 300 "INR" 0)))
    (λ _ _, Response 404 None).
Definition declining : Client :=
  HTTPClient (λ r _, Response 201 (Some (mk_paymentResponse (Preq_IdempotencyKey r) "ref" "FAILED" "limit" 300 "INR" 0)))
    (λ _ _, Response 404 None).
(** A gateway that never answers. *)
Definition silent : Client := HTTPClient (λ _ _, NoResponse TransportDeadline) (λ _ _, NoResponse TransportDeadline).

Definition payout_cfg : Config := mkConfig "" "worker-1" 0 0 30000000000 60000000000 5 5 0 3.
Definition orchestrator (gw : Client) : Orchestrator := payout_New demo_repo gw payout_cfg.

(** The saga as a claim would return it. *)
Definition current (d : DB) : option Instance_ := instance_of saga_id <$> saga_instances d !! saga_id.

(** One drive of the saga in a quiet environment. *)
Definition drive (gw : Client) (n : N) (d : DB) : DB :=
  match current d with
  | Some i => w_db (driveOne (orchestrator gw) i (quiet_world d n)).2
  | None => d
  end.

Definition payout_db0 : DB := w_db (CreateAccount demo_repo suspense_req (quiet_world funded_db 200)).2.
Definition payout_db1 : DB := w_db (CreateAccount demo_repo fee_req (quiet_world payout_db0 210)).2.
Definition started_db : DB :=
  w_db (Start (orchestrator confirming) payout_payload "alice" None (quiet_world payout_db1 220)).2.

(** Reserved, confirmed by the gateway, settled. *)
Definition held_db : DB := drive confirming 300 started_db.
Definition paid_db : DB := drive confirming 400 held_db.
Definition completed_db : DB := drive confirming 500 paid_db.

(** Declined, then compensated. *)
Definition declined_db : DB := drive declining 400 held_db.
Definition compensated_db : DB := drive declining 600 (drive declining 500 declined_db).

Definition status_of (d : DB) : option SagaStatus := sg_status <$> saga_instances d !! saga_id.
Definition available (d : DB) (acct : UUID) : option Z := b_available_minor <$> account_balances d !! acct.
Definition on_hold (d : DB) (acct : UUID) : option Z := b_pending_minor <$> account_balances d !! acct.

(** The confirmed payout: 300 leave the wallet, 270 reach the merchant, 30 are the fee. *)
Example payout_completes :
  status_of held_db = Some StatusReserved ∧ available held_db suspense_id = Some 300 ∧
  on_hold held_db suspense_id = Some 300 ∧ status_of paid_db = Some StatusGatewaySucceeded ∧
  status_of completed_db = Some StatusCompleted ∧ available completed_db wallet_id = Some 200 ∧
  available completed_db merchant_id = Some 270 ∧ available completed_db fee_id = Some 30 ∧
  available completed_db suspense_id = Some 0 ∧ on_hold completed_db suspense_id = Some 0.
Proof. vm_compute. by split_and!. Qed.

(** The declined one: everything is back where it was. *)
Example payout_compensates :
  status_of declined_db = Some StatusGatewayFailed ∧ status_of compensated_db = Some StatusCompensated ∧
  available compensated_db wallet_id = Some 500 ∧ available compensated_db suspense_id = Some 0 ∧
  on_hold compensated_db suspense_id = Some 0 ∧ available compensated_db merchant_id = Some 0.
Proof. vm_compute. by split_and!. Qed.

(** The undocumented edge is taken: the fee account does not exist, so settling the
    confirmed payment fails for good and the customer is refunded. *)
Definition feeless_db : DB :=
  w_db (Start (orchestrator confirming) (mkPayload wallet_id suspense_id merchant_id 999%N 300 30 "INR" "order-2") "alice" None
    (quiet_world payout_db1 220)).2.
Definition unsettled_db : DB := drive confirming 400 (drive confirming 300 feeless_db).

Example failed_settle_refunds :
  status_of unsettled_db = Some StatusGatewaySucceeded ∧
  status_of (drive confirming 500 unsettled_db) = Some StatusCompensating ∧
  status_of (drive confirming 600 (drive confirming 500 unsettled_db)) = Some StatusCompensated ∧
  available (drive confirming 600 (drive confirming 500 unsettled_db)) wallet_id = Some 500.
Proof. vm_compute. by split_and!. Qed.

(** ** These databases are reachable *)

(** Conversion compares the databases by name from here on. *)
Lemma payout_db0_eq : payout_db0 = w_db (CreateAccount demo_repo suspense_req (quiet_world funded_db 200)).2.
Proof. reflexivity. Qed.
Lemma payout_db1_eq : payout_db1 = w_db (CreateAccount demo_repo fee_req (quiet_world payout_db0 210)).2.
Proof. reflexivity. Qed.
Lemma started_db_eq : started_db =
  w_db (Start (orchestrator confirming) payout_payload "alice" None (quiet_world payout_db1 220)).2.
Proof. reflexivity. Qed.
Lemma held_db_eq : held_db = drive confirming 300 started_db.
Proof. reflexivity. Qed.
Lemma paid_db_eq : paid_db = drive confirming 400 held_db.
Proof. reflexivity. Qed.
Lemma completed_db_eq : completed_db = drive confirming 500 paid_db.
Proof. reflexivity. Qed.

#[global] Opaque payout_db0 payout_db1 started_db held_db paid_db completed_db.

Lemma reach_more d d' : payout_reachable d → rtc payout_step d d' → payout_reachable d'.
Proof. intros H1 H2. unfold payout_reachable. by etrans. Qed.

Lemma po_step op w d d' : w_db w = d → d' = w_db (payout_run op w) → payout_ok op d → payout_step d d'.
Proof. intros <- -> Hok. by constructor. Qed.

Lemma create_step req d n : payout_step d (w_db (CreateAccount demo_repo req (quiet_world d n)).2).
Proof. by apply (po_step (PoCreateAccount demo_repo req) (quiet_world d n)). Qed.

Lemma drive_step gw n d : ClientOk gw → rtc payout_step d (drive gw n d).
Proof.
  intros Hg. unfold drive, current. destruct (saga_instances d !! saga_id) as [r|] eqn:Hr; [|reflexivity]. simpl.
  apply rtc_once. apply (po_step (PoDrive (orchestrator gw) (instance_of saga_id r)) (quiet_world d n)); [done|done|].
  split; [done|]. by exists r.
Qed.

Lemma confirming_ok : ClientOk confirming.
Proof. apply HTTPClient_ok. Qed.

Lemma funded_po_reachable : payout_reachable funded_db.
Proof.
  apply (rtc_l _ _ demo_db1); [rewrite demo_db1_eq; exact (create_step _ _ _)|].
  apply (rtc_l _ _ demo_db2); [rewrite demo_db2_eq; exact (create_step _ _ _)|].
  apply (rtc_l _ _ demo_db); [rewrite demo_db_eq; exact (create_step _ _ _)|].
  apply rtc_once. apply (po_step (PoPostTransaction demo_repo funding) (quiet_world demo_db 100));
    [apply quiet_world_db|exact funded_db_eq|]. split; [exact funding_ok|done].
Qed.

Lemma started_reachable : payout_reachable started_db.
Proof.
  apply (reach_more funded_db); [exact funded_po_reachable|].
  apply (rtc_l _ _ payout_db0); [rewrite payout_db0_eq; exact (create_step _ _ _)|].
  apply (rtc_l _ _ payout_db1); [rewrite payout_db1_eq; exact (create_step _ _ _)|].
  apply rtc_once.
  apply (po_step (PoStart (orchestrator confirming) payout_payload "alice" None) (quiet_world payout_db1 220));
    [apply quiet_world_db|exact started_db_eq|]. split; vm_compute; congruence.
Qed.

Lemma held_reachable : payout_reachable held_db.
Proof. rewrite held_db_eq. exact (reach_more _ _ started_reachable (drive_step _ _ _ confirming_ok)). Qed.

Lemma paid_then_completed : rtc payout_step held_db completed_db.
Proof.
  etrans; [|rewrite completed_db_eq; exact (drive_step _ _ _ confirming_ok)].
  rewrite paid_db_eq. exact (drive_step _ _ _ confirming_ok).
Qed.

Lemma found_saga (d : DB) s : status_of d = Some s → ∃ r, saga_instances d !! saga_id = Some r ∧ sg_status r = s.
Proof. unfold status_of. destruct (saga_instances d !! saga_id); naive_solver. Qed.

Lemma holds_match_sagas_witness : status_of held_db = Some StatusReserved ∧
  ∃ s tx, s ∈ saga_steps held_db ∧ ss_saga_id s = saga_id ∧ is_reserve s ∧ ss_transaction_id s = Some tx ∧
    tx ≠ uuid_Nil.
Proof.
  assert (Hst : status_of held_db = Some StatusReserved) by (vm_compute; reflexivity). split; [done|].
  destruct (found_saga held_db _ Hst) as (r & Hr & Hs).
  apply (proj2 (holds_match_sagas held_db held_reachable) saga_id r Hr). by rewrite Hs.
Defined.

Lemma sagas_follow_graph_witness : status_of completed_db = Some StatusCompleted ∧ rtc edge StatusReserved StatusCompleted.
Proof.
  assert (Hst : status_of held_db = Some StatusReserved) by (vm_compute; reflexivity).
  assert (Hst' : status_of completed_db = Some StatusCompleted) by (vm_compute; reflexivity). split; [done|].
  destruct (found_saga _ _ Hst) as (r & Hr & <-). destruct (found_saga _ _ Hst') as (r' & Hr' & <-).
  destruct (proj1 (sagas_follow_graph held_db completed_db held_reachable paid_then_completed) saga_id r Hr)
    as (r2 & Hr2 & _ & _ & Hpath & _). rewrite Hr' in Hr2. by injection Hr2 as <-.
Defined.
