(* ===== verification/SagaAtomic.v ===== *)
(** * Money moves with the saga

    One drive of a payout saga either records nothing in the ledger and no money
    step on the saga, or records exactly one transaction and, in the same database
    transaction, the one step of the saga it belongs to. *)

From S2P Require Import Prelude Errors Money Json Types SagaTypes Events Schema Outbox PgIdem.
From S2P Require Import PgSaga Retry PgLedger Service PgLedgerSpec ServiceSpec Invariant Validate.
From S2P Require Import Posting Ledger Frames Uuid Demo Guarantees Manager Gateway Payout SagaInv.
From S2P Require Import SagaSafety PayoutSystem PayoutDemo.
Open Scope string_scope.
Open Scope Z_scope.

(** ** A committed body runs once *)

Section once.
Context `{UL : UuidLib} {A : Type} (repo : Repository) (body : M A) (R : DB → DB → Prop).

Lemma InTx_at_most_once w r w' :
  (∀ w1 a w2, w_db w1 = w_db w → tx_committed body w1 a w2 → R (w_db w) (w_db w2)) →
  (∀ w1 a w2, R (w_db w) (w_db w1) → tx_committed body w1 a w2 → False) →
  InTx repo body w = (r, w') →
  (w_db w' = w_db w ∧ is_ok r = false) ∨ R (w_db w) (w_db w').
Proof.
  intros Hfirst Hno Hrun. set (I := λ d, d = w_db w ∨ R (w_db w) d).
  assert (Hstep : ∀ w1 a w2, I (w_db w1) → tx_committed body w1 a w2 → I (w_db w2)).
  { intros w1 a w2 [Heq|HR] Hc; [right; by eapply Hfirst|by destruct (Hno _ _ _ HR Hc)]. }
  assert (HI : I (w_db w)) by by left.
  pose proof (InTx_inv repo body I Hstep w HI) as HI'. rewrite Hrun in HI'. simpl in HI'.
  destruct r as [a|e]; [|destruct HI'; [by left|by right]].
  destruct (InTx_ok repo body I Hstep w a w' HI Hrun) as (w0 & w1 & [Heq|HR] & Hc & Hd);
    [|by destruct (Hno _ _ _ HR Hc)]. right. rewrite Hd. by eapply Hfirst.
Qed.
End once.

(** ** Drives that move no money *)

Record idle_step (d d' : DB) : Prop := {
  id_transactions : transactions d' = transactions d;
  id_journal : journal_entries d' = journal_entries d;
  id_posted : ∀ k id, posted_steps k id (saga_steps d') = posted_steps k id (saga_steps d) }.

#[export] Instance idle_step_preorder : PreOrder idle_step.
Proof.
  split; [by split|]. intros d1 d2 d3 [T1 J1 P1] [T2 J2 P2]. split; [congruence|congruence|].
  intros k id. by rewrite P2, P1.
Qed.

Definition idle {A} (i : option Instance_) (m : M A) : Prop := ∀ w,
  sys_wf (w_db w) → known i (w_db w) → idle_step (w_db w) (w_db (m w).2).

Section rules.
Context {A B : Type} (i : option Instance_).

Lemma idle_id (m : M A) : (∀ w, w_db (m w).2 = w_db w) → idle i m.
Proof. intros Hm w _ _. by rewrite Hm. Qed.

Lemma idle_bind (m : M A) (f : A → M B) : safe i m → idle i m → (∀ a, idle i (f a)) → idle i (m ≫= f).
Proof.
  intros Hs Hm Hf w Hwf Hk. unfold mbind, M_bind. destruct (Hs w Hwf Hk) as [Hwf1 He1].
  specialize (Hm w Hwf Hk). destruct (m w) as [[a|e] w1]; simpl in *; [|done].
  etrans; [exact Hm|]. apply Hf; [done|by eapply known_evolves].
Qed.

(** A framed operation is idle when it leaves the recorded money steps alone. *)
Lemma idle_framed (m : M A) : framed m →
  (∀ w, sys_wf (w_db w) → ∀ k id, posted_steps k id (saga_steps (w_db (m w).2)) = posted_steps k id (saga_steps (w_db w))) →
  idle i m.
Proof. intros Hf Hp w Hwf _. destruct (Hf w). split; auto. Qed.
End rules.

(** Operations that write no step row. *)
Definition stepless {A} (m : M A) : Prop := ∀ w, saga_steps (w_db (m w).2) = saga_steps (w_db w).

Lemma stepless_bind {A B} (m : M A) (f : A → M B) : stepless m → (∀ a, stepless (f a)) → stepless (m ≫= f).
Proof.
  intros Hm Hf w. unfold mbind, M_bind. specialize (Hm w). destruct (m w) as [[a|e] w1]; simpl in *; [|done].
  by rewrite Hf.
Qed.

Lemma stepless_id {A} (m : M A) : (∀ w, w_db (m w).2 = w_db w) → stepless m.
Proof. intros Hm w. by rewrite Hm. Qed.

Lemma stepless_autocommit {A} (m : M A) : (∀ w a w', m w = (Ok a, w') → saga_steps (w_db w') = saga_steps (w_db w)) →
  stepless (autocommit m).
Proof.
  intros Hok w. destruct (autocommit_cases m w) as [->|(a & w0 & w1 & <- & Hrun & ->)]; [done|by eapply Hok].
Qed.

Lemma stepless_pool_tx {A} (m : M A) : (∀ w a w', m w = (Ok a, w') → saga_steps (w_db w') = saga_steps (w_db w)) →
  stepless (pool_tx m).
Proof.
  intros Hok w. unfold pool_tx. destruct (begin_run w) as (r & w1 & -> & Hd). destruct r as [u0|e0]; simpl; [|by rewrite Hd].
  destruct (m w1) as [[a|e] w2] eqn:Hrun; simpl; [|by rewrite Hd]. apply Hok in Hrun as Hs. rewrite Hd in Hs.
  unfold next_commit. destruct (w_commits w2) as [|[|?|?] ?]; simpl; try done. by rewrite Hd.
Qed.

Lemma advance_steps t u w w' : advance t w = (Ok u, w') → saga_steps (w_db w') = saga_steps (w_db w).
Proof. intros (r & _ & _ & -> & _)%advance_ok. done. Qed.

Lemma stepless_Advance t : stepless (saga_Advance t).
Proof.
  apply stepless_autocommit. intros w a w'. apply advance_steps.
Qed.

Lemma stepless_Escalate t alert : stepless (saga_Escalate t alert).
Proof.
  apply stepless_pool_tx. intros w u w' Hrun. mrun.
  match goal with H : advance _ _ = _ |- _ => apply advance_steps in H end.
  match goal with H : outbox_Append _ _ = _ |- _ => apply outbox_Append_ok in H as (? & ? & -> & _) end. done.
Qed.

Lemma idle_stepless {A} i (m : M A) : framed m → stepless m → idle i m.
Proof. intros Hf Hs. apply idle_framed; [done|]. intros w _ k id. by rewrite Hs. Qed.

Lemma idle_Advance i t : idle i (saga_Advance t).
Proof. apply idle_stepless; [apply framed_Advance|apply stepless_Advance]. Qed.

Lemma idle_try_record i a : At_Status a = StepFailed → idle i (try_record a).
Proof.
  intros Ha w Hwf _. change (w_db (try_record a w).2) with (w_db (saga_RecordAttempt a w).2).
  refine (idle_framed None (saga_RecordAttempt a) (framed_RecordAttempt a) _ w Hwf I). clear w Hwf.
  intros w _ k id. unfold saga_RecordAttempt. edestruct @autocommit_cases as [->|(u & w0 & w1 & <- & Hrun & ->)]; [done|]. mrun.
  apply insert_step_ok in Hrun as (_ & -> & _). simpl. rewrite posted_steps_app.
  rewrite unposted_none with (l := [_]), app_nil_r; [done|]. intros s ->%list_elem_of_singleton.
  unfold unposted. simpl. by rewrite Ha.
Qed.

Lemma idle_BeginStep i a t : idle i (saga_BeginStep a t).
Proof.
  apply idle_framed; [apply framed_BeginStep|]. intros w _ k id. unfold saga_BeginStep, pool_tx.
  destruct (begin_run w) as (r & w1 & -> & Hd). destruct r as [u0|e0]; simpl; [|by rewrite Hd].
  match goal with |- context [match ?m w1 with _ => _ end] => destruct (m w1) as [[u|e] w2] eqn:Hrun end;
    simpl; [|by rewrite Hd].
  assert (Hp : posted_steps k id (saga_steps (w_db w2)) = posted_steps k id (saga_steps (w_db w))).
  { mrun. match goal with H : insert_step _ _ = _ |- _ => apply insert_step_ok in H as (_ & Hd1 & _) end.
    apply advance_steps in Hrun as ->. rewrite Hd1. simpl. rewrite posted_steps_app, Hd.
    rewrite unposted_none with (l := [_]), app_nil_r; [done|]. by intros s ->%list_elem_of_singleton. }
  unfold next_commit. destruct (w_commits w2) as [|[|?|?] ?]; simpl; try done. by rewrite Hd.
Qed.

Lemma idle_FinishAttempt i f : idle i (saga_FinishAttempt f).
Proof.
  apply idle_framed; [apply framed_FinishAttempt|]. intros w Hwf k id.
  unfold saga_FinishAttempt. edestruct @autocommit_cases as [->|(u & w0 & w1 & Hd & Hrun & ->)]; [done|].
  rewrite <- Hd in *. mrun. simpl in *. destruct (existsb _ _); mrun; simpl; [|done].
  apply finish_posted. apply (sw_steps _ (proj2 Hwf)).
Qed.

Section handlers.
Context `{UL : UuidLib} `{ET : ErrorText}.
Implicit Types i : Instance_.

Lemma idle_failForwardStep o i step att n cause : idle i (failForwardStep o i step att n cause).
Proof.
  unfold failForwardStep. apply idle_bind; [by apply safe_try_record|by apply idle_try_record|intros _]. simpl.
  repeat case_match; apply idle_Advance.
Qed.

Lemma framed_escalate o i e : framed (escalate o i e).
Proof.
  unfold escalate. apply framed_lift_bind. intros pl ->%json_Marshal_ok. apply framed_bind; [by apply framed_id|intros now].
  by apply framed_Escalate.
Qed.

Lemma idle_escalate o i e : idle i (escalate o i e).
Proof.
  apply idle_stepless; [apply framed_escalate|]. unfold escalate. apply stepless_bind; [by apply stepless_id|intros pl].
  apply stepless_bind; [by apply stepless_id|intros now]. apply stepless_Escalate.
Qed.

Lemma idle_failCompensation o i att n cause : idle i (failCompensation o i att n cause).
Proof.
  unfold failCompensation. apply idle_bind; [by apply safe_try_record|by apply idle_try_record|intros _]. simpl.
  case_match; [apply idle_escalate|apply idle_Advance].
Qed.

Lemma idle_confirmCompensated o i cause : idle i (confirmCompensated o i cause).
Proof.
  unfold confirmCompensated. apply idle_bind; [apply safe_id, saga_Get_db|apply idle_id, saga_Get_db|intros x].
  case_match; [by apply idle_id|apply idle_escalate].
Qed.

Lemma idle_settleGatewayOutcome o i att a : idle i (settleGatewayOutcome o i att a).
Proof.
  unfold settleGatewayOutcome, deferAmbiguity, finish.
  assert (Hfin : ∀ st tx f, idle i (finish att st tx f)).
  { intros st tx f. unfold finish. case_match; [by apply idle_id|apply idle_FinishAttempt]. }
  case_match; [apply idle_bind; [apply safe_finish|apply Hfin|intros _; apply idle_Advance]|].
  case_match.
  { destruct a.2; [|by apply idle_id]. apply idle_bind; [apply safe_finish|apply Hfin|intros _; apply idle_Advance]. }
  case_match; [apply idle_escalate|apply idle_Advance].
Qed.

Lemma call_pay_db gw req w : ClientOk gw → w_db (call (gw_Pay gw req) w).2 = w_db w.
Proof. intros Hg. unfold call. pose proof (Pay_db _ Hg req w) as H. by destruct (gw_Pay gw req w). Qed.

Lemma call_probe_db gw key w : ClientOk gw → w_db (call (gw_Probe gw key) w).2 = w_db w.
Proof. intros Hg. unfold call. pose proof (Probe_db _ Hg key w) as H. by destruct (gw_Probe gw key w). Qed.

Lemma idle_callGateway o i p : ClientOk (o_gateway o) → idle i (callGateway o i p).
Proof.
  intros Hg. unfold callGateway. apply idle_bind; [apply safe_nextAttempt|apply idle_id, nextAttempt_db|intros [att n]].
  apply idle_bind; [apply safe_BeginStep; [done|split; [right; set_solver|split; [done|by intros []]]|done]|apply idle_BeginStep|].
  intros _. apply idle_bind; [| |intros a; apply idle_settleGatewayOutcome].
  - apply safe_id. intros w. by apply call_pay_db.
  - apply idle_id. intros w. by apply call_pay_db.
Qed.

Lemma idle_resolveGateway o i : ClientOk (o_gateway o) → idle i (resolveGateway o i).
Proof.
  intros Hg. unfold resolveGateway.
  apply idle_bind; [apply safe_id, UnresolvedAttempt_db|apply idle_id, UnresolvedAttempt_db|intros u].
  apply idle_bind; [| |intros a; apply idle_settleGatewayOutcome].
  - apply safe_id. intros w. by apply call_probe_db.
  - apply idle_id. intros w. by apply call_probe_db.
Qed.
End handlers.

(** ** Steps that post *)

Section posts.
Context `{UL : UuidLib} `{ET : ErrorText}.
Implicit Types i : Instance_.

(** The saga's side of a step: the guarded transition and the step row. *)
Definition step_recorded (o : Orchestrator) (i : Instance_) (c : commit) (d d' : DB) : Prop :=
  ∃ now r, saga_instances d !! Inst_ID i = Some r ∧ sg_status r = c_from c ∧
    saga_instances d' = <[Inst_ID i := advance_row now (commit_transition o i c) r]> (saga_instances d) ∧
    saga_steps d' = (saga_steps d ++ [attempt_row now (commit_attempt i c)])%list.

Lemma recorder_recorded o i p delta cf h u d d' wa wb : same_saga d (w_db wa) →
  runRecorder (Some (step_recorder o i p delta cf)) h wa = (Ok u, wb) → same_saga (w_db wb) d' →
  step_recorded o i (cf (Tx_ID h)) d d'.
Proof.
  intros (Ha1 & Ha2 & _) Hrun (Hb1 & Hb2 & _). simpl in Hrun.
  apply step_recorder_run in Hrun as (r & b & ev & _ & Hr & Hst & Hd). rewrite Ha1, Ha2 in *.
  exists (w_now wa), r. rewrite Hb1, Hb2, Hd. by split_and!.
Qed.

Lemma step_recorded_once o i c c' d d' d'' : step_recorded o i c d d' → step_recorded o i c' d' d'' →
  c_from c' = c_to c.
Proof.
  intros (n & r & _ & _ & Hs & _) (n' & r' & Hr' & Hst & _). rewrite Hs, lookup_insert_eq in Hr'.
  injection Hr' as <-. by rewrite <- Hst.
Qed.

Lemma post_step_once o i p delta cf from to repo req w r w' :
  Rq_Record req = Some (step_recorder o i p delta cf) → request_ok req →
  (∀ tx, c_from (cf tx) = from ∧ c_to (cf tx) = to) → from ≠ to → ledger_wf (w_db w) →
  postTransaction repo req w = (r, w') →
  (w_db w' = w_db w ∧ is_ok r = false) ∨
  ∃ txID, recorded_once (post_header txID req) (Rq_Idempotency req) None (post_routed req) (w_db w) (w_db w') ∧
    step_recorded o i (cf txID) (w_db w) (w_db w').
Proof.
  intros Hrec Hok Hc Hne Hwf Hrun. unfold postTransaction, lift, mbind, M_bind in Hrun.
  destruct (TransactionRequest_validate req) as [[]|e] eqn:Hv; [|injection Hrun as <- <-; by left].
  destruct (uuid_NewV7 w) as [[txID|e] w1] eqn:Hid;
    [|apply uuid_NewV7_err in Hid as ->; injection Hrun as <- <-; by left].
  apply uuid_NewV7_same in Hid as [Hd _]. rewrite <- Hd in Hwf |- *. clear w Hd.
  assert (Hne' : Rq_Entries req ≠ []) by (intros Hnil; apply validate_lengths in Hv; rewrite Hnil in Hv; simpl in Hv; lia).
  assert (Hmax : ∀ e, e ∈ Rq_Entries req → amountMinor (Er_Amount e) ≤ max_int64) by (intros e He; by apply Hok).
  assert (Hstep : ∀ wa h wb, post_body (advisoryLocks repo) txID req wa = (Ok h, wb) →
    step_recorded o i (cf txID) (w_db wa) (w_db wb)).
  { intros wa h wb Hb. destruct (post_body_saga _ _ _ _ _ _ Hne' Hmax Hb) as (h' & u & w2 & w3 & <- & Ha & Hr & Hb').
    rewrite Hrec in Hr. by eapply recorder_recorded. }
  apply (InTx_at_most_once repo _ (λ d d',
    recorded_once (post_header txID req) (Rq_Idempotency req) None (post_routed req) d d' ∧
    step_recorded o i (cf txID) d d')) in Hrun as [?|?]; [by left|by eauto| |].
  - intros wa h wb Hd [Hb Htr]. rewrite <- Hd in *. split; [|by eapply Hstep].
    apply post_body_ok in Hb as (reqs & rows & ebs & ? & ? & ? & ?); [|by apply Hok|done|done].
    by exists (w_now wa), reqs, rows, ebs.
  - intros wa h wb [_ Hs1] [Hb _]. apply Hstep in Hb as Hs2. apply Hne.
    destruct (Hc txID) as [H1 H2]. rewrite <- H1, <- H2. exact (step_recorded_once _ _ _ _ _ _ _ Hs1 Hs2).
Qed.

Lemma reverse_step_once o i p delta cf from to repo txID reason w r w' :
  (∀ tx, c_from (cf tx) = from ∧ c_to (cf tx) = to) → from ≠ to → ledger_wf (w_db w) →
  doReverse repo txID reason None (Some (step_recorder o i p delta cf)) w = (r, w') →
  (w_db w' = w_db w ∧ is_ok r = false) ∨
  ∃ revID, recorded_once (reverse_header revID txID reason None) None (Some txID) (is_mirrored txID) (w_db w) (w_db w') ∧
    step_recorded o i (cf revID) (w_db w) (w_db w').
Proof.
  intros Hc Hne Hwf Hrun. unfold doReverse, guard_M, mbind, M_bind in Hrun.
  destruct (bool_decide (reason ≠ "")); [|injection Hrun as <- <-; by left]. simpl in Hrun.
  destruct (uuid_NewV7 w) as [[revID|e] w1] eqn:Hid;
    [|apply uuid_NewV7_err in Hid as ->; injection Hrun as <- <-; by left].
  apply uuid_NewV7_same in Hid as [Hd _]. rewrite <- Hd in Hwf |- *. clear w Hd.
  set (body := reverse_body _ _ _ _ _ _) in Hrun.
  assert (Hstep : ∀ wa h wb, ledger_wf (w_db wa) → body wa = (Ok h, wb) →
    step_recorded o i (cf revID) (w_db wa) (w_db wb)).
  { intros wa h wb Hl Hb. destruct (reverse_body_saga _ _ _ _ _ _ _ _ _ Hl Hb) as (h' & u & w2 & w3 & <- & Ha & Hr & Hb').
    by eapply recorder_recorded. }
  apply (InTx_at_most_once repo _ (λ d d',
    recorded_once (reverse_header revID txID reason None) None (Some txID) (is_mirrored txID) d d' ∧
    step_recorded o i (cf revID) d d')) in Hrun as [?|?]; [by left|by eauto| |].
  - intros wa h wb Hd [Hb Htr]. rewrite <- Hd in *. split; [|by eapply Hstep].
    apply reverse_body_ok in Hb as (t & rows & ebs & Ht & Hst & Hr & _); [|done|apply step_recorder_ok].
    exists (w_now wa), (mirrored txID (w_db wa)), rows, ebs. split_and!; [|done|done]. split; [done|eauto].
  - intros wa h wb [Hrec Hs1] [Hb _]. pose proof (reverse_keeps _ _ _ _ _ _ Hwf Hrec) as Hl.
    apply (Hstep _ _ _ Hl) in Hb as Hs2. apply Hne.
    destruct (Hc revID) as [H1 H2]. rewrite <- H1, <- H2. exact (step_recorded_once _ _ _ _ _ _ _ Hs1 Hs2).
Qed.

(** ** What one drive does to the ledger *)

Definition leg (acct : UUID) (dir : Direction) (amount : Z) (p : Payload) : EntryRequest :=
  mkEntryRequest acct dir (mkMoney amount (Payload_Currency p)).

Definition reserve_legs (p : Payload) : list EntryRequest :=
  [leg (CustomerWalletID p) DirectionDebit (Payload_AmountMinor p) p;
   leg (SuspenseID p) DirectionCredit (Payload_AmountMinor p) p].

Definition settle_legs (p : Payload) : list EntryRequest :=
  leg (SuspenseID p) DirectionDebit (Payload_AmountMinor p) p ::
  leg (MerchantPayableID p) DirectionCredit (Payload_AmountMinor p - FeeMinor p) p ::
  (if 0 <? FeeMinor p then [leg (FeeRevenueID p) DirectionCredit (FeeMinor p) p] else []).

(** The legs a money step posts, on the accounts named or on shards of them: for a
    refund, the mirror of the reservation, which becomes REVERSED. *)
Definition step_legs (k : money_step) (id : UUID) (p : Payload) (d d' : DB) (reqs : list EntryRequest) : Prop :=
  match k with
  | Reserves => Forall2 (routed d) reqs (reserve_legs p)
  | Settles => Forall2 (routed d) reqs (settle_legs p)
  | Refunds => ∃ s tx t, posted_steps Reserves id (saga_steps d) = [s] ∧ ss_transaction_id s = Some tx ∧
      transactions d !! tx = Some t ∧ t_status t = TransactionStatusPosted ∧
      transactions d' !! tx = Some (set_status TransactionStatusReversed t) ∧ reqs = mirrored tx d
  end.

(** Exactly one transaction [txID] was posted, for money step [k] of saga [id],
    which had not been posted before and names [txID] now. *)
Record money_moved (k : money_step) (id : UUID) (p : Payload) (txID : UUID) (d d' : DB) : Prop := {
  mm_fresh : transactions d !! txID = None;
  mm_exists : is_Some (transactions d' !! txID);
  mm_rows : ∃ reqs rows, journal_entries d' = (journal_entries d ++ rows)%list ∧
    Forall2 (row_of_request txID) rows reqs ∧ step_legs k id p d d' reqs;
  mm_before : posted_steps k id (saga_steps d) = [];
  mm_after : ∃ s, posted_steps k id (saga_steps d') = [s] ∧ ss_transaction_id s = Some txID }.

Lemma moved_then_idle k id p txID d d1 d2 : money_moved k id p txID d d1 → idle_step d1 d2 → money_moved k id p txID d d2.
Proof.
  intros [H1 H2 H3 H4 H5] [T J P]. split; rewrite ?T, ?J, ?P; try done.
  destruct k; [done|done|]. destruct H3 as (reqs & rows & ? & ? & s & tx & t & ? & ? & ? & ? & ? & ?).
  exists reqs, rows. split_and!; [done|done|]. exists s, tx, t. rewrite T. done.
Qed.

(** The step row a commit leaves is the only one of its kind. *)
Lemma recorded_step_row o i c k txID d d' : saga_wf d → step_recorded o i c d d' →
  (c_step c, c_direction c) = money_key k → expected k (c_from c) = 0%nat → c_transactionID c = Some txID →
  posted_steps k (Inst_ID i) (saga_steps d) = [] ∧
  ∃ s, posted_steps k (Inst_ID i) (saga_steps d') = [s] ∧ ss_transaction_id s = Some txID.
Proof.
  intros Hs (now & r & Hr & Hst & _ & Hsteps) Hk Hx Htx.
  assert (Hnil : posted_steps k (Inst_ID i) (saga_steps d) = []).
  { pose proof (sw_posted d Hs (Inst_ID i) k) as Hn. rewrite Hr in Hn. simpl in Hn. rewrite Hst, Hx in Hn.
    by apply nil_length_inv. }
  split; [done|]. exists (attempt_row now (commit_attempt i c)). rewrite Hsteps, posted_steps_app, Hnil. simpl.
  split; [|exact Htx].
  unfold posted_steps. by rewrite filter_cons_True.
Qed.

Lemma posted_money_moved o i p c k req txID d d' entries : sys_wf d →
  recorded_once (post_header txID req) (Rq_Idempotency req) None (post_routed req) d d' →
  step_recorded o i c d d' → Rq_Entries req = entries →
  (c_step c, c_direction c) = money_key k → expected k (c_from c) = 0%nat → c_transactionID c = Some txID →
  (∀ reqs, Forall2 (routed d) reqs entries → step_legs k (Inst_ID i) p d d' reqs) →
  money_moved k (Inst_ID i) p txID d d'.
Proof.
  intros [_ Hs] (now & reqs & rows & ebs & Hroute & Hrec & _) Hstep He Hk Hx Htx Hlegs.
  destruct (recorded_step_row _ _ _ _ _ _ _ Hs Hstep Hk Hx Htx) as [Hb Ha]. split; try done.
  - exact (recorded_fresh _ _ _ _ _ _ _ _ _ Hrec).
  - exact (tx_recorded_exists _ _ _ _ _ _ _ _ _ Hrec).
  - exists reqs, rows. destruct (recorded_tables _ _ _ _ _ _ _ _ _ Hrec) as [_ Hj].
    split_and!; [done|exact (recorded_requests _ _ _ _ _ _ _ _ _ Hrec)|]. apply Hlegs. by rewrite <- He.
Qed.

(** What a drive may do. *)
Definition drive_outcome (i : Instance_) (d d' : DB) : Prop :=
  idle_step d d' ∨ ∃ k p txID, Inst_Payload i = Some p ∧ money_moved k (Inst_ID i) p txID d d'.

(** A posting and its error handler: the handler is idle, so at most the posting counts. *)
Lemma or_else_outcome {A} i (m : M A) handle w :
  sys_wf (w_db w) → snapshot i (w_db w) → safe i m → (∀ e, idle i (handle e)) →
  (∀ r w', m w = (r, w') → (w_db w' = w_db w ∧ is_ok r = false) ∨
     ∃ k p txID, Inst_Payload i = Some p ∧ money_moved k (Inst_ID i) p txID (w_db w) (w_db w')) →
  drive_outcome i (w_db w) (w_db (or_else m handle w).2).
Proof.
  intros Hwf Hsn Hsafe Hidle Hm. unfold or_else. destruct (Hsafe w Hwf Hsn) as [Hwf1 He1].
  destruct (m w) as [[a|e] w1] eqn:Hrun; simpl in *.
  - destruct (Hm _ _ eq_refl) as [[_ ?]|?]; [done|by right].
  - pose proof (Hidle e w1 Hwf1 (known_evolves (Some i) _ _ He1 Hsn)) as Hh.
    destruct (Hm _ _ eq_refl) as [[Hd _]|(k & p & tx & Hp & Hmm)].
    + left. by rewrite <- Hd.
    + right. exists k, p, tx. split; [done|]. by eapply moved_then_idle.
Qed.

(** Reading first changes nothing. *)
Lemma outcome_bind_read {A B} i (m : M A) (f : A → M B) w : (∀ w, w_db (m w).2 = w_db w) →
  (∀ a w', m w = (Ok a, w') → w_db w' = w_db w → drive_outcome i (w_db w') (w_db (f a w').2)) →
  drive_outcome i (w_db w) (w_db ((m ≫= f) w).2).
Proof.
  intros Hm Hf. specialize (Hm w). unfold mbind, M_bind. destruct (m w) as [[a|e] w1] eqn:Hrun; simpl in *.
  - rewrite <- Hm. by apply Hf.
  - left. by rewrite Hm.
Qed.

Lemma reserve_outcome o i p w : Inst_Payload i = Some p → sys_wf (w_db w) → snapshot i (w_db w) →
  drive_outcome i (w_db w) (w_db (reserve o i p w).2).
Proof.
  intros Hp Hwf Hsn. pose proof (amount_bounds i p _ (proj2 Hwf) Hsn Hp) as Hok.
  unfold reserve. apply outcome_bind_read; [apply nextAttempt_db|]. intros [att n] w1 _ Hd.
  rewrite <- Hd in Hwf, Hsn. clear w Hd.
  apply outcome_bind_read; [apply must_money_db|]. intros m w2 [-> ->]%must_money_ok _.
  apply or_else_outcome; [done|done| |intros e; apply idle_failForwardStep|].
  - apply safe_post; [by apply reserve_request_ok|by apply reserve_recorder_safe].
  - intros r w' Hrun. eapply (post_step_once o i p _ (reserve_commit att n) StatusPending StatusReserved) in Hrun
      as [?|(tx & Hrec & Hstep)]; [by left| |done|by apply reserve_request_ok|done|done|apply Hwf].
    right. exists Reserves, p, tx. split; [done|]. by eapply posted_money_moved.
Qed.

Lemma settle_outcome o i p w : Inst_Payload i = Some p → sys_wf (w_db w) → snapshot i (w_db w) →
  drive_outcome i (w_db w) (w_db (settle o i p w).2).
Proof.
  intros Hp Hwf Hsn. pose proof (amount_bounds i p _ (proj2 Hwf) Hsn Hp) as Hok.
  apply (settle_runs (drive_outcome i)); [intros d; by left|]. intros att n w1 Hd.
  rewrite <- Hd in Hwf, Hsn. clear w Hd.
  apply or_else_outcome; [done|done| |intros e; apply idle_failForwardStep|].
  - apply safe_post; [by apply settle_request_ok|by apply settle_recorder_safe].
  - intros r w' Hrun. eapply (post_step_once o i p _ (settle_commit att n) StatusGatewaySucceeded StatusCompleted) in Hrun
      as [?|(tx & Hrec & Hstep)]; [by left| |done|by apply settle_request_ok|done|done|apply Hwf].
    right. exists Settles, p, tx. split; [done|]. eapply (posted_money_moved _ _ _ _ _ _ _ _ _ (settle_entries p)); try done.
    intros reqs. simpl. unfold settle_legs, settle_entries, leg. by rewrite merchant_amount.
Qed.

Lemma reserve_tx_in l : reserve_tx_of (attempt_of <$> l) ≠ uuid_Nil →
  ∃ s, s ∈ l ∧ is_reserve s ∧ ss_transaction_id s = Some (reserve_tx_of (attempt_of <$> l)).
Proof.
  unfold reserve_tx_of. set (f := λ a : Attempt, _). destruct (omap f (attempt_of <$> l)) as [|tx rest] eqn:Ho; [done|].
  intros _. simpl. assert (Hin : tx ∈ omap f (attempt_of <$> l)) by (rewrite Ho; by apply list_elem_of_here).
  apply list_elem_of_omap in Hin as (a & (x & -> & Hx)%list_elem_of_fmap & Hf). unfold f in Hf. simpl in Hf.
  case_bool_decide as Hr; [|done]. exists x. by split_and!.
Qed.

(** While the saga is COMPENSATING the reservation found is the only one. *)
Lemma reservation_of o i c rows d d' : saga_wf d → step_recorded o i c d d' → holding (c_from c) = true →
  (∀ s, s ∈ rows ↔ s ∈ saga_steps d ∧ ss_saga_id s = Inst_ID i) → reserve_tx_of (attempt_of <$> rows) ≠ uuid_Nil →
  ∃ s, posted_steps Reserves (Inst_ID i) (saga_steps d) = [s] ∧
    ss_transaction_id s = Some (reserve_tx_of (attempt_of <$> rows)).
Proof.
  intros Hs (now & r & Hr & Hst & _) Hh Hrows Hnil. destruct (reserve_tx_in rows Hnil) as (s & Hin & Hres & Htx).
  apply Hrows in Hin as [Hin Hid]. exists s. split; [|done].
  assert (Hp : s ∈ posted_steps Reserves (Inst_ID i) (saga_steps d)).
  { apply list_elem_of_filter. split; [|done]. destruct Hres as (H1 & H2 & H3). split_and!; [done| |done].
    simpl. by rewrite H1, H2. }
  pose proof (sw_posted d Hs (Inst_ID i) Reserves) as Hn. rewrite Hr in Hn. simpl in Hn. rewrite Hst, Hh in Hn.
  simpl in Hn. destruct (posted_steps _ _ _) as [|x [|? ?]]; [done| |done]. by apply list_elem_of_singleton in Hp as ->.
Qed.

Lemma reversed_money_moved o i p c reason revID rows d d' : sys_wf d → holding (c_from c) = true →
  let tx := reserve_tx_of (attempt_of <$> rows) in
  recorded_once (reverse_header revID tx reason None) None (Some tx) (is_mirrored tx) d d' →
  step_recorded o i c d d' → (∀ s, s ∈ rows ↔ s ∈ saga_steps d ∧ ss_saga_id s = Inst_ID i) → tx ≠ uuid_Nil →
  (c_step c, c_direction c) = money_key Refunds → expected Refunds (c_from c) = 0%nat → c_transactionID c = Some revID →
  money_moved Refunds (Inst_ID i) p revID d d'.
Proof.
  intros [_ Hs] Hh tx (now & reqs & jrows & ebs & [-> (t & Ht & Hst)] & Hrec & _) Hstep Hrows Hnil Hk Hx Htx.
  destruct (recorded_step_row _ _ _ _ _ _ _ Hs Hstep Hk Hx Htx) as [Hb Ha].
  destruct (reservation_of _ _ _ _ _ _ Hs Hstep Hh Hrows Hnil) as (s & Hs1 & Hs2).
  pose proof (recorded_fresh _ _ _ _ _ _ _ _ _ Hrec) as Hfresh. simpl in Hfresh. split; try done.
  - exact (tx_recorded_exists _ _ _ _ _ _ _ _ _ Hrec).
  - exists (mirrored tx d), jrows. destruct (recorded_tables _ _ _ _ _ _ _ _ _ Hrec) as [_ Hj].
    split_and!; [done|exact (recorded_requests _ _ _ _ _ _ _ _ _ Hrec)|].
    exists s, tx, t. split_and!; try done.
    destruct (recorded_transactions _ _ _ _ _ _ _ _ _ Hrec) as (t' & Ht' & _ & ->). simpl in Ht'.
    rewrite lookup_insert_eq. rewrite lookup_insert_ne in Ht' by congruence. congruence.
Qed.

Lemma compensate_outcome o i p w : Inst_Payload i = Some p → Inst_Status i = StatusCompensating →
  sys_wf (w_db w) → snapshot i (w_db w) → drive_outcome i (w_db w) (w_db (compensate o i p w).2).
Proof.
  intros Hp Hst Hwf Hsn. pose proof (amount_bounds i p _ (proj2 Hwf) Hsn Hp) as Hok.
  unfold compensate. apply outcome_bind_read; [apply reserveTransactionID_db|]. intros tx w1 Hrun Hd.
  unfold reserveTransactionID in Hrun. mrun.
  match goal with Ht : saga_Attempts _ _ = _ |- _ => apply Attempts_ok in Ht as (_ & rows & -> & Hrows) end.
  rewrite <- Hd in Hwf, Hsn, Hrows. clear w Hd.
  case_bool_decide as Hnil; [left; by apply (idle_Advance i)|].
  apply outcome_bind_read; [apply nextAttempt_db|]. intros [att n] w2 _ Hd.
  rewrite <- Hd in Hwf, Hsn, Hrows.
  apply or_else_outcome; [done|done| | |].
  - apply safe_reverse; [apply step_recorder_ok|by apply compensate_recorder_safe].
  - intros e. case_match; [by apply idle_confirmCompensated|apply idle_failCompensation].
  - intros r w' Hrun.
    eapply (reverse_step_once o i p _ (compensate_commit att n) StatusCompensating StatusCompensated) in Hrun
      as [?|(rev & Hrec & Hstep)]; [by left| |done|done|apply Hwf].
    right. exists Refunds, p, rev. split; [done|].
    by eapply (reversed_money_moved o i p (compensate_commit att n rev) (compensate_reason i) rev rows).
Qed.

Lemma drive_outcomes o i w : ClientOk (o_gateway o) → sys_wf (w_db w) → snapshot i (w_db w) →
  drive_outcome i (w_db w) (w_db (driveOne o i w).2).
Proof.
  intros Hg Hwf Hsn. unfold driveOne. destruct (bool_decide (Inst_SagaType i = _)); simpl; [|by left].
  destruct (Inst_Payload i) as [p|] eqn:Hp; [|by left].
  case_bool_decide; [by apply reserve_outcome|]. case_bool_decide; [left; by apply (idle_callGateway o i)|].
  case_bool_decide; [left; by apply (idle_resolveGateway o i)|]. case_bool_decide; [by apply settle_outcome|].
  case_bool_decide; [left; by apply (idle_Advance i)|]. case_bool_decide; [by apply compensate_outcome|by left].
Qed.
End posts.

Section claims.
Context `{UL : UuidLib} `{ET : ErrorText}.

(** C10: money moves with the saga, exactly once.  One drive of a saga, from a
    snapshot however stale and whatever fails on the way (statements, COMMITs whose
    answer is lost, retries), either posts nothing and records no money step, or
    posts exactly one transaction: wallet to suspense for the reservation, suspense
    to merchant and fee for the settlement, the mirror of the reservation for a
    refund, which thereby becomes REVERSED.  That step had not been posted before,
    and its row now names the transaction. *)
Theorem drive_moves_money_once o i w :
  ClientOk (o_gateway o) → payout_reachable (w_db w) → snapshot i (w_db w) →
  let d := w_db w in let d' := w_db (driveOne o i w).2 in
  idle_step d d' ∨ ∃ k p txID, Inst_Payload i = Some p ∧ money_moved k (Inst_ID i) p txID d d'.
Proof. intros Hg Hr Hsn. exact (drive_outcomes o i w Hg (payout_reachable_wf _ Hr) Hsn). Qed.

(** C11: a saga's status says exactly what it has posted.  In every reachable
    database a saga that is PENDING or FAILED has posted nothing, one that is
    COMPLETED has posted one reservation and one settlement, one that is COMPENSATED
    one reservation and one refund, and every other one reservation only; no step of
    a saga is ever posted twice, and no saga is both settled and refunded. *)
Theorem status_counts_postings d : payout_reachable d → ∀ id r, saga_instances d !! id = Some r →
  ∀ k, length (posted_steps k id (saga_steps d)) = expected k (sg_status r).
Proof.
  intros Hr id r Hrow k. destruct (payout_reachable_wf _ Hr) as [_ Hs]. by rewrite (sw_posted d Hs), Hrow.
Qed.
End claims.

#[local] Existing Instance plain_text.

Lemma orchestrator_client gw : o_gateway (orchestrator gw) = gw.
Proof. reflexivity. Qed.

Lemma drive_moves_money_once_witness : ∃ i w, w_db w = started_db ∧ Inst_Status i = StatusPending ∧
  (idle_step (w_db w) (w_db (driveOne (orchestrator confirming) i w).2) ∨
   ∃ k p txID, Inst_Payload i = Some p ∧
     money_moved k (Inst_ID i) p txID (w_db w) (w_db (driveOne (orchestrator confirming) i w).2)).
Proof.
  assert (Hst : status_of started_db = Some StatusPending) by (vm_compute; reflexivity).
  destruct (found_saga started_db _ Hst) as (r & Hr & Hs). exists (instance_of saga_id r).
  pose proof (current_snapshot saga_id r started_db Hr) as Hsn.
  pose proof (quiet_world_db started_db 300) as Hw. revert Hw. generalize (quiet_world started_db 300). intros w Hw.
  exists w. split_and!; [exact Hw|exact Hs|].
  apply (drive_moves_money_once (orchestrator confirming) (instance_of saga_id r) w).
  - rewrite orchestrator_client. exact confirming_ok.
  - rewrite Hw. exact started_reachable.
  - rewrite Hw. exact Hsn.
Defined.

Lemma status_counts_postings_witness : length (posted_steps Reserves saga_id (saga_steps held_db)) = 1%nat.
Proof.
  assert (Hst : status_of held_db = Some StatusReserved) by (vm_compute; reflexivity).
  destruct (found_saga held_db _ Hst) as (r & Hr & Hs).
  rewrite (status_counts_postings held_db held_reachable saga_id r Hr). by rewrite Hs.
Defined.
