(* ===== verification/PayoutLoop.v ===== *)
(** * The orchestrator's loops

    [DriveOnce] and [SweepOnce] take only steps of the transition system of
    [PayoutSystem]; and every drive that reports no error uses up part of a
    saga's budget, so a saga is driven a bounded number of times. *)

From S2P Require Import Prelude Errors Money Json Types SagaTypes Events Schema Outbox PgIdem.
From S2P Require Import PgSaga Retry PgLedger Service PgLedgerSpec ServiceSpec Invariant Validate.
From S2P Require Import Posting Ledger Frames Uuid Demo Projector Manager Gateway Payout SagaInv.
From S2P Require Import SagaSafety PayoutSystem PayoutDemo SagaAtomic.
Open Scope string_scope.
Open Scope Z_scope.

Section loop.
Context `{UL : UuidLib} `{ET : ErrorText}.

(** ** Draining is a sequence of steps *)

(** What a claim returns are current rows. *)
Lemma claim_current p b owner lease batch w l w' i : saga_claim p b owner lease batch w = (Ok l, w') → i ∈ l →
  ∃ r, saga_instances (w_db w') !! Inst_ID i = Some r ∧ i = instance_of (Inst_ID i) r.
Proof.
  intros Hrun Hi. unfold saga_claim in Hrun. apply autocommit_ok in Hrun as (w0 & w1 & _ & _ & Hrun & -> & _). mrun. simpl.
  match goal with |- context [take batch ?x] => set (rows := take batch x) in * end.
  apply list_elem_of_fmap in Hi as ([id r'] & -> & Hin). exists r'. simpl. split; [|done].
  apply lookup_union_Some_l, elem_of_list_to_map_1; [|done].
  rewrite <- list_fmap_compose. exact (claim_rows_nodup _ (p _) _ _).
Qed.

Lemma po_steps_snapshot i d d' : sys_wf d → rtc payout_step d d' → snapshot i d → snapshot i d'.
Proof. intros Hwf Hs. apply snapshot_evolves. by destruct (payout_steps_safe d d' Hs Hwf). Qed.

(** Driving a batch of snapshots is a sequence of drives. *)
Lemma drive_batch_steps o l w : ClientOk (o_gateway o) → sys_wf (w_db w) → (∀ i, i ∈ l → snapshot i (w_db w)) →
  rtc payout_step (w_db w) (w_db (mapM_ (λ i w, (Ok tt, (driveOne o i w).2)) l w).2).
Proof.
  intros Hg. revert w. induction l as [|i l IH]; intros w Hwf Hsn; [apply rtc_refl|]. simpl.
  unfold mbind, M_bind at 1. simpl.
  assert (Hstep : payout_step (w_db w) (w_db (driveOne o i w).2)).
  { exact (payout_runs (PoDrive o i) w (conj Hg (Hsn i (list_elem_of_here _ _)))). }
  assert (Hrest : rtc payout_step (w_db (driveOne o i w).2)
    (w_db (mapM_ (λ i w, (Ok tt, (driveOne o i w).2)) l (driveOne o i w).2).2)).
  { apply IH.
    - by destruct (payout_steps_safe _ _ (rtc_once _ _ Hstep) Hwf).
    - intros j Hj. apply (po_steps_snapshot j (w_db w)); [done|by apply rtc_once|apply Hsn; by apply list_elem_of_further]. }
  eapply rtc_l; [exact Hstep|]. unfold M_bind. destruct (mapM_ _ l _) as [[?|?] ?]; exact Hrest.
Qed.

Definition claims_steps (claim : claimFunc) : Prop := ∀ ty owner lease n w,
  payout_step (w_db w) (w_db (claim ty owner lease n w).2) ∧
  ∀ l w' i, claim ty owner lease n w = (Ok l, w') → i ∈ l → snapshot i (w_db w').

Lemma claim_current_snapshot p b owner lease n w l w' i : saga_claim p b owner lease n w = (Ok l, w') → i ∈ l →
  snapshot i (w_db w').
Proof. intros Hrun Hi. destruct (claim_current _ _ _ _ _ _ _ _ _ Hrun Hi) as (r & Hr & ->). by apply current_snapshot. Qed.

Lemma ClaimRunnable_steps : claims_steps saga_ClaimRunnable.
Proof.
  intros ty owner lease n w. split; [exact (payout_runs (PoClaimRunnable ty owner lease n) w I)|].
  intros l w' i Hrun Hi. exact (claim_current_snapshot _ _ _ _ _ _ _ _ _ Hrun Hi).
Qed.

Lemma ClaimExpired_steps : claims_steps saga_ClaimExpired.
Proof.
  intros ty owner lease n w. split; [exact (payout_runs (PoClaimExpired ty owner lease n) w I)|].
  intros l w' i Hrun Hi. exact (claim_current_snapshot _ _ _ _ _ _ _ _ _ Hrun Hi).
Qed.

Lemma drain_round_steps o claim w : ClientOk (o_gateway o) → claims_steps claim → sys_wf (w_db w) →
  rtc payout_step (w_db w) (w_db (drain_round o claim w).2).
Proof.
  intros Hg Hc Hwf. unfold drain_round, mbind, M_bind.
  match goal with |- context [claim ?a ?b ?c ?e w] => destruct (Hc a b c e w) as [Hstep Hsn];
    destruct (claim a b c e w) as [[l|err] w1] eqn:Hrun end; simpl in *; [|by apply rtc_once].
  assert (Hwf1 : sys_wf (w_db w1)) by (by destruct (payout_steps_safe _ _ (rtc_once _ _ Hstep) Hwf)).
  pose proof (drive_batch_steps o l w1 Hg Hwf1 (λ i Hi, Hsn l w1 i eq_refl Hi)) as Hd.
  eapply rtc_l; [exact Hstep|]. by destruct (mapM_ _ l w1) as [[?|?] w2].
Qed.

Lemma drain_steps o claim n w : ClientOk (o_gateway o) → claims_steps claim → sys_wf (w_db w) →
  rtc payout_step (w_db w) (w_db (drain n o claim w).2).
Proof.
  intros Hg Hc. revert w. induction n as [|n IH]; intros w Hwf; simpl; [apply rtc_refl|].
  pose proof (drain_round_steps o claim w Hg Hc Hwf) as Hr.
  destruct (drain_round o claim w) as [[[|]|e] w1]; simpl in *; try done.
  etrans; [exact Hr|]. apply IH. by destruct (payout_steps_safe _ _ Hr Hwf).
Qed.

(** C18: the orchestrator's passes implement the transition system.  From any
    reachable database, a claim pass and a sweep, of any number of rounds and in
    any environment, change the database only by a sequence of its steps (claims
    and single-step drives of sagas that were claimed), so that everything proved
    of the steps holds after every pass. *)
Theorem passes_refine_steps o n w : ClientOk (o_gateway o) → payout_reachable (w_db w) →
  rtc payout_step (w_db w) (w_db (DriveOnce n o w).2) ∧ rtc payout_step (w_db w) (w_db (SweepOnce n o w).2).
Proof.
  intros Hg Hr. pose proof (payout_reachable_wf _ Hr) as Hwf.
  split; [exact (drain_steps o _ n w Hg ClaimRunnable_steps Hwf)|exact (drain_steps o _ n w Hg ClaimExpired_steps Hwf)].
Qed.

(** ** Every successful drive uses up part of a budget *)

(** How many more successful drives a saga with status [s] and retry count [n] can take. *)
Definition drives_left (cfg : Config) (s : SagaStatus) (n : Z) : Z :=
  let comp := Z.max 1 (Cfg_MaxCompensationAttempts cfg) in
  let step := Z.max 1 (Cfg_MaxStepAttempts cfg) in
  let probe := Z.max 1 (Cfg_MaxProbes cfg) in
  if bool_decide (s = StatusCompensating) then Z.max 1 (Cfg_MaxCompensationAttempts cfg - n)
  else if bool_decide (s = StatusGatewayFailed) then 1 + comp
  else if bool_decide (s = StatusGatewaySucceeded) then 1 + comp + Z.max 1 (Cfg_MaxStepAttempts cfg - n)
  else if bool_decide (s = StatusGatewayPending) then 1 + comp + step + Z.max 1 (Cfg_MaxProbes cfg - n)
  else if bool_decide (s = StatusReserved) then 2 + comp + step + Z.max 1 (Cfg_MaxProbes cfg - n)
  else if bool_decide (s = StatusPending) then 2 + comp + step + probe + Z.max 1 (Cfg_MaxStepAttempts cfg - n)
  else 0.

(** The saga's row has this status and retry count. *)
Definition stands (id : UUID) (s : SagaStatus) (n : Z) (d : DB) : Prop :=
  ∃ r, saga_instances d !! id = Some r ∧ sg_status r = s ∧ sg_retry_count r = n.

Lemma advance_stands t u w w' : advance t w = (Ok u, w') → stands (Tr_SagaID t) (Tr_To t) (Tr_RetryCount t) (w_db w').
Proof. intros (r & _ & _ & -> & _)%advance_ok. eexists. simpl. rewrite lookup_insert_eq. by split_and!. Qed.

Lemma Advance_stands t u w w' : saga_Advance t w = (Ok u, w') → stands (Tr_SagaID t) (Tr_To t) (Tr_RetryCount t) (w_db w').
Proof. unfold saga_Advance. intros (w0 & w1 & _ & _ & Hrun & -> & _)%autocommit_ok. by eapply advance_stands. Qed.

(** A pool transaction that reports success committed its body. *)
Lemma pool_tx_ok {A} (m : M A) a w w' : pool_tx m w = (Ok a, w') → ∃ w1 w2, m w1 = (Ok a, w2) ∧ w_db w' = w_db w2.
Proof.
  unfold pool_tx. destruct (begin_run w) as (r & w1 & -> & _). destruct r; [|done].
  destruct (m w1) as [[b|e] w2] eqn:Hm; [|done]. unfold next_commit.
  destruct (w_commits w2) as [|[|?|?] ?]; intros [= <- <-]; eauto.
Qed.

Lemma Escalate_stands t alert u w w' : saga_Escalate t alert w = (Ok u, w') →
  stands (Tr_SagaID t) (Tr_To t) (Tr_RetryCount t) (w_db w').
Proof.
  unfold saga_Escalate. intros (w1 & w2 & Hrun & Hd)%pool_tx_ok. mrun.
  match goal with H : advance _ _ = _ |- _ => apply advance_stands in H as (r & ? & ? & ?) end.
  apply outbox_Append_ok in Hrun as (? & ? & Hd2 & _). exists r. rewrite Hd, Hd2. by split_and!.
Qed.

Lemma escalate_stands o i e u w w' : escalate o i e w = (Ok u, w') →
  stands (Inst_ID i) StatusNeedsManualReview (e_attempts e) (w_db w').
Proof. unfold escalate. intros Hrun. mrun. by apply Escalate_stands in Hrun. Qed.

Definition progressed (o : Orchestrator) (i : Instance_) (d : DB) : Prop :=
  ∃ s n, stands (Inst_ID i) s n d ∧ drives_left (o_cfg o) s n < drives_left (o_cfg o) (Inst_Status i) (Inst_RetryCount i).

Lemma progress_to o i s n d : stands (Inst_ID i) s n d →
  drives_left (o_cfg o) s n < drives_left (o_cfg o) (Inst_Status i) (Inst_RetryCount i) → progressed o i d.
Proof. intros. by exists s, n. Qed.

(** Compare budgets at two concrete statuses. *)
Ltac budget := unfold drives_left; cbn -[Z.max];
  repeat first [rewrite bool_decide_eq_false_2 by done | rewrite bool_decide_eq_true_2 by done]; lia.

Lemma failForwardStep_progress o i step att n cause u w w' : forward_status step (Inst_Status i) →
  failForwardStep o i step att n cause w = (Ok u, w') → progressed o i (w_db w').
Proof.
  intros Hst Hrun. unfold failForwardStep in Hrun. mrun.
  destruct (terminalLedgerError cause || _) eqn:Hterm; simpl in Hrun.
  - destruct Hst as [[-> Hs]|[-> Hs]]; simpl in Hrun; apply Advance_stands in Hrun;
      (eapply progress_to; [exact Hrun|]); rewrite Hs; simpl; budget.
  - apply orb_false_iff in Hterm as [_ Hmax%Z.leb_gt]. apply Advance_stands in Hrun.
    eapply progress_to; [exact Hrun|]. simpl. destruct Hst as [[_ ->]|[_ ->]]; budget.
Qed.

Lemma recorded_stands o i c d d' : step_recorded o i c d d' → stands (Inst_ID i) (c_to c) 0 d'.
Proof. intros (now & r & _ & _ & Hs & _). eexists. rewrite Hs, lookup_insert_eq. by split_and!. Qed.

Lemma or_else_ok {A} (m : M A) handle u w w' : or_else m handle w = (Ok u, w') →
  (∃ a, m w = (Ok a, w')) ∨ ∃ e w1, m w = (Err e, w1) ∧ handle e w1 = (Ok u, w').
Proof. unfold or_else. destruct (m w) as [[a|e] w1]; [intros [= <- <-]; eauto|eauto]. Qed.

Lemma reserve_progress o i p u w w' : Inst_Status i = StatusPending → payload_ok p → ledger_wf (w_db w) →
  reserve o i p w = (Ok u, w') → progressed o i (w_db w').
Proof.
  intros Hst Hok Hwf Hrun. unfold reserve in Hrun. mrun.
  match goal with H : nextAttempt _ _ _ _ = (Ok ?an, ?w1) |- _ =>
    pose proof (f_equal (w_db ∘ snd) H) as Hd; simpl in Hd; rewrite nextAttempt_db in Hd; destruct an as [att n] end.
  match goal with H : must_money _ _ _ = _ |- _ => apply must_money_ok in H as [-> ->] end. simpl in Hrun.
  apply or_else_ok in Hrun as [(h & Hrun)|(e & w1 & _ & Hrun)];
    [|apply failForwardStep_progress in Hrun; [done|by left]].
  eapply (post_step_once o i p _ (reserve_commit att n) StatusPending StatusReserved) in Hrun
      as [[_ ?]|(tx & _ & Hstep)]; [done| |done|by apply reserve_request_ok|done|done|by rewrite <- Hd].
  eapply progress_to; [exact (recorded_stands _ _ _ _ _ Hstep)|]. rewrite Hst. simpl. budget.
Qed.

(** Up to reading, a successful [settle] is a posting with its error handler. *)
Lemma settle_ok o i p u w w' : settle o i p w = (Ok u, w') → ∃ att n w1, w_db w1 = w_db w ∧
  or_else (postTransaction (o_repo o) (settle_request o i p (settle_entries p) att n))
    (failForwardStep o i StepSettle att n) w1 = (Ok u, w').
Proof.
  intros Hrun. unfold settle in Hrun. mrun.
  match goal with H : nextAttempt _ _ _ _ = (Ok ?an, ?w1) |- _ =>
    pose proof (f_equal (w_db ∘ snd) H) as Hd; simpl in Hd; rewrite nextAttempt_db in Hd; destruct an as [att n] end.
  do 2 match goal with H : must_money _ _ _ = _ |- _ => apply must_money_ok in H as [-> ->] end. simpl in Hrun.
  exists att, n. unfold settle_entries. destruct (0 <? FeeMinor p); mrun;
    try match goal with H : must_money _ _ _ = _ |- _ => apply must_money_ok in H as [-> ->] end;
    (eexists; split; [by symmetry|exact Hrun]).
Qed.

Lemma settle_progress o i p u w w' : Inst_Status i = StatusGatewaySucceeded → payload_ok p → ledger_wf (w_db w) →
  settle o i p w = (Ok u, w') → progressed o i (w_db w').
Proof.
  intros Hst Hok Hwf (att & n & w1 & Hd & Hrun)%settle_ok.
  apply or_else_ok in Hrun as [(h & Hrun)|(e & w2 & _ & Hrun)];
    [|apply failForwardStep_progress in Hrun; [done|by right]].
  eapply (post_step_once o i p _ (settle_commit att n) StatusGatewaySucceeded StatusCompleted) in Hrun
      as [[_ ?]|(tx & _ & Hstep)]; [done| |done|by apply settle_request_ok|done|done|by rewrite Hd].
  eapply progress_to; [exact (recorded_stands _ _ _ _ _ Hstep)|]. rewrite Hst. simpl. budget.
Qed.

Lemma compensate_progress o i p u w w' : Inst_Status i = StatusCompensating → ledger_wf (w_db w) →
  compensate o i p w = (Ok u, w') → progressed o i (w_db w').
Proof.
  intros Hst Hwf Hrun. unfold compensate in Hrun. mrun.
  match goal with H : reserveTransactionID _ _ = (Ok ?tx, ?w1) |- _ =>
    pose proof (f_equal (w_db ∘ snd) H) as Hd; simpl in Hd; rewrite reserveTransactionID_db in Hd end.
  case_bool_decide.
  { apply Advance_stands in Hrun. eapply progress_to; [exact Hrun|]. rewrite Hst. simpl. budget. }
  mrun. match goal with H : nextAttempt _ _ _ _ = (Ok ?an, ?w1) |- _ =>
    pose proof (f_equal (w_db ∘ snd) H) as Hd2; simpl in Hd2; rewrite nextAttempt_db in Hd2; destruct an as [att n] end.
  simpl in Hrun. apply or_else_ok in Hrun as [(h & Hrun)|(e & w1 & _ & Hrun)].
  - eapply (reverse_step_once o i p _ (compensate_commit att n) StatusCompensating StatusCompensated) in Hrun
      as [[_ ?]|(rev & _ & Hstep)]; [done| |done|done|by rewrite <- Hd2, <- Hd].
    eapply progress_to; [exact (recorded_stands _ _ _ _ _ Hstep)|]. rewrite Hst. simpl. budget.
  - destruct (errors_Is e ErrAlreadyReversed || _).
    + unfold confirmCompensated in Hrun. mrun.
      match goal with H : saga_Get _ _ = _ |- _ => apply saga_Get_ok in H as (Hg & r & Hr & Hx) end.
      case_bool_decide as Hc; mrun.
      * eapply (progress_to o i StatusCompensated (sg_retry_count r)).
        { exists r. rewrite Hg. split_and!; [done|congruence|done]. }
        rewrite Hst. simpl. budget.
      * apply escalate_stands in Hrun. eapply progress_to; [exact Hrun|]. rewrite Hst. simpl. budget.
    + unfold failCompensation in Hrun. mrun. destruct (Z.leb_spec (Cfg_MaxCompensationAttempts (o_cfg o)) (Inst_RetryCount i + 1)).
      * apply escalate_stands in Hrun. eapply progress_to; [exact Hrun|]. rewrite Hst. simpl. budget.
      * apply Advance_stands in Hrun. eapply progress_to; [exact Hrun|]. rewrite Hst. simpl. budget.
Qed.

(** A gateway's answer moves a saga on from RESERVED as from GATEWAY_PENDING. *)
Lemma settleGatewayOutcome_progress o i att a u w w' :
  Inst_Status i = StatusReserved ∨ Inst_Status i = StatusGatewayPending →
  settleGatewayOutcome o i att a w = (Ok u, w') → progressed o i (w_db w').
Proof.
  intros Hst Hrun. unfold settleGatewayOutcome, deferAmbiguity in Hrun.
  destruct (bool_decide (a.2 = None) && Payment_Succeeded a.1).
  { mrun. apply Advance_stands in Hrun. eapply progress_to; [exact Hrun|]. destruct Hst as [-> | ->]; simpl; budget. }
  destruct (Conclusive a.2).
  { destruct a.2; mrun. apply Advance_stands in Hrun. eapply progress_to; [exact Hrun|].
    destruct Hst as [-> | ->]; simpl; budget. }
  destruct (Z.leb_spec (Cfg_MaxProbes (o_cfg o)) (Inst_RetryCount i + 1)).
  - apply escalate_stands in Hrun. eapply progress_to; [exact Hrun|]. destruct Hst as [-> | ->]; simpl; budget.
  - apply Advance_stands in Hrun. eapply progress_to; [exact Hrun|]. destruct Hst as [-> | ->]; simpl; budget.
Qed.

(** C14: every drive that reports no error brings a saga closer to its end.  Driven
    from its current row, in any environment and whatever the gateway answers, a
    saga that is not terminal either sees an error (and is driven again later) or
    has strictly fewer drives left; a new saga has at most as many as its attempt,
    probe and compensation budgets add up to, plus two.  No saga circles for ever. *)
Theorem drive_makes_progress o id r p u w w' :
  payout_reachable (w_db w) → saga_instances (w_db w) !! id = Some r →
  sg_saga_type r = Cfg_SagaType (o_cfg o) → sg_payload r = Some p → sg_status r ∉ terminalStatuses →
  sg_status r ∈ saga_statuses → driveOne o (instance_of id r) w = (Ok u, w') →
  (∃ r', saga_instances (w_db w') !! id = Some r' ∧
     drives_left (o_cfg o) (sg_status r') (sg_retry_count r') < drives_left (o_cfg o) (sg_status r) (sg_retry_count r)) ∧
  (∀ s n, 0 ≤ n → 0 ≤ drives_left (o_cfg o) s n ≤ 2 + Z.max 1 (Cfg_MaxCompensationAttempts (o_cfg o)) +
     2 * Z.max 1 (Cfg_MaxStepAttempts (o_cfg o)) + Z.max 1 (Cfg_MaxProbes (o_cfg o))).
Proof.
  intros Hreach Hr Hty Hp Hnt Hst Hrun. split.
  2: { intros s n Hn. unfold drives_left. cbv zeta. repeat case_bool_decide; lia. }
  destruct (payout_reachable_wf _ Hreach) as [Hl Hs]. pose proof (sw_amounts _ Hs _ _ _ Hr Hp) as Hok.
  enough (Hprog : progressed o (instance_of id r) (w_db w')).
  { destruct Hprog as (s & n & (r' & Hr' & <- & <-) & Hlt). by exists r'. }
  unfold driveOne in Hrun. rewrite bool_decide_eq_true_2 in Hrun by done. simpl in Hrun. rewrite Hp in Hrun.
  case_bool_decide; [by eapply reserve_progress|]. case_bool_decide.
  { unfold callGateway in Hrun. mrun. eapply settleGatewayOutcome_progress; [by left|done]. }
  case_bool_decide.
  { unfold resolveGateway in Hrun. mrun. eapply settleGatewayOutcome_progress; [by right|done]. }
  case_bool_decide; [by eapply settle_progress|]. case_bool_decide as Hgf.
  { apply Advance_stands in Hrun. eapply progress_to; [exact Hrun|]. simpl. rewrite Hgf. budget. }
  case_bool_decide; [by eapply compensate_progress|].
  destruct Hnt. unfold saga_statuses in Hst. unfold terminalStatuses. set_solver.
Qed.

(** ** An unanswered gateway call ends with a human *)

(** Nothing fails here, and the next identifier is new to the outbox. *)
Record calm (w : World) : Prop := {
  calm_faults : w_faults w = [];
  calm_commits : w_commits w = [];
  calm_clock : w_clock w ≠ time_zero;
  calm_ids : ∃ u ids, w_ids w = u :: ids ∧ u ≠ uuid_Nil ∧ u ∉ o_event_id <$> outbox (w_db w) }.

Lemma sql_exec_calm w : w_faults w = [] → sql_exec w = (Ok tt, w).
Proof. unfold sql_exec. by intros ->. Qed.

Lemma tx_start_runs w : ∃ t rest, tx_start w = (Ok tt, set_now t rest w).
Proof. destruct (tx_start_moves w) as (t & rest & _ & Hs). eauto. Qed.

(** A legal transition of an existing row, in a world without faults. *)
Lemma advance_calm t r w : w_faults w = [] → saga_instances (w_db w) !! Tr_SagaID t = Some r → sg_status r = Tr_From t →
  check_saga_row (advance_row (w_now w) t r) = Ok tt →
  advance t w = (Ok tt, set_db (set_saga_instances
    (<[Tr_SagaID t := advance_row (w_now w) t r]> (saga_instances (w_db w))) (w_db w)) (set_locks (w_locks w ++ [SagaRow (Tr_SagaID t)])%list w)).
Proof.
  intros Hf Hr Hst Hc. unfold advance, mbind, M_bind. rewrite sql_exec_calm by done. simpl. rewrite Hr.
  rewrite bool_decide_eq_true_2 by done. unfold lift. by rewrite Hc.
Qed.

Lemma Append_calm e u ids w : w_faults w = [] → w_ids w = u :: ids → u ≠ uuid_Nil →
  u ∉ o_event_id <$> outbox (w_db w) → Ev_AggregateType e ≠ "" → Ev_AggregateID e ≠ "" → Ev_EventType e ≠ "" →
  1 ≤ Ev_EventVersion e → Ev_OccurredAt e ≠ time_zero →
  ∃ w', outbox_Append e w = (Ok tt, w') ∧ w_commits w' = w_commits w ∧
    w_db w' = set_outbox (outbox (w_db w) ++ [outbox_row_of (next_id w) u (w_now w) e])%list (w_db w).
Proof.
  intros Hf Hids Hnil Hfresh H1 H2 H3 H4 H5. unfold outbox_Append.
  rewrite !bool_decide_eq_false_2 by done. assert ((Ev_EventVersion e <? 1) = false) as -> by lia.
  unfold Time_IsZero. assert (Hz : (Ev_OccurredAt e =? time_zero) = false) by by apply Z.eqb_neq.
  rewrite ?Hz, ?bool_decide_eq_false_2 by done. simpl. unfold mbind, M_bind, guard_M, uuid_NewV7. simpl.
  rewrite Hids. apply N.eqb_neq in Hnil as ->. rewrite sql_exec_calm by done. simpl.
  assert (existsb (λ r, bool_decide (o_event_id r = u)) (outbox (w_db w)) = false) as ->.
  { apply not_true_iff_false. intros (x & Hin & Hx)%existsb_exists. bool_to_prop. apply Hfresh.
    apply list_elem_of_fmap. exists x. split; [done|]. by apply list_elem_of_In. }
  simpl. eexists. split; [done|]. done.
Qed.

(** A client whose probes never settle anything. *)
Definition inconclusive (c : Client) : Prop := ∀ key w, ∃ pay e,
  gw_Probe c key w = ((pay, Some e), w) ∧ Conclusive (Some e) = false.

(** The saga as the next claim would see it, driven once. *)
Definition drive_current (o : Orchestrator) (id : UUID) (w : World) : World :=
  match saga_instances (w_db w) !! id with
  | Some r => (driveOne o (instance_of id r) w).2
  | None => w
  end.

(** An alert for the saga is on its way to a human. *)
Definition alerted (id : UUID) (d : DB) : Prop :=
  ∃ row, row ∈ outbox d ∧ o_event_type row = EventTypeSagaNeedsManualReview ∧ o_aggregate_id row = uuid_String id.

Definition waiting (o : Orchestrator) (id : UUID) (n : Z) (d : DB) : Prop :=
  ∃ r p, saga_instances d !! id = Some r ∧ sg_saga_type r = Cfg_SagaType (o_cfg o) ∧ sg_payload r = Some p ∧
    sg_status r = StatusGatewayPending ∧ sg_retry_count r = n ∧ 0 ≤ n.

(** Driving such a saga is deferring the ambiguity. *)
Lemma drive_defers o id r p w : inconclusive (o_gateway o) → w_faults w = [] →
  saga_instances (w_db w) !! id = Some r → sg_saga_type r = Cfg_SagaType (o_cfg o) → sg_payload r = Some p →
  sg_status r = StatusGatewayPending →
  ∃ t rest e, drive_current o id w = (deferAmbiguity o (instance_of id r) (Some e) (set_now t rest w)).2.
Proof.
  intros Hinc Hf Hr Hty Hp Hst. unfold drive_current. rewrite Hr. unfold driveOne. simpl.
  rewrite (bool_decide_eq_true_2 _ Hty). simpl. rewrite Hp, Hst. simpl.
  unfold resolveGateway, saga_UnresolvedAttempt, mbind, M_bind.
  destruct (tx_start_runs w) as (t & rest & ->). rewrite sql_exec_calm by done. simpl. unfold call.
  destruct (Hinc (gatewayKey id) (set_now t rest w)) as (pay & e & -> & He). exists t, rest, e.
  unfold settleGatewayOutcome. simpl. simpl in He. by rewrite He.
Qed.

Lemma drive_waits o id n w : inconclusive (o_gateway o) → calm w → waiting o id n (w_db w) →
  n + 1 < Cfg_MaxProbes (o_cfg o) →
  calm (drive_current o id w) ∧ waiting o id (n + 1) (w_db (drive_current o id w)).
Proof.
  intros Hinc [Hf Hc Hk Hids] (r & p & Hr & Hty & Hp & Hst & Hn & Hpos) Hlt.
  destruct (drive_defers o id r p w Hinc Hf Hr Hty Hp Hst) as (t & rest & e & ->).
  unfold deferAmbiguity. simpl. rewrite Hn. assert ((Cfg_MaxProbes (o_cfg o) <=? n + 1) = false) as -> by lia.
  unfold saga_Advance, autocommit, mbind, M_bind. destruct (tx_start_runs (set_now t rest w)) as (t' & rest' & ->).
  rewrite (advance_calm _ r); [|done|done|done|]; unfold next_commit; simpl; rewrite ?Hc; simpl.
  - split; [by split|]. eexists _, p. split; [apply lookup_insert_eq|]. split_and!; try done. lia.
  - unfold check_saga_row. simpl. assert ((0 <=? n + 1) = true) as -> by lia. reflexivity.
Qed.

Lemma drive_escalates o id n w : inconclusive (o_gateway o) → calm w → waiting o id n (w_db w) → uuid_String id ≠ "" →
  Cfg_MaxProbes (o_cfg o) ≤ n + 1 →
  stands id StatusNeedsManualReview (n + 1) (w_db (drive_current o id w)) ∧ alerted id (w_db (drive_current o id w)).
Proof.
  intros Hinc [Hf Hc Hk (u & ids & Hids & Hnil & Hfresh)] (r & p & Hr & Hty & Hp & Hst & Hn & Hpos) Hne Hge.
  destruct (drive_defers o id r p w Hinc Hf Hr Hty Hp Hst) as (t & rest & e & ->).
  unfold deferAmbiguity. simpl. rewrite Hn. assert ((Cfg_MaxProbes (o_cfg o) <=? n + 1) = true) as -> by lia.
  unfold escalate, json_Marshal, lift, mbind, M_bind. simpl. unfold saga_Escalate, pool_tx, mbind, M_bind.
  rewrite sql_exec_calm by done. destruct (tx_start_runs (set_now t rest w)) as (t' & rest' & ->).
  rewrite (advance_calm _ r); [|done|done|done|].
  2: { unfold check_saga_row. simpl. assert ((0 <=? n + 1) = true) as -> by lia. reflexivity. }
  match goal with |- context [outbox_Append ?ev ?w1] =>
    destruct (Append_calm ev u ids w1) as (w2 & -> & Hc2 & Hd2); [done|done|done|done|done|done|done|done|done|] end.
  unfold next_commit. rewrite Hc2. simpl. rewrite Hc. simpl. rewrite Hd2. split.
  - eexists. split; [apply lookup_insert_eq|]. by split_and!.
  - eexists. split; [apply elem_of_app; right; by apply list_elem_of_singleton|]. by split_and!.
Qed.

Lemma drives_wait o id n k w : inconclusive (o_gateway o) → calm w → waiting o id n (w_db w) →
  n + Z.of_nat k < Cfg_MaxProbes (o_cfg o) →
  calm (Nat.iter k (drive_current o id) w) ∧ waiting o id (n + Z.of_nat k) (w_db (Nat.iter k (drive_current o id) w)).
Proof.
  intros Hinc Hcalm Hwait. induction k as [|k IH]; intros Hlt.
  - simpl. replace (n + Z.of_nat 0) with n by lia. by split.
  - destruct IH as [Hc Hw]; [lia|]. replace (n + Z.of_nat (S k)) with (n + Z.of_nat k + 1) by lia.
    apply drive_waits; auto. lia.
Qed.

(** C15: an unanswered gateway call ends with a human.  While nothing else fails, a
    saga in GATEWAY_PENDING whose probes all stay inconclusive is driven exactly as
    often as its probe budget allows (at least once): until then it waits in
    GATEWAY_PENDING, counting the probes, and then it is in NEEDS_MANUAL_REVIEW with
    the alert published in the same transaction. *)
Theorem ambiguity_escalates o id n w :
  inconclusive (o_gateway o) → calm w → waiting o id n (w_db w) → uuid_String id ≠ "" →
  let last := Z.to_nat (Z.max 1 (Cfg_MaxProbes (o_cfg o) - n)) in
  let after k := w_db (Nat.iter k (drive_current o id) w) in
  (∀ k, (k < last)%nat → waiting o id (n + Z.of_nat k) (after k)) ∧
  stands id StatusNeedsManualReview (n + Z.of_nat last) (after last) ∧ alerted id (after last).
Proof.
  intros Hinc Hcalm Hwait Hid last after. split.
  { intros [|k] Hk; [unfold after; simpl; by replace (n + Z.of_nat 0) with n by lia|].
    apply drives_wait; auto. lia. }
  unfold after. destruct last as [|k] eqn:Hlast; [lia|]. simpl.
  replace (n + Z.of_nat (S k)) with (n + Z.of_nat k + 1) by lia.
  assert (Hk : calm (Nat.iter k (drive_current o id) w) ∧ waiting o id (n + Z.of_nat k) (w_db (Nat.iter k (drive_current o id) w))).
  { destruct k; [simpl; replace (n + Z.of_nat 0) with n by lia; by split|]. apply drives_wait; auto. lia. }
  destruct Hk as [Hc Hw]. apply drive_escalates; auto. lia.
Qed.
End loop.

(** ** Witnesses *)

#[local] Existing Instance plain_text.

Lemma passes_refine_steps_witness : ∃ w, w_db w = started_db ∧
  rtc payout_step (w_db w) (w_db (DriveOnce 3 (orchestrator confirming) w).2).
Proof.
  pose proof (quiet_world_db started_db 300) as Hw. revert Hw. generalize (quiet_world started_db 300). intros w Hw.
  assert (Hg : ClientOk (o_gateway (orchestrator confirming))) by (rewrite orchestrator_client; exact confirming_ok).
  assert (Hr : payout_reachable (w_db w)) by (rewrite Hw; exact started_reachable).
  exists w. exact (conj Hw (proj1 (passes_refine_steps (orchestrator confirming) 3 w Hg Hr))).
Defined.

(** A computed check of a saga's row. *)
Definition row_check (P : saga_row → bool) (d : DB) (id : UUID) : bool :=
  match saga_instances d !! id with Some r => P r | None => false end.

Lemma row_checked P d id : row_check P d id = true → ∃ r, saga_instances d !! id = Some r ∧ P r = true.
Proof. unfold row_check. destruct (saga_instances d !! id) as [r|]; [eauto|done]. Qed.

Lemma pending_open : StatusPending ∉ terminalStatuses ∧ StatusPending ∈ saga_statuses.
Proof. unfold terminalStatuses, saga_statuses. set_solver. Qed.

(** The row of the started saga, and a drive of it that reports no error. *)
Definition started_ok (w : World) (r : saga_row) : bool :=
  bool_decide (sg_saga_type r = SagaType) && bool_decide (is_Some (sg_payload r)) &&
  bool_decide (sg_status r = StatusPending) &&
  is_ok (driveOne (orchestrator confirming) (instance_of saga_id r) w).1.

Lemma started_drives : ∃ r w, w_db w = started_db ∧ saga_instances started_db !! saga_id = Some r ∧ started_ok w r = true.
Proof.
  assert (Hall : row_check (started_ok (quiet_world started_db 300)) started_db saga_id = true) by (vm_compute; reflexivity).
  destruct (row_checked _ _ _ Hall) as (r & Hr & Hok). exists r, (quiet_world started_db 300).
  exact (conj (quiet_world_db _ _) (conj Hr Hok)).
Qed.

Lemma drive_makes_progress_witness : ∃ r r' w', saga_instances started_db !! saga_id = Some r ∧
  saga_instances (w_db w') !! saga_id = Some r' ∧
  drives_left (o_cfg (orchestrator confirming)) (sg_status r') (sg_retry_count r') <
  drives_left (o_cfg (orchestrator confirming)) (sg_status r) (sg_retry_count r).
Proof.
  destruct started_drives as (r & w & Hw & Hr & Hok).
  apply andb_true_iff in Hok as [Hok Hrun]. bool_to_prop.
  match goal with H : is_Some (sg_payload r) |- _ => destruct H as [p Hp] end.
  match goal with H : sg_saga_type r = _ |- _ => rename H into Hty end.
  match goal with H : sg_status r = _ |- _ => rename H into Hst end.
  destruct (ran_ok _ _ Hrun) as (u & w' & Hd).
  assert (Hreach : payout_reachable (w_db w)) by (rewrite Hw; exact started_reachable).
  assert (Hrow : saga_instances (w_db w) !! saga_id = Some r) by (rewrite Hw; exact Hr).
  assert (Hn : sg_status r ∉ terminalStatuses) by (rewrite Hst; exact (proj1 pending_open)).
  assert (Hs : sg_status r ∈ saga_statuses) by (rewrite Hst; exact (proj2 pending_open)).
  destruct (drive_makes_progress (orchestrator confirming) saga_id r p u w w' Hreach Hrow Hty Hp Hn Hs Hd)
    as [(r' & Hr' & Hlt) _].
  exists r, r', w'. exact (conj Hr (conj Hr' Hlt)).
Defined.

(** The payout whose gateway never answers. *)
Definition unanswered_db : DB := drive silent 400 held_db.

Lemma unanswered_eq : unanswered_db = drive silent 400 held_db.
Proof. reflexivity. Qed.
#[global] Opaque unanswered_db.

Definition unanswered_ok (r : saga_row) : bool :=
  bool_decide (sg_saga_type r = SagaType) && bool_decide (is_Some (sg_payload r)) &&
  bool_decide (sg_status r = StatusGatewayPending) && (sg_retry_count r =? 1) &&
  bool_decide (500%N ∉ o_event_id <$> outbox unanswered_db).

Lemma unanswered_calm : ∃ w, w_db w = unanswered_db ∧ calm w ∧ waiting (orchestrator silent) saga_id 1 (w_db w).
Proof.
  assert (Hall : row_check unanswered_ok unanswered_db saga_id = true) by (vm_compute; reflexivity).
  destruct (row_checked _ _ _ Hall) as (r & Hr & Hok). unfold unanswered_ok in Hok. bool_to_prop.
  match goal with H : is_Some (sg_payload r) |- _ => destruct H as [p Hp] end.
  exists (quiet_world unanswered_db 500). split_and!; [exact (quiet_world_db _ _)| |].
  - split; [reflexivity|reflexivity|discriminate|]. eexists 500%N, _. split_and!; [reflexivity|discriminate|].
    rewrite quiet_world_db. assumption.
  - exists r, p. rewrite quiet_world_db. split_and!; [exact Hr|assumption|exact Hp|assumption|lia|lia].
Qed.

Lemma inconclusive_silent : inconclusive (o_gateway (orchestrator silent)).
Proof. intros key w. rewrite orchestrator_client. by eexists _, _. Qed.

Lemma saga_text : uuid_String saga_id ≠ "".
Proof. intros H. vm_compute in H. discriminate. Qed.

Lemma ambiguity_escalates_witness : ∃ d, stands saga_id StatusNeedsManualReview 3 d ∧ alerted saga_id d.
Proof.
  destruct unanswered_calm as (w & _ & Hcalm & Hwait).
  destruct (ambiguity_escalates (orchestrator silent) saga_id 1 w inconclusive_silent Hcalm Hwait saga_text)
    as (_ & Hs & Ha).
  eexists. exact (conj Hs Ha).
Defined.
