(* ===== verification/Recon.v ===== *)
(** * Reconciliation (internal/reconciliation: types.go, classify.go, engine.go)

    The three-way match's data, the classification of one matched reference and
    the engine that turns a statement into a persisted run, over the interface of
    its store.  Metrics and logging are left out. *)

From S2P Require Import Prelude Errors Money Strconv Json Types SagaTypes Schema Manager.
Open Scope string_scope.
Open Scope Z_scope.

(** ** types.go *)

Definition CategoryMissingInLedger := "MISSING_IN_LEDGER".
Definition CategoryMissingInPSP := "MISSING_IN_PSP".
Definition CategoryAmountMismatch := "AMOUNT_MISMATCH".
Definition CategoryStatusMismatch := "STATUS_MISMATCH".
Definition CategoryTimingDifference := "TIMING_DIFFERENCE".
Definition CategoryDuplicate := "DUPLICATE".

Definition ExceptionStatusOpen := "OPEN".
Definition ExceptionStatusAutoResolved := "AUTO_RESOLVED".
Definition ExceptionStatusResolved := "RESOLVED".

Definition RunStatusRunning := "RUNNING".
Definition RunStatusCompleted := "COMPLETED".
Definition RunStatusFailed := "FAILED".

Record PSPRecord := mkPSPRecord {
  Psp_ExternalRef : string;
  Psp_AmountMinor : Z;
  Psp_Currency : string;
  Psp_Status : string;
  Psp_SettledAt : Time }.

Record PSPAggregate := mkPSPAggregate {
  Pa_AmountMinor : Z;
  Pa_Currency : string;
  Pa_Status : string;
  Pa_SettledAt : Time;
  Pa_RowCount : Z }.

Definition NewPSPAggregate (rec : PSPRecord) (rowCount : Z) : PSPAggregate :=
  mkPSPAggregate (Psp_AmountMinor rec) (Psp_Currency rec) (Psp_Status rec) (Psp_SettledAt rec) rowCount.

Record LedgerSide := mkLedgerSide {
  Ls_TransactionID : UUID;
  Ls_AmountMinor : Z;
  Ls_Currency : string;
  Ls_Status : string;
  Ls_PostedAt : option Time;
  Ls_CreatedAt : Time }.

Record SagaSide := mkSagaSide { Sg_SagaID : UUID; Sg_Status : string }.

Record MatchedRecord := mkMatchedRecord {
  Mr_ExternalRef : string;
  Mr_Ledger : option LedgerSide;
  Mr_Saga : option SagaSide;
  Mr_PSP : option PSPAggregate }.

Record Run := mkRun {
  Run_ID : UUID;
  Run_Source : string;
  Run_StartedAt : Time;
  Run_FinishedAt : option Time;
  Run_Status : string;
  Run_PSPRowCount : Z;
  Run_MatchedCount : Z;
  Run_AutoResolvedCount : Z;
  Run_ExceptionCount : Z;
  Run_Error : string;
  Run_ByCategory : gmap string Z }.

(** The details map has at most two members and is only ever read as a whole. *)
Record Exception := mkException {
  Exc_ID : UUID;
  Exc_RunID : UUID;
  Exc_ExternalRef : string;
  Exc_Category : string;
  Exc_Status : string;
  Exc_LedgerTransactionID : option UUID;
  Exc_SagaID : option UUID;
  Exc_LedgerAmountMinor : option Z;
  Exc_PSPAmountMinor : option Z;
  Exc_Currency : string;
  Exc_LedgerStatus : string;
  Exc_PSPStatus : string;
  Exc_Details : list (string * json);
  Exc_CreatedAt : Time;
  Exc_ResolvedAt : option Time }.

(** ** time.Duration.String *)

(** [prec] digits of the fraction [v / 10^prec], without trailing zeros. *)
Fixpoint fmt_frac (prec : nat) (v : Z) : string :=
  match prec with
  | O => ""
  | S n =>
      let unit := 10 ^ Z.of_nat n in
      if v =? 0 then "" else FormatInt (v / unit) +:+ fmt_frac n (v mod unit)
  end.

(** [v / 10^prec] in decimal. *)
Definition fmt_scaled (prec : nat) (v : Z) : string :=
  let unit := 10 ^ Z.of_nat prec in
  FormatInt (v / unit) +:+ (if v mod unit =? 0 then "" else "." +:+ fmt_frac prec (v mod unit)).

Definition Duration_String (d : Z) : string :=
  let u := Z.abs d in
  let text :=
    if u =? 0 then "0s"
    else if u <? 1000 then FormatInt u +:+ "ns"
    else if u <? 1000000 then fmt_scaled 3 u +:+ "µs"
    else if u <? 1000000000 then fmt_scaled 6 u +:+ "ms"
    else
      let secs := u / 1000000000 in
      let s := fmt_scaled 9 (u mod 60000000000) +:+ "s" in
      let mins := secs / 60 in
      if mins =? 0 then s
      else
        let m := FormatInt (mins mod 60) +:+ "m" +:+ s in
        let hours := mins / 60 in
        if hours =? 0 then m else FormatInt hours +:+ "h" +:+ m in
  if d <? 0 then "-" +:+ text else text.

Example Duration_String_runs :
  Duration_String 0 = "0s" ∧ Duration_String 1500000 = "1.5ms" ∧ Duration_String 90061000000000 = "25h1m1s" ∧
  Duration_String 3600000000001 = "1h0m0.000000001s" ∧ Duration_String (-7200000000000) = "-2h0m0s" ∧
  Duration_String min_int64 = "-2562047h47m16.854775808s".
Proof. by vm_compute. Qed.

(** ** classify.go *)

Definition statusesAgree (ledgerStatus pspStatus : string) : bool :=
  if bool_decide (ledgerStatus = "POSTED") then bool_decide (pspStatus = "SETTLED")
  else if bool_decide (ledgerStatus = "REVERSED") then bool_decide (pspStatus = "REFUNDED") || bool_decide (pspStatus = "FAILED")
  else if bool_decide (ledgerStatus = "PENDING") then bool_decide (pspStatus = "PENDING")
  else false.

Definition amount_text (amount : Z) (cur : string) : string := FormatInt amount +:+ " " +:+ cur.

(** The exception with everything but the verdict filled in. *)
Definition exception_of (m : MatchedRecord) (category status : string) (details : list (string * json))
    (resolved : option Time) : Exception :=
  let ledgerCurrency := default "" (Ls_Currency <$> Mr_Ledger m) in
  mkException uuid_Nil uuid_Nil (Mr_ExternalRef m) category status
    (Ls_TransactionID <$> Mr_Ledger m) (Sg_SagaID <$> Mr_Saga m)
    (Ls_AmountMinor <$> Mr_Ledger m) (Pa_AmountMinor <$> Mr_PSP m)
    (if bool_decide (ledgerCurrency = "") then default "" (Pa_Currency <$> Mr_PSP m) else ledgerCurrency)
    (default "" (Ls_Status <$> Mr_Ledger m)) (default "" (Pa_Status <$> Mr_PSP m)) details time_zero resolved.

(** [None] is a clean match: Go's [(nil, true)]. *)
Definition classify (m : MatchedRecord) (timingWindow : Z) (now : Time) : option Exception :=
  let open category details := Some (exception_of m category ExceptionStatusOpen details None) in
  match Mr_PSP m, Mr_Ledger m with
  | Some p, l =>
      if 1 <? Pa_RowCount p then open CategoryDuplicate [("psp_row_count", JNumber (FormatInt (Pa_RowCount p)))]
      else
        match l with
        | None => open CategoryMissingInLedger []
        | Some l =>
            if negb (Ls_AmountMinor l =? Pa_AmountMinor p) || negb (bool_decide (Ls_Currency l = Pa_Currency p)) then
              open CategoryAmountMismatch
                [("ledger_amount", JString (amount_text (Ls_AmountMinor l) (Ls_Currency l)));
                 ("psp_amount", JString (amount_text (Pa_AmountMinor p) (Pa_Currency p)))]
            else if negb (statusesAgree (Ls_Status l) (Pa_Status p)) then open CategoryStatusMismatch []
            else
              match Ls_PostedAt l with
              | None => None
              | Some posted =>
                  let gap := time_Sub posted (Pa_SettledAt p) in
                  let gap := if gap <? 0 then wrap64 (- gap) else gap in
                  if gap =? 0 then None
                  else if gap <=? timingWindow then
                    Some (exception_of m CategoryTimingDifference ExceptionStatusAutoResolved
                            [("gap", JString (Duration_String gap))] (Some now))
                  else open CategoryTimingDifference [("gap", JString (Duration_String gap))]
              end
        end
  | None, _ => open CategoryMissingInPSP []
  end.

(** ** store.go: what the engine asks of its store *)

Record ReconStore := mkReconStore {
  rs_Match : list PSPRecord → Time → M (list MatchedRecord);
  rs_CreateRun : Run → M unit;
  rs_FinishRun : UUID → string → string → Z → Z → Z → M unit;
  rs_SaveExceptions : list Exception → M unit }.

(** ** engine.go *)

Definition DefaultTimingWindow : Z := 2 * 3600 * 1000000000.
Definition DefaultLookback : Z := 7 * 24 * 3600 * 1000000000.

Record Engine := mkEngine { en_store : ReconStore; en_timingWindow : Z; en_lookback : Z }.

Definition NewEngine (store : ReconStore) (timingWindow lookback : Z) : Engine :=
  mkEngine store (if timingWindow <=? 0 then DefaultTimingWindow else timingWindow)
    (if lookback <=? 0 then DefaultLookback else lookback).

Definition with_ids (id runID : UUID) (created : Time) (e : Exception) : Exception :=
  mkException id runID (Exc_ExternalRef e) (Exc_Category e) (Exc_Status e) (Exc_LedgerTransactionID e)
    (Exc_SagaID e) (Exc_LedgerAmountMinor e) (Exc_PSPAmountMinor e) (Exc_Currency e) (Exc_LedgerStatus e)
    (Exc_PSPStatus e) (Exc_Details e) created (Exc_ResolvedAt e).

(** The counters of the loop: exceptions so far, clean matches, auto-resolved. *)
Definition tally : Type := list Exception * Z * Z.

Definition classify_one (e : Engine) (runID : UUID) (t : tally) (m : MatchedRecord) : M tally :=
  let '(exceptions, matched, auto) := t in
  now ← clock_Now;
  match classify m (en_timingWindow e) now with
  | None => mret (exceptions, matched + 1, auto)
  | Some exc =>
      id ← uuid_NewV7;
      created ← clock_Now;
      let exc := with_ids id runID created exc in
      mret ((exceptions ++ [exc])%list, matched,
            if bool_decide (Exc_Status exc = ExceptionStatusAutoResolved) then auto + 1 else auto)
  end.

Definition by_category (l : list Exception) : gmap string Z :=
  foldr (λ e m, <[Exc_Category e := default 0 (m !! Exc_Category e) + 1]> m) ∅ l.

Section engine.
Context `{ET : ErrorText}.

(** [fail]: an error while recording the failure is only logged. *)
Definition engine_fail (e : Engine) (runID : UUID) (cause : string) (w : World) : World :=
  (rs_FinishRun (en_store e) runID RunStatusFailed cause 0 0 0 w).2.

(** Run [m]; on an error mark the run FAILED, saying what failed, and return the
    error. *)
Definition or_fail {A} (e : Engine) (runID : UUID) (what : string) (m : M A) : M A := λ w,
  match m w with
  | (Ok a, w') => (Ok a, w')
  | (Err err, w') => (Err err, engine_fail e runID (what +:+ ": " +:+ error_text err) w')
  end.

Definition Engine_Run (e : Engine) (source : string) (psp : list PSPRecord) : M Run :=
  _ ← guard_M (bool_decide (psp ≠ [])) ErrEmptyStatement;
  runID ← uuid_NewV7;
  startedAt ← clock_Now;
  _ ← rs_CreateRun (en_store e) (mkRun runID source startedAt None RunStatusRunning
        (Z.of_nat (length psp)) 0 0 0 "" ∅);
  matches ← or_fail e runID "three-way match" (rs_Match (en_store e) psp (startedAt - en_lookback e));
  t ← or_fail e runID "generate exception id" (foldlM (classify_one e runID) ([], 0, 0) matches);
  let '(exceptions, matched, auto) := t in
  _ ← or_fail e runID "save reconciliation exceptions" (rs_SaveExceptions (en_store e) exceptions);
  _ ← rs_FinishRun (en_store e) runID RunStatusCompleted "" matched auto (Z.of_nat (length exceptions));
  finishedAt ← clock_Now;
  mret (mkRun runID source startedAt (Some finishedAt) RunStatusCompleted (Z.of_nat (length psp))
    matched auto (Z.of_nat (length exceptions)) "" (by_category exceptions)).
End engine.
