(* ===== verification/PgRecon.v ===== *)
(** * The PostgreSQL reconciliation store (internal/reconciliation/pgreconciliation)

    [Match] is the three-way join over the ledger's own tables.  Where SQL leaves
    the choice between equally recent rows open, the earlier one in the order of
    the table is taken; texts are ordered by their bytes.  A time sent to the
    server keeps its microseconds ([timestamptz]). *)

From S2P Require Import Prelude Errors Money Json Types SagaTypes Events Schema PgSaga Recon.
Open Scope string_scope.
Open Scope Z_scope.

(** ** Match *)

(** A row of psp_input. *)
Definition psp_input (p : PSPRecord) : PSPRecord :=
  mkPSPRecord (Psp_ExternalRef p) (Psp_AmountMinor p) (Psp_Currency p) (Psp_Status p) (timestamptz (Psp_SettledAt p)).

(** The most recent of the rows, by [at_]. *)
Definition latest {A} (at_ : A → Time) (l : list A) : option A := head (sort_by (λ a b, at_ b <=? at_ a) l).

(** psp_agg: the latest row of a reference and how many there are. *)
Definition psp_agg (psp : list PSPRecord) (ref : string) : option PSPAggregate :=
  let rows := filter (λ p, Psp_ExternalRef p = ref) psp in
  (λ p, NewPSPAggregate p (Z.of_nat (length rows))) <$> latest Psp_SettledAt rows.

Definition debit_rows (tx : UUID) (d : DB) : list entry_row :=
  filter (λ r, je_transaction_id r = tx ∧ je_direction r = DirectionDebit) (journal_entries d).

(** A transaction of the window as the ledger's side; a missing sum reads as zero
    and a missing currency as the empty string. *)
Definition ledger_side (d : DB) (kt : UUID * transaction_row) : LedgerSide :=
  let rows := debit_rows kt.1 d in
  mkLedgerSide kt.1 (zsum je_amount_minor rows) (default "" (je_currency <$> head rows)) (t_status kt.2)
    (t_posted_at kt.2) (t_created_at kt.2).

Definition in_window (since : Time) (d : DB) : list (UUID * transaction_row) :=
  filter (λ kt : UUID * transaction_row, is_Some (t_external_ref kt.2) ∧ since ≤ t_created_at kt.2)
    (map_to_list (transactions d)).

(** ledger_latest *)
Definition ledger_latest (since : Time) (d : DB) (ref : string) : option LedgerSide :=
  ledger_side d <$> latest (λ kt : UUID * transaction_row, t_created_at kt.2)
    (filter (λ kt : UUID * transaction_row, t_external_ref kt.2 = Some ref) (in_window since d)).

(** [payload ->> 'external_ref']: an empty reference is omitted from the payload. *)
Definition payload_ref (r : saga_row) : option string :=
  match sg_payload r with
  | Some p => nullif_empty (Payload_ExternalRef p)
  | None => None
  end.

(** saga_latest *)
Definition saga_latest (d : DB) (ref : string) : option SagaSide :=
  (λ kr : UUID * saga_row, mkSagaSide kr.1 (sg_status kr.2)) <$>
    latest (λ kr : UUID * saga_row, sg_created_at kr.2)
      (filter (λ kr : UUID * saga_row, payload_ref kr.2 = Some ref) (map_to_list (saga_instances d))).

(** The references either side mentions, each once, in order. *)
Definition match_refs (psp : list PSPRecord) (since : Time) (d : DB) : list string :=
  sort_by String.leb (remove_dups ((Psp_ExternalRef <$> psp) ++ omap (λ kt : UUID * transaction_row, t_external_ref kt.2) (in_window since d))%list).

Definition match_record (psp : list PSPRecord) (since : Time) (d : DB) (ref : string) : MatchedRecord :=
  mkMatchedRecord ref (ledger_latest since d ref) (saga_latest d ref) (psp_agg psp ref).

(** Scanning a row fails when the sum does not fit int64. *)
Definition scannable (m : MatchedRecord) : bool :=
  match Mr_Ledger m with Some l => in_int64 (Ls_AmountMinor l) | None => true end.

Definition match_rows (psp : list PSPRecord) (since : Time) (d : DB) : list MatchedRecord :=
  let psp := psp_input <$> psp in
  let since := timestamptz since in
  match_record psp since d <$> match_refs psp since d.

Definition pg_Match (psp : list PSPRecord) (since : Time) : M (list MatchedRecord) :=
  _ ← tx_start; _ ← sql_exec;
  rows ← gets (match_rows psp since);
  _ ← guard_M (forallb scannable rows) (ErrOther "scan matched reconciliation record");
  mret rows.

(** ** Runs and exceptions *)

Definition recon_check name := PgError CheckViolation name "violates check constraint".

Definition fits_int32 (n : Z) : bool := (-2147483648 <=? n) && (n <=? 2147483647).

Definition check_run_row (r : run_row) : res unit :=
  _ ← guard_err (fits_int32 (rr_psp_row_count r) && fits_int32 (rr_matched_count r) &&
                 fits_int32 (rr_auto_resolved_count r) && fits_int32 (rr_exception_count r))
        (PgError NumericValueOutOfRange "" "integer out of range");
  _ ← guard_err (bool_decide (rr_status r = RunStatusRunning ↔ rr_finished_at r = None))
        (recon_check "reconciliation_runs_finished_at_check");
  _ ← guard_err ((0 <=? rr_psp_row_count r) && (0 <=? rr_matched_count r) &&
                 (0 <=? rr_auto_resolved_count r) && (0 <=? rr_exception_count r))
        (recon_check "reconciliation_runs_counts_check");
  guard_err (bool_decide (rr_status r ∈ [RunStatusRunning; RunStatusCompleted; RunStatusFailed]))
        (recon_check "reconciliation_runs_status_check").

Definition run_row_of (run : Run) : run_row :=
  mk_run_row (Run_Source run) (timestamptz (Run_StartedAt run)) None (Run_Status run) (Run_PSPRowCount run) 0 0 0 None.

Definition insert_run (run : Run) : M unit :=
  _ ← sql_exec;
  _ ← lift (check_run_row (run_row_of run));
  taken ← gets (λ d, bool_decide (is_Some (reconciliation_runs d !! Run_ID run)));
  _ ← guard_M (negb taken) (PgError UniqueViolation "reconciliation_runs_pkey" "duplicate key value");
  modify (λ d, set_reconciliation_runs (<[Run_ID run := run_row_of run]> (reconciliation_runs d)) d).

Definition pg_CreateRun (run : Run) : M unit := autocommit (insert_run run).

Definition finished_row (now : Time) (status errMsg : string) (matched autoResolved exceptionCount : Z) (r : run_row) : run_row :=
  mk_run_row (rr_source r) (rr_started_at r) (Some now) status (rr_psp_row_count r) matched autoResolved
    exceptionCount (nullif_empty errMsg).

(** An UPDATE that matches no row is no error. *)
Definition update_run (id : UUID) (status errMsg : string) (matched autoResolved exceptionCount : Z) : M unit :=
  _ ← sql_exec;
  now ← sql_now;
  row ← gets (λ d, reconciliation_runs d !! id);
  match row with
  | None => mret tt
  | Some r =>
      let r' := finished_row now status errMsg matched autoResolved exceptionCount r in
      _ ← lift (check_run_row r');
      modify (λ d, set_reconciliation_runs (<[id := r']> (reconciliation_runs d)) d)
  end.

Definition pg_FinishRun (id : UUID) (status errMsg : string) (matched autoResolved exceptionCount : Z) : M unit :=
  autocommit (update_run id status errMsg matched autoResolved exceptionCount).

(** [nullIfEmpty] *)
Definition nullIfEmpty (s : string) : option string := nullif_empty s.

Definition exception_row_of (e : Exception) : exception_row :=
  mk_exception_row (Exc_ID e) (Exc_RunID e) (Exc_ExternalRef e) (Exc_Category e) (Exc_Status e)
    (Exc_LedgerTransactionID e) (Exc_SagaID e) (Exc_LedgerAmountMinor e) (Exc_PSPAmountMinor e)
    (Some (Exc_Currency e)) (nullIfEmpty (Exc_LedgerStatus e)) (nullIfEmpty (Exc_PSPStatus e))
    (Exc_Details e) (timestamptz (Exc_CreatedAt e)) (timestamptz <$> Exc_ResolvedAt e).

Definition exception_categories : list string :=
  [CategoryMissingInLedger; CategoryMissingInPSP; CategoryAmountMismatch; CategoryStatusMismatch;
   CategoryTimingDifference; CategoryDuplicate].

Definition check_exception_row (r : exception_row) (d : DB) : res unit :=
  _ ← guard_err (bool_decide (re_category r ∈ exception_categories)) (recon_check "reconciliation_exceptions_category_check");
  _ ← guard_err (bool_decide (re_status r = ExceptionStatusOpen ↔ re_resolved_at r = None))
        (recon_check "reconciliation_exceptions_resolved_at_check");
  _ ← guard_err (bool_decide (re_status r ∈ [ExceptionStatusOpen; ExceptionStatusAutoResolved; ExceptionStatusResolved]))
        (recon_check "reconciliation_exceptions_status_check");
  _ ← guard_err (negb (existsb (λ x, bool_decide (re_id x = re_id r)) (reconciliation_exceptions d)))
        (PgError UniqueViolation "reconciliation_exceptions_pkey" "duplicate key value");
  _ ← guard_err (bool_decide (is_Some (reconciliation_runs d !! re_run_id r)))
        (PgError ForeignKeyViolation "reconciliation_exceptions_run_id_fkey" "violates foreign key constraint");
  _ ← guard_err (match re_ledger_transaction_id r with Some x => bool_decide (is_Some (transactions d !! x)) | None => true end)
        (PgError ForeignKeyViolation "reconciliation_exceptions_ledger_transaction_id_fkey" "violates foreign key constraint");
  guard_err (match re_saga_id r with Some x => bool_decide (is_Some (saga_instances d !! x)) | None => true end)
        (PgError ForeignKeyViolation "reconciliation_exceptions_saga_id_fkey" "violates foreign key constraint").

Definition insert_exception (e : Exception) : M unit :=
  _ ← sql_exec;
  ok ← gets (check_exception_row (exception_row_of e));
  _ ← lift ok;
  modify (λ d, set_reconciliation_exceptions (reconciliation_exceptions d ++ [exception_row_of e])%list d).

(** The batch is queued and sent as one. *)
Definition pg_SaveExceptions (exceptions : list Exception) : M unit :=
  match exceptions with
  | [] => mret tt
  | _ => autocommit (_ ← mapM_ insert_exception exceptions; mret tt)
  end.

Definition pg_recon_store : ReconStore := mkReconStore pg_Match pg_CreateRun pg_FinishRun pg_SaveExceptions.

(** ** Reading runs back *)

Definition categoryBreakdown (runID : UUID) (d : DB) : gmap string Z :=
  foldr (λ r m, <[re_category r := default 0 (m !! re_category r) + 1]> m) ∅
    (filter (λ r, re_run_id r = runID) (reconciliation_exceptions d)).

Definition run_of (id : UUID) (r : run_row) (breakdown : gmap string Z) : Run :=
  mkRun id (rr_source r) (rr_started_at r) (rr_finished_at r) (rr_status r) (rr_psp_row_count r)
    (rr_matched_count r) (rr_auto_resolved_count r) (rr_exception_count r) (default "" (rr_error r)) breakdown.

Definition pg_GetRun (id : UUID) : M Run :=
  _ ← tx_start; _ ← sql_exec;
  row ← gets (λ d, reconciliation_runs d !! id);
  match row with
  | None => fail ErrRunNotFound
  | Some r =>
      _ ← tx_start; _ ← sql_exec;
      breakdown ← gets (categoryBreakdown id);
      mret (run_of id r breakdown)
  end.

Definition pg_ListRuns (limit : nat) : M (list Run) :=
  _ ← tx_start; _ ← sql_exec;
  rows ← gets (λ d, take limit (sort_by (λ a b : UUID * run_row, rr_started_at b.2 <=? rr_started_at a.2)
                                 (map_to_list (reconciliation_runs d))));
  match rows with
  | [] => mret []
  | _ =>
      _ ← tx_start; _ ← sql_exec;
      gets (λ d, (λ kr : UUID * run_row, run_of kr.1 kr.2 (categoryBreakdown kr.1 d)) <$> rows)
  end.

Definition exception_of_row (r : exception_row) : Exception :=
  mkException (re_id r) (re_run_id r) (re_external_ref r) (re_category r) (re_status r)
    (re_ledger_transaction_id r) (re_saga_id r) (re_ledger_amount_minor r) (re_psp_amount_minor r)
    (default "" (re_currency r)) (default "" (re_ledger_status r)) (default "" (re_psp_status r))
    (re_details r) (re_created_at r) (re_resolved_at r).

Definition pg_ListExceptions (runID : UUID) : M (list Exception) :=
  _ ← tx_start; _ ← sql_exec;
  rows ← gets (λ d, sort_by (λ a b, re_created_at a <=? re_created_at b)
                      (filter (λ r, re_run_id r = runID) (reconciliation_exceptions d)));
  mret (exception_of_row <$> rows).
