(* ===== verification/ReconMatch.v ===== *)
(** * What the three-way match returns

    One record for every reference either side mentions, with the most recent row
    of each side, and the ledger's amount from the double-entry invariant. *)

From S2P Require Import Prelude Errors Money Strconv Json Types SagaTypes Events Schema PgSaga.
From S2P Require Import PgLedger PgLedgerSpec Invariant Frames Recon PgRecon.
Open Scope string_scope.
Open Scope Z_scope.

(** ** The most recent row *)

Section latest.
Context {A : Type} (at_ : A → Time).

#[local] Instance recent_total : Total (bool_rel (λ a b : A, at_ b <=? at_ a)).
Proof. intros a b. unfold bool_rel. rewrite !Z.leb_le. lia. Qed.
#[local] Instance recent_trans : Transitive (bool_rel (λ a b : A, at_ b <=? at_ a)).
Proof. intros a b c. unfold bool_rel. rewrite !Z.leb_le. lia. Qed.

Lemma latest_Some l a : latest at_ l = Some a → a ∈ l ∧ ∀ b, b ∈ l → at_ b ≤ at_ a.
Proof.
  unfold latest. intros Hh. pose proof (sort_by_Sorted (λ a b, at_ b <=? at_ a) l recent_total) as Hs.
  apply Sorted_StronglySorted in Hs; [|apply recent_trans].
  assert (Hin : ∀ b, b ∈ l ↔ b ∈ sort_by (λ a b, at_ b <=? at_ a) l) by (intros b; by rewrite sort_by_elem).
  destruct (sort_by _ l) as [|x s]; [done|]. injection Hh as ->. split; [apply Hin; set_solver|].
  intros b Hb. apply Hin in Hb. apply elem_of_cons in Hb as [->|Hb]; [lia|].
  inversion Hs as [|? ? _ Hall]; subst. rewrite Forall_forall in Hall.
  specialize (Hall b). rewrite <- list_elem_of_In in Hall. apply Z.leb_le, Hall, Hb.
Qed.

Lemma latest_None l : latest at_ l = None ↔ l = [].
Proof.
  unfold latest. pose proof (sort_by_length (λ a b, at_ b <=? at_ a) l) as Hl.
  destruct (sort_by _ l), l; simpl in *; done.
Qed.
End latest.

(** ** One record per reference *)

Section sides.
Context (psp : list PSPRecord) (since : Time) (d : DB) (ref : string).

(** What the statement says: the last row settled and how many there are. *)
Definition statement_side (p : option PSPAggregate) : Prop :=
  let rows := filter (λ r, Psp_ExternalRef r = ref) psp in
  match p with
  | None => rows = []
  | Some p => ∃ r, r ∈ rows ∧ p = NewPSPAggregate (psp_input r) (Z.of_nat (length rows)) ∧
      ∀ r', r' ∈ rows → timestamptz (Psp_SettledAt r') ≤ timestamptz (Psp_SettledAt r)
  end.

(** A transaction of the window under this reference. *)
Definition candidate (id : UUID) (t : transaction_row) : Prop :=
  transactions d !! id = Some t ∧ t_external_ref t = Some ref ∧ timestamptz since ≤ t_created_at t.

(** What the ledger says: the last transaction created, its amount the sum of its
    debits. *)
Definition books_side (l : option LedgerSide) : Prop :=
  match l with
  | None => ∀ id t, ¬ candidate id t
  | Some l => ∃ t, candidate (Ls_TransactionID l) t ∧ (∀ id t', candidate id t' → t_created_at t' ≤ t_created_at t) ∧
      Ls_Status l = t_status t ∧ Ls_PostedAt l = t_posted_at t ∧ Ls_CreatedAt l = t_created_at t ∧
      Ls_AmountMinor l = zsum je_amount_minor (debit_rows (Ls_TransactionID l) d)
  end.

(** What the orchestrator says: the last saga created under this reference. *)
Definition saga_side (s : option SagaSide) : Prop :=
  let mine id r := saga_instances d !! id = Some r ∧ payload_ref r = Some ref in
  match s with
  | None => ∀ id r, ¬ mine id r
  | Some s => ∃ r, mine (Sg_SagaID s) r ∧ Sg_Status s = sg_status r ∧ ∀ id r', mine id r' → sg_created_at r' ≤ sg_created_at r
  end.

Lemma psp_agg_side : statement_side (psp_agg (psp_input <$> psp) ref).
Proof.
  unfold psp_agg, statement_side.
  assert (Hf : filter (λ p, Psp_ExternalRef p = ref) (psp_input <$> psp) = psp_input <$> filter (λ p, Psp_ExternalRef p = ref) psp).
  { clear. induction psp as [|p l IH]; [done|]. rewrite fmap_cons, !filter_cons, IH. simpl. by case_decide. }
  rewrite Hf, length_fmap. destruct (latest _ _) as [q|] eqn:Hl; simpl.
  - apply latest_Some in Hl as [Hin Hmax]. apply list_elem_of_fmap in Hin as (r & -> & Hr). exists r. split_and!; [done|done|].
    intros r' Hr'. apply (Hmax (psp_input r')). by apply list_elem_of_fmap_2.
  - apply latest_None in Hl. by apply fmap_nil_inv in Hl.
Qed.

Lemma window_elem id t : (id, t) ∈ filter (λ kt : UUID * transaction_row, t_external_ref kt.2 = Some ref) (in_window (timestamptz since) d)
  ↔ candidate id t.
Proof.
  unfold in_window, candidate. rewrite !list_elem_of_filter, elem_of_map_to_list. simpl. split.
  - by intros (? & [_ ?] & ?).
  - intros (? & Hr & ?). by rewrite Hr.
Qed.

Lemma ledger_latest_side : books_side (ledger_latest (timestamptz since) d ref).
Proof.
  unfold ledger_latest, books_side. destruct (latest _ _) as [[id t]|] eqn:Hl; simpl.
  - apply latest_Some in Hl as [Hin Hmax]. apply window_elem in Hin. exists t. split_and!; try done.
    intros id' t' Hc. by apply (Hmax (id', t')), window_elem.
  - apply latest_None in Hl. intros id t Hc. apply window_elem in Hc. rewrite Hl in Hc. by apply not_elem_of_nil in Hc.
Qed.

Lemma saga_latest_side : saga_side (saga_latest d ref).
Proof.
  unfold saga_latest, saga_side.
  assert (He : ∀ id r, (id, r) ∈ filter (λ kr : UUID * saga_row, payload_ref kr.2 = Some ref) (map_to_list (saga_instances d)) ↔
    saga_instances d !! id = Some r ∧ payload_ref r = Some ref).
  { intros id r. rewrite list_elem_of_filter, elem_of_map_to_list. simpl. tauto. }
  destruct (latest _ _) as [[id r]|] eqn:Hl; simpl.
  - apply latest_Some in Hl as [Hin Hmax]. apply He in Hin. exists r. split_and!; [by destruct Hin..|done|].
    intros id' r' Hc. by apply (Hmax (id', r')), He.
  - apply latest_None in Hl. intros id r Hc. apply He in Hc. rewrite Hl in Hc. by apply not_elem_of_nil in Hc.
Qed.
End sides.

Lemma pg_Match_ok psp since ms w w' : pg_Match psp since w = (Ok ms, w') →
  ms = match_rows psp since (w_db w) ∧ w_db w' = w_db w.
Proof.
  unfold pg_Match. intros Hrun. apply M_bind_ok in Hrun as (u & w1 & Hs & Hrun). mrun.
  pose proof (tx_start_db w) as Hd. rewrite Hs in Hd. simpl in *. by rewrite Hd.
Qed.

Lemma match_refs_elem psp since d ref : ref ∈ match_refs (psp_input <$> psp) (timestamptz since) d ↔
  ref ∈ Psp_ExternalRef <$> psp ∨ ∃ id t, candidate since d ref id t.
Proof.
  unfold match_refs. rewrite sort_by_elem, elem_of_remove_dups, elem_of_app, <- list_fmap_compose, list_elem_of_omap.
  apply or_iff_compat_l. split.
  - intros ([id t] & Hin & Hr). exists id, t. apply window_elem, list_elem_of_filter. by split.
  - intros (id & t & [Hr Hin]%window_elem%list_elem_of_filter). by exists (id, t).
Qed.

(** The three-way match covers both sides.  It returns exactly one record for
    each reference that the statement or a ledger transaction of the lookback
    window mentions; the record carries the statement's last settled row with the
    number of its rows, the ledger's last created transaction of the window with
    the sum of its debits, and the last saga started for the reference, each absent
    exactly when there is none.  Reading changes nothing. *)
Theorem match_covers_both_sides psp since ms w w' : pg_Match psp since w = (Ok ms, w') →
  w_db w' = w_db w ∧ NoDup (Mr_ExternalRef <$> ms) ∧
  (∀ ref, ref ∈ Mr_ExternalRef <$> ms ↔ ref ∈ Psp_ExternalRef <$> psp ∨ ∃ id t, candidate since (w_db w) ref id t) ∧
  (∀ m, m ∈ ms → statement_side psp (Mr_ExternalRef m) (Mr_PSP m) ∧
     books_side since (w_db w) (Mr_ExternalRef m) (Mr_Ledger m) ∧ saga_side (w_db w) (Mr_ExternalRef m) (Mr_Saga m)).
Proof.
  intros [-> Hdb]%pg_Match_ok. unfold match_rows.
  assert (Hrefs : Mr_ExternalRef <$> (match_record (psp_input <$> psp) (timestamptz since) (w_db w) <$>
    match_refs (psp_input <$> psp) (timestamptz since) (w_db w)) = match_refs (psp_input <$> psp) (timestamptz since) (w_db w)).
  { rewrite <- list_fmap_compose. apply list_fmap_id. }
  rewrite Hrefs. split_and!; [done| | |].
  - unfold match_refs. apply sort_by_NoDup, NoDup_remove_dups.
  - intros ref. apply match_refs_elem.
  - intros m (ref & -> & _)%list_elem_of_fmap. simpl.
    split_and!; [apply psp_agg_side|apply ledger_latest_side|apply saga_latest_side].
Qed.

(** ** The ledger's amount *)

Definition credit_rows (tx : UUID) (d : DB) : list entry_row :=
  filter (λ r, je_transaction_id r = tx ∧ je_direction r = DirectionCredit) (journal_entries d).

Lemma sides_difference id cur l : (∀ r, r ∈ l → entry_row_ok r) →
  (∀ r, r ∈ tx_rows id l → je_currency r = cur) →
  tx_currency_sum id cur l = zsum je_amount_minor (filter (λ r, je_transaction_id r = id ∧ je_direction r = DirectionDebit) l) -
    zsum je_amount_minor (filter (λ r, je_transaction_id r = id ∧ je_direction r = DirectionCredit) l).
Proof.
  unfold tx_currency_sum, tx_rows. rewrite !zsum_filter. induction l as [|r l IH]; intros Hok Hcur; [done|].
  rewrite !zsum_cons, IH; [|set_solver|intros x Hx; apply Hcur; rewrite filter_cons; case_decide; set_solver].
  destruct (Hok r) as (_ & Hd & _); [set_solver|].
  destruct (decide (je_transaction_id r = id)) as [Hid|Hid].
  - assert (Hc : je_currency r = cur) by (apply Hcur; rewrite filter_cons_True by done; set_solver).
    rewrite (decide_True _ _ (conj Hid Hc)). unfold transaction_signed.
    apply Direction_Valid_cases in Hd as [Hd|Hd]; rewrite Hd;
      repeat case_decide; try case_bool_decide; try lia; naive_solver.
  - rewrite !decide_False by tauto. lia.
Qed.

Lemma zsum_pos {A} (f : A → Z) l x : (∀ y, y ∈ l → 0 < f y) → x ∈ l → 0 < zsum f l.
Proof.
  intros Hpos [l1 [l2 ->]]%list_elem_of_split. rewrite zsum_app, zsum_cons.
  assert (0 ≤ zsum f l1) by (apply zsum_nonneg; intros y Hy; specialize (Hpos y); set_solver by lia).
  assert (0 ≤ zsum f l2) by (apply zsum_nonneg; intros y Hy; specialize (Hpos y); set_solver by lia).
  specialize (Hpos x). assert (0 < f x) by (apply Hpos; set_solver). lia.
Qed.

(** The amount a transaction is compared by does not depend on the side it is
    read from.  In a consistent ledger the debits of a transaction whose entries are
    all of one currency sum to what its credits sum to, that sum is positive, and
    the currency reported with it is the currency of every entry. *)
Theorem ledger_amount_well_defined d id t cur : ledger_wf d → transactions d !! id = Some t →
  (∀ r, r ∈ tx_rows id (journal_entries d) → je_currency r = cur) →
  let l := ledger_side d (id, t) in
  Ls_AmountMinor l = zsum je_amount_minor (credit_rows id d) ∧ 0 < Ls_AmountMinor l ∧ Ls_Currency l = cur.
Proof.
  intros Hwf Ht Hcur. simpl.
  assert (Hok : ∀ r, r ∈ journal_entries d → entry_row_ok r) by (intros r Hr; by apply (wf_entries d Hwf)).
  pose proof (sides_difference id cur (journal_entries d) Hok Hcur) as Hz. rewrite (wf_zero d Hwf) in Hz.
  fold (debit_rows id d) (credit_rows id d) in Hz.
  assert (Hpos : 0 < zsum je_amount_minor (debit_rows id d)).
  { destruct (wf_txs d Hwf id t Ht) as (_ & _ & Hlen). destruct (tx_rows id (journal_entries d)) as [|r l] eqn:Hrows; [simpl in Hlen; lia|].
    assert (Hr : r ∈ tx_rows id (journal_entries d)) by (rewrite Hrows; set_solver).
    apply list_elem_of_filter in Hr as [Hid Hr]. destruct (Hok r Hr) as (_ & Hd & _).
    apply Direction_Valid_cases in Hd as [Hd|Hd]; [|replace (zsum _ (debit_rows id d)) with (zsum je_amount_minor (credit_rows id d)) by lia];
      apply (zsum_pos _ _ r); try (by apply list_elem_of_filter); intros y [_ Hy]%list_elem_of_filter; by apply Hok. }
  split_and!; [lia|done|]. destruct (debit_rows id d) as [|r l] eqn:Hd; [done|]. simpl. apply Hcur.
  assert (Hr : r ∈ debit_rows id d) by (rewrite Hd; set_solver). apply list_elem_of_filter in Hr as [[? _] ?]. by apply list_elem_of_filter.
Qed.
