(* ===== verification/ReconRun.v ===== *)
(** * What a reconciliation run leaves behind

    The tables after a run, in every environment: what a successful run has
    recorded, what a failed one may have recorded, and the invariant of the two
    reconciliation tables. *)

From S2P Require Import Prelude Errors Money Strconv Json Types SagaTypes Events Schema PgSaga Manager.
From S2P Require Import PgLedgerSpec Invariant Frames Recon PgRecon.
Open Scope string_scope.
Open Scope Z_scope.

(** ** The statements *)

(** Everything but the reconciliation tables. *)
Definition recon_tables (runs : gmap UUID run_row) (exceptions : list exception_row) (d : DB) : DB :=
  set_reconciliation_exceptions exceptions (set_reconciliation_runs runs d).

Lemma recon_tables_same d : recon_tables (reconciliation_runs d) (reconciliation_exceptions d) d = d.
Proof. by destruct d. Qed.

Lemma insert_run_ok run u w w' : insert_run run w = (Ok u, w') →
  reconciliation_runs (w_db w) !! Run_ID run = None ∧ w_clock w' = w_clock w ∧
  check_run_row (run_row_of run) = Ok tt ∧
  w_db w' = recon_tables (<[Run_ID run := run_row_of run]> (reconciliation_runs (w_db w))) (reconciliation_exceptions (w_db w)) (w_db w).
Proof.
  unfold insert_run. intros Hrun. mrun. simpl in *. bool_to_prop.
  match goal with H : check_run_row _ = Ok ?v |- _ => destruct v end.
  split_and!; [by apply eq_None_not_Some|done|done|by destruct (w_db w)].
Qed.

Lemma update_run_ok id status msg mc ac ec u w w' : update_run id status msg mc ac ec w = (Ok u, w') →
  w_clock w' = w_clock w ∧ w_now w' = w_now w ∧
  match reconciliation_runs (w_db w) !! id with
  | None => w_db w' = w_db w
  | Some r =>
      let r' := finished_row (w_now w) status msg mc ac ec r in check_run_row r' = Ok tt ∧
      w_db w' = recon_tables (<[id := r']> (reconciliation_runs (w_db w))) (reconciliation_exceptions (w_db w)) (w_db w)
  end.
Proof.
  unfold update_run. intros Hrun. mrun. simpl in *. destruct (reconciliation_runs (w_db w) !! id) as [r|]; mrun; simpl; [|done].
  match goal with H : check_run_row _ = Ok ?v |- _ => destruct v end.
  split_and!; [done|done|done|by destruct (w_db w)].
Qed.

Lemma insert_exceptions_ok l : ∀ us w w', mapM_ insert_exception l w = (Ok us, w') →
  w_clock w' = w_clock w ∧
  (∀ i e, l !! i = Some e → is_Some (reconciliation_runs (w_db w) !! Exc_RunID e)) ∧
  (NoDup (re_id <$> reconciliation_exceptions (w_db w)) → NoDup (re_id <$> reconciliation_exceptions (w_db w'))) ∧
  w_db w' = recon_tables (reconciliation_runs (w_db w))
    (reconciliation_exceptions (w_db w) ++ (exception_row_of <$> l))%list (w_db w).
Proof.
  induction l as [|e l IH]; simpl; intros us w w' Hrun; mrun.
  { rewrite app_nil_r, recon_tables_same. done. }
  match goal with H : insert_exception _ _ = _ |- _ => rename H into He end.
  match goal with H : mapM_ _ _ _ = _ |- _ => apply IH in H as (Hc & Hfk & Hnd & Hdb) end.
  unfold insert_exception in He. mrun. simpl in *. match goal with H : _ = Ok _ |- _ => rename H into Hok end.
  unfold check_exception_row in Hok. checks Hok. bool_to_prop. split_and!; [done| | |].
  - intros [|i] e' Hx; simpl in Hx; [by injection Hx as <-|by eapply Hfk].
  - intros Hnd0. apply Hnd. apply NoDup_fmap_snoc; [done|]. rewrite list_elem_of_fmap. intros (y & Hy & Hin).
    match goal with H : existsb _ _ = false |- _ => pose proof (existsb_false _ _ H y Hin) as Hf end.
    simpl in Hf. apply bool_decide_eq_false in Hf. by destruct Hf.
  - rewrite Hdb. destruct (w_db w). unfold recon_tables, set_reconciliation_exceptions, set_reconciliation_runs. simpl. by rewrite <- app_assoc.
Qed.

(** ** A run's marks on the database

    The row of the run and the exceptions it has saved, on top of [d]. *)
Definition marked (id : UUID) (row : run_row) (rows : list exception_row) (d : DB) : DB :=
  recon_tables (<[id := row]> (reconciliation_runs d)) (reconciliation_exceptions d ++ rows)%list d.

Lemma marked_row id row rows d : reconciliation_runs (marked id row rows d) !! id = Some row.
Proof. apply lookup_insert_eq. Qed.

Lemma marked_lookup id row rows d i r : reconciliation_runs (marked id row rows d) !! i = Some r ↔
  (id = i ∧ row = r) ∨ (id ≠ i ∧ reconciliation_runs d !! i = Some r).
Proof. apply lookup_insert_Some. Qed.

Lemma create_effect run w r w' : pg_CreateRun run w = (r, w') →
  (w_db w' = w_db w ∧ r ≠ Ok tt) ∨
  (reconciliation_runs (w_db w) !! Run_ID run = None ∧ w_db w' = marked (Run_ID run) (run_row_of run) [] (w_db w) ∧
   (r = Ok tt → w_clock w' = w_clock w)).
Proof.
  unfold pg_CreateRun, marked. rewrite app_nil_r. destruct r as [[]|e]; intros Hrun.
  - apply autocommit_ok in Hrun as (w0 & w1 & <- & <- & (Hf & Hc & _ & Hd)%insert_run_ok & -> & -> & _). by right.
  - apply autocommit_err in Hrun as [?|(u & w0 & w1 & <- & (Hf & _ & _ & Hd)%insert_run_ok & -> & _)]; [by left|by right].
Qed.

Lemma finish_effect id status msg mc ac ec row rows d w r w' :
  pg_FinishRun id status msg mc ac ec w = (r, w') → w_db w = marked id row rows d →
  (w_db w' = w_db w ∧ r ≠ Ok tt) ∨
  ∃ now, w_db w' = marked id (finished_row now status msg mc ac ec row) rows d ∧
    check_run_row (finished_row now status msg mc ac ec row) = Ok tt ∧ (r = Ok tt → w_now w' = now ∧ w_clock w' = w_clock w).
Proof.
  unfold pg_FinishRun. intros Hrun Hdb.
  assert (Hstep : ∀ w0 w1 u, w_db w0 = w_db w → update_run id status msg mc ac ec w0 = (Ok u, w1) →
    w_db w1 = marked id (finished_row (w_now w0) status msg mc ac ec row) rows d ∧
    check_run_row (finished_row (w_now w0) status msg mc ac ec row) = Ok tt ∧ w_now w1 = w_now w0 ∧ w_clock w1 = w_clock w0).
  { intros w0 w1 u H0 (Hc & Hn & Hr)%update_run_ok. rewrite H0, Hdb, marked_row in Hr. destruct Hr as [Hok Hr].
    split_and!; [|done|done|done]. rewrite Hr. unfold marked, recon_tables. simpl. by rewrite insert_insert_eq. }
  destruct r as [[]|e].
  - apply autocommit_ok in Hrun as (w0 & w1 & H0 & <- & Hu & -> & -> & ->).
    apply (Hstep _ _ _ H0) in Hu as (Hd & Hok & Hn & Hc). right. by exists (w_now w0).
  - apply autocommit_err in Hrun as [?|(u & w0 & w1 & H0 & Hu & -> & _)]; [by left|].
    apply (Hstep _ _ _ H0) in Hu as (Hd & Hok & _). right. by exists (w_now w0).
Qed.

Lemma save_effect id row d l w r w' : pg_SaveExceptions l w = (r, w') → w_db w = marked id row [] d →
  (w_db w' = w_db w ∧ r ≠ Ok tt) ∨
  (w_db w' = marked id row (exception_row_of <$> l) d ∧ (r = Ok tt → w_clock w' = w_clock w) ∧
   (NoDup (re_id <$> reconciliation_exceptions d) → NoDup (re_id <$> reconciliation_exceptions (w_db w')))).
Proof.
  intros Hrun Hdb.
  assert (Hstep : ∀ w0 w1 u, w_db w0 = w_db w → (_ ← mapM_ insert_exception l; mret tt) w0 = (Ok u, w1) →
    w_db w1 = marked id row (exception_row_of <$> l) d ∧ w_clock w1 = w_clock w0 ∧
    (NoDup (re_id <$> reconciliation_exceptions d) → NoDup (re_id <$> reconciliation_exceptions (w_db w1)))).
  { intros w0 w1 u H0 H. mrun. match goal with H : mapM_ _ _ _ = _ |- _ => apply insert_exceptions_ok in H as (Hc & _ & Hnd & Hd) end.
    rewrite H0, Hdb in Hnd, Hd. simpl in Hnd. rewrite app_nil_r in Hnd. split_and!; [|done|done].
    rewrite Hd. unfold marked, recon_tables. simpl. by rewrite app_nil_r. }
  destruct l as [|x l].
  { injection Hrun as <- <-. right. simpl. rewrite Hdb. split_and!; [done|done|]. simpl. by rewrite app_nil_r. }
  change (autocommit (_ ← mapM_ insert_exception (x :: l); mret tt) w = (r, w')) in Hrun. destruct r as [[]|e].
  - apply autocommit_ok in Hrun as (w0 & w1 & H0 & <- & Hu & -> & -> & _).
    apply (Hstep _ _ _ H0) in Hu as (Hd & Hc & Hnd). by right.
  - apply autocommit_err in Hrun as [?|(u & w0 & w1 & H0 & Hu & -> & _)]; [by left|].
    apply (Hstep _ _ _ H0) in Hu as (Hd & Hc & Hnd). by right.
Qed.

(** ** The loop over the matches *)

(** The exceptions the matches raise. *)
Definition raised (e : Engine) (now : Time) (ms : list MatchedRecord) : list Exception :=
  omap (λ m, classify m (en_timingWindow e) now) ms.

Definition numbered (runID : UUID) (now : Time) (ids : list UUID) (l : list Exception) : list Exception :=
  zip_with (λ id exc, with_ids id runID now exc) ids l.

Definition auto_count (l : list Exception) : Z :=
  Z.of_nat (length (filter (λ x, Exc_Status x = ExceptionStatusAutoResolved) l)).

Lemma raised_cons e now m ms : raised e now (m :: ms) =
  match classify m (en_timingWindow e) now with Some x => x :: raised e now ms | None => raised e now ms end.
Proof. done. Qed.

Lemma raised_length e now ms : (length (raised e now ms) ≤ length ms)%nat.
Proof.
  induction ms as [|m ms IH]; [done|]. rewrite raised_cons. destruct (classify m _ now); simpl; lia.
Qed.

Lemma auto_count_cons x l : auto_count (x :: l) =
  (if bool_decide (Exc_Status x = ExceptionStatusAutoResolved) then 1 else 0) + auto_count l.
Proof. unfold auto_count. rewrite filter_cons. case_decide; [rewrite bool_decide_eq_true_2 by done; rewrite length_cons|rewrite bool_decide_eq_false_2 by done]; lia. Qed.

Lemma classify_loop_ok e id ms : ∀ exs mc ac t w w', foldlM (classify_one e id) (exs, mc, ac) ms w = (Ok t, w') →
  let l := raised e (w_clock w) ms in
  ∃ ids, length ids = length l ∧ w_db w' = w_db w ∧ w_clock w' = w_clock w ∧
    t = ((exs ++ numbered id (w_clock w) ids l)%list, mc + Z.of_nat (length ms - length l), ac + auto_count l).
Proof.
  induction ms as [|m ms IH]; cbn [foldlM]; intros exs mc ac t w w' Hrun.
  { mrun. exists []. split_and!; try done. simpl. rewrite app_nil_r. unfold auto_count. simpl. repeat f_equal; lia. }
  apply M_bind_ok in Hrun as ([[exs1 mc1] ac1] & w1 & Hone & Hrest).
  unfold classify_one in Hone. apply M_bind_ok in Hone as (now & w2 & [= <- <-] & Hone).
  pose proof (raised_length e (w_clock w) ms) as Hlen. rewrite raised_cons.
  destruct (classify m (en_timingWindow e) (w_clock w)) as [exc|] eqn:Hc.
  - apply M_bind_ok in Hone as (u & w2 & Hu & Hone). apply M_bind_ok in Hone as (now & w3 & [= <- <-] & Hone).
    apply uuid_NewV7_ok in Hu as (rest & Hu & ->). apply ret_ok in Hone as [[= -> -> ->] ->].
    apply IH in Hrest as (ids & Hids & Hdb & Hclk & ->). exists (u :: ids). simpl in *. split_and!; try done.
    { by rewrite Hids. }
    rewrite <- app_assoc, auto_count_cons. simpl. f_equal. case_bool_decide; lia.
  - apply ret_ok in Hone as [[= -> -> ->] ->].
    apply IH in Hrest as (ids & Hids & Hdb & Hclk & ->). exists ids. split_and!; try done. simpl. do 2 f_equal. lia.
Qed.

Lemma classify_loop_db e id ms : ∀ t w, w_db (foldlM (classify_one e id) t ms w).2 = w_db w.
Proof.
  induction ms as [|m ms IH]; intros [[exs mc] ac] w; [done|]. cbn [foldlM]. unfold classify_one, mbind, M_bind, clock_Now.
  destruct (classify m _ _); [|apply IH]. pose proof (uuid_NewV7_db w) as Hu.
  destruct (uuid_NewV7 w) as [[u|err] w1]; simpl in *; [|done]. by rewrite IH.
Qed.

(** ** A run *)

Definition no_counts (row : run_row) : Prop :=
  rr_matched_count row = 0 ∧ rr_auto_resolved_count row = 0 ∧ rr_exception_count row = 0.

(** What a run started at [now] on [d] may have written: its row, in one of three
    states, and no exception or all of those its matches raise; completed, it has
    written all of them and counted them. *)
Section outcome.
Context (e : Engine) (source : string) (psp : list PSPRecord) (now : Time) (d : DB).

Definition run_matches : list MatchedRecord := match_rows psp (now - en_lookback e) d.
Definition run_exceptions : list Exception := raised e now run_matches.

Definition reported_rows (id : UUID) (rows : list exception_row) : Prop :=
  ∃ ids, length ids = length run_exceptions ∧ rows = exception_row_of <$> numbered id now ids run_exceptions.

Record run_left (id : UUID) (row : run_row) (rows : list exception_row) : Prop := {
  rl_source : rr_source row = source;
  rl_started : rr_started_at row = timestamptz now;
  rl_psp : rr_psp_row_count row = Z.of_nat (length psp);
  rl_rows : rows = [] ∨ reported_rows id rows;
  rl_state :
    rr_status row = RunStatusRunning ∧ rr_finished_at row = None ∧ no_counts row ∨
    rr_status row = RunStatusFailed ∧ is_Some (rr_finished_at row) ∧ no_counts row ∨
    rr_status row = RunStatusCompleted ∧ is_Some (rr_finished_at row) ∧ rr_error row = None ∧
      reported_rows id rows ∧
      rr_exception_count row = Z.of_nat (length run_exceptions) ∧
      rr_auto_resolved_count row = auto_count run_exceptions ∧
      rr_matched_count row + rr_exception_count row = Z.of_nat (length run_matches) }.
End outcome.

Definition new_run (id : UUID) (source : string) (now : Time) (psp : list PSPRecord) : Run :=
  mkRun id source now None RunStatusRunning (Z.of_nat (length psp)) 0 0 0 "" ∅.

Section runs.
Context `{ET : ErrorText}.
Context (e : Engine) (Hpg : en_store e = pg_recon_store) (source : string) (psp : list PSPRecord).

Lemma run_left_new id now d rows : rows = [] ∨ reported_rows e psp now d id rows →
  run_left e source psp now d id (run_row_of (new_run id source now psp)) rows.
Proof. intros Hrows. split; try done. by left. Qed.

(** After a failure the row is as it was, or FAILED. *)
Lemma fail_left id now d rows cause w : rows = [] ∨ reported_rows e psp now d id rows →
  w_db w = marked id (run_row_of (new_run id source now psp)) rows d →
  ∃ row, run_left e source psp now d id row rows ∧ w_db (engine_fail e id cause w) = marked id row rows d.
Proof.
  intros Hrows Hdb. unfold engine_fail. rewrite Hpg. cbn [rs_FinishRun pg_recon_store].
  destruct (pg_FinishRun id RunStatusFailed cause 0 0 0 w) as [r w'] eqn:Hrun.
  destruct (finish_effect _ _ _ _ _ _ _ _ _ _ _ _ Hrun Hdb) as [[Hdb' _]|(t & Hdb' & _)]; simpl.
  - eexists. split; [by apply run_left_new|]. by rewrite Hdb'.
  - eexists. split; [|done]. split; try done. right. left. by split_and!.
Qed.

(** What a run that returns [run] has written. *)
Definition told (run : Run) (row : run_row) (rows : list exception_row) (id : UUID) (now : Time) (ms : list MatchedRecord) (w' : World) : Prop :=
  let l := raised e now ms in
  row = mk_run_row source (timestamptz now) (Some (w_now w')) RunStatusCompleted (Z.of_nat (length psp))
    (Z.of_nat (length ms - length l)) (auto_count l) (Z.of_nat (length l)) None ∧
  ∃ ids, length ids = length l ∧ rows = exception_row_of <$> numbered id now ids l ∧
    run = mkRun id source now (Some (w_clock w')) RunStatusCompleted (Z.of_nat (length psp))
      (Z.of_nat (length ms - length l)) (auto_count l) (Z.of_nat (length l)) "" (by_category (numbered id now ids l)).

(** The database after a run whose row [id] was created on [d] at [now]. *)
Definition outcome (id : UUID) (now : Time) (d : DB) (r : res Run) (w' : World) : Prop :=
  ∃ row rows, w_db w' = marked id row rows d ∧ run_left e source psp now d id row rows ∧
    (NoDup (re_id <$> reconciliation_exceptions d) → NoDup (re_id <$> reconciliation_exceptions (w_db w'))) ∧
    ∀ run, r = Ok run → told run row rows id now (run_matches e psp now d) w'.

Lemma fail_outcome id now d cause err w : w_db w = marked id (run_row_of (new_run id source now psp)) [] d →
  outcome id now d (Err err) (engine_fail e id cause w).
Proof.
  intros Hdb. destruct (fail_left id now d [] cause w) as (row & Hl & Hdb'); [by left|done|].
  exists row, []. rewrite Hdb'. split_and!; [done|done| |done]. simpl. by rewrite app_nil_r.
Qed.

(** From the exceptions on: save them, finish the run. *)
Definition last_part (id : UUID) (now : Time) (t : tally) : M Run :=
  let '(exceptions, matched, auto) := t in
  _ ← or_fail e id "save reconciliation exceptions" (rs_SaveExceptions (en_store e) exceptions);
  _ ← rs_FinishRun (en_store e) id RunStatusCompleted "" matched auto (Z.of_nat (length exceptions));
  finishedAt ← clock_Now;
  mret (mkRun id source now (Some finishedAt) RunStatusCompleted (Z.of_nat (length psp))
    matched auto (Z.of_nat (length exceptions)) "" (by_category exceptions)).

Lemma last_part_outcome id d w r w' ids : let now := w_clock w in
  let ms := run_matches e psp now d in let l := raised e now ms in
  length ids = length l → w_db w = marked id (run_row_of (new_run id source now psp)) [] d →
  last_part id now (numbered id now ids l, Z.of_nat (length ms - length l), auto_count l) w = (r, w') →
  outcome id now d r w'.
Proof.
  intros now ms l Hids Hdb Hrun.
  assert (Hrep : reported_rows e psp now d id (exception_row_of <$> numbered id now ids l)) by by exists ids.
  assert (Hlen : length (numbered id now ids l) = length l) by (unfold numbered; rewrite length_zip_with; lia).
  pose proof (raised_length e now ms) as Hle.
  unfold last_part, or_fail in Hrun. rewrite Hpg in Hrun. cbn [rs_SaveExceptions rs_FinishRun pg_recon_store] in Hrun.
  unfold mbind at 1, M_bind at 1 in Hrun.
  destruct (pg_SaveExceptions (numbered id now ids l) w) as [r1 w1] eqn:Hsave.
  destruct (save_effect _ _ _ _ _ _ _ Hsave Hdb) as [[H1 Hr1]|(H1 & Hc1 & Hnd)].
  { destruct r1 as [[]|err]; [done|]. injection Hrun as <- <-. apply fail_outcome. by rewrite H1. }
  destruct r1 as [[]|err].
  2: { injection Hrun as <- <-. destruct (fail_left id now d _ ("save reconciliation exceptions" +:+ ": " +:+ error_text err) w1 (or_intror Hrep) H1)
         as (row & Hl & Hdb'). exists row, (exception_row_of <$> numbered id now ids l). rewrite H1 in Hnd. by rewrite Hdb'. }
  specialize (Hc1 eq_refl). rewrite Hlen in Hrun. unfold mbind at 1, M_bind at 1 in Hrun.
  destruct (pg_FinishRun _ _ _ _ _ _ w1) as [r2 w2] eqn:Hfin.
  destruct (finish_effect _ _ _ _ _ _ _ _ _ _ _ _ Hfin H1) as [[H2 Hr2]|(t & H2 & _ & Hr2)].
  { destruct r2 as [[]|err]; [done|]. injection Hrun as <- <-. rewrite H1 in H2, Hnd.
    exists (run_row_of (new_run id source now psp)), (exception_row_of <$> numbered id now ids l). rewrite H2. split_and!; [done| |done|done]. apply run_left_new. by right. }
  exists (finished_row t RunStatusCompleted "" (Z.of_nat (length ms - length l)) (auto_count l) (Z.of_nat (length l))
    (run_row_of (new_run id source now psp))), (exception_row_of <$> numbered id now ids l).
  assert (Hleft : run_left e source psp now d id (finished_row t RunStatusCompleted "" (Z.of_nat (length ms - length l))
    (auto_count l) (Z.of_nat (length l)) (run_row_of (new_run id source now psp))) (exception_row_of <$> numbered id now ids l)).
  { split; try done; [by right|]. right. right. split_and!; try done. simpl. fold l in Hle. unfold run_exceptions. fold ms l. lia. }
  rewrite H1 in Hnd. destruct r2 as [[]|err]; cycle 1.
  { injection Hrun as <- <-. rewrite H2. by split_and!. }
  injection Hrun as <- <-. rewrite H2. split_and!; [done|done|done|]. intros run [= <-].
  destruct (Hr2 eq_refl) as [Hn _]. split; [by rewrite Hn|]. by exists ids.
Qed.

(** From the match on. *)
Definition match_part (id : UUID) (now : Time) : M Run :=
  matches ← or_fail e id "three-way match" (rs_Match (en_store e) psp (now - en_lookback e));
  t ← or_fail e id "generate exception id" (foldlM (classify_one e id) ([], 0, 0) matches);
  last_part id now t.

Lemma pg_Match_run since w : w_db (pg_Match psp since w).2 = w_db w ∧
  ∀ ms, (pg_Match psp since w).1 = Ok ms → ms = match_rows psp since (w_db w) ∧ w_clock (pg_Match psp since w).2 = w_clock w.
Proof.
  unfold pg_Match, mbind, M_bind, tx_start, sql_exec, gets, guard_M.
  destruct (w_ticks w); destruct (w_faults _) as [|[]]; simpl; try done; destruct (forallb _ _); simpl; split; try done; by intros ms [= <-].
Qed.

Lemma match_part_outcome id d w r w' : let now := w_clock w in
  w_db w = marked id (run_row_of (new_run id source now psp)) [] d →
  match_part id now w = (r, w') → outcome id now d r w'.
Proof.
  intros now Hdb Hrun. unfold match_part, or_fail in Hrun. rewrite Hpg in Hrun. cbn [rs_Match pg_recon_store] in Hrun.
  unfold mbind at 1, M_bind at 1 in Hrun. destruct (pg_Match_run (now - en_lookback e) w) as [H1 Hms].
  destruct (pg_Match psp (now - en_lookback e) w) as [[ms|err] w1]; simpl in H1, Hms.
  2: { injection Hrun as <- <-. apply fail_outcome. by rewrite H1. }
  destruct (Hms ms eq_refl) as [-> Hc]. rewrite Hdb in H1, Hrun. clear Hms.
  change (match_rows psp (now - en_lookback e) (marked _ _ _ d)) with (run_matches e psp now d) in Hrun.
  unfold mbind at 1, M_bind at 1 in Hrun.
  pose proof (classify_loop_db e id (run_matches e psp now d) ([], 0, 0) w1) as H2.
  destruct (foldlM (classify_one e id) ([], 0, 0) (run_matches e psp now d) w1) as [[t|err] w2] eqn:Hloop; simpl in H2.
  2: { injection Hrun as <- <-. apply fail_outcome. by rewrite H2. }
  apply classify_loop_ok in Hloop as (ids & Hids & _ & Hc2 & ->). rewrite Hc in Hids, Hrun, Hc2. fold now in Hids, Hrun, Hc2.
  rewrite <- Hc2. eapply (last_part_outcome id d w2 r w' ids); rewrite Hc2; [done|by rewrite H2|exact Hrun].
Qed.

Lemma Engine_Run_left w r w' : Engine_Run e source psp w = (r, w') →
  (w_db w' = w_db w ∧ ∃ err, r = Err err) ∨
  ∃ id, reconciliation_runs (w_db w) !! id = None ∧ outcome id (w_clock w) (w_db w) r w'.
Proof.
  unfold Engine_Run. intros Hrun. unfold mbind at 1, M_bind at 1 in Hrun.
  unfold guard_M in Hrun. case_bool_decide; [|injection Hrun as <- <-; left; eauto].
  cbn [mret M_ret] in Hrun. unfold mbind at 1, M_bind at 1 in Hrun.
  destruct (uuid_NewV7 w) as [[id|err] w1] eqn:Hid.
  2: { apply uuid_NewV7_err in Hid as ->. injection Hrun as <- <-. left. eauto. }
  apply uuid_NewV7_ok in Hid as (rest & _ & ->). assert (Hcr : rs_CreateRun (en_store e) = pg_CreateRun) by by rewrite Hpg. rewrite Hcr in Hrun. clear Hcr.
  unfold mbind at 1, M_bind at 1 in Hrun. cbn [clock_Now] in Hrun. unfold mbind at 1, M_bind at 1 in Hrun.
  destruct (pg_CreateRun _ _) as [r1 w1] eqn:Hcr. apply create_effect in Hcr as [[H1 Hr1]|(Hfresh & H1 & Hc)].
  - left. destruct r1 as [[]|err]; [done|]. injection Hrun as <- <-. eauto.
  - right. exists id. split; [done|]. simpl in H1, Hc. destruct r1 as [[]|err].
    + specialize (Hc eq_refl). rewrite <- Hc. eapply match_part_outcome; [|rewrite Hc; exact Hrun]. by rewrite Hc.
    + injection Hrun as <- <-. exists (run_row_of (new_run id source (w_clock w) psp)), []. rewrite H1.
      split_and!; [done|apply run_left_new; by left|simpl; by rewrite app_nil_r|done].
Qed.
End runs.
