(* ===== verification/ReconSpec.v ===== *)
(** * What reconciliation reports

    When a matched reference is clean and when it is not; what a run leaves behind
    when it succeeds and when it fails. *)

From S2P Require Import Prelude Errors Money Strconv Json Types SagaTypes Events Schema PgSaga Manager.
From S2P Require Import PgLedgerSpec Invariant Frames Recon PgRecon ReconRun.
Open Scope string_scope.
Open Scope Z_scope.

(** ** One reference *)

(** Both sides tell the same story, at the same instant if the ledger has one. *)
Definition agrees (l : LedgerSide) (p : PSPAggregate) : Prop :=
  Ls_AmountMinor l = Pa_AmountMinor p ∧ Ls_Currency l = Pa_Currency p ∧ statusesAgree (Ls_Status l) (Pa_Status p) = true.

Definition timing_gap (m : MatchedRecord) : option Z :=
  match Mr_Ledger m, Mr_PSP m with
  | Some l, Some p => (λ posted, Z.abs (posted - Pa_SettledAt p)) <$> Ls_PostedAt l
  | _, _ => None
  end.

(** What each category says, in the order in which they are checked. *)
Inductive reported (m : MatchedRecord) : string → Prop :=
| reported_duplicate p : Mr_PSP m = Some p → 1 < Pa_RowCount p → reported m CategoryDuplicate
| reported_missing_psp : Mr_PSP m = None → reported m CategoryMissingInPSP
| reported_missing_ledger p : Mr_PSP m = Some p → Pa_RowCount p ≤ 1 → Mr_Ledger m = None →
    reported m CategoryMissingInLedger
| reported_amount p l : Mr_PSP m = Some p → Pa_RowCount p ≤ 1 → Mr_Ledger m = Some l →
    ¬ (Ls_AmountMinor l = Pa_AmountMinor p ∧ Ls_Currency l = Pa_Currency p) → reported m CategoryAmountMismatch
| reported_status p l : Mr_PSP m = Some p → Pa_RowCount p ≤ 1 → Mr_Ledger m = Some l →
    Ls_AmountMinor l = Pa_AmountMinor p → Ls_Currency l = Pa_Currency p →
    statusesAgree (Ls_Status l) (Pa_Status p) = false → reported m CategoryStatusMismatch
| reported_timing p l gap : Mr_PSP m = Some p → Pa_RowCount p ≤ 1 → Mr_Ledger m = Some l → agrees l p →
    timing_gap m = Some gap → gap ≠ 0 → reported m CategoryTimingDifference.

(** The gap the code computes is the distance, as long as that fits a Duration. *)
Lemma code_gap a b : Z.abs (a - b) ≤ max_int64 →
  (if time_Sub a b <? 0 then wrap64 (- time_Sub a b) else time_Sub a b) = Z.abs (a - b).
Proof.
  intros Hle. assert (Hs : time_Sub a b = a - b) by (unfold time_Sub, min_int64, max_int64 in *; lia). rewrite Hs.
  destruct (Z.ltb_spec (a - b) 0); [|lia]. rewrite wrap64_id; [lia|]. unfold is_int64, min_int64, max_int64 in *. lia.
Qed.

Lemma classify_cases m window now : (∀ gap, timing_gap m = Some gap → gap ≤ max_int64) →
  match classify m window now with
  | None => ∃ p l, Mr_PSP m = Some p ∧ Mr_Ledger m = Some l ∧ Pa_RowCount p ≤ 1 ∧ agrees l p ∧
      (Ls_PostedAt l = None ∨ Ls_PostedAt l = Some (Pa_SettledAt p))
  | Some e => reported m (Exc_Category e) ∧
      (Exc_Status e = ExceptionStatusOpen ∧ Exc_ResolvedAt e = None ∧
         (∀ gap, Exc_Category e = CategoryTimingDifference → timing_gap m = Some gap → window < gap) ∨
       Exc_Status e = ExceptionStatusAutoResolved ∧ Exc_ResolvedAt e = Some now ∧
         Exc_Category e = CategoryTimingDifference ∧ ∃ gap, timing_gap m = Some gap ∧ gap ≤ window)
  end.
Proof.
  intros Hgap. unfold classify. destruct (Mr_PSP m) as [p|] eqn:Hp.
  2: { simpl. split; [by constructor|]. left. by split_and!. }
  destruct (Z.ltb_spec 1 (Pa_RowCount p)) as [Hdup|Hone].
  { simpl. split; [by eapply reported_duplicate|]. left. by split_and!. }
  destruct (Mr_Ledger m) as [l|] eqn:Hl.
  2: { simpl. split; [by eapply reported_missing_ledger|]. left. by split_and!. }
  destruct (negb (Ls_AmountMinor l =? Pa_AmountMinor p) || negb (bool_decide (Ls_Currency l = Pa_Currency p))) eqn:Ham.
  { simpl. split; [|left; by split_and!]. eapply reported_amount; [done|done|done|]. intros [H1 H2].
    rewrite H1, Z.eqb_refl, (bool_decide_eq_true_2 _ H2) in Ham. done. }
  apply orb_false_iff in Ham as [Ham Hcur]. apply negb_false_iff, Z.eqb_eq in Ham. apply negb_false_iff, bool_decide_eq_true in Hcur.
  destruct (statusesAgree (Ls_Status l) (Pa_Status p)) eqn:Hst; simpl.
  2: { split; [by eapply reported_status|]. left. by split_and!. }
  assert (Hag : agrees l p) by by split_and!.
  destruct (Ls_PostedAt l) as [posted|] eqn:Hpost; [|exists p, l; split_and!; auto].
  assert (Htg : timing_gap m = Some (Z.abs (posted - Pa_SettledAt p))) by (unfold timing_gap; by rewrite Hp, Hl, Hpost).
  rewrite code_gap by by apply Hgap. destruct (Z.eqb_spec (Z.abs (posted - Pa_SettledAt p)) 0) as [H0|H0].
  { exists p, l. split_and!; auto. right. rewrite Hpost. f_equal. lia. }
  destruct (Z.leb_spec (Z.abs (posted - Pa_SettledAt p)) window); simpl.
  - split; [by eapply reported_timing|]. right. split_and!; eauto.
  - split; [by eapply reported_timing|]. left. split_and!; [done|done|]. intros gap _ Hg. rewrite Htg in Hg. by injection Hg as <-.
Qed.

(** Classification is complete and correctly prioritised.  A reference passes
    silently exactly when both sides list it once, with the same amount, currency
    and status, and (if the ledger has posted it) at the same instant; otherwise one
    exception is raised whose category is the first that applies in the order
    duplicate, missing on one side, amount, status, timing.  It is closed on the
    spot exactly for a timing difference within the window.  This holds for times
    less than 292 years apart. *)
Theorem classify_is_complete m window now : (∀ gap, timing_gap m = Some gap → gap ≤ max_int64) →
  (classify m window now = None ↔
     ∃ p l, Mr_PSP m = Some p ∧ Mr_Ledger m = Some l ∧ Pa_RowCount p ≤ 1 ∧ agrees l p ∧
       (Ls_PostedAt l = None ∨ Ls_PostedAt l = Some (Pa_SettledAt p))) ∧
  (∀ e, classify m window now = Some e → reported m (Exc_Category e) ∧
     (Exc_Status e = ExceptionStatusAutoResolved ↔
        Exc_Category e = CategoryTimingDifference ∧ ∃ gap, timing_gap m = Some gap ∧ gap ≤ window) ∧
     (Exc_Status e = ExceptionStatusAutoResolved ∨ Exc_Status e = ExceptionStatusOpen)).
Proof.
  intros Hgap. pose proof (classify_cases m window now Hgap) as Hc. split.
  - split; [by intros Hn; rewrite Hn in Hc|]. intros (p & l & Hp & Hl & H1 & (Ha & Hcur & Hst) & Hpost).
    unfold classify. rewrite Hp, Hl. assert ((1 <? Pa_RowCount p) = false) as -> by lia.
    rewrite Ha, Z.eqb_refl, (bool_decide_eq_true_2 _ Hcur), Hst. simpl.
    destruct Hpost as [-> | ->]; [done|]. unfold time_Sub. by replace (Pa_SettledAt p - Pa_SettledAt p) with 0 by lia.
  - intros e He. rewrite He in Hc. destruct Hc as [Hr Hc]. split; [done|].
    destruct Hc as [(Hs & _ & Ho)|(Hs & _ & Hcat & Hg)]; rewrite Hs; [|split; [by split|by left]].
    split; [|by right]. split; [done|]. intros [Hcat (gap & Hg & Hle)]. specialize (Ho gap Hcat Hg). lia.
Qed.

(** A reference the ledger posted in 2026 and the statement settles in the year 2400. *)
Definition far_apart : MatchedRecord :=
  mkMatchedRecord "ref" (Some (mkLedgerSide 7%N 100 "INR" "POSTED" (Some 1780000000000000000) 1780000000000000000))
    None (Some (mkPSPAggregate 100 "INR" "SETTLED" 13569465600000000000 1)).

(** The bound is needed: the difference saturates at the least Duration, negating it
    wraps back to itself, and the negative gap is within every window. *)
Example timing_overflow_auto_resolves :
  timing_gap far_apart = Some 11789465600000000000 ∧
  (Exc_Status <$> classify far_apart 1 0) = Some ExceptionStatusAutoResolved.
Proof. by vm_compute. Qed.

Lemma classify_is_complete_witness :
  classify (mkMatchedRecord "ref" (Some (mkLedgerSide 7%N 100 "INR" "POSTED" (Some 5) 5)) None
    (Some (mkPSPAggregate 100 "INR" "SETTLED" 5 1))) 1 0 = None.
Proof.
  refine (proj2 (proj1 (classify_is_complete _ 1 0 _)) _); [intros gap [= <-]; by vm_compute|].
  eexists _, _. split_and!; [reflexivity|reflexivity|reflexivity||by vm_compute|by split_and!|by right].
Defined.

(** ** The tables *)

Definition run_rows (id : UUID) (d : DB) : list exception_row :=
  filter (λ x, re_run_id x = id) (reconciliation_exceptions d).

(** Runs are RUNNING or have finished; exceptions belong to runs; a COMPLETED run
    counts its exceptions. *)
Record recon_wf (d : DB) : Prop := {
  rw_status : ∀ id r, reconciliation_runs d !! id = Some r →
    (rr_status r = RunStatusRunning ∧ rr_finished_at r = None) ∨
    (rr_status r ∈ [RunStatusCompleted; RunStatusFailed] ∧ is_Some (rr_finished_at r));
  rw_owner : ∀ x, x ∈ reconciliation_exceptions d → is_Some (reconciliation_runs d !! re_run_id x);
  rw_ids : NoDup (re_id <$> reconciliation_exceptions d);
  rw_counts : ∀ id r, reconciliation_runs d !! id = Some r → rr_status r = RunStatusCompleted →
    rr_exception_count r = Z.of_nat (length (run_rows id d)) ∧
    rr_auto_resolved_count r =
      Z.of_nat (length (filter (λ x, re_status x = ExceptionStatusAutoResolved) (run_rows id d))) }.

Lemma numbered_run id now ids l x : x ∈ exception_row_of <$> numbered id now ids l → re_run_id x = id.
Proof.
  intros (y & -> & Hy)%list_elem_of_fmap. unfold numbered in Hy. revert ids Hy.
  induction l as [|z l IH]; intros [|i ids] Hy; simpl in Hy; try by apply not_elem_of_nil in Hy.
  apply elem_of_cons in Hy as [->|Hy]; [done|]. by eapply IH.
Qed.

Lemma numbered_auto id now l : ∀ ids, length ids = length l →
  Z.of_nat (length (filter (λ x, re_status x = ExceptionStatusAutoResolved) (exception_row_of <$> numbered id now ids l))) = auto_count l.
Proof.
  induction l as [|z l IH]; intros [|i ids] Hlen; try done. injection Hlen as Hlen.
  rewrite auto_count_cons, <- (IH ids Hlen). unfold numbered. cbn [zip_with fmap list_fmap]. rewrite filter_cons.
  change (re_status (exception_row_of (with_ids i id now z))) with (Exc_Status z).
  case_decide; [rewrite bool_decide_eq_true_2 by done; rewrite length_cons|rewrite bool_decide_eq_false_2 by done]; lia.
Qed.

Lemma numbered_length id now ids l : length ids = length l →
  length (exception_row_of <$> numbered id now ids l) = length l.
Proof. intros Hl. rewrite length_fmap. unfold numbered. rewrite length_zip_with. lia. Qed.

(** A run's own exceptions, on a database in which its identifier is fresh. *)
Lemma marked_rows id row rows d i : recon_wf d → reconciliation_runs d !! id = None → (∀ x, x ∈ rows → re_run_id x = id) →
  run_rows i (marked id row rows d) = if bool_decide (i = id) then rows else run_rows i d.
Proof.
  intros Hwf Hfresh Hrows. unfold run_rows, marked. simpl. rewrite list.filter_app. case_bool_decide as Hi.
  - subst i. rewrite filter_all_false, filter_all_true; [done|done|]. intros x Hx He.
    destruct (rw_owner d Hwf x Hx) as [r Hr]. by rewrite He, Hfresh in Hr.
  - rewrite (filter_all_false _ rows), app_nil_r; [done|]. intros x Hx He. apply Hi. rewrite <- He. by apply Hrows.
Qed.

Lemma run_left_wf e source psp now d id row rows : recon_wf d → reconciliation_runs d !! id = None →
  run_left e source psp now d id row rows → NoDup (re_id <$> reconciliation_exceptions (marked id row rows d)) →
  recon_wf (marked id row rows d).
Proof.
  intros Hwf Hfresh Hl Hnd.
  assert (Hrows : ∀ x, x ∈ rows → re_run_id x = id).
  { intros x Hx. destruct (rl_rows _ _ _ _ _ _ _ _ Hl) as [->|(ids & _ & ->)]; [by apply not_elem_of_nil in Hx|by eapply numbered_run]. }
  split; [| |done|].
  - intros i r [[<- <-]|[_ Hr]]%marked_lookup; [|by eapply rw_status].
    destruct (rl_state _ _ _ _ _ _ _ _ Hl) as [(H1 & H2 & _)|[(H1 & H2 & _)|(H1 & H2 & _)]]; rewrite H1;
      [by left|right; split; [set_solver|done]..].
  - simpl. intros x [Hx|Hx]%elem_of_app.
    + destruct (decide (re_run_id x = id)) as [->|]; [rewrite lookup_insert_eq; eauto|]. rewrite lookup_insert_ne by done. by eapply rw_owner.
    + rewrite (Hrows x Hx), lookup_insert_eq. eauto.
  - intros i r [[<- <-]|[Hne Hr]]%marked_lookup Hc; rewrite (marked_rows id row rows d _ Hwf Hfresh Hrows).
    + rewrite bool_decide_eq_true_2 by done.
      destruct (rl_state _ _ _ _ _ _ _ _ Hl) as [(H1 & _)|[(H1 & _)|(_ & _ & _ & (ids & Hids & ->) & -> & -> & _)]]; try by rewrite H1 in Hc.
      by rewrite numbered_length, numbered_auto.
    + rewrite bool_decide_eq_false_2 by done. by eapply rw_counts.
Qed.

(** Any number of runs, in any environment, and anything else that happens to the
    other tables in between. *)
Inductive recon_step `{ErrorText} : DB → DB → Prop :=
| recon_run e source psp w : en_store e = pg_recon_store → recon_step (w_db w) (w_db (Engine_Run e source psp w).2)
| recon_other d d' : reconciliation_runs d' = reconciliation_runs d →
    reconciliation_exceptions d' = reconciliation_exceptions d → recon_step d d'.

Definition recon_reachable `{ErrorText} (d : DB) : Prop := rtc recon_step empty_DB d.

Lemma recon_wf_empty : recon_wf empty_DB.
Proof. split; simpl; [by intros ?? ?|by intros x Hx%not_elem_of_nil|constructor|by intros ?? ?]. Qed.

Lemma recon_step_wf `{ErrorText} d d' : recon_step d d' → recon_wf d → recon_wf d'.
Proof.
  intros [e source psp w Hpg|d1 d2 Hr He] Hwf.
  - destruct (Engine_Run e source psp w) as [r w'] eqn:Hrun. simpl.
    destruct (Engine_Run_left e Hpg source psp w r w' Hrun) as [[-> _]|(id & Hfresh & row & rows & Hdb & Hl & Hnd & _)]; [done|].
    specialize (Hnd (rw_ids _ Hwf)). rewrite Hdb in Hnd |- *. by eapply run_left_wf.
  - destruct Hwf. by split; unfold run_rows in *; rewrite ?Hr, ?He.
Qed.

(** The reconciliation tables never lie.  Whatever fails during any number of
    runs (statements, commits, answers lost), a run is RUNNING without a finish
    time or COMPLETED or FAILED with one, every exception belongs to a run, no
    exception is recorded twice, and the counts of a COMPLETED run are the numbers
    of exceptions stored for it. *)
Theorem reconciliation_tables_consistent `{ErrorText} d : recon_reachable d → recon_wf d.
Proof.
  intros Hr. assert (Hgo : ∀ d0, rtc recon_step d0 d → recon_wf d0 → recon_wf d); [|by apply (Hgo empty_DB); [|apply recon_wf_empty]].
  intros d0 Hs. induction Hs; [done|]. intros Hwf. eauto using recon_step_wf.
Qed.

(** ** A completed run *)

Section completed.
Context `{ErrorText} (e : Engine) (Hpg : en_store e = pg_recon_store).
Context (source : string) (psp : list PSPRecord) (w : World) (run : Run) (w' : World).
Context (Hrun : Engine_Run e source psp w = (Ok run, w')).
Let ms := run_matches e psp (w_clock w) (w_db w).
Let l := raised e (w_clock w) ms.

(** The row and the exceptions of the run. *)
Definition completed_row : run_row :=
  mk_run_row source (timestamptz (w_clock w)) (Some (w_now w')) RunStatusCompleted (Z.of_nat (length psp))
    (Z.of_nat (length ms - length l)) (auto_count l) (Z.of_nat (length l)) None.

Definition completed_exceptions (ids : list UUID) : list Exception := numbered (Run_ID run) (w_clock w) ids l.

Lemma completed_run : reconciliation_runs (w_db w) !! Run_ID run = None ∧
  ∃ ids, length ids = length l ∧
    w_db w' = marked (Run_ID run) completed_row (exception_row_of <$> completed_exceptions ids) (w_db w) ∧
    run = mkRun (Run_ID run) source (w_clock w) (Some (w_clock w')) RunStatusCompleted (Z.of_nat (length psp))
      (Z.of_nat (length ms - length l)) (auto_count l) (Z.of_nat (length l)) "" (by_category (completed_exceptions ids)).
Proof.
  destruct (Engine_Run_left e Hpg source psp w _ w' Hrun) as [[_ [err Herr]]|(id & Hfresh & row & rows & Hdb & _ & _ & Htold)]; [done|].
  destruct (Htold run eq_refl) as (-> & ids & Hids & -> & Heq). clear Htold.
  assert (Hid : Run_ID run = id) by by rewrite Heq. unfold completed_exceptions. rewrite Hid. split; [done|]. by exists ids.
Qed.

Lemma run_category_counts ids : recon_wf (w_db w) → reconciliation_runs (w_db w) !! Run_ID run = None →
  w_db w' = marked (Run_ID run) completed_row (exception_row_of <$> completed_exceptions ids) (w_db w) →
  categoryBreakdown (Run_ID run) (w_db w') = by_category (completed_exceptions ids).
Proof.
  intros Hwf Hfresh Hdb. unfold categoryBreakdown. fold (run_rows (Run_ID run) (w_db w')). rewrite Hdb.
  rewrite (marked_rows _ _ _ _ _ Hwf Hfresh) by (intros x; apply numbered_run). rewrite bool_decide_eq_true_2 by done.
  unfold by_category. by rewrite foldr_fmap.
Qed.
End completed.

(** C22: a completed run reports everything it saw.  Whatever the environment, when
    [Run] returns, the statement was not empty, nothing but the run's own row and
    exceptions has changed, every matched reference is either counted as matched or
    has exactly the exception its classification raises, in order, and the stored
    row carries the counts that are returned. *)
Theorem run_reports_everything `{ErrorText} e source psp w run w' : en_store e = pg_recon_store →
  Engine_Run e source psp w = (Ok run, w') →
  let d := w_db w in let now := w_clock w in
  let ms := match_rows psp (now - en_lookback e) d in
  let excs := omap (λ m, classify m (en_timingWindow e) now) ms in
  psp ≠ [] ∧ reconciliation_runs d !! Run_ID run = None ∧
  Run_MatchedCount run + Run_ExceptionCount run = Z.of_nat (length ms) ∧
  Run_ExceptionCount run = Z.of_nat (length excs) ∧
  Run_AutoResolvedCount run = Z.of_nat (length (filter (λ x, Exc_Status x = ExceptionStatusAutoResolved) excs)) ∧
  ∃ ids, length ids = length excs ∧
    reconciliation_exceptions (w_db w') =
      (reconciliation_exceptions d ++ zip_with (λ id x, exception_row_of (with_ids id (Run_ID run) now x)) ids excs)%list ∧
    reconciliation_runs (w_db w') = <[Run_ID run :=
      mk_run_row source (timestamptz now) (Some (w_now w')) RunStatusCompleted (Z.of_nat (length psp))
        (Run_MatchedCount run) (Run_AutoResolvedCount run) (Run_ExceptionCount run) None]> (reconciliation_runs d) ∧
    w_db w' = recon_tables (reconciliation_runs (w_db w')) (reconciliation_exceptions (w_db w')) d.
Proof.
  intros Hpg Hrun d now ms excs. destruct (completed_run e Hpg source psp w run w' Hrun) as (Hfresh & ids & Hids & Hdb & Heq).
  pose proof (raised_length e now ms) as Hle. fold excs in Hle |- *.
  assert (Hne : psp ≠ []).
  { intros ->. unfold Engine_Run in Hrun. by apply M_bind_ok in Hrun as (? & ? & [Hc _]%guard_M_ok & _). }
  rewrite Heq at 2 3 4 5. cbn [Run_MatchedCount Run_ExceptionCount Run_AutoResolvedCount].
  split_and!; [done|done| |done|done|].
  { change (Z.of_nat (length ms - length (raised e now ms)) + Z.of_nat (length (raised e now ms)) = Z.of_nat (length ms)).
    unfold excs in Hle. fold (raised e now ms) in Hle. lia. }
  exists ids. split; [exact Hids|]. rewrite Hdb.
  assert (Hm : Run_MatchedCount run = Z.of_nat (length ms - length (raised e now ms))) by by rewrite Heq.
  assert (Ha : Run_AutoResolvedCount run = auto_count (raised e now ms)) by by rewrite Heq.
  assert (Hc : Run_ExceptionCount run = Z.of_nat (length (raised e now ms))) by by rewrite Heq.
  rewrite Hm, Ha, Hc. split_and!; [|done|done]. unfold marked, completed_exceptions, numbered. simpl. f_equal. apply fmap_zip_with.
Qed.

(** What reading an exception back makes of it: times keep their microseconds. *)
Definition stored_exception (x : Exception) : Exception := exception_of_row (exception_row_of x).

(** The reads on a server that answers. *)
Lemma GetRun_quiet id r w : w_faults w = [] → reconciliation_runs (w_db w) !! id = Some r →
  (pg_GetRun id w).1 = Ok (run_of id r (categoryBreakdown id (w_db w))).
Proof.
  intros Hq Hr. unfold pg_GetRun, mbind, M_bind, tx_start, sql_exec, gets.
  destruct (w_ticks w) as [|t [|t2 ticks]] eqn:Ht; repeat (simpl; rewrite ?Ht, ?Hq, ?Hr); done.
Qed.

Lemma ListExceptions_quiet id w : w_faults w = [] →
  (pg_ListExceptions id w).1 = Ok (exception_of_row <$> sort_by (λ a b, re_created_at a <=? re_created_at b) (run_rows id (w_db w))).
Proof.
  intros Hq. unfold pg_ListExceptions, mbind, M_bind, tx_start, sql_exec, gets.
  destruct (w_ticks w) as [|t ticks] eqn:Ht; repeat (simpl; rewrite ?Ht, ?Hq); done.
Qed.

(** A run can be read back.  After a completed run, [GetRun] returns what [Run]
    returned, its start to the microsecond and its finish by the database's clock,
    with the same breakdown by category; and [ListExceptions] returns the exceptions
    that were raised, each once. *)
Theorem run_reads_back `{ErrorText} e source psp w run w' w2 : en_store e = pg_recon_store → recon_wf (w_db w) →
  Engine_Run e source psp w = (Ok run, w') → w_db w2 = w_db w' → w_faults w2 = [] →
  (pg_GetRun (Run_ID run) w2).1 = Ok (mkRun (Run_ID run) (Run_Source run) (timestamptz (Run_StartedAt run)) (Some (w_now w'))
    (Run_Status run) (Run_PSPRowCount run) (Run_MatchedCount run) (Run_AutoResolvedCount run) (Run_ExceptionCount run) ""
    (Run_ByCategory run)) ∧
  ∃ ids excs, length ids = length (raised e (w_clock w) (run_matches e psp (w_clock w) (w_db w))) ∧
    (pg_ListExceptions (Run_ID run) w2).1 = Ok excs ∧
    excs ≡ₚ stored_exception <$> completed_exceptions e psp w run ids.
Proof.
  intros Hpg Hwf Hrun H2 Hq. destruct (completed_run e Hpg source psp w run w' Hrun) as (Hfresh & ids & Hids & Hdb & Heq).
  pose proof (run_category_counts e source psp w run w' ids Hwf Hfresh Hdb) as Hcat. split.
  - rewrite (GetRun_quiet _ (completed_row e source psp w w') _ Hq) by (rewrite H2, Hdb; apply marked_row).
    rewrite H2, Hcat, Heq. reflexivity.
  - exists ids, (exception_of_row <$> sort_by (λ a b, re_created_at a <=? re_created_at b) (run_rows (Run_ID run) (w_db w2))).
    split_and!; [exact Hids|by apply ListExceptions_quiet|]. rewrite sort_by_perm, H2, Hdb.
    rewrite (marked_rows _ _ _ _ _ Hwf Hfresh) by (intros x; apply numbered_run). rewrite bool_decide_eq_true_2 by done.
    by rewrite <- list_fmap_compose.
Qed.
