(* ===== verification/ReconDemo.v ===== *)
(** * A concrete reconciliation

    The completed payout of PayoutDemo against a statement that lists it and a
    payment the ledger does not know. *)

From S2P Require Import Prelude Errors Money Strconv Json Types SagaTypes Events Schema PgSaga Manager.
From S2P Require Import PgLedger Service PgLedgerSpec Invariant Ledger Frames Uuid Demo Payout PayoutDemo.
From S2P Require Import Recon PgRecon ReconMatch ReconRun ReconSpec.
Open Scope string_scope.
Open Scope Z_scope.

#[local] Existing Instance plain_text.

(** The time of the demo's runs. *)
Definition demo_time : Time := 1700000000000000000.

Definition statement : list PSPRecord :=
  [mkPSPRecord "order-1" 300 "INR" "SETTLED" (demo_time + 3600000000000);
   mkPSPRecord "order-2" 50 "INR" "SETTLED" demo_time].

Definition recon_engine : Engine := NewEngine pg_recon_store 0 0.
Definition recon_world : World := quiet_world completed_db 700.
Definition summary (r : res Run) : option (string * Z * Z * Z) :=
  match r with Ok run => Some (Run_Status run, Run_MatchedCount run, Run_AutoResolvedCount run, Run_ExceptionCount run) | Err _ => None end.

(** The payout's hour of difference is closed on the spot; the unknown payment is
    left open. *)
Example statement_reconciles :
  summary (Engine_Run recon_engine "psp.csv" statement recon_world).1 = Some (RunStatusCompleted, 0, 1, 2) ∧
  ((λ x, (re_external_ref x, re_category x, re_status x)) <$>
     reconciliation_exceptions (w_db (Engine_Run recon_engine "psp.csv" statement recon_world).2)) =
    [("order-1", CategoryTimingDifference, ExceptionStatusAutoResolved); ("order-2", CategoryMissingInLedger, ExceptionStatusOpen)].
Proof. vm_compute. by split. Qed.

(** A run whose last commit is refused. *)
Definition refused_world : World :=
  mkWorld completed_db (w_ids recon_world) [] demo_time [] demo_time 0 [] [CommitDone; CommitDone; CommitAborted (ErrOther "connection reset")] [] [].

(** It stays RUNNING, with its exceptions saved: only the paths through [fail] end
    it. *)
Example refused_finish_stays_running :
  is_ok (Engine_Run recon_engine "psp.csv" statement refused_world).1 = false ∧
  (rr_status <$> reconciliation_runs (w_db (Engine_Run recon_engine "psp.csv" statement refused_world).2) !! 700%N) = Some RunStatusRunning ∧
  length (reconciliation_exceptions (w_db (Engine_Run recon_engine "psp.csv" statement refused_world).2)) = 2%nat.
Proof. vm_compute. by split_and!. Qed.

(** A transaction older than the lookback is not matched with the statement row that
    names it: the row is reported as missing in the ledger. *)
Example old_transaction_reported_missing :
  (Exc_Category <$> raised recon_engine demo_time (match_rows [mkPSPRecord "order-1" 300 "INR" "SETTLED" demo_time] (demo_time + 1000) completed_db))
    = [CategoryMissingInLedger].
Proof. by vm_compute. Qed.

(** ** The theorems on this run *)

Lemma match_covers_both_sides_witness : ∃ ms w', pg_Match statement 0 recon_world = (Ok ms, w') ∧
  "order-2" ∈ Mr_ExternalRef <$> ms.
Proof.
  assert (Hrun : is_ok (pg_Match statement 0 recon_world).1 = true) by (vm_compute; reflexivity).
  destruct (ran_ok _ _ Hrun) as (ms & w' & Hm). exists ms, w'. split; [exact Hm|].
  apply (proj1 (proj2 (proj2 (match_covers_both_sides statement 0 ms recon_world w' Hm))) "order-2").
  left. apply (list_elem_of_lookup_2 _ 1%nat). reflexivity.
Defined.

(** The funding transaction is in one currency. *)
Definition one_currency (id : UUID) (cur : string) (d : DB) : bool :=
  forallb (λ r, bool_decide (je_currency r = cur)) (tx_rows id (journal_entries d)).

Lemma one_currency_elem id cur d : one_currency id cur d = true → ∀ r, r ∈ tx_rows id (journal_entries d) → je_currency r = cur.
Proof. intros Hall r Hr. apply (forallb_elem _ _ r Hall) in Hr. by apply bool_decide_eq_true in Hr. Qed.

Lemma ledger_amount_well_defined_witness : ∃ t, transactions funded_db !! 100%N = Some t ∧ 0 < Ls_AmountMinor (ledger_side funded_db (100%N, t)).
Proof.
  assert (Ht : bool_decide (is_Some (transactions funded_db !! 100%N)) = true) by (vm_compute; reflexivity).
  apply bool_decide_eq_true in Ht as [t Ht]. exists t. split; [exact Ht|].
  assert (Hc : one_currency 100%N "INR" funded_db = true) by (vm_compute; reflexivity).
  exact (proj1 (proj2 (ledger_amount_well_defined funded_db 100%N t "INR" funded_wf Ht (one_currency_elem _ _ _ Hc)))).
Defined.

Lemma reconciliation_tables_consistent_witness :
  recon_wf (w_db (Engine_Run recon_engine "psp.csv" statement refused_world).2).
Proof.
  apply reconciliation_tables_consistent. apply (rtc_l _ _ completed_db).
  - apply recon_other; vm_compute; reflexivity.
  - apply rtc_once. exact (recon_run recon_engine "psp.csv" statement refused_world eq_refl).
Defined.

Lemma run_reports_everything_witness : ∃ run w', Engine_Run recon_engine "psp.csv" statement recon_world = (Ok run, w') ∧
  Run_MatchedCount run + Run_ExceptionCount run = 2.
Proof.
  assert (Hrun : is_ok (Engine_Run recon_engine "psp.csv" statement recon_world).1 = true) by (vm_compute; reflexivity).
  destruct (ran_ok _ _ Hrun) as (run & w' & Hm). exists run, w'. split; [exact Hm|].
  destruct (run_reports_everything recon_engine "psp.csv" statement recon_world run w' eq_refl Hm) as (_ & _ & Hc & _).
  rewrite Hc. vm_compute. reflexivity.
Defined.

Lemma completed_recon_wf : recon_wf (w_db recon_world).
Proof. split; vm_compute; [done|by intros x Hx%not_elem_of_nil|constructor|done]. Qed.

Lemma run_reads_back_witness : ∃ run w', Engine_Run recon_engine "psp.csv" statement recon_world = (Ok run, w') ∧
  is_ok (pg_GetRun (Run_ID run) (quiet_world (w_db w') 900)).1 = true.
Proof.
  assert (Hrun : is_ok (Engine_Run recon_engine "psp.csv" statement recon_world).1 = true) by (vm_compute; reflexivity).
  destruct (ran_ok _ _ Hrun) as (run & w' & Hm). exists run, w'. split; [exact Hm|].
  by rewrite (proj1 (run_reads_back recon_engine "psp.csv" statement recon_world run w' (quiet_world (w_db w') 900)
    eq_refl completed_recon_wf Hm eq_refl eq_refl)).
Defined.
