(* ===== verification/Keyset.v ===== *)
(** * Keyset pagination

    The scheme the statement and the two searches share: ask for one row more than
    the page, keep the page, continue after the key of its last row. *)

From S2P Require Import Prelude.
Open Scope Z_scope.

(** A strict total order on the keys, as a test. *)
Class KeyOrder {K : Type} (ltb : K → K → bool) : Prop := {
  key_irrefl k : ltb k k = false;
  key_trans a b c : ltb a b = true → ltb b c = true → ltb a c = true;
  key_total a b : ltb a b = false → ltb b a = false → a = b }.

Section keyset.
Context {A K : Type} (key : A → K) (ltb : K → K → bool) (limit : nat).

Definition beyond (c : option K) (a : A) : bool :=
  match c with None => true | Some c => ltb c (key a) end.

Definition in_order (l : list A) : list A := sort_by (λ a b, negb (ltb (key b) (key a))) l.

(** What is left after the cursor. *)
Definition remaining (c : option K) (l : list A) : list A := in_order (filter (λ a, beyond c a = true) l).

(** The rows of one page and the cursor of the next. *)
Definition cut_page (rows : list A) : list A * option K :=
  if (limit <? length rows)%nat then (take limit rows, key <$> rows !! (limit - 1)%nat) else (rows, None).

Definition keyset_page (c : option K) (l : list A) : list A * option K := cut_page (take (S limit) (remaining c l)).

(** Pages read one after the other, each from the table as it is then: a page, and
    the pages from its cursor on. *)
Inductive keyset_walk : option K → list (list A) → list (list A) → Prop :=
| walk_last c l page : keyset_page c l = (page, None) → keyset_walk c [l] [page]
| walk_more c l page c' ls pages : keyset_page c l = (page, Some c') → keyset_walk (Some c') ls pages →
    keyset_walk c (l :: ls) (page :: pages).

Context {HK : KeyOrder ltb} (Hlimit : (0 < limit)%nat).

Definition key_lt (a b : A) : Prop := ltb (key a) (key b) = true.
Definition key_le (a b : A) : Prop := ltb (key b) (key a) = false.

Lemma ltb_asym a b : ltb a b = true → ltb b a = false.
Proof. intros H. destruct (ltb b a) eqn:Hb; [|done]. rewrite <- (key_irrefl a). symmetry. by eapply key_trans. Qed.

#[local] Instance in_order_total : Total (bool_rel (λ a b : A, negb (ltb (key b) (key a)))).
Proof.
  intros a b. unfold bool_rel. rewrite !negb_true_iff. destruct (ltb (key b) (key a)) eqn:H; [right|by left]. by apply ltb_asym.
Qed.

#[local] Instance in_order_trans : Transitive (bool_rel (λ a b : A, negb (ltb (key b) (key a)))).
Proof.
  intros a b c. unfold bool_rel. rewrite !negb_true_iff. intros H1 H2. destruct (ltb (key c) (key a)) eqn:H; [|done].
  destruct (ltb (key b) (key c)) eqn:H3; [by rewrite (key_trans _ _ _ H3 H) in H1|].
  rewrite (key_total _ _ H3 H2) in H1. congruence.
Qed.

Lemma in_order_elem a l : a ∈ in_order l ↔ a ∈ l.
Proof. apply sort_by_elem. Qed.

Lemma in_order_le l : StronglySorted (λ a b, ltb (key b) (key a) = false) (in_order l).
Proof.
  pose proof (sort_by_Sorted (λ a b, negb (ltb (key b) (key a))) l in_order_total) as Hs. fold (in_order l) in Hs.
  apply Sorted_StronglySorted in Hs; [|apply in_order_trans]. revert Hs. generalize (in_order l) as s.
  induction 1 as [|x s Hs IH Hall]; constructor; [exact IH|]. eapply Forall_impl; [|exact Hall].
  intros y. unfold bool_rel. by rewrite negb_true_iff.
Qed.

(** Distinct keys come out strictly increasing. *)
Lemma in_order_lt l : NoDup (key <$> l) → StronglySorted key_lt (in_order l).
Proof.
  intros Hnd. assert (Hnd' : NoDup (key <$> in_order l)) by (unfold in_order; by rewrite sort_by_perm).
  pose proof (in_order_le l) as Hs. revert Hs Hnd'. generalize (in_order l) as s. induction 1 as [|x s Hs IH Hall]; intros Hnd'; [constructor|].
  rewrite fmap_cons in Hnd'. apply list.NoDup_cons in Hnd' as [Hx Hnd']. constructor; [by apply IH|].
  apply Forall_forall. intros y Hy. apply list_elem_of_In in Hy. unfold key_lt. destruct (ltb (key x) (key y)) eqn:Hlt; [done|].
  rewrite Forall_forall in Hall. specialize (Hall y). rewrite <- list_elem_of_In in Hall. specialize (Hall Hy).
  destruct Hx. rewrite (key_total _ _ Hlt Hall). by apply list_elem_of_fmap_2.
Qed.

Lemma remaining_elem c l a : a ∈ remaining c l ↔ a ∈ l ∧ beyond c a = true.
Proof. unfold remaining. rewrite in_order_elem, list_elem_of_filter. tauto. Qed.

Lemma remaining_lt c l : NoDup (key <$> l) → StronglySorted key_lt (remaining c l).
Proof. intros Hnd. apply in_order_lt. eapply sublist_NoDup; [exact Hnd|]. apply fmap_sublist, sublist_filter. Qed.

(** ** One page *)

Lemma keyset_page_cases c l page next : keyset_page c l = (page, next) →
  match next with
  | None => page = remaining c l
  | Some c' => page = take limit (remaining c l) ∧ (limit < length (remaining c l))%nat ∧
      ∃ a, remaining c l !! (limit - 1)%nat = Some a ∧ c' = key a ∧ a ∈ page
  end.
Proof.
  unfold keyset_page, cut_page. destruct (Nat.ltb_spec limit (length (take (S limit) (remaining c l)))) as [Hlt|Hge].
  - rewrite length_take in Hlt. destruct (lookup_lt_is_Some_2 (remaining c l) (limit - 1)%nat) as [a Ha]; [lia|].
    rewrite take_take, lookup_take_lt, Ha by lia. intros [= <- <-]. replace (Nat.min limit (S limit)) with limit by lia.
    split_and!; [done|lia|]. exists a. split_and!; [done|done|]. apply (list_elem_of_lookup_2 _ (limit - 1)%nat). by rewrite lookup_take_lt by lia.
  - intros [= <- <-]. rewrite length_take in Hge. apply take_ge. lia.
Qed.

Lemma sorted_lookup_lt (l : list A) i j a b : StronglySorted key_lt l → l !! i = Some a → l !! j = Some b → (i < j)%nat → key_lt a b.
Proof.
  intros Hs. revert i j. induction Hs as [|x l Hs IH Hall]; intros i j Hi Hj Hij; [done|].
  destruct j as [|j]; [lia|]. destruct i as [|i]; simpl in *; [|apply (IH i j); [done|done|lia]].
  injection Hi as <-. apply list_elem_of_lookup_2 in Hj. rewrite Forall_forall in Hall. apply Hall. by apply list_elem_of_In.
Qed.

Lemma keyset_page_sound c l page next a : keyset_page c l = (page, next) → a ∈ page → a ∈ l ∧ beyond c a = true.
Proof.
  intros Hp Ha. apply keyset_page_cases in Hp. apply remaining_elem. destruct next as [c'|]; [|by rewrite Hp in Ha].
  destruct Hp as (-> & _). apply elem_of_take in Ha as (i & Ha & _). by apply list_elem_of_lookup_2 in Ha.
Qed.

(** Nothing falls between a page and the next. *)
Lemma keyset_page_covers c l page next a : NoDup (key <$> l) → keyset_page c l = (page, next) → a ∈ l → beyond c a = true →
  a ∈ page ∨ ∃ c', next = Some c' ∧ ltb c' (key a) = true.
Proof.
  intros Hnd Hp Ha Hb. apply keyset_page_cases in Hp. assert (Hr : a ∈ remaining c l) by by apply remaining_elem.
  destruct next as [c'|]; [|left; by rewrite Hp]. destruct Hp as (-> & Hlen & z & Hz & -> & _).
  apply list_elem_of_lookup in Hr as (i & Hi). destruct (decide (i < limit)%nat) as [Hlt|Hge].
  - left. apply (list_elem_of_lookup_2 _ i). by rewrite lookup_take_lt by lia.
  - right. exists (key z). split; [done|]. eapply (sorted_lookup_lt (remaining c l)); [by apply remaining_lt|done|done|lia].
Qed.

(** A page is strictly increasing and ends at its cursor. *)
Lemma keyset_page_sorted c l page next : NoDup (key <$> l) → keyset_page c l = (page, next) →
  StronglySorted key_lt page ∧ ∀ c', next = Some c' → ∀ a, a ∈ page → ltb c' (key a) = false.
Proof.
  intros Hnd Hp. apply keyset_page_cases in Hp. pose proof (remaining_lt c l Hnd) as Hs. destruct next as [c'|]; [|by rewrite Hp].
  destruct Hp as (-> & Hlen & z & Hz & -> & _). split.
  - rewrite <- (take_drop limit (remaining c l)) in Hs. by apply StronglySorted_app_1_l in Hs.
  - intros c' [= <-] a Ha. apply elem_of_take in Ha as (i & Ha & Hi). destruct (decide (i = limit - 1)%nat) as [->|Hne].
    + rewrite Hz in Ha. injection Ha as ->. apply key_irrefl.
    + apply ltb_asym. eapply (sorted_lookup_lt (remaining c l)); [done|done|done|lia].
Qed.

(** ** The pages *)

(** However the table grows between the pages, they are strictly increasing, hold
    only rows beyond the cursor, and every row that was there all along. *)
Lemma keyset_walk_complete c ls pages : keyset_walk c ls pages → Forall (λ l, NoDup (key <$> l)) ls →
  StronglySorted key_lt (concat pages) ∧
  (∀ a, a ∈ concat pages → beyond c a = true ∧ ∃ l, l ∈ ls ∧ a ∈ l) ∧
  (∀ a, (∀ l, l ∈ ls → a ∈ l) → beyond c a = true → a ∈ concat pages).
Proof.
  induction 1 as [c l page Hp|c l page c' ls pages Hp Hw IH]; intros Hnd; inversion Hnd as [|? ? Hl Hls]; subst; simpl.
  - rewrite app_nil_r. split_and!; [by eapply keyset_page_sorted| |].
    + intros a Ha. destruct (keyset_page_sound _ _ _ _ _ Hp Ha). split; [done|]. exists l. set_solver.
    + intros a Ha Hb. destruct (keyset_page_covers _ _ _ _ a Hl Hp) as [?|(? & ? & _)]; [apply Ha; set_solver|done|done|done].
  - destruct (IH Hls) as (Hs & Hsound & Hcov). destruct (keyset_page_sorted _ _ _ _ Hl Hp) as [Hps Hpc].
    assert (Hfirst : ∀ a b, a ∈ page → b ∈ concat pages → key_lt a b).
    { intros a b Ha Hb. specialize (Hpc c' eq_refl a Ha). apply Hsound in Hb as [Hb _]. simpl in Hb. unfold key_lt.
      destruct (ltb (key a) (key b)) eqn:Hab; [done|]. destruct (ltb (key b) (key a)) eqn:Hba.
      - by rewrite (key_trans _ _ _ Hb Hba) in Hpc.
      - rewrite (key_total _ _ Hab Hba) in Hpc. congruence. }
    split_and!.
    + by apply StronglySorted_app_2.
    + intros a [Ha|Ha]%elem_of_app.
      * destruct (keyset_page_sound _ _ _ _ _ Hp Ha). split; [done|]. exists l. set_solver.
      * destruct (Hsound a Ha) as [Hb (l' & Hl' & Hin)]. split; [|exists l'; set_solver].
        apply keyset_page_cases in Hp as (_ & _ & z & Hz & -> & _). apply list_elem_of_lookup_2, remaining_elem in Hz as [_ Hz].
        destruct c as [c0|]; [|done]. simpl in *. by eapply key_trans.
    + intros a Ha Hb. apply elem_of_app. destruct (keyset_page_covers _ _ _ _ a Hl Hp) as [?|(c'' & [= <-] & Hc)]; [apply Ha; set_solver|done|by left|].
      right. apply Hcov; [set_solver|done].
Qed.

(** ** A table that does not change *)

Lemma sorted_same_elements l1 : ∀ l2, StronglySorted key_lt l1 → StronglySorted key_lt l2 → (∀ a, a ∈ l1 ↔ a ∈ l2) → l1 = l2.
Proof.
  assert (Hnot : ∀ x l, Forall (key_lt x) l → x ∉ l).
  { intros x l Hall Hx. rewrite Forall_forall in Hall. specialize (Hall x). rewrite <- list_elem_of_In in Hall.
    specialize (Hall Hx). unfold key_lt in Hall. by rewrite key_irrefl in Hall. }
  induction l1 as [|x l1 IH]; intros [|y l2] H1 H2 He; [done| | |].
  - destruct (not_elem_of_nil y). apply He. set_solver.
  - destruct (not_elem_of_nil x). apply He. set_solver.
  - apply StronglySorted_cons in H1 as [F1 S1]. apply StronglySorted_cons in H2 as [F2 S2].
    pose proof (Hnot _ _ F1) as N1. pose proof (Hnot _ _ F2) as N2. rewrite Forall_forall in F1, F2.
    assert (x = y) as <-.
    { assert (Hx : x ∈ y :: l2) by (apply He; set_solver). assert (Hy : y ∈ x :: l1) by (apply He; set_solver).
      apply elem_of_cons in Hx as [|Hx]; [done|]. apply elem_of_cons in Hy as [|Hy]; [done|].
      specialize (F1 y). specialize (F2 x). rewrite <- list_elem_of_In in F1, F2. specialize (F1 Hy). specialize (F2 Hx).
      unfold key_lt in *. rewrite (ltb_asym _ _ F1) in F2. done. }
    f_equal. apply IH; [done|done|]. intros a. specialize (He a). rewrite !elem_of_cons in He. split; intros Ha.
    + destruct (proj1 He (or_intror Ha)) as [->|]; done.
    + destruct (proj2 He (or_intror Ha)) as [->|]; done.
Qed.

Lemma keyset_page_next c l page next : NoDup (key <$> l) → keyset_page c l = (page, next) →
  remaining c l = (page ++ match next with Some c' => remaining (Some c') l | None => [] end)%list.
Proof.
  intros Hnd Hp. pose proof (keyset_page_cases _ _ _ _ Hp) as Hc. destruct next as [c'|]; [|by rewrite app_nil_r].
  destruct (keyset_page_sorted _ _ _ _ Hnd Hp) as [Hs Hle]. apply sorted_same_elements.
  - by apply remaining_lt.
  - apply StronglySorted_app_2; [|done|by apply remaining_lt]. intros a b Ha [_ Hb]%remaining_elem. simpl in Hb.
    specialize (Hle c' eq_refl a Ha). unfold key_lt. destruct (ltb (key a) (key b)) eqn:Hab; [done|]. destruct (ltb (key b) (key a)) eqn:Hba.
    + by rewrite (key_trans _ _ _ Hb Hba) in Hle.
    + rewrite (key_total _ _ Hab Hba) in Hle. congruence.
  - intros a. rewrite elem_of_app, !remaining_elem. split.
    + intros [Ha Hb]. destruct (keyset_page_covers _ _ _ _ a Hnd Hp Ha Hb) as [?|(c'' & [= <-] & ?)]; [by left|by right].
    + intros [Ha|[Ha Hb]]; [by eapply keyset_page_sound|]. split; [done|].
      destruct Hc as (_ & _ & z & Hz & -> & _). apply list_elem_of_lookup_2, remaining_elem in Hz as [_ Hz].
      destruct c as [c0|]; [|done]. simpl in *. by eapply key_trans.
Qed.

(** The pages are the rows beyond the cursor, cut. *)
Lemma keyset_walk_static c ls pages l : NoDup (key <$> l) → keyset_walk c ls pages → Forall (eq l) ls → concat pages = remaining c l.
Proof.
  intros Hnd. induction 1 as [c l' page Hp|c l' page c' ls pages Hp Hw IH]; intros Hall; inversion Hall as [|? ? Hl Hls]; subst; simpl;
    rewrite (keyset_page_next _ _ _ _ Hnd Hp); [done|]. by rewrite (IH Hls).
Qed.

(** Paging ends. *)
Lemma keyset_walk_ends l : NoDup (key <$> l) → ∀ c, ∃ n pages, keyset_walk c (replicate n l) pages ∧ (n ≤ S (length (remaining c l)))%nat.
Proof.
  intros Hnd c. remember (length (remaining c l)) as k eqn:Hk. revert c Hk. induction (lt_wf k) as [k _ IH]. intros c Hk.
  destruct (keyset_page c l) as [page [c'|]] eqn:Hp.
  - pose proof (keyset_page_next _ _ _ _ Hnd Hp) as Hn. apply (f_equal length) in Hn. rewrite length_app in Hn.
    pose proof (keyset_page_cases _ _ _ _ Hp) as (-> & Hlen & _). rewrite length_take in Hn.
    destruct (IH (length (remaining (Some c') l))) with (c := Some c') as (n & pages & Hw & Hle); [lia|done|].
    exists (S n), (take limit (remaining c l) :: pages). split; [|lia]. by eapply walk_more.
  - exists 1%nat, [page]. split; [by apply walk_last|lia].
Qed.
End keyset.
