(* ===== verification/Read.v ===== *)
(** * The read side (ledger/pgledger/repository.go, ledger/service.go, ledger/ports.go)

    Balances, statements and searches.  Every query is one statement on a snapshot,
    of the primary or of a replica that may lag; sums are numeric and reading one
    into an int64 fails when it does not fit. *)

From S2P Require Import Prelude Errors Money Strconv Json Types SagaTypes Events Schema.
From S2P Require Import PgIdem PgSaga Retry PgLedger Keyset.
From Stdlib Require Import Ascii.
Open Scope string_scope.
Open Scope Z_scope.

(** ** ports.go *)

Record StatementCursor := mkStatementCursor { Cur_CreatedAt : Time; Cur_EntryID : UUID }.

Record StatementQuery := mkStatementQuery {
  Sq_AccountID : UUID;
  Sq_From : Time;
  Sq_To : Time;
  Sq_Limit : Z;
  Sq_After : option StatementCursor }.

Record StatementLine := mkStatementLine {
  Line_Entry : JournalEntry;
  Line_Signed : Money;
  Line_RunningBalance : Money }.

Record Statement := mkStatement {
  Stm_AccountID : UUID;
  Stm_Currency : string;
  Stm_From : Time;
  Stm_To : Time;
  Stm_Opening : Money;
  Stm_Closing : Money;
  Stm_Lines : list StatementLine;
  Stm_NextCursor : option StatementCursor }.

Record TransactionQuery := mkTransactionQuery {
  Tq_ExternalRef : option string;
  Tq_Status : TransactionStatus;
  Tq_Type : TransactionType;
  Tq_AccountID : option UUID;
  Tq_From : Time;
  Tq_To : Time;
  Tq_Limit : Z;
  Tq_After : option UUID }.

Record TransactionPage := mkTransactionPage { Tp_Transactions : list Transaction; Tp_NextCursor : option UUID }.

Record AccountQuery := mkAccountQuery {
  Aq_ExternalRef : option string;
  Aq_OwnerID : option string;
  Aq_Currency : string;
  Aq_Limit : Z;
  Aq_After : option UUID }.

Record AccountPage := mkAccountPage { Ap_Accounts : list Account; Ap_NextCursor : option UUID }.

(** ** Queries *)

(** One statement outside a transaction that only reads. *)
Definition query {A} (f : DB → A) : M A := _ ← tx_start; _ ← sql_exec; gets f.

(** Scanning a numeric into an int64. *)
Definition scan_int64 (z : Z) : res Z := if in_int64 z then Ok z else Err (ErrOther "cannot scan numeric into *int64").

(** The physical CTE: the account itself and its shards. *)
Definition physical (id : UUID) (d : DB) : list UUID :=
  ((if bool_decide (is_Some (accounts d !! id)) then [id] else []) ++
   (filter (λ ka : UUID * account_row, a_parent_account_id ka.2 = Some id) (map_to_list (accounts d))).*1)%list.

Definition account_entries (id : UUID) (d : DB) : list entry_row :=
  filter (λ r, je_account_id r ∈ physical id d) (journal_entries d).

Definition signed_of (nb : Direction) (r : entry_row) : Z := account_signed nb (je_direction r) (je_amount_minor r).

Definition GetBalance (accountID : UUID) : M Balance := map_err mapError (
  row ← query (λ d, a ← accounts d !! accountID;
                    let rows := omap (λ x, account_balances d !! x) (physical accountID d) in
                    if bool_decide (rows = []) then None else Some (a_currency a, rows));
  match row with
  | None => fail ErrAccountNotFound
  | Some (currency, rows) =>
      availableMinor ← lift (scan_int64 (zsum b_available_minor rows));
      pendingMinor ← lift (scan_int64 (zsum b_pending_minor rows));
      version ← lift (scan_int64 (zsum b_version rows));
      available ← lift (NewMoney availableMinor currency);
      pending ← lift (NewMoney pendingMinor currency);
      mret (mkBalance accountID available pending version
              (foldr Z.max (default 0 (b_updated_at <$> head rows)) (b_updated_at <$> rows)))
  end).

(** The baseline is zero from minus infinity on. *)
Definition GetBalanceAsOf (accountID : UUID) (at_ : Time) : M Money := map_err mapError (
  row ← query (λ d, (λ a, (a_currency a, zsum (signed_of (a_normal_balance a))
                       (filter (λ r, je_created_at r ≤ timestamptz at_) (account_entries accountID d)))) <$> accounts d !! accountID);
  match row with
  | None => fail ErrAccountNotFound
  | Some (currency, balance) => balanceMinor ← lift (scan_int64 balance); lift (NewMoney balanceMinor currency)
  end).

(** ** Statements *)

Definition position : Type := Time * UUID.
Definition position_of (r : entry_row) : position := (je_created_at r, je_id r).

(** Row comparison: [(a, b) < (c, d)]. *)
Definition position_ltb (x y : position) : bool := (x.1 <? y.1) || ((x.1 =? y.1) && (x.2 <? y.2)%N).

(** The cursor of the query: the first page starts from (From, uuid.Nil). *)
Definition statement_cursor (q : StatementQuery) : position :=
  match Sq_After q with
  | Some c => (timestamptz (Cur_CreatedAt c), Cur_EntryID c)
  | None => (timestamptz (Sq_From q), uuid_Nil)
  end.

Definition statement_opening (nb : Direction) (c : position) (rows : list entry_row) : Z :=
  zsum (signed_of nb) (filter (λ r, position_ltb c (position_of r) = false) rows).

(** The entries of the period. *)
Definition until (to_ : Time) (rows : list entry_row) : list entry_row :=
  filter (λ r, je_created_at r ≤ timestamptz to_) rows.

(** The page CTE, with one row more than the page. *)
Definition statement_rows (c : position) (to_ : Time) (limit : Z) (rows : list entry_row) : list entry_row :=
  take (Z.to_nat (limit + 1)) (remaining position_of position_ltb (Some c) (until to_ rows)).

(** The loop over the rows: [running] is the window sum. *)
Fixpoint statement_lines (accountID : UUID) (currency : string) (nb : Direction) (running : Z) (rows : list entry_row) :
    res (list StatementLine) :=
  match rows with
  | [] => Ok []
  | r :: rest =>
      let running := running + signed_of nb r in
      amountMinor ← scan_int64 (je_amount_minor r);
      signedMinor ← scan_int64 (signed_of nb r);
      runningMinor ← scan_int64 running;
      signed ← NewMoney signedMinor currency;
      run ← NewMoney runningMinor currency;
      amount ← NewMoney amountMinor currency;
      lines ← statement_lines accountID currency nb running rest;
      Ok (mkStatementLine (mkJournalEntry (je_id r) (je_transaction_id r) accountID (je_direction r) amount
            (je_entry_seq r) (je_created_at r)) signed run :: lines)
  end.

Definition line_cursor (l : StatementLine) : StatementCursor :=
  mkStatementCursor (Entry_CreatedAt (Line_Entry l)) (Entry_ID (Line_Entry l)).

Definition repo_GetStatement (q : StatementQuery) : M Statement := map_err mapError (
  row ← query (λ d, (λ a, (a_currency a, a_normal_balance a, account_entries (Sq_AccountID q) d)) <$> accounts d !! Sq_AccountID q);
  match row with
  | None => fail ErrAccountNotFound
  | Some (currency, nb, rows) =>
      let c := statement_cursor q in
      openingMinor ← lift (scan_int64 (statement_opening nb c rows));
      lines ← lift (statement_lines (Sq_AccountID q) currency nb (statement_opening nb c rows)
                      (statement_rows c (Sq_To q) (Sq_Limit q) rows));
      let limit := Z.to_nat (Sq_Limit q) in
      let more := (limit <? length lines)%nat in
      let next := if more then line_cursor <$> lines !! (limit - 1)%nat else None in
      let lines := if more then take limit lines else lines in
      opening ← lift (NewMoney openingMinor currency);
      mret (mkStatement (Sq_AccountID q) currency (Sq_From q) (Sq_To q) opening
              (default opening (Line_RunningBalance <$> lines !! (length lines - 1)%nat)) lines next)
  end).

Definition DefaultStatementLimit : Z := 100.
Definition MaxStatementLimit : Z := 1000.
Definition DefaultSearchLimit : Z := 100.
Definition MaxSearchLimit : Z := 1000.

Definition clamp (dflt max limit : Z) : Z := if limit <=? 0 then dflt else if max <? limit then max else limit.

Definition GetStatement (q : StatementQuery) : M Statement :=
  if bool_decide (Sq_AccountID q = uuid_Nil) then fail ErrAccountNotFound
  else if Sq_To q <? Sq_From q then fail ErrInvalidEntry
  else repo_GetStatement (mkStatementQuery (Sq_AccountID q) (Sq_From q) (Sq_To q)
         (clamp DefaultStatementLimit MaxStatementLimit (Sq_Limit q)) (Sq_After q)).

(** ** Searches *)

(** [s LIKE p], with the wildcards and the escape of SQL, over bytes. *)
Fixpoint like (p s : string) {struct p} : bool :=
  match p with
  | EmptyString => bool_decide (s = "")
  | String c p' =>
      if bool_decide (c = "%"%char) then
        (fix any (s : string) : bool := like p' s || match s with String _ s' => any s' | EmptyString => false end) s
      else if bool_decide (c = "_"%char) then match s with String _ s' => like p' s' | EmptyString => false end
      else if bool_decide (c = "\"%char) then
        match p' with
        | String e p'' => match s with String x s' => bool_decide (x = e) && like p'' s' | EmptyString => false end
        | EmptyString => false
        end
      else match s with String x s' => bool_decide (x = c) && like p' s' | EmptyString => false end
  end.

(** [col ILIKE '%' || ref || '%'] for a reference given and not empty. *)
Definition ref_matches (ref : option string) (col : option string) : bool :=
  match ref with
  | None => true
  | Some r =>
      if bool_decide (r = "") then true
      else match col with Some s => like ("%" +:+ string_lower r +:+ "%") (string_lower s) | None => false end
  end.

Definition given (s : string) (col : string) : bool := bool_decide (s = "") || bool_decide (col = s).

(** Ids descending. *)
Definition id_desc (a b : UUID) : bool := (b <? a)%N.

Definition transaction_matches (q : TransactionQuery) (d : DB) (kt : UUID * transaction_row) : bool :=
  (timestamptz (Tq_From q) <=? t_created_at kt.2) && (t_created_at kt.2 <=? timestamptz (Tq_To q)) &&
  ref_matches (Tq_ExternalRef q) (t_external_ref kt.2) &&
  given (Tq_Status q) (t_status kt.2) && given (Tq_Type q) (t_transaction_type kt.2) &&
  match Tq_AccountID q with
  | None => true
  | Some a => existsb (λ r, bool_decide (je_transaction_id r = kt.1) && bool_decide (je_account_id r = a)) (journal_entries d)
  end.

Definition matching_transactions (q : TransactionQuery) (d : DB) : list (UUID * transaction_row) :=
  filter (λ kt, transaction_matches q d kt = true) (map_to_list (transactions d)).

(** The header, without entries and without the principal, which is not selected. *)
Definition header_of (kt : UUID * transaction_row) : Transaction :=
  mkTransaction kt.1 (t_idempotency_key kt.2) "" (t_transaction_type kt.2) (t_status kt.2)
    (t_external_ref kt.2) (t_metadata kt.2) (t_created_at kt.2) (t_posted_at kt.2) [].

Definition repo_SearchTransactions (q : TransactionQuery) : M TransactionPage := map_err mapError (
  rows ← query (λ d, take (Z.to_nat (Tq_Limit q + 1)) (remaining fst id_desc (Tq_After q) (matching_transactions q d)));
  let '(page, next) := cut_page fst (Z.to_nat (Tq_Limit q)) rows in
  mret (mkTransactionPage (header_of <$> page) next)).

Definition SearchTransactions (q : TransactionQuery) : M TransactionPage :=
  to_ ← if bool_decide (Tq_To q = time_zero) then clock_Now else mret (Tq_To q);
  if to_ <? Tq_From q then fail ErrInvalidEntry
  else repo_SearchTransactions (mkTransactionQuery (Tq_ExternalRef q) (Tq_Status q) (Tq_Type q) (Tq_AccountID q)
         (Tq_From q) to_ (clamp DefaultSearchLimit MaxSearchLimit (Tq_Limit q)) (Tq_After q)).

Definition account_of (ka : UUID * account_row) : Account :=
  mkAccount ka.1 (a_external_ref ka.2) (a_account_type ka.2) (a_normal_balance ka.2) (a_currency ka.2)
    (a_owner_id ka.2) (a_allow_negative ka.2) (a_status ka.2) (a_version ka.2) (a_created_at ka.2) (a_updated_at ka.2).

Definition account_matches (q : AccountQuery) (ka : UUID * account_row) : bool :=
  bool_decide (a_parent_account_id ka.2 = None) && ref_matches (Aq_ExternalRef q) (Some (a_external_ref ka.2)) &&
  match Aq_OwnerID q with
  | Some o => bool_decide (o = "") || bool_decide (a_owner_id ka.2 = Some o)
  | None => true
  end && given (Aq_Currency q) (a_currency ka.2).

Definition matching_accounts (q : AccountQuery) (d : DB) : list (UUID * account_row) :=
  filter (λ ka, account_matches q ka = true) (map_to_list (accounts d)).

Definition repo_SearchAccounts (q : AccountQuery) : M AccountPage := map_err mapError (
  rows ← query (λ d, take (Z.to_nat (Aq_Limit q + 1)) (remaining fst id_desc (Aq_After q) (matching_accounts q d)));
  let '(page, next) := cut_page fst (Z.to_nat (Aq_Limit q)) rows in
  mret (mkAccountPage (account_of <$> page) next)).

Definition SearchAccounts (q : AccountQuery) : M AccountPage :=
  repo_SearchAccounts (mkAccountQuery (Aq_ExternalRef q) (Aq_OwnerID q) (Aq_Currency q)
    (clamp DefaultSearchLimit MaxSearchLimit (Aq_Limit q)) (Aq_After q)).

Definition GetAccount (id : UUID) : M Account := map_err mapError (
  row ← query (λ d, accounts d !! id);
  match row with None => fail ErrAccountNotFound | Some a => mret (account_of (id, a)) end).

(** The same two queries as the locked read, each on a snapshot of its own. *)
Definition GetTransaction (id : UUID) : M Transaction := map_err mapError (_ ← tx_start; scan_transaction false id).

(** A wildcard in the reference matches more than itself. *)
Example ilike_wildcards :
  ref_matches (Some "ORDER-1") (Some "my order-10") = true ∧ ref_matches (Some "50%") (Some "50 off") = true ∧
  ref_matches (Some "a_c") (Some "abc") = true ∧ ref_matches (Some "a\_c") (Some "abc") = false.
Proof. by vm_compute. Qed.
