(* ===== verification/ReadSpec.v ===== *)
(** * What the reads return

    Balances agree with the journal at any instant, and a statement read page by
    page is the account's history. *)

From S2P Require Import Prelude Errors Money Strconv Json Types SagaTypes Events Schema.
From S2P Require Import PgIdem PgSaga Retry PgLedger PgLedgerSpec ServiceSpec Invariant Frames Uuid System Keyset Read.
Open Scope string_scope.
Open Scope Z_scope.

#[export] Instance position_order : KeyOrder position_ltb.
Proof.
  split; unfold position_ltb.
  - intros [t u]. simpl. rewrite Z.ltb_irrefl, N.ltb_irrefl. by rewrite andb_false_r.
  - intros [t1 u1] [t2 u2] [t3 u3]. simpl. rewrite !orb_true_iff, !andb_true_iff, !Z.ltb_lt, !Z.eqb_eq, !N.ltb_lt. lia.
  - intros [t1 u1] [t2 u2]. simpl. rewrite !orb_false_iff, !andb_false_iff, !Z.ltb_ge, !Z.eqb_neq, !N.ltb_ge.
    intros [H1 H2] [H3 H4]. assert (t1 = t2) by lia. subst. f_equal. lia.
Qed.

#[export] Instance id_desc_order : KeyOrder id_desc.
Proof.
  split; unfold id_desc.
  - intros k. apply N.ltb_irrefl.
  - intros a b c. rewrite !N.ltb_lt. lia.
  - intros a b. rewrite !N.ltb_ge. lia.
Qed.

(** ** The monad of the reads *)

Lemma query_ok {A} (f : DB → A) a w w' : query f w = (Ok a, w') → a = f (w_db w) ∧ w_db w' = w_db w.
Proof.
  unfold query. intros Hrun. apply M_bind_ok in Hrun as (u & w1 & Hs & Hrun). mrun.
  pose proof (tx_start_db w) as Hd. rewrite Hs in Hd. simpl in *. by rewrite Hd.
Qed.

Lemma scan_int64_ok z z' : scan_int64 z = Ok z' → z' = z ∧ in_int64 z = true.
Proof. unfold scan_int64. destruct (in_int64 z); [|done]. by intros [= <-]. Qed.

(** ** The lines of a page *)

Section lines.
Context (accountID : UUID) (cur : string) (nb : Direction).

Definition line_of (running : Z) (r : entry_row) : StatementLine :=
  mkStatementLine (mkJournalEntry (je_id r) (je_transaction_id r) accountID (je_direction r) (mkMoney (je_amount_minor r) cur)
    (je_entry_seq r) (je_created_at r)) (mkMoney (signed_of nb r) cur) (mkMoney running cur).

(** Each entry with the balance after it. *)
Fixpoint history (balance : Z) (rows : list entry_row) : list StatementLine :=
  match rows with
  | [] => []
  | r :: rest => line_of (balance + signed_of nb r) r :: history (balance + signed_of nb r) rest
  end.

Lemma statement_lines_ok rows : ∀ s lines, statement_lines accountID cur nb s rows = Ok lines → lines = history s rows.
Proof.
  induction rows as [|r rows IH]; intros s lines Hl; simpl in Hl; [by injection Hl as <-|].
  apply result_bind_ok in Hl as (? & [-> _]%scan_int64_ok & Hl). apply result_bind_ok in Hl as (? & [-> _]%scan_int64_ok & Hl).
  apply result_bind_ok in Hl as (? & [-> _]%scan_int64_ok & Hl). apply result_bind_ok in Hl as (? & [_ ->]%NewMoney_ok & Hl).
  apply result_bind_ok in Hl as (? & [_ ->]%NewMoney_ok & Hl). apply result_bind_ok in Hl as (? & [_ ->]%NewMoney_ok & Hl).
  apply result_bind_ok in Hl as (rest & Hrest & [= <-]). simpl. by rewrite (IH _ _ Hrest).
Qed.

Lemma history_app rows1 rows2 : ∀ s, history s (rows1 ++ rows2)%list = (history s rows1 ++ history (s + zsum (signed_of nb) rows1) rows2)%list.
Proof.
  induction rows1 as [|r rows1 IH]; intros s; cbn [app history]; [by rewrite zsum_nil, Z.add_0_r|].
  rewrite IH, zsum_cons. do 3 f_equal. lia.
Qed.

Lemma history_length rows : ∀ s, length (history s rows) = length rows.
Proof. induction rows as [|r rows IH]; intros s; simpl; [done|]. by rewrite IH. Qed.

Lemma history_take n rows : ∀ s, take n (history s rows) = history s (take n rows).
Proof. revert n. induction rows as [|r rows IH]; intros [|n] s; simpl; try done. by rewrite IH. Qed.

Lemma history_lookup rows : ∀ s i r, rows !! i = Some r →
  history s rows !! i = Some (line_of (s + zsum (signed_of nb) (take (S i) rows)) r).
Proof.
  induction rows as [|r0 rows IH]; intros s i r Hi; [done|]. destruct i as [|i]; cbn [lookup list_lookup history] in *.
  - injection Hi as ->. change (take 1 (r :: rows)) with [r]. rewrite zsum_cons, zsum_nil. do 2 f_equal. lia.
  - change (take (S (S i)) (r0 :: rows)) with (r0 :: take (S i) rows). rewrite (IH _ _ _ Hi), zsum_cons. do 2 f_equal. lia.
Qed.

Lemma history_closing rows s : default (mkMoney s cur) (Line_RunningBalance <$> history s rows !! (length (history s rows) - 1)%nat)
  = mkMoney (s + zsum (signed_of nb) rows) cur.
Proof.
  rewrite history_length. destruct (decide (rows = [])) as [->|Hne]; [cbn [history]; rewrite zsum_nil, Z.add_0_r; done|].
  destruct (lookup_lt_is_Some_2 rows (length rows - 1)%nat) as [r Hr]; [destruct rows; simpl; [done|lia]|].
  rewrite (history_lookup _ _ _ _ Hr). simpl. rewrite take_ge; [done|]. destruct rows; simpl in *; [done|lia].
Qed.
End lines.

(** ** One page *)

Definition cursor_of (p : position) : StatementCursor := mkStatementCursor p.1 p.2.

(** The entries of the account and period a statement is about. *)
Definition statement_table (q : StatementQuery) (d : DB) : list entry_row := until (Sq_To q) (account_entries (Sq_AccountID q) d).

Definition page_of (limit : Z) (q : StatementQuery) (d : DB) : list entry_row * option position :=
  keyset_page position_of position_ltb (Z.to_nat limit) (Some (statement_cursor q)) (statement_table q d).

Definition opening_of (q : StatementQuery) (nb : Direction) (d : DB) : Z :=
  statement_opening nb (statement_cursor q) (account_entries (Sq_AccountID q) d).

(** The statement that shows [page]. *)
Definition shown (q : StatementQuery) (a : account_row) (d : DB) (page : list entry_row) (next : option position) : Statement :=
  let nb := a_normal_balance a in
  let cur := a_currency a in
  mkStatement (Sq_AccountID q) cur (Sq_From q) (Sq_To q) (mkMoney (opening_of q nb d) cur)
    (mkMoney (opening_of q nb d + zsum (signed_of nb) page) cur)
    (history (Sq_AccountID q) cur nb (opening_of q nb d) page) (cursor_of <$> next).

Lemma cut_history id cur nb s limit rows : (0 < limit)%nat →
  let lines := history id cur nb s rows in
  let '(page, next) := cut_page position_of limit rows in
  (if (limit <? length lines)%nat then take limit lines else lines) = history id cur nb s page ∧
  (if (limit <? length lines)%nat then line_cursor <$> lines !! (limit - 1)%nat else None) = cursor_of <$> next.
Proof.
  intros Hl lines. unfold lines, cut_page. rewrite history_length. destruct (Nat.ltb_spec limit (length rows)) as [Hlt|Hge]; [|done].
  rewrite history_take. split; [done|]. destruct (lookup_lt_is_Some_2 rows (limit - 1)%nat) as [r Hr]; [lia|].
  by rewrite (history_lookup _ _ _ _ _ _ _ Hr), Hr.
Qed.

Lemma repo_GetStatement_ok q st w w' : 0 < Sq_Limit q → repo_GetStatement q w = (Ok st, w') →
  w_db w' = w_db w ∧ ∃ a page next, accounts (w_db w) !! Sq_AccountID q = Some a ∧
    page_of (Sq_Limit q) q (w_db w) = (page, next) ∧ st = shown q a (w_db w) page next.
Proof.
  intros Hl Hrun. unfold repo_GetStatement in Hrun. apply map_err_ok in Hrun. apply M_bind_ok in Hrun as (row & w1 & Hq & Hrun).
  apply query_ok in Hq as [-> Hd1]. destruct (accounts (w_db w) !! Sq_AccountID q) as [a|] eqn:Ha; simpl in Hrun; [|mrun].
  apply M_bind_ok in Hrun as (o & w2 & [Hop ->]%lift_ok & Hrun). apply scan_int64_ok in Hop as [-> _].
  apply M_bind_ok in Hrun as (lines & w3 & [Hlines ->]%lift_ok & Hrun). apply statement_lines_ok in Hlines as ->.
  apply M_bind_ok in Hrun as (op & w4 & [Hop ->]%lift_ok & Hrun). apply NewMoney_ok in Hop as [_ ->].
  apply ret_ok in Hrun as [-> ->]. split; [done|].
  destruct (page_of (Sq_Limit q) q (w_db w)) as [page next] eqn:Hp. exists a, page, next. split_and!; [done|done|].
  unfold page_of, keyset_page in Hp. unfold statement_rows.
  replace (Z.to_nat (Sq_Limit q + 1)) with (S (Z.to_nat (Sq_Limit q))) by lia. fold (statement_table q (w_db w)).
  set (rows := take (S (Z.to_nat (Sq_Limit q))) _) in *.
  pose proof (cut_history (Sq_AccountID q) (a_currency a) (a_normal_balance a) (opening_of q (a_normal_balance a) (w_db w)) (Z.to_nat (Sq_Limit q)) rows) as Hcut.
  rewrite Hp in Hcut. destruct Hcut as [Hc1 Hc2]; [lia|]. fold (opening_of q (a_normal_balance a) (w_db w)). rewrite Hc1, Hc2.
  unfold shown. f_equal. apply history_closing.
Qed.

(** ** A statement read page by page *)

(** The same query, from a cursor on. *)
Definition next_query (q : StatementQuery) (c : StatementCursor) : StatementQuery :=
  mkStatementQuery (Sq_AccountID q) (Sq_From q) (Sq_To q) (Sq_Limit q) (Some c).

(** Following the cursors, each page in its own environment. *)
Inductive statement_walk : StatementQuery → list World → list Statement → Prop :=
| statement_last q w st w' : GetStatement q w = (Ok st, w') → Stm_NextCursor st = None → statement_walk q [w] [st]
| statement_more q w st w' c ws sts : GetStatement q w = (Ok st, w') → Stm_NextCursor st = Some c →
    statement_walk (next_query q c) ws sts → statement_walk q (w :: ws) (st :: sts).

(** What the database guarantees of every entry: its time is a whole microsecond
    and its id is not nil. *)
Definition stamped (d : DB) : Prop := ∀ r, r ∈ journal_entries d → timestamptz (je_created_at r) = je_created_at r ∧ je_id r ≠ uuid_Nil.

Definition page_limit (q : StatementQuery) : Z := clamp DefaultStatementLimit MaxStatementLimit (Sq_Limit q).

Lemma page_limit_pos q : 0 < page_limit q.
Proof. unfold page_limit, clamp, DefaultStatementLimit, MaxStatementLimit. repeat case_match; lia. Qed.

Lemma GetStatement_ok q st w w' : GetStatement q w = (Ok st, w') →
  Sq_From q ≤ Sq_To q ∧ w_db w' = w_db w ∧ ∃ a page next, accounts (w_db w) !! Sq_AccountID q = Some a ∧
    page_of (page_limit q) q (w_db w) = (page, next) ∧ st = shown q a (w_db w) page next.
Proof.
  unfold GetStatement. case_bool_decide; [by intros Hrun; mrun|]. destruct (Z.ltb_spec (Sq_To q) (Sq_From q)); [by intros Hrun; mrun|].
  intros Hrun. split; [done|]. apply repo_GetStatement_ok in Hrun; [exact Hrun|]. apply page_limit_pos.
Qed.

(** The walk is a keyset walk, page for page. *)
Lemma statement_walk_pages q ws sts : statement_walk q ws sts → Forall (λ w, stamped (w_db w)) ws →
  ∃ pages, keyset_walk position_of position_ltb (Z.to_nat (page_limit q)) (Some (statement_cursor q))
    ((λ w, statement_table q (w_db w)) <$> ws) pages ∧
    Forall2 (λ st page, ∃ q' w a next, w ∈ ws ∧ accounts (w_db w) !! Sq_AccountID q = Some a ∧
      Sq_AccountID q' = Sq_AccountID q ∧ st = shown q' a (w_db w) page next) sts pages.
Proof.
  induction 1 as [q w st w' Hrun Hn|q w st w' c ws sts Hrun Hn Hw IH]; intros Hst; inversion Hst as [|? ? Hst1 Hsts]; subst.
  - apply GetStatement_ok in Hrun as (_ & _ & a & page & next & Ha & Hp & ->). simpl in Hn. destruct next; [done|].
    exists [page]. split; [by apply walk_last|]. constructor; [|constructor]. exists q, w, a, None. set_solver.
  - apply GetStatement_ok in Hrun as (_ & _ & a & page & next & Ha & Hp & ->). simpl in Hn.
    destruct next as [p|]; [|done]. injection Hn as <-. destruct (IH Hsts) as (pages & Hk & Hf). clear IH.
    assert (Hcur : statement_cursor (next_query q (cursor_of p)) = p).
    { pose proof (page_limit_pos q). pose proof Hp as Hc. apply keyset_page_cases in Hc as (_ & _ & r & Hr & -> & _); [|lia].
      apply list_elem_of_lookup_2, remaining_elem in Hr as [Hr _]. apply list_elem_of_filter in Hr as [_ Hr].
      apply list_elem_of_filter in Hr as [_ Hr]. destruct (Hst1 r Hr) as [Ht _]. unfold statement_cursor. simpl. by rewrite Ht. }
    rewrite Hcur in Hk. exists (page :: pages). split; [by eapply walk_more|]. constructor.
    + exists q, w, a, (Some p). set_solver.
    + eapply Forall2_impl; [|exact Hf]. intros st page' (q' & w0 & a' & next & Hin & Ha' & Hq' & ->). exists q', w0, a', next. set_solver.
Qed.

(** ** Every entry, once *)

Definition line_position (l : StatementLine) : position := (Entry_CreatedAt (Line_Entry l), Entry_ID (Line_Entry l)).

(** A line shows an entry. *)
Definition shows (l : StatementLine) (r : entry_row) : Prop :=
  line_position l = position_of r ∧ Entry_TransactionID (Line_Entry l) = je_transaction_id r ∧
  Entry_Direction (Line_Entry l) = je_direction r ∧ amountMinor (Entry_Amount (Line_Entry l)) = je_amount_minor r.

Lemma history_positions id cur nb rows : ∀ s, line_position <$> history id cur nb s rows = position_of <$> rows.
Proof. induction rows as [|r rows IH]; intros s; [done|]. cbn [history]. by rewrite !fmap_cons, IH. Qed.

Lemma history_shows id cur nb rows s r : r ∈ rows → ∃ l, l ∈ history id cur nb s rows ∧ shows l r.
Proof.
  intros (i & Hi)%list_elem_of_lookup. eexists. split; [eapply list_elem_of_lookup_2; by apply history_lookup|done].
Qed.

Lemma history_from id cur nb rows s l : l ∈ history id cur nb s rows → ∃ r, r ∈ rows ∧ shows l r.
Proof.
  intros (i & Hi)%list_elem_of_lookup. destruct (rows !! i) as [r|] eqn:Hr.
  - rewrite (history_lookup _ _ _ _ _ _ _ Hr) in Hi. injection Hi as <-. exists r. split; [by eapply list_elem_of_lookup_2|done].
  - apply lookup_ge_None in Hr. apply lookup_lt_Some in Hi. rewrite history_length in Hi. lia.
Qed.

Lemma table_NoDup q d : NoDup (je_id <$> journal_entries d) → NoDup (position_of <$> statement_table q d).
Proof.
  intros Hnd. apply (NoDup_fmap_1 snd). rewrite <- list_fmap_compose. eapply sublist_NoDup; [exact Hnd|].
  apply fmap_sublist. etrans; apply sublist_filter.
Qed.

Lemma concat_shown q (ws : list World) sts pages :
  Forall2 (λ st page, ∃ q' w a next, w ∈ ws ∧ accounts (w_db w) !! Sq_AccountID q = Some a ∧
      Sq_AccountID q' = Sq_AccountID q ∧ st = shown q' a (w_db w) page next) sts pages →
  line_position <$> concat (Stm_Lines <$> sts) = position_of <$> concat pages ∧
  (∀ r, r ∈ concat pages → ∃ l, l ∈ concat (Stm_Lines <$> sts) ∧ shows l r) ∧
  (∀ l, l ∈ concat (Stm_Lines <$> sts) → ∃ r, r ∈ concat pages ∧ shows l r).
Proof.
  induction 1 as [|st page sts pages (q' & w & a & next & _ & _ & _ & ->) _ (IH1 & IH2 & IH3)].
  { split_and!; [done|by intros r Hr%not_elem_of_nil|by intros l Hl%not_elem_of_nil]. }
  rewrite fmap_cons. cbn [concat]. unfold shown at 1 2 3. cbn [Stm_Lines]. split_and!.
  - rewrite !fmap_app, IH1, history_positions. done.
  - intros r [Hr|Hr]%elem_of_app; [apply (history_shows (Sq_AccountID q') (a_currency a) (a_normal_balance a) _ (opening_of q' (a_normal_balance a) (w_db w))) in Hr as (l & ? & ?)|apply IH2 in Hr as (l & ? & ?)]; exists l; set_solver.
  - intros l [Hl|Hl]%elem_of_app; [apply history_from in Hl as (r & ? & ?)|apply IH3 in Hl as (r & ? & ?)]; exists r; set_solver.
Qed.

(** The period of a first page, by time alone. *)
Lemma beyond_start q r : Sq_After q = None → je_id r ≠ uuid_Nil →
  beyond position_of position_ltb (Some (statement_cursor q)) r = true ↔ timestamptz (Sq_From q) ≤ je_created_at r.
Proof.
  intros Hq Hid. unfold beyond, statement_cursor, position_ltb, position_of. rewrite Hq. simpl.
  rewrite orb_true_iff, andb_true_iff, Z.ltb_lt, Z.eqb_eq, N.ltb_lt. unfold uuid_Nil in *. lia.
Qed.

Lemma sorted_positions l : StronglySorted (key_lt position_of position_ltb) l → StronglySorted (λ x y, position_ltb x y = true) (position_of <$> l).
Proof.
  induction 1 as [|x l Hs IH Hall]; [constructor|]. rewrite fmap_cons. constructor; [done|]. rewrite Forall_fmap. exact Hall.
Qed.

(** C26: a statement read page by page misses nothing and repeats nothing, even while
    the journal grows.  Follow the cursors from the first page to the last, each page
    read in whatever environment and from a database that holds at least the entries
    of [d0] and in which the account has the same shards as in [d0]: the lines are strictly increasing in (created_at, id), every line shows
    an entry of the account in the period, and every entry [d0] had in the period is
    shown. *)
Theorem statement_walk_complete q ws sts d0 : statement_walk q ws sts → Sq_After q = None →
  Forall (λ w, stamped (w_db w) ∧ NoDup (je_id <$> journal_entries (w_db w)) ∧
    physical (Sq_AccountID q) (w_db w) = physical (Sq_AccountID q) d0 ∧
    ∀ r, r ∈ journal_entries d0 → r ∈ journal_entries (w_db w)) ws →
  let lines := concat (Stm_Lines <$> sts) in
  let in_period r := timestamptz (Sq_From q) ≤ je_created_at r ∧ je_created_at r ≤ timestamptz (Sq_To q) in
  StronglySorted (λ x y, position_ltb x y = true) (line_position <$> lines) ∧
  (∀ l, l ∈ lines → ∃ w r, w ∈ ws ∧ r ∈ account_entries (Sq_AccountID q) (w_db w) ∧ in_period r ∧ shows l r) ∧
  (∀ r, r ∈ account_entries (Sq_AccountID q) d0 → in_period r → ∃ l, l ∈ lines ∧ shows l r).
Proof.
  intros Hw Hq Hall lines in_period. pose proof (page_limit_pos q) as Hpos. rewrite Forall_forall in Hall.
  assert (Hall' : ∀ w, w ∈ ws → stamped (w_db w) ∧ NoDup (je_id <$> journal_entries (w_db w)) ∧
    physical (Sq_AccountID q) (w_db w) = physical (Sq_AccountID q) d0 ∧ ∀ r, r ∈ journal_entries d0 → r ∈ journal_entries (w_db w)).
  { intros w Hin. apply Hall. by apply list_elem_of_In. }
  clear Hall. rename Hall' into Hall.
  destruct (statement_walk_pages q ws sts Hw) as (pages & Hk & Hf).
  { apply Forall_forall. intros w Hin%list_elem_of_In. by apply Hall. }
  destruct (concat_shown _ _ _ _ Hf) as (Hpos' & Hto & Hfrom).
  apply keyset_walk_complete in Hk as (Hs & Hsound & Hcov); [|apply _|lia|].
  2: { apply Forall_forall. intros t Ht%list_elem_of_In. apply list_elem_of_fmap in Ht as (w & -> & Hin). apply table_NoDup. by apply Hall. }
  split_and!.
  - unfold lines. rewrite Hpos'. by apply sorted_positions.
  - intros l (r & Hr & Hsh)%Hfrom. apply Hsound in Hr as [Hb (t & (w & -> & Hin)%list_elem_of_fmap & Hr)].
    apply list_elem_of_filter in Hr as [Hto' Hr]. exists w, r. split_and!; [done|done| |done].
    apply list_elem_of_filter in Hr as [_ Hr]. destruct (Hall w Hin) as (Hst & _). split; [|done].
    eapply (beyond_start q r Hq); [by apply Hst|done].
  - intros r Hr [H1 H2]. apply list_elem_of_filter in Hr as [Hacc Hr]. apply Hto, Hcov.
    + intros t (w & -> & Hin)%list_elem_of_fmap. destruct (Hall w Hin) as (_ & _ & Hph & Hgrow).
      apply list_elem_of_filter. split; [done|]. apply list_elem_of_filter. rewrite Hph. auto.
    + destruct ws as [|w ws]; [inversion Hw|]. destruct (Hall w) as (Hst & _ & _ & Hgrow); [set_solver|].
      apply beyond_start; [done| |done]. by apply Hst, Hgrow.
Qed.

(** ** The balances of a statement *)

(** What the entries up to a cursor and those after it add up to. *)
Lemma opening_total nb (c : position) to_ rows : c.1 ≤ timestamptz to_ →
  statement_opening nb c rows + zsum (signed_of nb) (remaining position_of position_ltb (Some c) (until to_ rows))
    = zsum (signed_of nb) (until to_ rows).
Proof.
  intros Hc. unfold statement_opening, remaining, in_order. rewrite (zsum_perm _ _ _ (sort_by_perm _ _)). unfold until.
  rewrite !zsum_filter, <- zsum_add. apply zsum_ext. intros r _. unfold beyond, position_ltb, position_of. destruct c as [t u]. simpl in *.
  destruct (Z.ltb_spec t (je_created_at r)); destruct (Z.eqb_spec t (je_created_at r)); destruct (u <? je_id r)%N; simpl;
    repeat case_decide; try done; lia.
Qed.

Lemma timestamptz_mono a b : a ≤ b → timestamptz a ≤ timestamptz b.
Proof. intros H. unfold timestamptz. pose proof (Z.div_le_mono a b 1000). lia. Qed.

(** The next page opens where this one closes. *)
Lemma opening_next q d page c' nb : (statement_cursor q).1 ≤ timestamptz (Sq_To q) → stamped d → NoDup (je_id <$> journal_entries d) →
  page_of (page_limit q) q d = (page, Some c') →
  statement_cursor (next_query q (cursor_of c')) = c' ∧ c'.1 ≤ timestamptz (Sq_To q) ∧
  opening_of (next_query q (cursor_of c')) nb d = opening_of q nb d + zsum (signed_of nb) page.
Proof.
  intros Hc Hst Hnd Hp. pose proof (page_limit_pos q) as Hpos.
  assert (Hcur : statement_cursor (next_query q (cursor_of c')) = c' ∧ c'.1 ≤ timestamptz (Sq_To q)).
  { pose proof Hp as Hc'. apply keyset_page_cases in Hc' as (_ & _ & r & Hr & -> & _); [|lia].
    apply list_elem_of_lookup_2, remaining_elem in Hr as [Hr _]. apply list_elem_of_filter in Hr as [Hto Hr].
    apply list_elem_of_filter in Hr as [_ Hr]. destruct (Hst r Hr) as [Ht _]. unfold statement_cursor. simpl. by rewrite Ht. }
  destruct Hcur as [Hcur Hto]. split_and!; [done|done|]. unfold opening_of. rewrite Hcur. cbn [Sq_AccountID next_query].
  pose proof (opening_total nb (statement_cursor q) (Sq_To q) (account_entries (Sq_AccountID q) d) Hc) as H1.
  pose proof (opening_total nb c' (Sq_To q) (account_entries (Sq_AccountID q) d) Hto) as H2.
  apply keyset_page_next in Hp; [|apply _|lia|by apply table_NoDup]. fold (statement_table q d) in H1, H2.
  rewrite Hp, zsum_app in H1. lia.
Qed.

(** The entries of the period in order. *)
Definition period (q : StatementQuery) (d : DB) : list entry_row :=
  remaining position_of position_ltb (Some (statement_cursor q)) (statement_table q d).

Lemma statement_walk_balances q ws sts d a : statement_walk q ws sts → Forall (λ w, w_db w = d) ws → stamped d →
  NoDup (je_id <$> journal_entries d) → (statement_cursor q).1 ≤ timestamptz (Sq_To q) → accounts d !! Sq_AccountID q = Some a →
  let nb := a_normal_balance a in
  concat (Stm_Lines <$> sts) = history (Sq_AccountID q) (a_currency a) nb (opening_of q nb d) (period q d) ∧
  (Stm_Opening <$> head sts) = Some (mkMoney (opening_of q nb d) (a_currency a)) ∧
  (∀ i st st', sts !! i = Some st → sts !! S i = Some st' → Stm_Opening st' = Stm_Closing st) ∧
  (Stm_Closing <$> sts !! (length sts - 1)%nat) =
    Some (mkMoney (zsum (signed_of nb) (until (Sq_To q) (account_entries (Sq_AccountID q) d))) (a_currency a)).
Proof.
  induction 1 as [q w st w' Hrun Hn|q w st w' c ws sts Hrun Hn Hw IH]; intros Hd Hst Hnd Hc Ha nb;
    inversion Hd as [|? ? Hd1 Hds]; subst; pose proof (page_limit_pos q) as Hpos;
    apply GetStatement_ok in Hrun as (_ & _ & a' & page & next & Ha' & Hp & ->); rewrite Ha in Ha'; injection Ha' as <-; simpl in Hn.
  - destruct next; [done|]. pose proof Hp as Hpg. apply keyset_page_cases in Hpg; [|lia]. simpl in Hpg.
    cbn [fmap list_fmap concat shown Stm_Lines]. rewrite app_nil_r. split_and!.
    + unfold period, page_of in *. by rewrite Hpg.
    + done.
    + by intros [|i] ? ? ? ?.
    + simpl. rewrite <- (opening_total nb _ _ _ Hc), Hpg. done.
  - destruct next as [c'|]; [|done]. injection Hn as <-.
    destruct (opening_next q _ page c' nb Hc Hst Hnd Hp) as (Hcur & Hto & Hop).
    destruct IH as (IH1 & IH2 & IH3 & IH4); [done|done|done|by rewrite Hcur|done|]. fold nb in IH1, IH2, IH3, IH4.
    rewrite fmap_cons. cbn [concat]. rewrite IH1. clear IH1. unfold shown at 1. cbn [Stm_Lines]. split_and!.
    + unfold period at 2. apply keyset_page_next in Hp; [|apply _|lia|by apply table_NoDup]. rewrite Hp, history_app, <- Hop.
      unfold period. by rewrite Hcur.
    + done.
    + intros [|i] st st' Hi Hj; [|by eapply IH3]. injection Hi as <-. simpl in Hj.
      destruct sts as [|s0 sts]; [done|]. injection Hj as ->. injection IH2 as ->. by rewrite Hop.
    + destruct sts as [|s0 sts]; [done|]. simpl in *. by rewrite Nat.sub_0_r in *.
Qed.

(** A statement's balances are those of the journal.  Read page by page from one
    snapshot, the statement starts from the sum of the entries before the period,
    shows the entries of the period in order, each with the balance after it, every
    page opens where the one before closed, and the last one closes with what
    [GetBalanceAsOf] computes for the end of the period. *)
Theorem statement_balances_chain q ws sts d a : statement_walk q ws sts → Sq_After q = None →
  Forall (λ w, w_db w = d) ws → stamped d → ledger_wf d → accounts d !! Sq_AccountID q = Some a →
  let nb := a_normal_balance a in
  let rows := account_entries (Sq_AccountID q) d in
  let opening := zsum (signed_of nb) (filter (λ r, je_created_at r < timestamptz (Sq_From q)) rows) in
  concat (Stm_Lines <$> sts) = history (Sq_AccountID q) (a_currency a) nb opening (period q d) ∧
  (Stm_Opening <$> head sts) = Some (mkMoney opening (a_currency a)) ∧
  (∀ i st st', sts !! i = Some st → sts !! S i = Some st' → Stm_Opening st' = Stm_Closing st) ∧
  (Stm_Closing <$> sts !! (length sts - 1)%nat) =
    Some (mkMoney (zsum (signed_of nb) (filter (λ r, je_created_at r ≤ timestamptz (Sq_To q)) rows)) (a_currency a)).
Proof.
  intros Hw Hq Hd Hst Hwf Ha nb rows opening.
  assert (Hft : Sq_From q ≤ Sq_To q) by (destruct Hw as [? ? ? ? Hrun|? ? ? ? ? ? ? Hrun]; apply GetStatement_ok in Hrun; tauto).
  assert (Hop : opening_of q nb d = opening).
  { unfold opening_of, statement_opening, opening. rewrite !zsum_filter. apply zsum_ext.
    intros r [_ Hr]%list_elem_of_filter. destruct (Hst r Hr) as [_ Hid].
    pose proof (beyond_start q r Hq Hid) as Hb. simpl in Hb. destruct (position_ltb _ _); repeat case_decide; naive_solver lia. }
  rewrite <- Hop. apply (statement_walk_balances q ws sts d a Hw Hd Hst (wf_ids d Hwf)); [|done].
  unfold statement_cursor. rewrite Hq. simpl. by apply timestamptz_mono.
Qed.

(** ** The stored balance and the journal *)

(** Every shard of the account keeps its normal balance, and nothing is its own shard. *)
Definition shards_aligned (id : UUID) (nb : Direction) (d : DB) : Prop :=
  ∀ s x, accounts d !! s = Some x → a_parent_account_id x = Some id → a_normal_balance x = nb ∧ s ≠ id.

Lemma physical_NoDup id nb d : shards_aligned id nb d → NoDup (physical id d).
Proof.
  intros Hal. unfold physical. apply list.NoDup_app. split_and!.
  - case_bool_decide; [apply list.NoDup_singleton|constructor].
  - intros x Hx (ka & -> & [Hp Hka]%list_elem_of_filter)%list_elem_of_fmap.
    case_bool_decide; [|by apply not_elem_of_nil in Hx]. apply list_elem_of_singleton in Hx.
    destruct ka as [s r]. apply elem_of_map_to_list in Hka. simpl in *. by destruct (Hal s r Hka Hp).
  - eapply sublist_NoDup; [exact (NoDup_fst_map_to_list (accounts d))|]. apply fmap_sublist, sublist_filter.
Qed.

Lemma physical_elem id nb a d s : shards_aligned id nb d → accounts d !! id = Some a → a_normal_balance a = nb → s ∈ physical id d →
  ∃ x, accounts d !! s = Some x ∧ a_normal_balance x = nb.
Proof.
  intros Hal Ha Hnb [Hs|Hs]%elem_of_app.
  - case_bool_decide; [|by apply not_elem_of_nil in Hs]. apply list_elem_of_singleton in Hs as ->. eauto.
  - apply list_elem_of_fmap in Hs as ([k x] & -> & [Hp Hk%elem_of_map_to_list]%list_elem_of_filter). simpl in *.
    destruct (Hal k x Hk Hp). eauto.
Qed.

(** Summing account by account is summing over the entries of the accounts. *)
Lemma zsum_accounts nb rows ids : NoDup ids →
  zsum (λ id, account_sum nb id rows) ids = zsum (signed_of nb) (filter (λ r, je_account_id r ∈ ids) rows).
Proof.
  induction 1 as [|id ids Hni Hnd IH].
  - symmetry. rewrite zsum_filter. apply zsum_zero. intros r _. case_decide as H; [by apply not_elem_of_nil in H|done].
  - rewrite zsum_cons, IH. unfold account_sum. rewrite !zsum_filter, <- zsum_add. apply zsum_ext. intros r _. unfold signed_of.
    repeat case_decide; set_solver by lia.
Qed.

Lemma omap_some {A B} (f : A → option B) (g : B → Z) (h : A → Z) l :
  (∀ x, x ∈ l → ∃ y, f x = Some y ∧ g y = h x) → zsum g (omap f l) = zsum h l.
Proof.
  induction l as [|x l IH]; intros Hl; [done|]. destruct (Hl x) as (y & Hy & Hg); [set_solver|].
  cbn [omap list_omap]. rewrite Hy, !zsum_cons, IH, Hg; [done|set_solver].
Qed.

Lemma GetBalance_ok id b w w' : GetBalance id w = (Ok b, w') →
  ∃ a, accounts (w_db w) !! id = Some a ∧
    Balance_Available b = mkMoney (zsum b_available_minor (omap (λ x, account_balances (w_db w) !! x) (physical id (w_db w)))) (a_currency a).
Proof.
  intros Hrun. apply map_err_ok in Hrun. apply M_bind_ok in Hrun as (row & w1 & Hq & Hrun).
  apply query_ok in Hq as [-> _]. destruct (accounts (w_db w) !! id) as [a|] eqn:Ha; simpl in Hrun; [|mrun].
  case_bool_decide; [mrun|]. do 3 (apply M_bind_ok in Hrun as (? & ? & [[-> _]%scan_int64_ok ->]%lift_ok & Hrun)).
  do 2 (apply M_bind_ok in Hrun as (? & ? & [[_ ->]%NewMoney_ok ->]%lift_ok & Hrun)).
  apply ret_ok in Hrun as [-> _]. eauto.
Qed.

Lemma GetBalanceAsOf_ok id at_ m w w' : GetBalanceAsOf id at_ w = (Ok m, w') →
  ∃ a, accounts (w_db w) !! id = Some a ∧
    m = mkMoney (zsum (signed_of (a_normal_balance a))
          (filter (λ r, je_created_at r ≤ timestamptz at_) (account_entries id (w_db w)))) (a_currency a).
Proof.
  intros Hrun. apply map_err_ok in Hrun. apply M_bind_ok in Hrun as (row & w1 & Hq & Hrun).
  apply query_ok in Hq as [-> _]. destruct (accounts (w_db w) !! id) as [a|] eqn:Ha; simpl in Hrun; [|mrun].
  apply M_bind_ok in Hrun as (? & ? & [[-> _]%scan_int64_ok ->]%lift_ok & Hrun).
  apply lift_ok in Hrun as [[_ ->]%NewMoney_ok _]. eauto.
Qed.

(** In a reachable database they are: shards are made by [ledger_shard_account] only. *)
Lemma shards_wf_aligned id a d : shards_wf d → accounts d !! id = Some a → shards_aligned id (a_normal_balance a) d.
Proof. intros Hsh Ha s x Hx Hp. destruct (Hsh s x id Hx Hp) as (Hne & a' & Ha' & _ & Hnb & _). simplify_eq. done. Qed.

(** C28: the two balance reads agree.  In every database the system can reach, sharded
    accounts included, what [GetBalance] sums from the stored balances of an account and
    its shards is what [GetBalanceAsOf] sums from the journal at an instant no entry is
    later than. *)
Theorem balance_reads_agree `{UL : UuidLib} id at_ d a w1 w2 b m w1' w2' : reachable d → accounts d !! id = Some a →
  (∀ r, r ∈ journal_entries d → je_created_at r ≤ timestamptz at_) →
  w_db w1 = d → w_db w2 = d → GetBalance id w1 = (Ok b, w1') → GetBalanceAsOf id at_ w2 = (Ok m, w2') →
  Balance_Available b = m.
Proof.
  intros (Hwf & _ & Hsh)%reachable_consistent Ha Hat Hd1 Hd2 H1%GetBalance_ok H2%GetBalanceAsOf_ok.
  pose proof (shards_wf_aligned id a d Hsh Ha) as Hal. rewrite Hd1, Ha in H1. rewrite Hd2, Ha in H2.
  destruct H1 as (? & [= <-] & ->), H2 as (? & [= <-] & ->). f_equal.
  set (nb := a_normal_balance a) in *. rewrite (omap_some _ _ (λ x, account_sum nb x (journal_entries d))).
  - rewrite (zsum_accounts nb _ _ (physical_NoDup id nb d Hal)). unfold account_entries. f_equal. symmetry. apply filter_all_true.
    intros r [_ Hr]%list_elem_of_filter. by apply Hat.
  - intros s (x & Hx & Hnb)%(physical_elem id nb a); [|done..]. destruct (wf_accounts d Hwf s x Hx) as (_ & _ & row & Hrow).
    exists row. split; [done|]. rewrite (wf_balance_sum d Hwf s x row Hx Hrow). by rewrite Hnb.
Qed.
