(* ===== verification/ReadDemo.v ===== *)
(** * A concrete statement

    Two payments from the funded wallet, and its statement read in pages of one
    line, the second payment arriving between the first page and the second; and the
    balance of the wallet after it was sharded. *)

From S2P Require Import Prelude Errors Money Json Types SagaTypes Events Schema Retry PgLedger Service Invariant.
From S2P Require Import Posting Ledger Uuid Demo System Keyset Read ReadSpec.
Open Scope string_scope.
Open Scope Z_scope.

Definition spent_db : DB := w_db (postTransaction demo_repo (transfer wallet_id merchant_id 120) (quiet_world funded_db 300)).2.
Definition spent_twice_db : DB := w_db (postTransaction demo_repo (transfer wallet_id merchant_id 30) (quiet_world spent_db 400)).2.

Lemma spent_wf : ledger_wf spent_db.
Proof. refine (posted_wf _ _ _ _ funded_wf _). apply transfer_ok. split; vm_compute; congruence. Qed.

Lemma spent_twice_wf : ledger_wf spent_twice_db.
Proof. refine (posted_wf _ _ _ _ spent_wf _). apply transfer_ok. split; vm_compute; congruence. Qed.

(** The tests behind the hypotheses of the theorems. *)
Definition stamped_b (d : DB) : bool :=
  forallb (λ r, bool_decide (timestamptz (je_created_at r) = je_created_at r ∧ je_id r ≠ uuid_Nil)) (journal_entries d).

Lemma stamped_b_ok d : stamped_b d = true → stamped d.
Proof. intros H r Hr. apply (forallb_elem _ _ r H) in Hr. by apply bool_decide_eq_true in Hr. Qed.

#[local] Instance entry_row_eq_dec : EqDecision entry_row.
Proof. solve_decision. Defined.

Definition contains_b (d d0 : DB) : bool := forallb (λ r, bool_decide (r ∈ journal_entries d)) (journal_entries d0).

Lemma contains_b_ok d d0 : contains_b d d0 = true → ∀ r, r ∈ journal_entries d0 → r ∈ journal_entries d.
Proof. intros H r Hr. apply (forallb_elem _ _ r H) in Hr. by apply bool_decide_eq_true in Hr. Qed.

(** The whole of the wallet's history, a line at a time. *)
Definition the_hour : StatementQuery := mkStatementQuery wallet_id 1600000000000000000 1800000000000000000 1 None.

(** The pages a client reads, one world after the other. *)
Fixpoint read_pages (q : StatementQuery) (ws : list World) : option (list Statement) :=
  match ws with
  | [] => None
  | w :: ws =>
      match (GetStatement q w).1 with
      | Err _ => None
      | Ok st =>
          match Stm_NextCursor st, ws with
          | None, [] => Some [st]
          | Some c, _ => cons st <$> read_pages (next_query q c) ws
          | None, _ => None
          end
      end
  end.

Lemma read_pages_walk q ws sts : read_pages q ws = Some sts → statement_walk q ws sts.
Proof.
  revert q sts. induction ws as [|w ws IH]; intros q sts H; [done|]. simpl in H.
  destruct (GetStatement q w) as [[st|e] w'] eqn:Hst; [|done]. simpl in H. destruct (Stm_NextCursor st) as [c|] eqn:Hc.
  - apply fmap_Some in H as (rest & Hr & ->). eapply statement_more; eauto.
  - destruct ws; [|done]. injection H as <-. by eapply statement_last.
Qed.

Definition live_worlds : list World :=
  [quiet_world spent_db 500; quiet_world spent_twice_db 500; quiet_world spent_twice_db 500].
Definition still_worlds : list World := replicate 3 (quiet_world spent_twice_db 500).
Definition pages_of (ws : list World) : list Statement := default [] (read_pages the_hour ws).

Lemma live_walk : statement_walk the_hour live_worlds (pages_of live_worlds).
Proof.
  unfold pages_of. destruct (read_pages the_hour live_worlds) as [sts|] eqn:H; [by apply read_pages_walk|].
  exfalso. revert H. vm_compute. discriminate.
Qed.

Lemma still_walk : statement_walk the_hour still_worlds (pages_of still_worlds).
Proof.
  unfold pages_of. destruct (read_pages the_hour still_worlds) as [sts|] eqn:H; [by apply read_pages_walk|].
  exfalso. revert H. vm_compute. discriminate.
Qed.

(** The statement: 500 in, 120 out, 30 out. *)
Example wallet_statement :
  (λ st, (amountMinor (Stm_Opening st), (λ l, amountMinor (Line_Signed l)) <$> Stm_Lines st, amountMinor (Stm_Closing st)))
    <$> pages_of live_worlds = [(0, [500], 500); (500, [-120], 380); (380, [-30], 350)].
Proof. by vm_compute. Qed.

#[local] Opaque spent_db spent_twice_db.

Lemma live_world_ok d : ledger_wf d → stamped_b d = true →
  physical wallet_id d = physical wallet_id spent_db → contains_b d spent_db = true →
  stamped d ∧ NoDup (je_id <$> journal_entries d) ∧ physical wallet_id d = physical wallet_id spent_db ∧
  ∀ r, r ∈ journal_entries spent_db → r ∈ journal_entries d.
Proof. intros Hwf H1 H2 H3. split_and!; [by apply stamped_b_ok|by apply wf_ids|done|by apply contains_b_ok]. Qed.

Lemma live_facts : stamped_b spent_db = true ∧ contains_b spent_db spent_db = true ∧ stamped_b spent_twice_db = true ∧
  physical wallet_id spent_twice_db = physical wallet_id spent_db ∧ contains_b spent_twice_db spent_db = true.
Proof. vm_compute. by split_and!. Qed.

Lemma statement_walk_complete_witness :
  Forall (λ r, 1600000000000000000 ≤ je_created_at r ∧ je_created_at r ≤ 1800000000000000000 →
    ∃ l, l ∈ concat (Stm_Lines <$> pages_of live_worlds) ∧ shows l r) (account_entries wallet_id spent_db) ∧
  length (account_entries wallet_id spent_db) = 2%nat.
Proof.
  split; [|vm_compute; reflexivity]. apply Forall_forall. intros r Hr%list_elem_of_In. revert r Hr.
  destruct live_facts as (F1 & F2 & F3 & F4 & F5).
  assert (H1 := live_world_ok spent_db spent_wf F1 eq_refl F2).
  assert (H2 := live_world_ok spent_twice_db spent_twice_wf F3 F4 F5).
  refine (proj2 (proj2 (statement_walk_complete the_hour live_worlds (pages_of live_worlds) spent_db live_walk eq_refl _))).
  constructor; [exact H1|]. constructor; [exact H2|]. constructor; [exact H2|]. constructor.
Defined.

Lemma wallet_exists : ∃ a, accounts spent_twice_db !! wallet_id = Some a.
Proof. assert (H : bool_decide (is_Some (accounts spent_twice_db !! wallet_id)) = true) by (vm_compute; reflexivity). by apply bool_decide_eq_true in H. Qed.

Lemma statement_balances_chain_witness : ∃ a, accounts spent_twice_db !! wallet_id = Some a ∧
  (Stm_Closing <$> pages_of still_worlds !! (length (pages_of still_worlds) - 1)%nat) =
    Some (mkMoney (zsum (signed_of (a_normal_balance a))
      (filter (λ r, je_created_at r ≤ timestamptz 1800000000000000000) (account_entries wallet_id spent_twice_db))) (a_currency a)).
Proof.
  destruct wallet_exists as [a Ha]. exists a. split; [exact Ha|]. destruct live_facts as (_ & _ & F3 & _).
  refine (proj2 (proj2 (proj2 (statement_balances_chain the_hour still_worlds (pages_of still_worlds) spent_twice_db a
    still_walk eq_refl _ (stamped_b_ok _ F3) spent_twice_wf Ha)))).
  repeat constructor.
Defined.

(** The wallet split in two, then funded again: the money lands on a shard. *)
Definition sharded_db : DB := w_db (ledger_shard_account wallet_id 2 (quiet_world funded_db 600)).2.
Definition refunded_db : DB := w_db (postTransaction demo_repo funding (quiet_world sharded_db 700)).2.

Lemma sharded_db_eq : sharded_db = w_db (ledger_shard_account wallet_id 2 (quiet_world funded_db 600)).2.
Proof. reflexivity. Qed.
Lemma refunded_db_eq : refunded_db = w_db (postTransaction demo_repo funding (quiet_world sharded_db 700)).2.
Proof. reflexivity. Qed.
#[global] Opaque sharded_db refunded_db.

Lemma refunded_reachable : reachable refunded_db.
Proof.
  eapply rtc_r; [eapply rtc_r; [exact funded_reachable|]|].
  - apply (step_to (OpShardAccount wallet_id 2) (quiet_world funded_db 600)); [apply quiet_world_db|exact sharded_db_eq|exact I].
  - apply (step_to (OpPostTransaction demo_repo funding) (quiet_world sharded_db 700)); [apply quiet_world_db|exact refunded_db_eq|exact funding_ok].
Qed.

Definition before_b (t : Time) (d : DB) : bool := forallb (λ r, je_created_at r <=? timestamptz t) (journal_entries d).

Lemma refunded_facts :
  ((λ x, b_available_minor <$> account_balances refunded_db !! x) <$> physical wallet_id refunded_db) = [Some 500; Some 500; Some 0] ∧
  bool_decide (is_Some (accounts refunded_db !! wallet_id)) = true ∧
  is_ok (GetBalance wallet_id (quiet_world refunded_db 800)).1 = true ∧
  is_ok (GetBalanceAsOf wallet_id 1800000000000000000 (quiet_world refunded_db 800)).1 = true ∧
  before_b 1800000000000000000 refunded_db = true.
Proof. vm_compute. by split_and!. Qed.

Lemma balance_reads_agree_witness : ∃ b m w1 w2,
  GetBalance wallet_id (quiet_world refunded_db 800) = (Ok b, w1) ∧
  GetBalanceAsOf wallet_id 1800000000000000000 (quiet_world refunded_db 800) = (Ok m, w2) ∧ Balance_Available b = m.
Proof.
  destruct refunded_facts as (_ & R0 & R1 & R2 & R4). apply bool_decide_eq_true in R0 as [a Ha].
  apply ran_ok in R1 as (b & w1 & R1). apply ran_ok in R2 as (m & w2 & R2). exists b, m, w1, w2.
  split; [exact R1|]. split; [exact R2|].
  refine (balance_reads_agree wallet_id _ refunded_db a _ _ b m w1 w2 refunded_reachable Ha _ (quiet_world_db _ _) (quiet_world_db _ _) R1 R2).
  intros r Hr. apply (forallb_elem _ _ r R4) in Hr. by apply Z.leb_le.
Defined.
