(* ===== verification/Utf8.v ===== *)
(** * Runes, UTF-8 and UTF-16

    [unicode/utf8] and [unicode/utf16] of the Go library, as far as the JSON code
    uses them.  Text is a list of bytes, a rune a number. *)

From S2P Require Import Prelude.
From Stdlib Require Import Ascii.
Open Scope N_scope.

Abbreviation text := (list ascii) (only parsing).
Abbreviation rune := N (only parsing).

Definition byte_of (c : ascii) : N := N_of_ascii c.
Definition chr (n : N) : ascii := ascii_of_N n.

Lemma byte_chr n : n < 256 → byte_of (chr n) = n.
Proof. apply N_ascii_embedding. Qed.

Lemma chr_byte c : chr (byte_of c) = c.
Proof. apply ascii_N_embedding. Qed.

(** [unicode.ReplacementChar] *)
Definition RuneError : rune := 65533.

Definition surrogate (r : rune) : bool := (55296 <=? r) && (r <=? 57343).

(** A Unicode scalar value. *)
Definition scalar (r : rune) : bool := (r <=? 1114111) && negb (surrogate r).

(** ** UTF-8 *)

(** [utf8.AppendRune]. *)
Definition encode_rune (r : rune) : text :=
  let r := if scalar r then r else RuneError in
  if r <? 128 then [chr r]
  else if r <? 2048 then [chr (192 + r / 64); chr (128 + r mod 64)]
  else if r <? 65536 then [chr (224 + r / 4096); chr (128 + r / 64 mod 64); chr (128 + r mod 64)]
  else [chr (240 + r / 262144); chr (128 + r / 4096 mod 64); chr (128 + r / 64 mod 64); chr (128 + r mod 64)].

Definition utf8 (rs : list rune) : text := concat (encode_rune <$> rs).

Definition between (lo hi : N) (c : ascii) : bool := (lo <=? byte_of c) && (byte_of c <=? hi).

(** [utf8.DecodeRune] of a byte and what follows: the rune and how many of the
    bytes that follow belong to it.  A byte that does not start a well-formed
    sequence is one [RuneError]. *)
Definition DecodeRune (b0 : ascii) (s : text) : rune * nat :=
  let x := byte_of b0 in
  if x <? 128 then (x, 0%nat)
  else if between 194 223 b0 then
    match s with
    | b1 :: _ => if between 128 191 b1 then ((x - 192) * 64 + (byte_of b1 - 128), 1%nat) else (RuneError, 0%nat)
    | _ => (RuneError, 0%nat)
    end
  else if between 224 239 b0 then
    match s with
    | b1 :: b2 :: _ =>
        if between (if x =? 224 then 160 else 128) (if x =? 237 then 159 else 191) b1 && between 128 191 b2
        then ((x - 224) * 4096 + (byte_of b1 - 128) * 64 + (byte_of b2 - 128), 2%nat) else (RuneError, 0%nat)
    | _ => (RuneError, 0%nat)
    end
  else if between 240 244 b0 then
    match s with
    | b1 :: b2 :: b3 :: _ =>
        if between (if x =? 240 then 144 else 128) (if x =? 244 then 143 else 191) b1 && between 128 191 b2 && between 128 191 b3
        then ((x - 240) * 262144 + (byte_of b1 - 128) * 4096 + (byte_of b2 - 128) * 64 + (byte_of b3 - 128), 3%nat)
        else (RuneError, 0%nat)
    | _ => (RuneError, 0%nat)
    end
  else (RuneError, 0%nat).

(** [[]rune(s)], after [skip] bytes. *)
Fixpoint runes_from (skip : nat) (s : text) : list rune :=
  match s with
  | [] => []
  | b :: s' =>
      match skip with
      | S k => runes_from k s'
      | O => let '(r, n) := DecodeRune b s' in r :: runes_from n s'
      end
  end.

Definition runes : text → list rune := runes_from 0.

Lemma runes_from_drop n : ∀ s, runes_from n s = runes (drop n s).
Proof. induction n as [|n IH]; intros [|b s]; try done. simpl. apply IH. Qed.

Lemma runes_cons b s r n : DecodeRune b s = (r, n) → runes (b :: s) = r :: runes (drop n s).
Proof. intros H. unfold runes at 1. cbn [runes_from]. by rewrite H, runes_from_drop. Qed.

Lemma between_chr lo hi n : n < 256 → between lo hi (chr n) = (lo <=? n) && (n <=? hi).
Proof. intros Hn. unfold between. by rewrite byte_chr. Qed.

Lemma scalar_spec r : scalar r = true ↔ r <= 1114111 ∧ (r < 55296 ∨ 57343 < r).
Proof. unfold scalar, surrogate. rewrite andb_true_iff, negb_true_iff, andb_false_iff, !N.leb_le, !N.leb_gt. lia. Qed.

(** A continuation byte. *)
Definition cont (c : ascii) : Prop := 128 <= byte_of c /\ byte_of c <= 191.

Lemma between_true lo hi c : lo <= byte_of c -> byte_of c <= hi -> between lo hi c = true.
Proof. intros H1 H2. unfold between. by rewrite (proj2 (N.leb_le _ _) H1), (proj2 (N.leb_le _ _) H2). Qed.

Lemma between_low lo hi c : byte_of c < lo -> between lo hi c = false.
Proof. intros H. unfold between. by rewrite (proj2 (N.leb_gt _ _) H). Qed.

Lemma between_high lo hi c : hi < byte_of c -> between lo hi c = false.
Proof. intros H. unfold between. rewrite (proj2 (N.leb_gt _ _) H). apply andb_false_r. Qed.

Ltac btest :=
  repeat match goal with
  | |- context [?a <? ?b] => rewrite (proj2 (N.ltb_ge a b)) by lia
  | |- context [between ?lo ?hi ?c] =>
      first [rewrite (between_high lo hi c) by lia | rewrite (between_low lo hi c) by lia | rewrite (between_true lo hi c) by lia]
  end.

Lemma runes1 b0 s : byte_of b0 < 128 -> runes (b0 :: s) = byte_of b0 :: runes s.
Proof. intros H. apply (runes_cons b0 s _ 0). unfold DecodeRune. by rewrite (proj2 (N.ltb_lt _ _) H). Qed.

Lemma runes2 b0 b1 s : 194 <= byte_of b0 -> byte_of b0 <= 223 -> cont b1 ->
  runes (b0 :: b1 :: s) = ((byte_of b0 - 192) * 64 + (byte_of b1 - 128)) :: runes s.
Proof. intros H1 H2 [H3 H4]. apply (runes_cons b0 (b1 :: s) _ 1). unfold DecodeRune. by btest. Qed.

Lemma runes3 b0 b1 b2 s : 224 <= byte_of b0 -> byte_of b0 <= 239 -> cont b1 -> cont b2 ->
  (byte_of b0 = 224 -> 160 <= byte_of b1) -> (byte_of b0 = 237 -> byte_of b1 <= 159) ->
  runes (b0 :: b1 :: b2 :: s) = ((byte_of b0 - 224) * 4096 + (byte_of b1 - 128) * 64 + (byte_of b2 - 128)) :: runes s.
Proof.
  intros H1 H2 [H3 H4] [H5 H6] Hlo Hhi. apply (runes_cons b0 (b1 :: b2 :: s) _ 2). unfold DecodeRune.
  destruct (N.eqb_spec (byte_of b0) 224), (N.eqb_spec (byte_of b0) 237); try (exfalso; lia); cbv beta iota; by btest.
Qed.

Lemma runes4 b0 b1 b2 b3 s : 240 <= byte_of b0 -> byte_of b0 <= 244 -> cont b1 -> cont b2 -> cont b3 ->
  (byte_of b0 = 240 -> 144 <= byte_of b1) -> (byte_of b0 = 244 -> byte_of b1 <= 143) ->
  runes (b0 :: b1 :: b2 :: b3 :: s) =
    ((byte_of b0 - 240) * 262144 + (byte_of b1 - 128) * 4096 + (byte_of b2 - 128) * 64 + (byte_of b3 - 128)) :: runes s.
Proof.
  intros H1 H2 [H3 H4] [H5 H6] [H7 H8] Hlo Hhi. apply (runes_cons b0 (b1 :: b2 :: b3 :: s) _ 3). unfold DecodeRune.
  destruct (N.eqb_spec (byte_of b0) 240), (N.eqb_spec (byte_of b0) 244); try (exfalso; lia); cbv beta iota; by btest.
Qed.

Lemma runes_encode r s : scalar r = true → runes (encode_rune r ++ s) = r :: runes s.
Proof.
  intros Hr. unfold encode_rune. rewrite Hr. apply scalar_spec in Hr as [Hmax Hsur].
  pose proof (N.div_mod r 64 ltac:(done)) as D1. pose proof (N.mod_lt r 64 ltac:(done)) as M1.
  pose proof (N.div_mod (r / 64) 64 ltac:(done)) as D2. pose proof (N.mod_lt (r / 64) 64 ltac:(done)) as M2.
  pose proof (N.div_mod (r / 4096) 64 ltac:(done)) as D3. pose proof (N.mod_lt (r / 4096) 64 ltac:(done)) as M3.
  rewrite N.Div0.div_div in D2, D3. change (64 * 64) with 4096 in D2. change (4096 * 64) with 262144 in D3.
  assert (r = 64 * (64 * (64 * (r / 262144) + r / 4096 mod 64) + r / 64 mod 64) + r mod 64) as D by lia.
  assert (r / 4096 = 64 * (r / 262144) + r / 4096 mod 64) as E2 by lia. assert (r / 64 = 64 * (r / 4096) + r / 64 mod 64) as E1 by lia.
  clear D1 D2 D3. revert E1 E2 M1 M2 M3 D. generalize (r / 4096 mod 64) as m2. generalize (r / 64 mod 64) as m1. generalize (r mod 64) as m0.
  generalize (r / 262144) as q3. generalize (r / 4096) as q2. generalize (r / 64) as q1. intros.
  destruct (N.ltb_spec r 128) as [H|H]; [|destruct (N.ltb_spec r 2048) as [H2|H2]; [|destruct (N.ltb_spec r 65536)]].
  - cbn [app]. rewrite runes1; rewrite byte_chr; lia || done.
  - cbn [app]. rewrite runes2; unfold cont; rewrite ?byte_chr by lia; [f_equal| | |]; lia.
  - cbn [app]. rewrite runes3; unfold cont; rewrite ?byte_chr by lia; [f_equal| | | | | |]; lia.
  - cbn [app]. rewrite runes4; unfold cont; rewrite ?byte_chr by lia; [f_equal| | | | | | |]; lia.
Qed.

Definition scalars (rs : list rune) : Prop := Forall (λ r, scalar r = true) rs.

Lemma runes_utf8 rs : scalars rs → runes (utf8 rs) = rs.
Proof.
  induction 1 as [|r rs Hr Hrs IH]; [done|]. unfold utf8. rewrite fmap_cons. cbn [concat]. rewrite runes_encode by done.
  by f_equal.
Qed.

Lemma utf8_app rs1 rs2 : utf8 (rs1 ++ rs2) = (utf8 rs1 ++ utf8 rs2)%list.
Proof. unfold utf8. by rewrite fmap_app, concat_app. Qed.

Lemma between_spec lo hi c : between lo hi c = true -> lo <= byte_of c /\ byte_of c <= hi.
Proof. unfold between. by rewrite andb_true_iff, !N.leb_le. Qed.

(** Whatever the bytes, the runes are scalar values. *)
Lemma DecodeRune_scalar b0 s : scalar (DecodeRune b0 s).1 = true.
Proof.
  unfold DecodeRune. destruct (N.ltb_spec (byte_of b0) 128); [apply scalar_spec; simpl; lia|].
  destruct (between 194 223 b0) eqn:H2; [apply between_spec in H2|destruct (between 224 239 b0) eqn:H3; [apply between_spec in H3|
    destruct (between 240 244 b0) eqn:H4; [apply between_spec in H4|done]]].
  - destruct s as [|b1 s]; [done|]. destruct (between 128 191 b1) eqn:E1; [|done]. apply between_spec in E1. apply scalar_spec. simpl. lia.
  - destruct s as [|b1 [|b2 s]]; [done|done|]. destruct (between _ _ b1) eqn:E1, (between 128 191 b2) eqn:E2; try done.
    apply between_spec in E1, E2. apply scalar_spec. simpl.
    destruct (N.eqb_spec (byte_of b0) 224), (N.eqb_spec (byte_of b0) 237); lia.
  - destruct s as [|b1 [|b2 [|b3 s]]]; [done|done|done|]. destruct (between _ _ b1) eqn:E1, (between 128 191 b2) eqn:E2, (between 128 191 b3) eqn:E3; try done.
    apply between_spec in E1, E2, E3. apply scalar_spec. simpl.
    destruct (N.eqb_spec (byte_of b0) 240), (N.eqb_spec (byte_of b0) 244); lia.
Qed.

Lemma runes_scalars s : scalars (runes s).
Proof.
  unfold runes. generalize 0%nat. induction s as [|b s IH]; intros [|k]; try constructor; simpl; [|apply IH].
  pose proof (DecodeRune_scalar b s). destruct (DecodeRune b s) as [r n]. constructor; [done|apply IH].
Qed.

(** ** UTF-16 *)

(** [utf16.Encode]. *)
Definition utf16_rune (r : rune) : list N :=
  if scalar r then
    if r <? 65536 then [r] else [55296 + (r - 65536) / 1024; 56320 + (r - 65536) mod 1024]
  else [RuneError].

Definition utf16 (rs : list rune) : list N := concat (utf16_rune <$> rs).

(** [utf16.DecodeRune] of a pair. *)
Definition decode_pair (r1 r2 : rune) : option rune :=
  if (55296 <=? r1) && (r1 <? 56320) && (56320 <=? r2) && (r2 <? 57344)
  then Some ((r1 - 55296) * 1024 + (r2 - 56320) + 65536) else None.

Lemma decode_pair_scalar r1 r2 d : decode_pair r1 r2 = Some d → scalar d = true.
Proof.
  unfold decode_pair. destruct (_ && _) eqn:H; [|done]. intros [= <-].
  rewrite !andb_true_iff, !N.leb_le, !N.ltb_lt in H. apply scalar_spec. lia.
Qed.

Lemma utf16_inj rs1 : ∀ rs2, scalars rs1 → scalars rs2 → utf16 rs1 = utf16 rs2 → rs1 = rs2.
Proof.
  assert (Hne : ∀ r, utf16_rune r ≠ []) by (intros r; unfold utf16_rune; repeat case_match; done).
  induction rs1 as [|r1 rs1 IH]; intros [|r2 rs2] H1 H2 Heq; [done| | |]; unfold utf16 in Heq; rewrite ?fmap_cons in Heq; simpl in Heq.
  - symmetry in Heq. apply app_eq_nil in Heq as [Heq _]. by apply Hne in Heq.
  - apply app_eq_nil in Heq as [Heq _]. by apply Hne in Heq.
  - apply list.Forall_cons in H1 as [Hr1 H1]. apply list.Forall_cons in H2 as [Hr2 H2]. unfold utf16_rune at 1 3 in Heq.
    rewrite Hr1, Hr2 in Heq. apply scalar_spec in Hr1 as [Hm1 Hs1]. apply scalar_spec in Hr2 as [Hm2 Hs2].
    pose proof (N.div_mod (r1 - 65536) 1024 ltac:(done)). pose proof (N.div_mod (r2 - 65536) 1024 ltac:(done)).
    pose proof (N.mod_lt (r1 - 65536) 1024 ltac:(done)). pose proof (N.mod_lt (r2 - 65536) 1024 ltac:(done)).
    assert ((r1 - 65536) / 1024 < 1024) by (apply N.Div0.div_lt_upper_bound; lia).
    assert ((r2 - 65536) / 1024 < 1024) by (apply N.Div0.div_lt_upper_bound; lia).
    destruct (N.ltb_spec r1 65536), (N.ltb_spec r2 65536); cbn [app] in Heq; injection Heq as Heq1 Heq2.
    + f_equal; [done|]. by apply IH.
    + exfalso. revert Heq1 H6. generalize ((r2 - 65536) / 1024). lia.
    + exfalso. revert Heq1 H5. generalize ((r1 - 65536) / 1024). lia.
    + rename select (_ = _ :> list N) into Heq3. f_equal; [|by apply IH]. assert ((r1 - 65536) / 1024 = (r2 - 65536) / 1024) as Hq by lia.
      rewrite Hq in *. lia.
Qed.

(** Comparison of code units, then of lengths. *)
Fixpoint units_ltb (a b : list N) : bool :=
  match a, b with
  | x :: a, y :: b => (x <? y) || ((x =? y) && units_ltb a b)
  | [], _ :: _ => true
  | _, [] => false
  end.
