(* ===== verification/Float.v ===== *)
(** * float64 and its decimal texts

    [strconv.ParseFloat(s, 64)] and [strconv.FormatFloat(f, 'e', -1, 64)].  Every
    finite float64 is a whole multiple of 2^-1074; a non-negative one is represented
    by that multiple.  Parsing rounds the exact decimal value to the nearest float64,
    ties to even, and formatting takes the fewest digits that parse back. *)

From S2P Require Import Prelude.
Open Scope Z_scope.

(** The unit: 1 is [scale] units. *)
Definition scale : Z := 2 ^ 1074.
(** One more than the largest finite float64 would need. *)
Definition float_limit : Z := 2 ^ 2098.

(** A positive finite float64: at most 53 significant bits. *)
Definition is_float (f : Z) : Prop :=
  ∃ m s, f = m * 2 ^ s ∧ 0 ≤ s ∧ ((s = 0 ∧ 0 < m < 2 ^ 53) ∨ 2 ^ 52 ≤ m < 2 ^ 53).

(** [a / b] to the nearest integer, ties to even. *)
Definition round_even (a b : Z) : Z :=
  let q := a / b in
  let r := 2 * (a mod b) in
  if r <? b then q else if b <? r then q + 1 else if Z.even q then q else q + 1.

(** The float64 nearest to [a / d] units. *)
Definition nearest (a d : Z) : Z :=
  let s := Z.max 0 (Z.log2 (a / d) - 52) in round_even a (d * 2 ^ s) * 2 ^ s.

(** The float64 nearest to [c * 10 ^ j], unless it is out of range. *)
Definition decimal_float (c j : Z) : option Z :=
  let f := nearest (c * 10 ^ Z.max 0 j * scale) (10 ^ Z.max 0 (- j)) in
  if f <? float_limit then Some f else None.

(** ** Rounding *)

Lemma round_even_close a b q : 0 < b → -b < 2 * (a - q * b) < b → round_even a b = q.
Proof.
  intros Hb Hc. unfold round_even. pose proof (Z.div_mod a b ltac:(lia)) as Hd. pose proof (Z.mod_pos_bound a b Hb) as Hm.
  set (x := a / b) in *. set (r := a mod b) in *. assert (x = q ∨ x = q - 1) as [->| ->] by nia.
  - rewrite (proj2 (Z.ltb_lt _ _)) by nia. done.
  - rewrite (proj2 (Z.ltb_ge _ _)) by nia. rewrite (proj2 (Z.ltb_lt _ _)) by nia. lia.
Qed.

Lemma round_even_bounds a b : 0 < b → a / b ≤ round_even a b ≤ a / b + 1.
Proof. intros Hb. unfold round_even. repeat case_match; lia. Qed.

Lemma log2_between t n : 0 ≤ n → 2 ^ n ≤ t < 2 ^ (n + 1) → Z.log2 t = n.
Proof. intros Hn H. apply Z.log2_unique; [done|]. by rewrite <- Z.add_1_r. Qed.

Lemma div_between a d lo hi : 0 < d → lo * d ≤ a < hi * d → lo ≤ a / d < hi.
Proof. intros Hd [H1 H2]. split; [apply Z.div_le_lower_bound; lia|apply Z.div_lt_upper_bound; lia]. Qed.

(** Rounding finds a float64 that is closer than half the gap to its neighbours: half
    of [2 ^ s] above, and half of that below a power of two. *)
Section nearest.
Context (a d m s : Z) (Hd : 0 < d) (Hs : 0 ≤ s) (Hm : (s = 0 ∧ 0 < m < 2 ^ 53) ∨ 2 ^ 52 ≤ m < 2 ^ 53).
Context (Hc : - (d * 2 ^ s) < 2 * (a - m * (d * 2 ^ s)) < d * 2 ^ s).
Context (Hlow : m = 2 ^ 52 → 0 < s → - (d * 2 ^ s) < 4 * (a - m * (d * 2 ^ s))).

Lemma nearest_exponent : Z.max 0 (Z.log2 (a / d) - 52) = s ∨
  (m = 2 ^ 52 ∧ 0 < s ∧ a < m * (d * 2 ^ s) ∧ Z.max 0 (Z.log2 (a / d) - 52) = s - 1).
Proof.
  pose proof (Z.pow_pos_nonneg 2 s ltac:(lia) Hs) as Hp. set (B := d * 2 ^ s) in *.
  assert (Hpow : ∀ k, 0 ≤ k → 2 ^ (k + s) * d = 2 ^ k * B) by (intros k Hk; rewrite Z.pow_add_r by lia; unfold B; lia).
  assert (HB : 0 < B) by nia.
  assert (Hsmall : s = 0 → a < 2 ^ 53 * d → Z.max 0 (Z.log2 (a / d) - 52) = s).
  { intros -> Ha. assert (Hl : Z.log2 (a / d) ≤ Z.log2 (2 ^ 53 - 1)).
    { apply Z.log2_le_mono. assert (a / d < 2 ^ 53) by (apply Z.div_lt_upper_bound; lia). lia. }
    change (Z.log2 (2 ^ 53 - 1)) with 52 in Hl. lia. }
  destruct Hm as [[Hs0 Hm']|Hm'].
  { left. apply Hsmall; [done|]. rewrite <- (Z.add_0_r 53), <- Hs0 at 1. rewrite Hpow by lia. nia. }
  destruct (Z.lt_ge_cases a (2 ^ 52 * B)) as [Ha|Ha].
  - assert (m = 2 ^ 52) as -> by nia. destruct (Z.eq_dec s 0) as [Hs0|Hs0].
    + left. apply Hsmall; [done|]. unfold B in *. rewrite Hs0 in *. lia.
    + right. split_and!; [done|lia|done|]. specialize (Hlow eq_refl ltac:(lia)).
      rewrite (log2_between _ (51 + s)) by (lia || (apply div_between; [done|]; replace (51 + s + 1) with (52 + s) by lia; rewrite !Hpow by lia; lia)). lia.
  - left. rewrite (log2_between _ (52 + s)) by (lia || (apply div_between; [done|]; replace (52 + s + 1) with (53 + s) by lia; rewrite !Hpow by lia; nia)). lia.
Qed.

Lemma nearest_close : nearest a d = m * 2 ^ s.
Proof.
  unfold nearest. pose proof (Z.pow_pos_nonneg 2 s ltac:(lia) Hs) as Hp.
  destruct nearest_exponent as [->|(-> & Hs0 & Ha & ->)].
  - f_equal. apply round_even_close; [nia|]. done.
  - specialize (Hlow eq_refl Hs0). assert (Hps : 2 ^ s = 2 * 2 ^ (s - 1)) by (rewrite <- Z.pow_succ_r by lia; f_equal; lia).
    rewrite Hps in *. rewrite (round_even_close _ _ (2 * 2 ^ 52)); [lia|nia|]. lia.
Qed.
End nearest.

(** What rounding gives is a float64 or zero. *)
Lemma nearest_float a d : 0 < d → 0 ≤ a → nearest a d ≠ 0 → is_float (nearest a d).
Proof.
  intros Hd Ha Hne. unfold nearest in *. set (s := Z.max 0 (Z.log2 (a / d) - 52)) in *. assert (Hs : 0 ≤ s) by lia.
  pose proof (Z.pow_pos_nonneg 2 s ltac:(lia) Hs) as Hp. pose proof (round_even_bounds a (d * 2 ^ s) ltac:(nia)) as Hr.
  assert (Hq : a / (d * 2 ^ s) = a / d / 2 ^ s) by (rewrite Z.div_div; lia). rewrite Hq in Hr.
  assert (Ht : 0 ≤ a / d) by (apply Z.div_pos; lia). set (t := a / d) in *. set (q := round_even _ _) in *.
  assert (Hq0 : 0 ≤ t / 2 ^ s) by (apply Z.div_pos; lia).
  assert (Hup : t / 2 ^ s < 2 ^ 53).
  { apply Z.div_lt_upper_bound; [done|]. rewrite <- Z.pow_add_r by lia. destruct (Z.eq_dec t 0) as [->|Ht0]; [apply Z.pow_pos_nonneg; lia|].
    apply Z.log2_lt_pow2; lia. }
  assert (Hlo : s = 0 ∨ 2 ^ 52 ≤ t / 2 ^ s).
  { destruct (Z.eq_dec s 0) as [|Hs0]; [by left|right]. apply Z.div_le_lower_bound; [done|]. rewrite <- Z.pow_add_r by lia.
    destruct (Z.eq_dec t 0) as [Ht0|Ht0]; [subst s; rewrite Ht0 in Hs0; done|]. replace (s + 52) with (Z.log2 t) by lia. apply Z.log2_spec. lia. }
  destruct (Z.eq_dec q (2 ^ 53)) as [Heq|Hneq].
  - exists (2 ^ 52), (s + 1). split_and!; [rewrite Heq, Z.pow_add_r by lia; lia|lia|right; lia].
  - exists q, s. split_and!; [done|lia|]. destruct Hlo as [H0|Hlo]; [left; nia|right; lia].
Qed.

(** ** The fewest digits *)

(** The decimal logarithm: [p] is [10 ^ e] and grows while it fits. *)
Fixpoint log10_from (fuel : nat) (p e z : Z) : Z :=
  match fuel with
  | O => e
  | S k => if p * 10 <=? z then log10_from k (p * 10) (e + 1) z else e
  end.

Definition log10 (z : Z) : Z := log10_from 700 1 0 z.

Lemma log10_from_spec fuel z : ∀ e, 0 ≤ e → 10 ^ e ≤ z < 10 ^ (e + Z.of_nat fuel + 1) →
  let r := log10_from fuel (10 ^ e) e z in e ≤ r ≤ e + Z.of_nat fuel ∧ 10 ^ r ≤ z < 10 ^ (r + 1).
Proof.
  induction fuel as [|k IH]; intros e He Hz; cbn [log10_from]; [rewrite Z.add_0_r in *; lia|].
  assert (Hp : 10 ^ e * 10 = 10 ^ (e + 1)) by (rewrite Z.pow_add_r by lia; lia). rewrite Hp.
  destruct (Z.leb_spec (10 ^ (e + 1)) z); [|lia]. replace (e + Z.of_nat (S k) + 1) with (e + 1 + Z.of_nat k + 1) in Hz by lia.
  specialize (IH (e + 1) ltac:(lia) ltac:(lia)). simpl in IH. lia.
Qed.

Lemma log10_spec z : 1 ≤ z < 10 ^ 701 → 0 ≤ log10 z ≤ 700 ∧ 10 ^ log10 z ≤ z < 10 ^ (log10 z + 1).
Proof. intros Hz. apply (log10_from_spec 700 z 0); [lia|]. exact Hz. Qed.

(** The exponent of the leading digit of [f]. *)
Definition lead10 (f : Z) : Z := log10 (f * 10 ^ 324 / scale) - 324.

(** [f] with [n] digits: the nearest decimal, or else the one on its other side. *)
Definition digits_at (f n : Z) : option (Z * Z) :=
  let j := lead10 f - n + 1 in
  let num := f * 10 ^ Z.max 0 (- j) in
  let den := scale * 10 ^ Z.max 0 j in
  let c := round_even num den in
  let c' := if c * den <? num then c + 1 else c - 1 in
  if bool_decide (decimal_float c j = Some f) then Some (c, j)
  else if bool_decide (decimal_float c' j = Some f) then Some (c', j)
  else None.

Fixpoint strip_zeros (fuel : nat) (c j : Z) : Z * Z :=
  match fuel with
  | O => (c, j)
  | S k => if c mod 10 =? 0 then strip_zeros k (c / 10) (j + 1) else (c, j)
  end.

Fixpoint first_digits (fuel : nat) (f n : Z) : option (Z * Z) :=
  match fuel with
  | O => None
  | S k => match digits_at f n with Some r => Some r | None => first_digits k f (n + 1) end
  end.

(** The shortest decimal [c * 10 ^ j] that parses back to [f]. *)
Definition shortest (f : Z) : Z * Z :=
  match first_digits 17 f 1 with
  | Some (c, j) => strip_zeros 18 c j
  | None => (0, 0)
  end.

(** ** It parses back *)

Lemma scale_bounds : 0 < scale ∧ 0 < 10 ^ 324 ∧ scale ≤ 10 ^ 324 ∧ float_limit * 10 ^ 324 ≤ 10 ^ 701 * scale.
Proof. split_and!; [apply Z.ltb_lt|apply Z.ltb_lt|apply Z.leb_le|apply Z.leb_le]; vm_compute; reflexivity. Qed.

(** The bounds of the quotient, whatever the constants are. *)
Lemma quotient_bounds f limit x s z : 0 < s → 0 < x → s ≤ x → limit * x ≤ z * s → 0 < f < limit → 1 ≤ f * x / s < z.
Proof. intros Hs Hx Hsx Hlim Hf. apply div_between; [done|]. nia. Qed.

Lemma quotient_pow f x s lo hi : 0 < s → lo ≤ f * x / s < hi → lo * s ≤ f * x < hi * s.
Proof. intros Hs H. pose proof (Z.div_mod (f * x) s ltac:(lia)). pose proof (Z.mod_pos_bound (f * x) s Hs). nia. Qed.

Lemma lead10_spec f : 0 < f < float_limit →
  -324 ≤ lead10 f ≤ 376 ∧ 10 ^ (lead10 f + 324) * scale ≤ f * 10 ^ 324 < 10 ^ (lead10 f + 325) * scale.
Proof.
  intros Hf. destruct scale_bounds as (Hs & Hx & H1 & H2). unfold lead10.
  destruct (log10_spec _ (quotient_bounds f float_limit (10 ^ 324) scale (10 ^ 701) Hs Hx H1 H2 Hf)) as [Hb Hp].
  set (l := log10 _) in *. split; [lia|].
  replace (l - 324 + 324) with l by lia. replace (l - 324 + 325) with (l + 1) by lia. exact (quotient_pow f _ _ _ _ Hs Hp).
Qed.

(** The size of [f] in units of its last digit. *)
Lemma digits_scale f n : 0 < f < float_limit → 1 ≤ n ≤ 17 →
  let j := lead10 f - n + 1 in
  10 ^ (n - 1) * (scale * 10 ^ Z.max 0 j) ≤ f * 10 ^ Z.max 0 (- j) < 10 ^ n * (scale * 10 ^ Z.max 0 j).
Proof.
  intros Hf Hn j. destruct (lead10_spec f Hf) as [Hl [H1 H2]].
  set (P := Z.max 0 j). set (Q := Z.max 0 (- j)). assert (Hpq : j = P - Q) by lia. assert (0 ≤ P ∧ 0 ≤ Q) as [HP HQ] by lia.
  assert (HX : 0 < 10 ^ 324) by (apply Z.pow_pos_nonneg; lia). assert (HQ' : 0 < 10 ^ Q) by (apply Z.pow_pos_nonneg; lia).
  assert (E1 : 10 ^ (n - 1) * 10 ^ P * 10 ^ 324 = 10 ^ (lead10 f + 324) * 10 ^ Q) by (rewrite <- !Z.pow_add_r by lia; f_equal; lia).
  assert (E2 : 10 ^ n * 10 ^ P * 10 ^ 324 = 10 ^ (lead10 f + 325) * 10 ^ Q) by (rewrite <- !Z.pow_add_r by lia; f_equal; lia).
  generalize dependent (10 ^ 324). generalize dependent (10 ^ Q). generalize dependent (10 ^ P). intros p q Hq X H1 H2 HX E1 E2.
  split; [apply (Z.mul_le_mono_pos_r _ _ X HX)|apply (Z.mul_lt_mono_pos_r X _ _ HX)]; nia.
Qed.

Lemma round_even_dist a b : 0 < b → -b ≤ 2 * (a - round_even a b * b) ≤ b.
Proof.
  intros Hb. unfold round_even. pose proof (Z.div_mod a b ltac:(lia)). pose proof (Z.mod_pos_bound a b Hb).
  destruct (Z.ltb_spec (2 * (a mod b)) b); [nia|]. destruct (Z.ltb_spec b (2 * (a mod b))); [nia|]. case_match; nia.
Qed.

(** Seventeen digits are enough. *)
Lemma digits_17 f : is_float f → f < float_limit → is_Some (digits_at f 17).
Proof.
  intros (m & s & -> & Hs & Hm) Hlim. set (f := m * 2 ^ s) in *. pose proof (Z.pow_pos_nonneg 2 s ltac:(lia) Hs) as Hp.
  assert (Hf : 0 < f < float_limit) by (unfold f in *; nia). pose proof (digits_scale f 17 Hf ltac:(lia)) as Hsc. simpl in Hsc.
  unfold digits_at. set (j := lead10 f - 17 + 1) in *. rewrite bool_decide_eq_true_2; [done|]. unfold decimal_float.
  set (d := 10 ^ Z.max 0 (- j)) in *. set (den := scale * 10 ^ Z.max 0 j) in *.
  assert (Hd : 0 < d) by (apply Z.pow_pos_nonneg; lia).
  assert (Hden : 0 < den) by (unfold den; apply Z.mul_pos_pos; apply Z.pow_pos_nonneg; lia).
  pose proof (round_even_dist (f * d) den Hden) as Hr. set (c := round_even (f * d) den) in *.
  replace (c * 10 ^ Z.max 0 j * scale) with (c * den) by (unfold den; lia).
  assert (Hm' : m < 2 ^ 53) by lia. change (2 ^ 53) with 9007199254740992 in *. change (2 ^ 52) with 4503599627370496 in *.
  change (10 ^ 16) with 10000000000000000 in Hsc. unfold f in Hsc, Hr.
  assert (Hn : nearest (c * den) d = f).
  { apply nearest_close; [done|done|exact Hm| |].
    - replace (m * (d * 2 ^ s)) with (m * 2 ^ s * d) by lia. nia.
    - intros -> _. replace (4503599627370496 * (d * 2 ^ s)) with (4503599627370496 * 2 ^ s * d) by lia. nia. }
  rewrite Hn. by rewrite (proj2 (Z.ltb_lt _ _)) by lia.
Qed.

Lemma round_even_cancel k a b : 0 < k → 0 < b → round_even (k * a) (k * b) = round_even a b.
Proof.
  intros Hk Hb. unfold round_even. rewrite Z.div_mul_cancel_l, Z.mul_mod_distr_l by lia.
  replace (2 * (k * (a mod b))) with (k * (2 * (a mod b))) by lia.
  assert (Hlt : ∀ x y, (k * x <? k * y) = (x <? y)) by (intros x y; destruct (Z.ltb_spec x y), (Z.ltb_spec (k * x) (k * y)); nia).
  by rewrite !Hlt.
Qed.

Lemma nearest_cancel k a d : 0 < k → 0 < d → nearest (k * a) (k * d) = nearest a d.
Proof.
  intros Hk Hd. unfold nearest. rewrite Z.div_mul_cancel_l by lia. rewrite <- Z.mul_assoc. rewrite round_even_cancel; [done|done|].
  apply Z.mul_pos_pos; [done|]. apply Z.pow_pos_nonneg; lia.
Qed.

(** A factor of ten may move to the exponent. *)
Lemma decimal_float_shift c j : decimal_float (c * 10) j = decimal_float c (j + 1).
Proof.
  unfold decimal_float. destruct (Z.le_gt_cases 0 j).
  - rewrite (Z.max_r 0 j), (Z.max_r 0 (j + 1)), (Z.max_l 0 (- j)), (Z.max_l 0 (- (j + 1))) by lia. rewrite Z.pow_add_r by lia. change (10 ^ 1) with 10. replace (c * 10 * 10 ^ j) with (c * (10 ^ j * 10)) by lia. done.
  - rewrite (Z.max_l 0 j), (Z.max_l 0 (j + 1)), (Z.max_r 0 (- j)), (Z.max_r 0 (- (j + 1))) by lia. rewrite !Z.mul_1_r.
    replace (- j) with (- (j + 1) + 1) by lia. rewrite Z.pow_add_r by lia. change (10 ^ 1) with 10.
    rewrite <- (nearest_cancel 10 (c * scale) (10 ^ (- (j + 1)))); [|lia|apply Z.pow_pos_nonneg; lia].
    replace (c * 10 * scale) with (10 * (c * scale)) by lia. by rewrite (Z.mul_comm 10 (10 ^ _)).
Qed.

Lemma decimal_float_pow c j k : 0 ≤ k → decimal_float (c * 10 ^ k) j = decimal_float c (j + k).
Proof.
  intros Hk. revert j. pattern k. apply natlike_ind; [|clear k Hk; intros k Hk IH|done]; intros j.
  - by rewrite Z.mul_1_r, Z.add_0_r.
  - rewrite Z.pow_succ_r by done. replace (c * (10 * 10 ^ k)) with (c * 10 ^ k * 10) by lia.
    rewrite decimal_float_shift, IH. f_equal. lia.
Qed.

Lemma strip_zeros_spec fuel : ∀ c j c' j', strip_zeros fuel c j = (c', j') → 0 < c →
  0 < c' ≤ c ∧ j ≤ j' ≤ j + Z.of_nat fuel ∧ decimal_float c' j' = decimal_float c j.
Proof.
  induction fuel as [|k IH]; intros c j c' j' H Hc; cbn [strip_zeros] in H; [injection H as <- <-; split_and!; lia || done|].
  destruct (Z.eqb_spec (c mod 10) 0) as [Hz|Hz]; [|injection H as <- <-; split_and!; lia || done].
  pose proof (Z.div_mod c 10 ltac:(lia)) as Hd. apply IH in H as (H1 & H2 & H3); [|lia]. split_and!; [lia..|].
  rewrite H3, <- decimal_float_shift. f_equal. lia.
Qed.

Lemma decimal_float_zero j : decimal_float 0 j = Some 0.
Proof.
  unfold decimal_float. rewrite !Z.mul_0_l. assert (Hd : 0 < 10 ^ Z.max 0 (- j)) by (apply Z.pow_pos_nonneg; lia).
  assert (Hn : nearest 0 (10 ^ Z.max 0 (- j)) = 0).
  { unfold nearest. rewrite Z.div_0_l by lia. rewrite (round_even_close _ _ 0); lia. }
  rewrite Hn. reflexivity.
Qed.

Lemma digits_at_spec f n c j : 0 < f < float_limit → 1 ≤ n ≤ 17 → digits_at f n = Some (c, j) →
  decimal_float c j = Some f ∧ 0 ≤ c ≤ 10 ^ 17 + 1 ∧ -340 ≤ j ≤ 376.
Proof.
  intros Hf Hn. unfold digits_at. destruct (lead10_spec f Hf) as [Hl _]. pose proof (digits_scale f n Hf Hn) as Hsc. simpl in Hsc.
  set (j0 := lead10 f - n + 1) in *. set (num := f * _) in *. set (den := scale * _) in *.
  assert (Hden : 0 < den) by (unfold den; apply Z.mul_pos_pos; apply Z.pow_pos_nonneg; lia).
  assert (Hpow : 1 ≤ 10 ^ (n - 1) ∧ 10 ^ n ≤ 10 ^ 17) by (split; [apply (Z.pow_le_mono_r 10 0); lia|apply Z.pow_le_mono_r; lia]).
  pose proof (round_even_dist num den Hden) as Hr. set (c0 := round_even num den) in *.
  assert (Hc0 : 1 ≤ c0 ≤ 10 ^ 17) by nia. assert (Hj : -340 ≤ j0 ≤ 376) by lia.
  intros H. case_bool_decide as H1; [injection H as <- <-; split_and!; done || lia|].
  case_bool_decide as H2; [|done]. injection H as <- <-. split_and!; [done|case_match; lia..].
Qed.

Lemma first_digits_spec fuel f : ∀ n,
  match first_digits fuel f n with
  | Some r => ∃ k, n ≤ k < n + Z.of_nat fuel ∧ digits_at f k = Some r
  | None => ∀ k, n ≤ k < n + Z.of_nat fuel → digits_at f k = None
  end.
Proof.
  induction fuel as [|fuel IH]; intros n; cbn [first_digits]; [intros k Hk; lia|].
  destruct (digits_at f n) as [r|] eqn:Hd; [exists n; split; [lia|done]|]. specialize (IH (n + 1)).
  destruct (first_digits fuel f (n + 1)) as [r|].
  - destruct IH as (k & Hk & Hr). exists k. split; [lia|done].
  - intros k Hk. destruct (Z.eq_dec k n) as [->|]; [done|]. apply IH. lia.
Qed.

(** The digits of a float64 parse back to it. *)
Lemma shortest_spec f c j : is_float f → f < float_limit → shortest f = (c, j) →
  decimal_float c j = Some f ∧ 0 < c ≤ 10 ^ 17 + 1 ∧ -340 ≤ j ≤ 394.
Proof.
  intros Hfl Hlim H. assert (Hf : 0 < f < float_limit).
  { destruct Hfl as (m & s & -> & Hs & Hm). pose proof (Z.pow_pos_nonneg 2 s ltac:(lia) Hs). nia. }
  unfold shortest in H. pose proof (first_digits_spec 17 f 1) as Hd. destruct (first_digits 17 f 1) as [[c0 j0]|].
  - destruct Hd as (n & Hn & Hd). apply digits_at_spec in Hd as (Hd & Hc & Hj); [|done|lia].
    assert (0 < c0). { destruct (Z.eq_dec c0 0) as [->|]; [|lia]. rewrite decimal_float_zero in Hd. injection Hd as <-. lia. }
    apply strip_zeros_spec in H as (H1 & H2 & H3); [|done]. rewrite H3. split_and!; [done|lia..].
  - exfalso. destruct (digits_17 f Hfl Hlim) as [r Hr]. rewrite Hd in Hr; [done|lia].
Qed.

Lemma decimal_float_float c j f : 0 < c → decimal_float c j = Some f → f ≠ 0 → is_float f ∧ f < float_limit.
Proof.
  unfold decimal_float. intros Hc H Hf. destruct (Z.ltb_spec (nearest (c * 10 ^ Z.max 0 j * scale) (10 ^ Z.max 0 (- j))) float_limit); [|done].
  injection H as <-. split; [|done]. apply nearest_float; [apply Z.pow_pos_nonneg; lia| |done].
  apply Z.mul_nonneg_nonneg; [apply Z.mul_nonneg_nonneg; [lia|]|]; apply Z.pow_nonneg; lia.
Qed.

(** 1e23 is not the decimal nearest to its float64, but the shortest. *)
Example shortest_example : (shortest <$> decimal_float 1 23) = Some (1, 23).
Proof. vm_compute. reflexivity. Qed.
