(* ===== verification/JsonText.v ===== *)
(** * JSON text

    What [encoding/json] accepts, byte by byte: the scanner's strings, numbers and
    literals, and [json.Decoder] with [UseNumber], whose [Token] method is a state
    machine over the text that is left. *)

From S2P Require Import Prelude Errors Json Utf8 Float.
From Stdlib Require Import Ascii.
Open Scope string_scope.
Open Scope Z_scope.

(** Go strings as byte lists, and back. *)
Abbreviation bytes_of := String.list_ascii_of_string (only parsing).
Abbreviation str := String.string_of_list_ascii (only parsing).

Definition is_space (c : ascii) : bool := bool_decide (c ∈ [" "; "009"; "010"; "013"]%char).
Definition is_digit (c : ascii) : bool := between 48 57 c.
Definition digit_of (c : ascii) : Z := Z.of_N (byte_of c) - 48.

Fixpoint span (p : ascii → bool) (s : text) : text * text :=
  match s with
  | [] => ([], [])
  | c :: s' => if p c then let '(a, b) := span p s' in (c :: a, b) else ([], s)
  end.

(** ** Numbers *)

Record number := mkNumber {
  nm_neg : bool;
  nm_int : text;
  nm_frac : option text;
  nm_exp : option (ascii * option ascii * text) }.

Definition number_text (n : number) : text :=
  ((if nm_neg n then ["-"%char] else []) ++ nm_int n ++
   match nm_frac n with Some f => "."%char :: f | None => [] end ++
   match nm_exp n with Some (e, sg, ds) => (e :: match sg with Some c => [c] | None => [] end ++ ds)%list | None => [] end)%list.

Definition lex_frac (s : text) : option (option text * text) :=
  match s with
  | c :: s' =>
      if bool_decide (c = "."%char) then
        let '(ds, rest) := span is_digit s' in if bool_decide (ds = []) then None else Some (Some ds, rest)
      else Some (None, s)
  | [] => Some (None, s)
  end.

Definition is_exp (c : ascii) : bool := bool_decide (c ∈ ["e"; "E"]%char).
Definition is_sign (c : ascii) : bool := bool_decide (c ∈ ["+"; "-"]%char).

Definition lex_exp (s : text) : option (option (ascii * option ascii * text) * text) :=
  match s with
  | e :: s' =>
      if is_exp e then
        let '(sg, s2) := match s' with c :: s2 => if is_sign c then (Some c, s2) else (None, s') | [] => (None, s') end in
        let '(ds, rest) := span is_digit s2 in if bool_decide (ds = []) then None else Some (Some (e, sg, ds), rest)
      else Some (None, s)
  | [] => Some (None, s)
  end.

Definition lex_int (s : text) : option (text * text) :=
  match s with
  | c :: s' =>
      if bool_decide (c = "0"%char) then Some ([c], s')
      else if is_digit c then let '(ds, rest) := span is_digit s' in Some (c :: ds, rest)
      else None
  | [] => None
  end.

Definition lex_number (s : text) : option (number * text) :=
  let '(neg, s1) := match s with c :: s' => if bool_decide (c = "-"%char) then (true, s') else (false, s) | [] => (false, s) end in
  '(i, s2) ← lex_int s1;
  '(f, s3) ← lex_frac s2;
  '(e, s4) ← lex_exp s3;
  Some (mkNumber neg i f e, s4).

Definition dec_value (ds : text) : Z := fold_left (λ acc c, acc * 10 + digit_of c) ds 0.

(** The exponent stops growing past 10000. *)
Definition exp_value (ds : text) : Z := fold_left (λ e c, if e <? 10000 then e * 10 + digit_of c else e) ds 0.

(** [strconv.ParseFloat] of a JSON number; [None] is a range error.  The sign of a
    zero is not kept. *)
Definition ParseFloat (lit : text) : option Z :=
  match lex_number lit with
  | Some (n, []) =>
      let frac := default [] (nm_frac n) in
      let e := match nm_exp n with
               | Some (_, sg, ds) => if bool_decide (sg = Some "-"%char) then - exp_value ds else exp_value ds
               | None => 0
               end in
      f ← decimal_float (dec_value (nm_int n ++ frac)) (e - Z.of_nat (length frac));
      Some (if nm_neg n then - f else f)
  | _ => None
  end.

(** ** Strings *)

Definition hex_value (r : rune) : option N :=
  (if (48 <=? r) && (r <=? 57) then Some (r - 48)
   else if (97 <=? r) && (r <=? 102) then Some (r - 87)
   else if (65 <=? r) && (r <=? 70) then Some (r - 55)
   else None)%N.

Definition is_hex (c : ascii) : bool := bool_decide (is_Some (hex_value (byte_of c))).

(** The scanner's [stateInString]: the text up to the closing quote. *)
Fixpoint scan_string (s : text) : option (text * text) :=
  match s with
  | [] => None
  | c :: s1 =>
      if bool_decide (c = "034"%char) then Some ([], s1)
      else if bool_decide (c = "\"%char) then
        match s1 with
        | e :: s2 =>
            if bool_decide (e ∈ ["b"; "f"; "n"; "r"; "t"; "\"; "/"; "034"]%char) then
              '(raw, rest) ← scan_string s2; Some (c :: e :: raw, rest)
            else if bool_decide (e = "u"%char) then
              match s2 with
              | h1 :: h2 :: h3 :: h4 :: s6 =>
                  if is_hex h1 && is_hex h2 && is_hex h3 && is_hex h4 then
                    '(raw, rest) ← scan_string s6; Some (c :: e :: h1 :: h2 :: h3 :: h4 :: raw, rest)
                  else None
              | _ => None
              end
            else None
        | [] => None
        end
      else if (byte_of c <? 32)%N then None
      else '(raw, rest) ← scan_string s1; Some (c :: raw, rest)
  end.

Definition hex4 (h1 h2 h3 h4 : rune) : rune :=
  (default 0 (hex_value h1) * 4096 + default 0 (hex_value h2) * 256 + default 0 (hex_value h3) * 16 + default 0 (hex_value h4))%N.

Definition escaped (e : rune) : rune :=
  (if e =? 98 then 8 else if e =? 102 then 12 else if e =? 110 then 10 else if e =? 114 then 13 else if e =? 116 then 9 else e)%N.

(** [unquote]: escapes are undone, a lone surrogate is a [RuneError].  The input is the
    runes of the scanned text; a byte that is no backslash stays part of its rune. *)
Fixpoint unescape (rs : list rune) : list rune :=
  match rs with
  | [] => []
  | r :: s1 =>
      if (r =? 92)%N then
        match s1 with
        | e :: s2 =>
            if (e =? 117)%N then
              match s2 with
              | h1 :: h2 :: h3 :: h4 :: s6 =>
                  let x := hex4 h1 h2 h3 h4 in
                  if surrogate x then
                    match s6 with
                    | b :: u :: g1 :: g2 :: g3 :: g4 :: s12 =>
                        match (if (b =? 92)%N && (u =? 117)%N then decode_pair x (hex4 g1 g2 g3 g4) else None) with
                        | Some d => d :: unescape s12
                        | None => RuneError :: unescape s6
                        end
                    | _ => RuneError :: unescape s6
                    end
                  else x :: unescape s6
              | _ => []
              end
            else escaped e :: unescape s2
        | [] => []
        end
      else r :: unescape s1
  end.

Definition unquote (raw : text) : text := utf8 (unescape (runes raw)).

(** ** Scalars *)

Fixpoint strip_prefix (p s : text) : option text :=
  match p, s with
  | [], _ => Some s
  | a :: p, b :: s => if bool_decide (a = b) then strip_prefix p s else None
  | _ :: _, [] => None
  end.

(** [Decode] of a value that is no array and no object. *)
Definition lex_scalar (s : text) : option (json * text) :=
  match s with
  | [] => None
  | c :: s1 =>
      if bool_decide (c = "034"%char) then '(raw, rest) ← scan_string s1; Some (JString (str (unquote raw)), rest)
      else if bool_decide (c = "t"%char) then pair (JBool true) <$> strip_prefix (bytes_of "true") s
      else if bool_decide (c = "f"%char) then pair (JBool false) <$> strip_prefix (bytes_of "false") s
      else if bool_decide (c = "n"%char) then pair JNull <$> strip_prefix (bytes_of "null") s
      else '(n, rest) ← lex_number s; Some (JNumber (str (number_text n)), rest)
  end.

(** ** The decoder *)

Inductive tokenState :=
| tokenTopValue | tokenArrayStart | tokenArrayValue | tokenArrayComma
| tokenObjectStart | tokenObjectKey | tokenObjectColon | tokenObjectValue | tokenObjectComma.

#[export] Instance tokenState_eq_dec : EqDecision tokenState.
Proof. solve_decision. Defined.

Record Decoder := mkDecoder { dec_state : tokenState; dec_stack : list tokenState; dec_rest : text }.

Inductive Token_ := TDelim (c : ascii) | TScalar (v : json).

Definition EOF : error := ErrOther "EOF".
Definition SyntaxError : error := ErrOther "invalid character".

Definition tokenValueAllowed (st : tokenState) : bool :=
  bool_decide (st ∈ [tokenTopValue; tokenArrayStart; tokenArrayValue; tokenObjectValue]).

Definition tokenValueEnd (st : tokenState) : tokenState :=
  match st with
  | tokenArrayStart | tokenArrayValue => tokenArrayComma
  | tokenObjectValue => tokenObjectComma
  | st => st
  end.

Definition peek (s : text) : text := (span is_space s).2.

Definition open_delim (c : ascii) (st : tokenState) (d : Decoder) (s : text) : res (Token_ * Decoder) :=
  if tokenValueAllowed (dec_state d) then Ok (TDelim c, mkDecoder st (dec_state d :: dec_stack d) s) else Err SyntaxError.

Definition close_delim (c : ascii) (sts : list tokenState) (d : Decoder) (s : text) : res (Token_ * Decoder) :=
  match bool_decide (dec_state d ∈ sts), dec_stack d with
  | true, st :: stack => Ok (TDelim c, mkDecoder (tokenValueEnd st) stack s)
  | _, _ => Err SyntaxError
  end.

(** [Token] at a byte that is no separator. *)
Definition Token_value (d : Decoder) : res (Token_ * Decoder) :=
  match peek (dec_rest d) with
  | [] => Err EOF
  | c :: s =>
      if bool_decide (c = "["%char) then open_delim c tokenArrayStart d s
      else if bool_decide (c = "]"%char) then close_delim c [tokenArrayStart; tokenArrayComma] d s
      else if bool_decide (c = "{"%char) then open_delim c tokenObjectStart d s
      else if bool_decide (c = "}"%char) then close_delim c [tokenObjectStart; tokenObjectComma] d s
      else if bool_decide (c = "034"%char) && bool_decide (dec_state d ∈ [tokenObjectStart; tokenObjectKey]) then
        match lex_scalar (c :: s) with
        | Some (v, rest) => Ok (TScalar v, mkDecoder tokenObjectColon (dec_stack d) rest)
        | None => Err SyntaxError
        end
      else if tokenValueAllowed (dec_state d) then
        match lex_scalar (c :: s) with
        | Some (v, rest) => Ok (TScalar v, mkDecoder (tokenValueEnd (dec_state d)) (dec_stack d) rest)
        | None => Err SyntaxError
        end
      else Err SyntaxError
  end.

(** [Token]: one separator may come first; the state after it admits no second one. *)
Definition Token (d : Decoder) : res (Token_ * Decoder) :=
  match peek (dec_rest d) with
  | [] => Err EOF
  | c :: s =>
      if bool_decide (c = ":"%char) then
        if bool_decide (dec_state d = tokenObjectColon) then Token_value (mkDecoder tokenObjectValue (dec_stack d) s) else Err SyntaxError
      else if bool_decide (c = ","%char) then
        if bool_decide (dec_state d = tokenArrayComma) then Token_value (mkDecoder tokenArrayValue (dec_stack d) s)
        else if bool_decide (dec_state d = tokenObjectComma) then Token_value (mkDecoder tokenObjectKey (dec_stack d) s)
        else Err SyntaxError
      else Token_value d
  end.

Definition More (d : Decoder) : bool :=
  match peek (dec_rest d) with
  | [] => false
  | c :: _ => negb (bool_decide (c = "]"%char)) && negb (bool_decide (c = "}"%char))
  end.
