(* ===== verification/Canonical.v ===== *)
(** * Canonical JSON and request fingerprints (idempotency/canonical.go, fingerprint.go)

    [Canonicalize] parses a body token by token and writes it back in one form:
    members sorted by the UTF-16 units of their names, numbers as ECMAScript prints
    them, strings with the shortest escapes.  The digest is a parameter. *)

From S2P Require Import Prelude Errors Strconv Json Types Keyset Utf8 Float JsonText.
From Stdlib Require Import Ascii.
Open Scope string_scope.
Open Scope Z_scope.

Definition malformed (e : error) : error := Wrap2 e ErrMalformedBody.
Definition out_of_fuel : error := ErrOther "fuel".

(** ** Parsing *)

(** [parseValue] and [parseFromToken], with the loops over members and items.  An
    object is its members in document order; a repeated name is refused. *)
Fixpoint parseValue (n : nat) (d : Decoder) {struct n} : res (json * Decoder) :=
  match n with
  | O => Err out_of_fuel
  | S n =>
      match Token d with
      | Err e => Err (malformed e)
      | Ok (TScalar v, d) => Ok (v, d)
      | Ok (TDelim c, d) =>
          if bool_decide (c = "{"%char) then parseMembers n d []
          else if bool_decide (c = "["%char) then parseItems n d []
          else Err ErrMalformedBody
      end
  end
with parseMembers (n : nat) (d : Decoder) (acc : list (string * json)) {struct n} : res (json * Decoder) :=
  match n with
  | O => Err out_of_fuel
  | S n =>
      if More d then
        match Token d with
        | Err e => Err (malformed e)
        | Ok (TScalar (JString key), d) =>
            if bool_decide (key ∈ acc.*1) then Err ErrMalformedBody
            else
              match parseValue n d with
              | Err e => Err e
              | Ok (v, d) => parseMembers n d (acc ++ [(key, v)])
              end
        | Ok _ => Err ErrMalformedBody
        end
      else
        match Token d with
        | Err e => Err (malformed e)
        | Ok (_, d) => Ok (JObject acc, d)
        end
  end
with parseItems (n : nat) (d : Decoder) (acc : list json) {struct n} : res (json * Decoder) :=
  match n with
  | O => Err out_of_fuel
  | S n =>
      if More d then
        match parseValue n d with
        | Err e => Err e
        | Ok (v, d) => parseItems n d (acc ++ [v])
        end
      else
        match Token d with
        | Err e => Err (malformed e)
        | Ok (_, d) => Ok (JArray acc, d)
        end
  end.

(** ** Writing *)

Definition hex_char (n : N) : ascii := if (n <? 10)%N then chr (48 + n) else chr (87 + n).

(** What [writeString] emits for a rune. *)
Definition write_rune (r : rune) : text :=
  if (r =? 34)%N then bytes_of "\" ++ [chr 34]
  else if (r =? 92)%N then bytes_of "\\"
  else if (r =? 8)%N then bytes_of "\b"
  else if (r =? 12)%N then bytes_of "\f"
  else if (r =? 10)%N then bytes_of "\n"
  else if (r =? 13)%N then bytes_of "\r"
  else if (r =? 9)%N then bytes_of "\t"
  else if (r <? 32)%N then bytes_of "\u00" ++ [hex_char (r / 16 mod 16); hex_char (r mod 16)]
  else encode_rune r.

Definition writeString (s : string) : text := ([chr 34] ++ concat (write_rune <$> runes (bytes_of s)) ++ [chr 34])%list.

(** The decimal digits of a positive number below [10 ^ fuel]. *)
Fixpoint dec_digits (fuel : nat) (c : Z) : text :=
  match fuel with
  | O => []
  | S k => if c <? 10 then [chr (Z.to_N (48 + c))] else (dec_digits k (c / 10) ++ [chr (Z.to_N (48 + c mod 10))])%list
  end.

(** [strconv.FormatFloat(f, 'e', -1, 64)] for a positive [f]: the exponent has at
    least two digits. *)
Definition exponent_text (e : Z) : string :=
  (if e <? 0 then "-" else "+") +:+ (if Z.abs e <? 10 then "0" else "") +:+ FormatInt (Z.abs e).

Definition FormatFloat_e (f : Z) : text :=
  let '(c, j) := shortest f in
  let ds := dec_digits 20 c in
  (take 1 ds ++ (if (1 <? length ds)%nat then "."%char :: drop 1 ds else []) ++
   "e"%char :: bytes_of (exponent_text (j + Z.of_nat (length ds) - 1)))%list.

(** [strings.Cut] at a byte. *)
Fixpoint cut (b : ascii) (s : text) : option (text * text) :=
  match s with
  | [] => None
  | c :: s' => if bool_decide (c = b) then Some ([], s') else '(x, y) ← cut b s'; Some (c :: x, y)
  end.

(** [strings.Replace(s, b, "", 1)]. *)
Definition remove_first (b : ascii) (s : text) : text :=
  match cut b s with Some (x, y) => (x ++ y)%list | None => s end.

Definition Itoa (z : Z) : text := bytes_of (FormatInt z).

(** Where the decimal point goes: [Number::toString] of ECMAScript. *)
Definition place_point (digits : text) (n : Z) : text :=
  let k := Z.of_nat (length digits) in
  if (k <=? n) && (n <=? 21) then (digits ++ replicate (Z.to_nat (n - k)) "0"%char)%list
  else if (0 <? n) && (n <=? 21) then (take (Z.to_nat n) digits ++ "."%char :: drop (Z.to_nat n) digits)%list
  else if (-6 <? n) && (n <=? 0) then (bytes_of "0." ++ replicate (Z.to_nat (- n)) "0"%char ++ digits)%list
  else (take 1 digits ++ (if 1 <? k then "."%char :: drop 1 digits else []) ++
        "e"%char :: (if 0 <=? n - 1 then ["+"%char] else []) ++ Itoa (n - 1))%list.

Definition writeNumber (literal : string) : res text :=
  match ParseFloat (bytes_of literal) with
  | None => Err (malformed (ErrOther "value out of range"))
  | Some f =>
      if f =? 0 then Ok (bytes_of "0")
      else
        match cut "e"%char (FormatFloat_e (Z.abs f)) with
        | None => Err ErrMalformedBody
        | Some (mantissa, exponent) =>
            match ParseInt (str exponent) with
            | Err _ => Err ErrMalformedBody
            | Ok exp10 =>
                Ok ((if f <? 0 then ["-"%char] else []) ++ place_point (remove_first "."%char mantissa) (exp10 + 1))%list
            end
        end
  end.

(** [lessUTF16], and the sort of the member names. *)
Definition units (s : string) : list N := utf16 (runes (bytes_of s)).
Definition lessUTF16 (a b : string) : bool := units_ltb (units a) (units b).
Definition sort_members {A} (ms : list (string * A)) : list (string * A) := in_order (λ m, units m.1) units_ltb ms.

Fixpoint intercalate (ts : list text) : text :=
  match ts with
  | [] => []
  | [t] => t
  | t :: ts => (t ++ ","%char :: intercalate ts)%list
  end.

Definition member_text (m : string * text) : text := (writeString m.1 ++ ":"%char :: m.2)%list.

(** [writeValue] and [writeObject]; the values of an object are written before the
    members are sorted, which shows only in which of two numbers out of range is
    named in the message. *)
Fixpoint writeValue (v : json) : res text :=
  match v with
  | JNull => Ok (bytes_of "null")
  | JBool b => Ok (bytes_of (if b then "true" else "false"))
  | JString s => Ok (writeString s)
  | JNumber lit => writeNumber lit
  | JArray items =>
      ts ← (fix go (l : list json) : res (list text) :=
              match l with [] => Ok [] | x :: l => t ← writeValue x; ts ← go l; Ok (t :: ts) end) items;
      Ok ("["%char :: intercalate ts ++ ["]"%char])%list
  | JObject members =>
      ms ← (fix go (l : list (string * json)) : res (list (string * text)) :=
              match l with [] => Ok [] | (k, x) :: l => t ← writeValue x; ts ← go l; Ok ((k, t) :: ts) end) members;
      Ok ("{"%char :: intercalate (member_text <$> sort_members ms) ++ ["}"%char])%list
  end.

(** ** Canonicalize *)

(** [unicode.IsSpace], for [bytes.TrimSpace]. *)
Definition unicode_space (r : rune) : bool :=
  (bool_decide (r ∈ [9; 10; 11; 12; 13; 32; 133; 160; 5760; 8232; 8233; 8239; 8287; 12288]%N) || ((8192 <=? r) && (r <=? 8202)))%N.

Definition blank (raw : text) : bool := forallb unicode_space (runes raw).

(** Every token takes a byte, and a nested call or the next turn of a loop follows a
    token. *)
Definition parse_fuel (s : text) : nat := (2 * length s + 2)%nat.

Definition parse_document (raw : text) : res json :=
  match parseValue (parse_fuel raw) (mkDecoder tokenTopValue [] raw) with
  | Err e => Err e
  | Ok (v, d) =>
      match Token d with
      | Err e => if bool_decide (e = EOF) then Ok v else Err ErrMalformedBody
      | Ok _ => Err ErrMalformedBody
      end
  end.

Definition Canonicalize (raw : text) : res text :=
  if blank raw then Ok [] else v ← parse_document raw; writeValue v.

(** ** Fingerprints *)

(** [sha256.Sum256]: 32 bytes. *)
Class Digest := { sha256 : text → text; sha256_len t : length (sha256 t) = 32%nat }.

(** The bytes that are digested. *)
Definition digest_input (method route : string) (canonical : text) : text :=
  (bytes_of method ++ chr 10 :: bytes_of route ++ chr 10 :: canonical)%list.

Definition FingerprintOf `{Digest} (method route : string) (body : text) : res text :=
  canonical ← Canonicalize body;
  Ok (sha256 (digest_input method route canonical)).

(** Examples are written with single quotes. *)
Definition doc (s : string) : text := (λ c, if bool_decide (c = "'"%char) then chr 34 else c) <$> bytes_of s.

Definition canon_of (s : string) : option text := match Canonicalize (doc s) with Ok t => Some t | Err _ => None end.

(** RFC 8785 at work: order, numbers, escapes; a repeated name and trailing text are
    refused. *)
Example canonical_examples :
  canon_of " { 'b' : [true , null], 'a' : {} } " = Some (doc "{'a':{},'b':[true,null]}") ∧
  canon_of "[1.25e3 ,-0, 1e21]" = Some (doc "[1250,0,1e+21]") ∧
  canon_of "['\u0041\/\u000a<']" = Some (doc "['A/\n<']") ∧ canon_of "{'a':1,'\u0061':2}" = None ∧
  canon_of "[1,]" = None ∧ canon_of "01" = None ∧ canon_of "[1] 2" = None ∧ canon_of "1e400" = None ∧ canon_of " " = Some [].
Proof. vm_compute. by split_and!. Qed.
