(* ===== verification/CanonicalStr.v ===== *)
(** * Canonical strings

    What [writeString] writes scans back to the string it was written from. *)

From S2P Require Import Prelude Errors Strconv Json Types Keyset Utf8 Float JsonText Canonical.
From Stdlib Require Import Ascii.
Open Scope string_scope.
Open Scope Z_scope.

(** A fact about each element of a list given by its elements. *)
Ltac each tac := repeat (apply List.Forall_cons; [tac|]); apply List.Forall_nil.

(** ** Strings *)

Lemma bytes_str t : bytes_of (str t) = t.
Proof. apply String.list_ascii_of_string_of_list_ascii. Qed.

Lemma str_bytes s : str (bytes_of s) = s.
Proof. apply String.string_of_list_ascii_of_string. Qed.

(** ASCII is its own rune. *)
Lemma runes_ascii l s : Forall (λ c, byte_of c < 128)%N l → runes (l ++ s) = ((byte_of <$> l) ++ runes s)%list.
Proof. induction 1 as [|c l Hc Hl IH]; [done|]. simpl. rewrite runes1 by done. by rewrite IH. Qed.

Lemma hex_char_spec n : (n < 16)%N → (byte_of (hex_char n) < 128)%N ∧ hex_value (byte_of (hex_char n)) = Some n.
Proof.
  intros Hn. unfold hex_char. destruct (N.ltb_spec n 10); rewrite byte_chr by lia; (split; [lia|]); unfold hex_value.
  - rewrite !(proj2 (N.leb_le _ _)) by lia. simpl. f_equal. lia.
  - rewrite (proj2 (N.leb_gt (87 + n) 57)), !(proj2 (N.leb_le _ _)) by lia. simpl. f_equal. lia.
Qed.

(** A rune that is written as itself. *)
Definition plain (r : rune) : Prop := (32 ≤ r)%N ∧ r ≠ 34%N ∧ r ≠ 92%N.

Lemma write_rune_cases r : scalar r = true →
  (∃ e, write_rune r = [chr 92; e] ∧ e ∈ ["b"; "f"; "n"; "r"; "t"; "\"; "/"; "034"]%char ∧ escaped (byte_of e) = r ∧ byte_of e ≠ 117%N ∧ (byte_of e < 128)%N) ∨
  ((r < 32)%N ∧ write_rune r = [chr 92; "u"; "0"; "0"; hex_char (r / 16 mod 16); hex_char (r mod 16)]%char) ∨
  (plain r ∧ write_rune r = encode_rune r).
Proof.
  intros Hr. unfold write_rune.
  destruct (N.eqb_spec r 34) as [->|]; [left; exists "034"%char; split_and!; [done|set_solver|done|done|done]|].
  destruct (N.eqb_spec r 92) as [->|]; [left; exists "\"%char; split_and!; [done|set_solver|done|done|done]|].
  destruct (N.eqb_spec r 8) as [->|]; [left; exists "b"%char; split_and!; [done|set_solver|done|done|done]|].
  destruct (N.eqb_spec r 12) as [->|]; [left; exists "f"%char; split_and!; [done|set_solver|done|done|done]|].
  destruct (N.eqb_spec r 10) as [->|]; [left; exists "n"%char; split_and!; [done|set_solver|done|done|done]|].
  destruct (N.eqb_spec r 13) as [->|]; [left; exists "r"%char; split_and!; [done|set_solver|done|done|done]|].
  destruct (N.eqb_spec r 9) as [->|]; [left; exists "t"%char; split_and!; [done|set_solver|done|done|done]|].
  right. destruct (N.ltb_spec r 32); [left|right]; split; done.
Qed.

Lemma encode_high r : scalar r = true → (128 ≤ r)%N → Forall (λ c, 128 ≤ byte_of c)%N (encode_rune r).
Proof.
  intros Hr H. unfold encode_rune. rewrite Hr. apply scalar_spec in Hr as [Hmax _]. rewrite (proj2 (N.ltb_ge _ _)) by done.
  assert (∀ a, (a mod 64 < 64)%N) as Hmod by (intros a; by apply N.mod_lt).
  assert (r / 64 < 32 ∨ 2048 ≤ r)%N by (destruct (N.lt_ge_cases r 2048); [left; apply N.Div0.div_lt_upper_bound; lia|by right]).
  assert (r / 4096 < 16 ∨ 65536 ≤ r)%N by (destruct (N.lt_ge_cases r 65536); [left; apply N.Div0.div_lt_upper_bound; lia|by right]).
  assert (r / 262144 < 5)%N by (apply N.Div0.div_lt_upper_bound; lia).
  pose proof (N.le_0_l (r / 64)). pose proof (N.le_0_l (r / 4096)). pose proof (N.le_0_l (r / 262144)).
  pose proof (N.le_0_l (r mod 64)). pose proof (N.le_0_l (r / 64 mod 64)). pose proof (N.le_0_l (r / 4096 mod 64)).
  pose proof (Hmod r). pose proof (Hmod (r / 64)%N). pose proof (Hmod (r / 4096)%N).
  destruct (N.ltb_spec r 2048); [|destruct (N.ltb_spec r 65536)]; 
    each ltac:(rewrite byte_chr by lia; lia).
Qed.

Lemma runes_write_rune r s : scalar r = true → runes (write_rune r ++ s) = (runes (write_rune r) ++ runes s)%list.
Proof.
  intros Hr. destruct (write_rune_cases r Hr) as [(e & -> & _ & _ & _ & He)|[[H ->]|[_ ->]]].
  - rewrite (runes_ascii [_; e]), <- (app_nil_r [_; e]), runes_ascii by (each done). done.
  - pose proof (hex_char_spec (r / 16 mod 16) ltac:(by apply N.mod_lt)) as [H1 _].
    pose proof (hex_char_spec (r mod 16) ltac:(by apply N.mod_lt)) as [H2 _].
    assert (Hall : Forall (λ c, byte_of c < 128)%N [chr 92; "u"; "0"; "0"; hex_char (r / 16 mod 16); hex_char (r mod 16)]%char) by (each done).
    rewrite runes_ascii by done. rewrite <- (app_nil_r [_; _; _; _; _; _]) at 2. rewrite runes_ascii by done. by rewrite app_nil_r.
  - rewrite runes_encode by done. rewrite <- (app_nil_r (encode_rune r)), runes_encode by done. done.
Qed.

Lemma unescape_write_rune r rs : scalar r = true → unescape (runes (write_rune r) ++ rs) = r :: unescape rs.
Proof.
  intros Hr. destruct (write_rune_cases r Hr) as [(e & -> & _ & He & Hu & Hb)|[[H ->]|[(H1 & H2 & H3) ->]]].
  - rewrite <- (app_nil_r [_; e]), runes_ascii by (each done). cbn [fmap list_fmap app].
    rewrite byte_chr by done. cbn [unescape]. change (92 =? 92)%N with true. rewrite (proj2 (N.eqb_neq _ _) Hu). by rewrite He.
  - destruct (hex_char_spec (r / 16 mod 16) ltac:(by apply N.mod_lt)) as [B1 V1].
    destruct (hex_char_spec (r mod 16) ltac:(by apply N.mod_lt)) as [B2 V2].
    rewrite <- (app_nil_r [_; _; _; _; _; _]), runes_ascii by (each done). cbn [fmap list_fmap app].
    rewrite byte_chr by done. change (byte_of "u"%char) with 117%N. change (byte_of "0"%char) with 48%N. cbn [unescape].
    change (92 =? 92)%N with true. change (117 =? 117)%N with true. cbv beta iota.
    assert (Hx : hex4 48 48 (byte_of (hex_char (r / 16 mod 16))) (byte_of (hex_char (r mod 16))) = r).
    { unfold hex4. rewrite V1, V2. change (hex_value 48) with (Some 0%N). simpl. rewrite (N.mod_small (r / 16) 16) by (apply N.Div0.div_lt_upper_bound; lia).
      pose proof (N.div_mod r 16 ltac:(done)). lia. }
    rewrite Hx. unfold surrogate. by rewrite (proj2 (N.leb_gt _ _)) by lia.
  - rewrite <- (app_nil_r (encode_rune r)), runes_encode by done. simpl. by rewrite (proj2 (N.eqb_neq _ _)) by done.
Qed.

Definition write_runes (rs : list rune) : text := concat (write_rune <$> rs).

Lemma unquote_write rs : scalars rs → unquote (write_runes rs) = utf8 rs.
Proof.
  intros Hrs. unfold unquote. f_equal. induction Hrs as [|r rs Hr Hrs IH]; [done|].
  unfold write_runes. rewrite fmap_cons. cbn [concat]. rewrite runes_write_rune, unescape_write_rune by done. by f_equal.
Qed.

(** The scanner takes what was written, up to the quote. *)
Definition scan_cons (l : text) (o : option (text * text)) : option (text * text) := '(raw, rest) ← o; Some ((l ++ raw)%list, rest).

Lemma scan_plain c s : (32 ≤ byte_of c)%N → c ≠ "034"%char → c ≠ "\"%char → scan_string (c :: s) = scan_cons [c] (scan_string s).
Proof. intros H1 H2 H3. cbn [scan_string]. rewrite !bool_decide_eq_false_2 by done. by rewrite (proj2 (N.ltb_ge _ _)) by done. Qed.

Lemma scan_plains l s : Forall (λ c, 128 ≤ byte_of c)%N l → scan_string (l ++ s) = scan_cons l (scan_string s).
Proof.
  induction 1 as [|c l Hc Hl IH]; [simpl; by destruct (scan_string s) as [[? ?]|]|]. cbn [app]. rewrite scan_plain, IH.
  - by destruct (scan_string s) as [[? ?]|].
  - lia.
  - intros ->. by vm_compute in Hc.
  - intros ->. by vm_compute in Hc.
Qed.

Lemma scan_write_rune r s : scalar r = true → scan_string (write_rune r ++ s) = scan_cons (write_rune r) (scan_string s).
Proof.
  intros Hr. destruct (write_rune_cases r Hr) as [(e & -> & He & _)|[[H ->]|[(H1 & H2 & H3) ->]]].
  - cbn [app scan_string]. change (bool_decide (chr 92 = "034"%char)) with false. change (bool_decide (chr 92 = "\"%char)) with true.
    cbv iota. by rewrite bool_decide_eq_true_2 by done.
  - destruct (hex_char_spec (r / 16 mod 16) ltac:(by apply N.mod_lt)) as [_ V1].
    destruct (hex_char_spec (r mod 16) ltac:(by apply N.mod_lt)) as [_ V2].
    assert (is_hex (hex_char (r / 16 mod 16)) = true ∧ is_hex (hex_char (r mod 16)) = true) as [I1 I2]
      by (unfold is_hex; rewrite V1, V2; done).
    cbn [app scan_string]. change (bool_decide (chr 92 = "034"%char)) with false. change (bool_decide (chr 92 = "\"%char)) with true.
    cbv iota. rewrite bool_decide_eq_false_2 by set_solver. rewrite bool_decide_eq_true_2 by done. by rewrite I1, I2.
  - destruct (N.lt_ge_cases r 128) as [Hlt|Hge]; [|by apply scan_plains, encode_high].
    assert (Henc : encode_rune r = [chr r]) by (unfold encode_rune; rewrite Hr; by rewrite (proj2 (N.ltb_lt _ _))).
    rewrite Henc. cbn [app]. apply scan_plain; [by rewrite byte_chr by lia| |]; intros Hc; apply (f_equal byte_of) in Hc;
      rewrite byte_chr in Hc by lia; by vm_compute in Hc.
Qed.

Lemma scan_written rs s : scalars rs → scan_string (write_runes rs ++ chr 34 :: s) = Some (write_runes rs, s).
Proof.
  induction 1 as [|r rs Hr Hrs IH]; [done|]. unfold write_runes. rewrite fmap_cons. cbn [concat]. rewrite <- app_assoc.
  rewrite scan_write_rune by done. fold (write_runes rs). by rewrite IH.
Qed.

(** A string the decoder can produce. *)
Definition valid_string (s : string) : Prop := bytes_of s = utf8 (runes (bytes_of s)).

Lemma hex_value_bound r x : hex_value r = Some x → (x < 16)%N.
Proof.
  unfold hex_value. do 3 (destruct (_ && _)%N eqn:H; [apply andb_true_iff in H as [?%N.leb_le ?%N.leb_le]; intros [= <-]; lia|clear H]). done.
Qed.

Lemma hex_default_bound r : (default 0 (hex_value r) < 16)%N.
Proof. destruct (hex_value r) as [x|] eqn:H; [by apply hex_value_bound in H|done]. Qed.

Lemma hex4_scalar h1 h2 h3 h4 : surrogate (hex4 h1 h2 h3 h4) = false → scalar (hex4 h1 h2 h3 h4) = true.
Proof.
  intros Hs. unfold scalar. rewrite Hs, andb_true_r. unfold hex4. apply N.leb_le.
  pose proof (hex_default_bound h1). pose proof (hex_default_bound h2). pose proof (hex_default_bound h3). pose proof (hex_default_bound h4). lia.
Qed.

Lemma escaped_scalar e : scalar e = true → scalar (escaped e) = true.
Proof. intros He. unfold escaped. repeat case_match; done. Qed.

Lemma unescape_scalars rs : scalars rs → scalars (unescape rs).
Proof.
  remember (length rs) as n eqn:Hn. assert (Hle : (length rs ≤ n)%nat) by lia. clear Hn. revert rs Hle. unfold scalars.
  induction n as [|n IH]; intros [|r s1] Hle Hs; try (by constructor || (simpl in Hle; lia)). simpl in Hle.
  apply list.Forall_cons in Hs as [Hr Hs]. cbn [unescape]. destruct (r =? 92)%N; [|constructor; [done|apply IH; [lia|done]]].
  destruct s1 as [|e s2]; [constructor|]. simpl in Hle. apply list.Forall_cons in Hs as [He Hs].
  destruct (e =? 117)%N; [|constructor; [by apply escaped_scalar|apply IH; [lia|done]]].
  destruct s2 as [|h1 [|h2 [|h3 [|h4 s6]]]]; try constructor. simpl in Hle. do 4 apply list.Forall_cons in Hs as [_ Hs].
  destruct (surrogate _) eqn:Hsur; [|constructor; [by apply hex4_scalar|apply IH; [lia|done]]].
  assert (Herr : Forall (λ r, scalar r = true) (RuneError :: unescape s6)) by (constructor; [done|apply IH; [lia|done]]).
  destruct s6 as [|b [|u [|g1 [|g2 [|g3 [|g4 s12]]]]]]; try done. case_match eqn:Hd; [|done].
  destruct (_ && _)%N; [|done]. apply decode_pair_scalar in Hd. constructor; [done|]. simpl in Hle.
  do 6 apply list.Forall_cons in Hs as [_ Hs]. apply IH; [lia|done].
Qed.

Lemma unquote_valid raw : valid_string (str (unquote raw)).
Proof. unfold valid_string. rewrite bytes_str. unfold unquote. rewrite runes_utf8; [done|]. apply unescape_scalars, runes_scalars. Qed.

Lemma lex_written_string s rest : valid_string s → lex_scalar (writeString s ++ rest) = Some (JString s, rest).
Proof.
  intros Hs. unfold writeString, lex_scalar. cbn [app]. change (bool_decide (chr 34 = "034"%char)) with true. cbv iota.
  rewrite <- app_assoc. cbn [app]. fold (write_runes (runes (bytes_of s))). rewrite scan_written by apply runes_scalars.
  simpl. rewrite unquote_write by apply runes_scalars. rewrite <- Hs. by rewrite str_bytes.
Qed.
