(* ===== verification/CanonicalNum.v ===== *)
(** * Canonical numbers

    The text [writeNumber] produces is a JSON number that parses to the float64 it
    was produced from. *)

From S2P Require Import Prelude Errors Strconv Json Types Keyset Utf8 Float JsonText Canonical.
From Stdlib Require Import Ascii.
Open Scope string_scope.
Open Scope Z_scope.

Definition digits (l : text) : Prop := Forall (λ c, is_digit c = true) l.

(** Nothing that a number could continue with. *)
Definition ends_number (s : text) : Prop :=
  match s with [] => True | c :: _ => is_digit c = false ∧ c ≠ "."%char ∧ is_exp c = false end.

Record number_ok (n : number) : Prop := {
  ok_int : nm_int n = ["0"%char] ∨ ∃ c ds, nm_int n = c :: ds ∧ is_digit c = true ∧ c ≠ "0"%char ∧ digits ds;
  ok_frac : ∀ ds, nm_frac n = Some ds → ds ≠ [] ∧ digits ds;
  ok_exp : ∀ e sg ds, nm_exp n = Some (e, sg, ds) → is_exp e = true ∧ (∀ c, sg = Some c → is_sign c = true) ∧ ds ≠ [] ∧ digits ds }.

(** ** Scanning a number *)

Definition stops (p : ascii → bool) (s : text) : Prop := match s with [] => True | c :: _ => p c = false end.

Lemma span_app p l s : Forall (λ c, p c = true) l → stops p s → span p (l ++ s) = (l, s).
Proof.
  intros Hl Hs. induction Hl as [|c l Hc Hl IH]; simpl.
  - destruct s as [|c s]; [done|]. simpl in *. by rewrite Hs.
  - by rewrite Hc, IH.
Qed.

Lemma span_sound p s : ∀ a b, span p s = (a, b) → s = (a ++ b)%list ∧ Forall (λ c, p c = true) a ∧ stops p b.
Proof.
  induction s as [|c s IH]; intros a b H; simpl in H; [injection H as <- <-; repeat constructor|].
  destruct (p c) eqn:Hp; [|injection H as <- <-; repeat constructor; exact Hp].
  destruct (span p s) as [a' b']. injection H as <- <-. destruct (IH _ _ eq_refl) as (-> & Ha & Hb). repeat constructor; done.
Qed.

Definition exp_text (e : option (ascii * option ascii * text)) : text :=
  match e with Some (e, sg, ds) => (e :: match sg with Some c => [c] | None => [] end ++ ds)%list | None => [] end.
Definition frac_text (f : option text) : text := match f with Some f => "."%char :: f | None => [] end.

Lemma sign_not_digit c : is_sign c = true → is_digit c = false.
Proof. unfold is_sign. rewrite bool_decide_eq_true. intros H. repeat (apply elem_of_cons in H as [->|H]; [done|]). by apply not_elem_of_nil in H. Qed.

Lemma exp_not_digit c : is_exp c = true → is_digit c = false ∧ c ≠ "."%char.
Proof. unfold is_exp. rewrite bool_decide_eq_true. intros H. repeat (apply elem_of_cons in H as [->|H]; [done|]). by apply not_elem_of_nil in H. Qed.

Lemma digit_not_sign c : is_digit c = true → is_sign c = false.
Proof. intros Hd. destruct (is_sign c) eqn:H; [|done]. apply sign_not_digit in H. congruence. Qed.

Lemma digit_not_minus c : is_digit c = true → c ≠ "-"%char.
Proof. by intros H ->. Qed.

Lemma lex_exp_app e s : (∀ c sg ds, e = Some (c, sg, ds) → is_exp c = true ∧ (∀ x, sg = Some x → is_sign x = true) ∧ ds ≠ [] ∧ digits ds) →
  ends_number s → lex_exp (exp_text e ++ s) = Some (e, s).
Proof.
  intros He Hs. destruct e as [[[c sg] ds]|]; simpl.
  - destruct (He _ _ _ eq_refl) as (Hc & Hsg & Hne & Hds). rewrite Hc.
    assert (Hstop : stops is_digit s) by (destruct s; [done|]; apply Hs).
    destruct sg as [x|]; simpl.
    + rewrite (Hsg x eq_refl), span_app by done. by rewrite bool_decide_eq_false_2.
    + destruct ds as [|d ds]; [done|]. simpl. inversion Hds as [|? ? Hd Hds']; subst. rewrite (digit_not_sign d Hd).
      change (d :: ds ++ s)%list with ((d :: ds) ++ s)%list. rewrite span_app by done. by rewrite bool_decide_eq_false_2.
  - destruct s as [|c s]; [done|]. simpl. destruct Hs as (_ & _ & ->). done.
Qed.

Lemma exp_text_ends e s : (∀ c sg ds, e = Some (c, sg, ds) → is_exp c = true ∧ (∀ x, sg = Some x → is_sign x = true) ∧ ds ≠ [] ∧ digits ds) →
  ends_number s → stops is_digit (exp_text e ++ s) ∧ stops (λ c, bool_decide (c = "."%char)) (exp_text e ++ s).
Proof.
  intros He Hs. destruct e as [[[c sg] ds]|]; simpl.
  - destruct (He _ _ _ eq_refl) as (Hc & _). apply exp_not_digit in Hc as [? ?]. split; [done|by apply bool_decide_eq_false_2].
  - destruct s as [|c s]; [done|]. simpl. destruct Hs as (? & ? & _). split; [done|by apply bool_decide_eq_false_2].
Qed.

Lemma lex_frac_app f s : (∀ ds, f = Some ds → ds ≠ [] ∧ digits ds) → stops is_digit s → stops (λ c, bool_decide (c = "."%char)) s →
  lex_frac (frac_text f ++ s) = Some (f, s).
Proof.
  intros Hf Hs Hp. destruct f as [ds|]; simpl.
  - destruct (Hf _ eq_refl) as [Hne Hds]. rewrite span_app by done. by rewrite bool_decide_eq_false_2.
  - destruct s as [|c s]; [done|]. simpl in *. by rewrite Hp.
Qed.

Lemma lex_number_app n s : number_ok n → ends_number s → lex_number (number_text n ++ s) = Some (n, s).
Proof.
  intros [Hi Hf He] Hs. destruct n as [neg i f e]. simpl in *. unfold number_text. simpl. fold (frac_text f). fold (exp_text e).
  destruct (exp_text_ends e s He Hs) as [Hd Hp]. pose proof (lex_exp_app e s He Hs) as Hlexe. pose proof (lex_frac_app f _ Hf Hd Hp) as Hlexf.
  assert (Hstop : stops is_digit (frac_text f ++ exp_text e ++ s)) by (destruct f; done).
  assert (Hlexi : lex_int (i ++ frac_text f ++ exp_text e ++ s) = Some (i, frac_text f ++ exp_text e ++ s)%list).
  { destruct Hi as [->|(c & ds & -> & Hc & H0 & Hds)]; [done|]. simpl. rewrite bool_decide_eq_false_2 by done. rewrite Hc, span_app by done. done. }
  unfold lex_number. rewrite <- !app_assoc. destruct neg; simpl.
  - by rewrite Hlexi; simpl; rewrite Hlexf; simpl; rewrite Hlexe.
  - assert (Hneg : ∃ c r, (i ++ frac_text f ++ exp_text e ++ s)%list = c :: r ∧ c ≠ "-"%char).
    { destruct Hi as [->|(c & ds & -> & Hc & _)]; [by eexists _, _|]. eexists c, _. split; [done|]. by apply digit_not_minus. }
    destruct Hneg as (c & r & Hcr & Hc). rewrite Hcr in *. rewrite bool_decide_eq_false_2 by done.
    by rewrite Hlexi; simpl; rewrite Hlexf; simpl; rewrite Hlexe.
Qed.

Lemma lex_exp_sound s e r : lex_exp s = Some (e, r) → s = (exp_text e ++ r)%list ∧
  (∀ c sg ds, e = Some (c, sg, ds) → is_exp c = true ∧ (∀ x, sg = Some x → is_sign x = true) ∧ ds ≠ [] ∧ digits ds).
Proof.
  unfold lex_exp. destruct s as [|c s]; [intros [= <- <-]; done|]. destruct (is_exp c) eqn:Hc; [|intros [= <- <-]; done].
  destruct s as [|x s]; [done|]. destruct (is_sign x) eqn:Hx.
  - destruct (span is_digit s) as [ds rest] eqn:Hsp. case_bool_decide; [done|]. intros [= <- <-].
    apply span_sound in Hsp as (-> & Hds & _). split; [done|]. intros ? ? ? [= <- <- <-]. split_and!; [done|by intros ? [= <-]|done|done].
  - destruct (span is_digit (x :: s)) as [ds rest] eqn:Hsp. case_bool_decide; [done|]. intros [= <- <-].
    apply span_sound in Hsp as (-> & Hds & _). split; [done|]. intros ? ? ? [= <- <- <-]. split_and!; [done|done|done|done].
Qed.

Lemma lex_frac_sound s f r : lex_frac s = Some (f, r) → s = (frac_text f ++ r)%list ∧ (∀ ds, f = Some ds → ds ≠ [] ∧ digits ds).
Proof.
  unfold lex_frac. destruct s as [|c s]; [intros [= <- <-]; done|]. case_bool_decide as Hc; [|intros [= <- <-]; done]. subst c.
  destruct (span is_digit s) as [ds rest] eqn:Hsp. case_bool_decide; [done|]. intros [= <- <-].
  apply span_sound in Hsp as (-> & Hds & _). split; [done|]. by intros ? [= <-].
Qed.

Lemma lex_int_sound s i r : lex_int s = Some (i, r) → s = (i ++ r)%list ∧
  (i = ["0"%char] ∨ ∃ c ds, i = c :: ds ∧ is_digit c = true ∧ c ≠ "0"%char ∧ digits ds).
Proof.
  unfold lex_int. destruct s as [|c s]; [done|]. case_bool_decide as Hc; [intros [= <- <-]; subst; auto|].
  destruct (is_digit c) eqn:Hd; [|done]. destruct (span is_digit s) as [ds rest] eqn:Hsp. intros [= <- <-].
  apply span_sound in Hsp as (-> & Hds & _). split; [done|]. right. eauto 8.
Qed.

Lemma lex_number_sound s n r : lex_number s = Some (n, r) → s = (number_text n ++ r)%list ∧ number_ok n.
Proof.
  unfold lex_number. intros H.
  set (sg := match s with c :: s' => if bool_decide (c = "-"%char) then (true, s') else (false, s) | [] => (false, s) end) in *.
  assert (Hsg : s = ((if sg.1 then ["-"%char] else []) ++ sg.2)%list) by (unfold sg; destruct s as [|c s']; [done|]; by case_bool_decide; subst).
  destruct sg as [neg s1]. simpl in Hsg. subst s. destruct (lex_int s1) as [[i s2]|] eqn:Hi; [|done]. simpl in H.
  destruct (lex_frac s2) as [[f s3]|] eqn:Hf; [|done]. simpl in H. destruct (lex_exp s3) as [[e s4]|] eqn:He; [|done]. simpl in H.
  injection H as <- <-. apply lex_int_sound in Hi as [-> Hi]. apply lex_frac_sound in Hf as [-> Hf]. apply lex_exp_sound in He as [-> He].
  split; [|by split]. unfold number_text. simpl. by rewrite <- !app_assoc.
Qed.

(** ** Values of digits *)

Lemma dec_value_acc l : ∀ a, fold_left (λ acc c, acc * 10 + digit_of c) l a = a * 10 ^ Z.of_nat (length l) + dec_value l.
Proof.
  unfold dec_value. induction l as [|c l IH]; intros a; cbn [fold_left length]; [simpl; lia|].
  rewrite (IH (a * 10 + digit_of c)), (IH (0 * 10 + digit_of c)).
  rewrite Nat2Z.inj_succ, Z.pow_succ_r by lia. lia.
Qed.

Lemma dec_value_app a b : dec_value (a ++ b) = dec_value a * 10 ^ Z.of_nat (length b) + dec_value b.
Proof. unfold dec_value at 1. rewrite fold_left_app, dec_value_acc. done. Qed.

Lemma dec_value_zeros k : dec_value (replicate k "0"%char) = 0.
Proof. induction k as [|k IH]; [done|]. rewrite replicate_S. change ("0"%char :: ?l) with (["0"%char] ++ l)%list. rewrite dec_value_app, IH. done. Qed.

Lemma digit_chr d : 0 ≤ d < 10 → is_digit (chr (Z.to_N (48 + d))) = true ∧ digit_of (chr (Z.to_N (48 + d))) = d.
Proof.
  intros Hd. unfold is_digit, digit_of, between. rewrite byte_chr by lia. split; [|lia].
  rewrite andb_true_iff, !N.leb_le. lia.
Qed.

Lemma dec_digits_spec fuel : ∀ c, 0 < c < 10 ^ Z.of_nat fuel →
  digits (dec_digits fuel c) ∧ dec_value (dec_digits fuel c) = c ∧ (length (dec_digits fuel c) ≤ fuel)%nat ∧
  ∃ d ds, dec_digits fuel c = d :: ds ∧ d ≠ "0"%char.
Proof.
  induction fuel as [|k IH]; intros c Hc; [simpl in Hc; lia|]. cbn [dec_digits].
  destruct (Z.ltb_spec c 10) as [Hlt|Hge].
  - destruct (digit_chr c ltac:(lia)) as [H1 H2]. split_and!; [by repeat constructor|unfold dec_value; simpl; lia|simpl; lia|].
    eexists _, []. split; [done|]. intros H0. rewrite H0 in H2. change (digit_of "0") with 0 in H2. lia.
  - rewrite Nat2Z.inj_succ, Z.pow_succ_r in Hc by lia. pose proof (Z.div_mod c 10 ltac:(lia)). pose proof (Z.mod_pos_bound c 10 ltac:(lia)).
    destruct (IH (c / 10)) as (D1 & D2 & D3 & d & ds & D4 & D5); [lia|]. destruct (digit_chr (c mod 10) ltac:(lia)) as [H1 H2]. split_and!.
    + apply list.Forall_app. split; [done|by repeat constructor].
    + rewrite dec_value_app, D2. unfold dec_value. simpl. lia.
    + rewrite length_app. simpl. lia.
    + rewrite D4. by eexists d, _.
Qed.

Lemma digit_of_nonneg c : is_digit c = true → 0 ≤ digit_of c.
Proof. unfold is_digit, digit_of. intros [H _]%between_spec. lia. Qed.

Lemma dec_value_nonneg l : digits l → 0 ≤ dec_value l.
Proof.
  induction l as [|c l IH] using rev_ind; intros Hl; [done|]. apply list.Forall_app in Hl as [Hl Hc]. inversion Hc as [|? ? Hd _]; subst.
  rewrite dec_value_app. specialize (IH Hl). pose proof (digit_of_nonneg c Hd). unfold dec_value at 2. simpl. lia.
Qed.

(** What a scanned number denotes. *)
Definition number_value (n : number) : option Z :=
  let frac := default [] (nm_frac n) in
  let e := match nm_exp n with
           | Some (_, sg, ds) => if bool_decide (sg = Some "-"%char) then - exp_value ds else exp_value ds
           | None => 0
           end in
  f ← decimal_float (dec_value (nm_int n ++ frac)) (e - Z.of_nat (length frac));
  Some (if nm_neg n then - f else f).

Lemma ParseFloat_number n : number_ok n → ParseFloat (number_text n) = number_value n.
Proof.
  intros Hn. unfold ParseFloat. pose proof (lex_number_app n [] Hn I) as H. rewrite app_nil_r in H. by rewrite H.
Qed.

(** ** The exponents that occur *)

Definition exponent_fine (e : Z) : bool :=
  match ParseInt (exponent_text e) with Ok z => bool_decide (z = e) | Err _ => false end &&
  (let ds := Itoa (Z.abs e) in
   bool_decide (Itoa e = ((if (e <? 0)%Z then ["-"%char] else []) ++ ds)%list) && forallb is_digit ds &&
   bool_decide (exp_value ds = Z.abs e) && negb (bool_decide (ds = []))).

Lemma exponents_fine e : -1000 ≤ e < 1000 → ParseInt (exponent_text e) = Ok e ∧
  Itoa e = ((if (e <? 0)%Z then ["-"%char] else []) ++ Itoa (Z.abs e))%list ∧ digits (Itoa (Z.abs e)) ∧
  exp_value (Itoa (Z.abs e)) = Z.abs e ∧ Itoa (Z.abs e) ≠ [].
Proof.
  intros He. assert (H : forallb exponent_fine (seqZ (-1000) 2000) = true) by (vm_compute; reflexivity).
  assert (Hin : e ∈ seqZ (-1000) 2000) by (apply elem_of_seqZ; lia). apply (forallb_elem _ _ e H) in Hin. unfold exponent_fine in Hin.
  rewrite !andb_true_iff, negb_true_iff, bool_decide_eq_false, !bool_decide_eq_true in Hin.
  destruct Hin as (H1 & ((H2 & H3) & H4) & H5). split_and!; [|done| |done|done].
  { destruct (ParseInt (exponent_text e)); [|done]. apply bool_decide_eq_true in H1. by subst. }
  unfold digits. apply Forall_forall. intros c Hc%list_elem_of_In. by apply (forallb_elem _ _ c H3).
Qed.

(** ** Placing the point *)

Definition signed (neg : bool) (t : text) : text := ((if neg then ["-"%char] else []) ++ t)%list.

Section place.
Context (neg : bool) (d : ascii) (ds : text) (n : Z).
Context (Hdig : is_digit d = true) (Hds : digits ds) (Hd0 : d ≠ "0"%char) (Hn : -1000 < n < 1000).
Let k : Z := Z.of_nat (length (d :: ds)).

(** The number the text stands for. *)
Definition placed (t : text) : Prop :=
  ∃ nm, number_ok nm ∧ number_text nm = signed neg t ∧
    number_value nm = (f ← decimal_float (dec_value (d :: ds)) (n - k); Some (if neg then - f else f)).

Lemma all_digits : digits (d :: ds).
Proof. by constructor. Qed.

Lemma place_integer : k ≤ n → placed ((d :: ds) ++ replicate (Z.to_nat (n - k)) "0"%char).
Proof.
  intros H. exists (mkNumber neg ((d :: ds) ++ replicate (Z.to_nat (n - k)) "0"%char) None None). split_and!.
  - split; simpl; [|done|done]. right. eexists d, _. split_and!; [done..|]. apply list.Forall_app. split; [done|]. by apply Forall_replicate.
  - unfold number_text, signed. simpl. by rewrite !app_nil_r.
  - unfold number_value. cbn [nm_int nm_frac nm_exp nm_neg default length]. rewrite app_nil_r, dec_value_app, dec_value_zeros, length_replicate.
    rewrite Z.add_0_r, Z2Nat.id, decimal_float_pow by lia. do 2 f_equal; lia.
Qed.

Lemma place_fraction : 0 < n < k → placed (take (Z.to_nat n) (d :: ds) ++ "."%char :: drop (Z.to_nat n) (d :: ds)).
Proof.
  intros H. exists (mkNumber neg (take (Z.to_nat n) (d :: ds)) (Some (drop (Z.to_nat n) (d :: ds))) None). split_and!.
  - assert (Hpos : Z.to_nat n = S (Z.to_nat (n - 1))) by lia. split; simpl; [|intros ? [= <-]|done].
    + right. rewrite Hpos. simpl. eexists d, _. split_and!; [done..|]. by apply Forall_take.
    + split; [|apply Forall_drop, all_digits]. intros Hnil. apply (f_equal length) in Hnil. rewrite length_drop in Hnil. fold k in Hnil. simpl length in Hnil. unfold k in H. simpl length in H. lia.
  - unfold number_text, signed. cbn [nm_int nm_frac nm_exp nm_neg]. by rewrite app_nil_r.
  - unfold number_value. cbn [nm_int nm_frac nm_exp nm_neg default from_option id]. rewrite take_drop, length_drop. do 2 f_equal. unfold k in *. lia.
Qed.

Lemma place_small : n ≤ 0 → placed (bytes_of "0." ++ replicate (Z.to_nat (- n)) "0"%char ++ (d :: ds)).
Proof.
  intros H. exists (mkNumber neg ["0"%char] (Some (replicate (Z.to_nat (- n)) "0"%char ++ (d :: ds))%list) None). split_and!.
  - split; simpl; [by left|intros ? [= <-]|done]. split; [by destruct (replicate _ _)|]. apply list.Forall_app. split; [by apply Forall_replicate|apply all_digits].
  - unfold number_text, signed. cbn [nm_int nm_frac nm_exp nm_neg]. by rewrite app_nil_r.
  - unfold number_value. cbn [nm_int nm_frac nm_exp nm_neg default from_option id]. rewrite !dec_value_app, dec_value_zeros, length_app, length_replicate.
    change (dec_value ["0"%char]) with 0. rewrite !Z.mul_0_l, !Z.add_0_l. do 2 f_equal. unfold k. lia.
Qed.

Lemma place_exponent : placed (take 1 (d :: ds) ++ (if 1 <? k then "."%char :: drop 1 (d :: ds) else []) ++
  "e"%char :: (if 0 <=? n - 1 then ["+"%char] else []) ++ Itoa (n - 1)).
Proof.
  destruct (exponents_fine (n - 1) ltac:(lia)) as (_ & Hi & He & Hv & Hne). set (es := Itoa (Z.abs (n - 1))) in *.
  exists (mkNumber neg [d] (if 1 <? k then Some ds else None) (Some ("e"%char, Some (if n - 1 <? 0 then "-"%char else "+"%char), es))). split_and!.
  - split; simpl; [right; exists d, []; split_and!; [done..|constructor]| |].
    + intros l Hl. destruct (Z.ltb_spec 1 k) as [Hk|]; [|done]. injection Hl as <-. split; [|done]. unfold k in Hk. simpl in Hk. destruct ds; [simpl in Hk; lia|done].
    + intros ? ? ? [= <- <- <-]. split_and!; [done| |done|done]. intros c [= <-]. by destruct (n - 1 <? 0).
  - unfold number_text, signed. cbn [nm_int nm_frac nm_exp nm_neg]. f_equal. cbn [take drop]. rewrite Hi. f_equal.
    destruct (1 <? k); cbn [app]; do 2 f_equal; rewrite ?take_0; destruct (Z.ltb_spec (n - 1) 0), (Z.leb_spec 0 (n - 1)); done || lia.
  - unfold number_value. cbn [nm_int nm_frac nm_exp nm_neg].
    assert (Hexp : (if bool_decide (Some (if n - 1 <? 0 then "-"%char else "+"%char) = Some "-"%char) then - exp_value es else exp_value es) = n - 1).
    { rewrite Hv. destruct (Z.ltb_spec (n - 1) 0); [rewrite bool_decide_eq_true_2 by done|rewrite bool_decide_eq_false_2 by done]; lia. }
    rewrite Hexp. destruct (Z.ltb_spec 1 k) as [Hk|Hk]; cbn [default from_option id].
    + do 2 f_equal. unfold k. simpl length. lia.
    + unfold k in Hk. destruct ds as [|x l]; [|simpl in Hk; lia]. do 2 f_equal; unfold k; cbn [length]; lia || done.
Qed.

Lemma place_point_ok : placed (place_point (d :: ds) n).
Proof.
  unfold place_point. fold k. destruct (Z.leb_spec k n), (Z.leb_spec n 21); cbn [andb]; try (by apply place_integer);
    destruct (Z.ltb_spec 0 n); cbn [andb]; try (apply place_fraction; lia);
    destruct (Z.ltb_spec (-6) n), (Z.leb_spec n 0); cbn [andb]; try (apply place_small; lia); apply place_exponent.
Qed.
End place.

(** ** The printed number *)

Lemma cut_app b l s : b ∉ l → cut b (l ++ b :: s) = Some (l, s).
Proof.
  induction l as [|c l IH]; intros Hb; simpl; [by rewrite bool_decide_eq_true_2|].
  apply not_elem_of_cons in Hb as [Hc Hb]. rewrite bool_decide_eq_false_2 by congruence. by rewrite IH.
Qed.

Lemma cut_none b l : b ∉ l → cut b l = None.
Proof.
  induction l as [|c l IH]; intros Hb; simpl; [done|]. apply not_elem_of_cons in Hb as [Hc Hb].
  rewrite bool_decide_eq_false_2 by congruence. by rewrite IH.
Qed.

Lemma digits_without c l : is_digit c = false → digits l → c ∉ l.
Proof. intros Hc Hl Hin. unfold digits in Hl. rewrite Forall_forall in Hl. apply list_elem_of_In, Hl in Hin. congruence. Qed.

(** The formatted float splits into its digits and its exponent. *)
Lemma FormatFloat_parts f : is_float f → f < float_limit → ∃ d ds e j,
  cut "e"%char (FormatFloat_e f) = Some (d :: (if (1 <? length (d :: ds))%nat then "."%char :: ds else []), bytes_of (exponent_text e)) ∧
  digits (d :: ds) ∧ d ≠ "0"%char ∧ -900 < e < 900 ∧ e = j + Z.of_nat (length (d :: ds)) - 1 ∧
  decimal_float (dec_value (d :: ds)) j = Some f.
Proof.
  intros Hf Hlim. unfold FormatFloat_e. destruct (shortest f) as [c j] eqn:Hs. apply shortest_spec in Hs as (Hs & Hc & Hj); [|done|done].
  destruct (dec_digits_spec 20 c) as (D1 & D2 & D3 & d & ds & D4 & D5); [lia|]. rewrite D4 in *.
  exists d, ds, (j + Z.of_nat (length (d :: ds)) - 1), j. rewrite D2. split_and!; [|done|done|lia|lia|done|done].
  cbn [take drop]. rewrite take_0. rewrite app_assoc, cut_app; [done|].
  inversion D1 as [|? ? Hd Hds]; subst. apply not_elem_of_cons. split; [by intros <-|].
  destruct (1 <? _)%nat; [|apply not_elem_of_nil]. apply not_elem_of_cons. split; [done|by apply digits_without].
Qed.

Lemma remove_point d ds : digits (d :: ds) →
  remove_first "."%char (d :: (if (1 <? length (d :: ds))%nat then "."%char :: ds else [])) = d :: ds.
Proof.
  intros H. inversion H as [|? ? Hd Hds]; subst. assert (Hdot : d ≠ "."%char) by (by intros ->). unfold remove_first.
  destruct (1 <? length (d :: ds))%nat eqn:Hl.
  - change (d :: "."%char :: ds) with ([d] ++ "."%char :: ds)%list. rewrite cut_app; [done|]. intros Hin%list_elem_of_singleton. congruence.
  - rewrite cut_none by (intros Hin%list_elem_of_singleton; congruence). apply Nat.ltb_ge in Hl. simpl in Hl. destruct ds; [done|simpl in Hl; lia].
Qed.

Lemma ParseFloat_float lit f : ParseFloat lit = Some f → f ≠ 0 → is_float (Z.abs f) ∧ Z.abs f < float_limit.
Proof.
  unfold ParseFloat. destruct (lex_number lit) as [[n [|]]|] eqn:Hl; [|done|done]. intros H Hf.
  set (c := dec_value _) in *. set (j := (_ - _)%Z) in *. destruct (decimal_float c j) as [g|] eqn:Hd; [|done]. simpl in H. injection H as H.
  assert (Hg : g ≠ 0) by (intros ->; destruct (nm_neg n); lia).
  assert (Hc : 0 < c).
  { assert (0 ≤ c). { apply lex_number_sound in Hl as [_ [Hi Hfr _]]. apply dec_value_nonneg, list.Forall_app. split.
      - destruct Hi as [->|(x & ds & -> & Hx & _ & Hds)]; by repeat constructor.
      - destruct (nm_frac n) as [ds|]; [|constructor]. by apply Hfr. }
    destruct (Z.eq_dec c 0) as [Hc|]; [|lia]. rewrite Hc, decimal_float_zero in Hd. congruence. }
  destruct (decimal_float_float c j g Hc Hd Hg) as [Hfl Hlim].
  assert (0 < g) by (destruct Hfl as (m & s & -> & Hs & Hm); pose proof (Z.pow_pos_nonneg 2 s ltac:(lia) Hs); nia).
  assert (Z.abs f = g) as -> by (destruct (nm_neg n); lia). done.
Qed.

(** What [writeNumber] writes is a number with the value of the literal. *)
Lemma writeNumber_ok lit t : writeNumber lit = Ok t →
  ∃ nm, number_ok nm ∧ t = number_text nm ∧ ParseFloat t = ParseFloat (bytes_of lit).
Proof.
  unfold writeNumber. destruct (ParseFloat (bytes_of lit)) as [f|] eqn:Hp; [|done]. destruct (Z.eqb_spec f 0) as [->|Hf].
  - intros [= <-]. exists (mkNumber false ["0"%char] None None). split_and!; [|done|by vm_compute]. split; simpl; [by left|done|done].
  - destruct (ParseFloat_float _ _ Hp Hf) as [Hfl Hlim].
    destruct (FormatFloat_parts (Z.abs f) Hfl Hlim) as (d & ds & e & j & Hcut & Hds & Hd0 & He & Hej & Hdec). rewrite Hcut, String.string_of_list_ascii_of_string.
    destruct (exponents_fine e ltac:(lia)) as [-> _]. rewrite remove_point by done. intros [= <-]. inversion Hds as [|? ? Hd Hds']; subst.
    destruct (place_point_ok (f <? 0) d ds (j + Z.of_nat (length (d :: ds)) - 1 + 1) Hd Hds' Hd0 ltac:(lia)) as (nm & Hok & Htext & Hval).
    exists nm. split_and!; [done|by rewrite Htext|]. fold (signed (f <? 0) (place_point (d :: ds) (j + Z.of_nat (length (d :: ds)) - 1 + 1))). rewrite <- Htext, ParseFloat_number by done.
    rewrite Hval. replace (j + Z.of_nat (length (d :: ds)) - 1 + 1 - Z.of_nat (length (d :: ds))) with j by lia. rewrite Hdec. simpl. f_equal.
    destruct (Z.ltb_spec f 0); lia.
Qed.

Lemma writeNumber_total lit : is_Some (ParseFloat (bytes_of lit)) → ∃ t, writeNumber lit = Ok t.
Proof.
  intros [f Hp]. unfold writeNumber. rewrite Hp. destruct (Z.eqb_spec f 0) as [->|Hf]; [by eexists|].
  destruct (ParseFloat_float _ _ Hp Hf) as [Hfl Hlim].
  destruct (FormatFloat_parts (Z.abs f) Hfl Hlim) as (d & ds & e & j & Hcut & _ & _ & He & _). rewrite Hcut, String.string_of_list_ascii_of_string.
  destruct (exponents_fine e ltac:(lia)) as [-> _]. by eexists.
Qed.
