(* ===== verification/CanonicalParse.v ===== *)
(** * The parser

    Every token takes a byte, so the fuel of [parse_document] is enough; and what is
    parsed is well formed. *)

From S2P Require Import Prelude Errors Strconv Json Types Keyset Utf8 Float JsonText Canonical CanonicalStr CanonicalNum.
From Stdlib Require Import Ascii.
Open Scope string_scope.
Open Scope Z_scope.

(** ** Values the decoder can produce *)

#[warnings="-register-all"]
Inductive json_ok : json → Prop :=
| json_ok_null : json_ok JNull
| json_ok_bool b : json_ok (JBool b)
| json_ok_string s : valid_string s → json_ok (JString s)
| json_ok_number nm : number_ok nm → json_ok (JNumber (str (number_text nm)))
| json_ok_array items : Forall json_ok items → json_ok (JArray items)
| json_ok_object members : Forall valid_string members.*1 → NoDup members.*1 → Forall json_ok members.*2 → json_ok (JObject members).

(** ** Tokens take bytes *)

Lemma peek_sound s : ∃ sp, s = (sp ++ peek s)%list.
Proof. unfold peek. destruct (span is_space s) as [a b] eqn:H. apply span_sound in H as (-> & _ & _). by exists a. Qed.

Lemma peek_length s : (length (peek s) ≤ length s)%nat.
Proof. destruct (peek_sound s) as [sp Hs]. apply (f_equal length) in Hs. rewrite length_app in Hs. lia. Qed.

Lemma scan_string_length s raw rest : scan_string s = Some (raw, rest) → (length rest < length s)%nat.
Proof.
  remember (length s) as n eqn:Hn. assert (Hle : (length s ≤ n)%nat) by lia. clear Hn. revert s raw rest Hle.
  induction n as [|n IH]; intros [|c s1] raw rest Hle H; try done; [simpl in Hle; lia|]. simpl in Hle. cbn [scan_string] in H.
  case_bool_decide; [injection H as _ <-; lia|]. case_bool_decide.
  - destruct s1 as [|e s2]; [done|]. simpl in Hle. case_bool_decide.
    + destruct (scan_string s2) as [[r t]|] eqn:Hs; [|done]. injection H as _ <-. apply IH in Hs; lia.
    + case_bool_decide; [|done]. destruct s2 as [|h1 [|h2 [|h3 [|h4 s6]]]]; try done. simpl in Hle. destruct (_ && _); [|done].
      destruct (scan_string s6) as [[r t]|] eqn:Hs; [|done]. injection H as _ <-. apply IH in Hs; lia.
  - destruct (_ <? _)%N; [done|]. destruct (scan_string s1) as [[r t]|] eqn:Hs; [|done]. injection H as _ <-. apply IH in Hs; lia.
Qed.

Lemma strip_prefix_length p : ∀ s r, strip_prefix p s = Some r → length s = (length p + length r)%nat.
Proof.
  induction p as [|a p IH]; intros [|b s] r H; simpl in *; try done; try (by injection H as <-).
  case_bool_decide; [|done]. apply IH in H. lia.
Qed.

Lemma number_text_cons nm : number_ok nm → ∃ c r, number_text nm = c :: r ∧ (c = "-"%char ∨ is_digit c = true).
Proof.
  intros [Hi _ _]. unfold number_text. destruct (nm_neg nm); [by eexists _, _; split; [|left]|].
  destruct Hi as [->|(c & ds & -> & Hc & _)]; (eexists _, _; split; [done|by right]).
Qed.

Lemma lex_scalar_ok s v rest : lex_scalar s = Some (v, rest) → json_ok v ∧ (length rest < length s)%nat.
Proof.
  unfold lex_scalar. destruct s as [|c s]; [done|]. case_bool_decide.
  { destruct (scan_string s) as [[raw r]|] eqn:Hs; [|done]. intros [= <- <-]. apply scan_string_length in Hs.
    split; [constructor; apply unquote_valid|simpl; lia]. }
  do 3 (case_bool_decide; [destruct (strip_prefix _ _) as [r|] eqn:Hs; [|done]; intros [= <- <-];
    apply strip_prefix_length in Hs; split; [constructor|simpl in *; lia]|]).
  destruct (lex_number (c :: s)) as [[nm r]|] eqn:Hn; [|done]. intros [= <- <-]. apply lex_number_sound in Hn as [Heq Hok].
  split; [by constructor|]. destruct (number_text_cons nm Hok) as (x & l & Hx & _). rewrite Heq, length_app, Hx. simpl. lia.
Qed.

Definition token_ok (t : Token_) : Prop := match t with TScalar v => json_ok v | TDelim _ => True end.

Lemma Token_value_ok d t d' : Token_value d = Ok (t, d') → token_ok t ∧ (length (dec_rest d') < length (dec_rest d))%nat.
Proof.
  unfold Token_value. pose proof (peek_length (dec_rest d)) as Hp. destruct (peek (dec_rest d)) as [|c s] eqn:Hpk; [done|]. simpl in Hp.
  assert (Hopen : ∀ c st, open_delim c st d s = Ok (t, d') → token_ok t ∧ (length (dec_rest d') < length (dec_rest d))%nat).
  { intros x st. unfold open_delim. destruct (tokenValueAllowed _); [|done]. intros [= <- <-]. simpl. lia. }
  assert (Hclose : ∀ c sts, close_delim c sts d s = Ok (t, d') → token_ok t ∧ (length (dec_rest d') < length (dec_rest d))%nat).
  { intros x sts. unfold close_delim. destruct (bool_decide _), (dec_stack d); try done. intros [= <- <-]. simpl. lia. }
  do 2 (case_bool_decide; [apply Hopen|case_bool_decide; [apply Hclose|]]).
  assert (Hscal : ∀ st, match lex_scalar (c :: s) with Some (v, rest) => Ok (TScalar v, mkDecoder st (dec_stack d) rest) | None => Err SyntaxError end = Ok (t, d') →
    token_ok t ∧ (length (dec_rest d') < length (dec_rest d))%nat).
  { intros st. destruct (lex_scalar (c :: s)) as [[v rest]|] eqn:Hl; [|done]. intros [= <- <-]. apply lex_scalar_ok in Hl as [? Hl]. simpl in *. split; [done|lia]. }
  destruct (_ && _); [by apply Hscal|]. destruct (tokenValueAllowed _); [by apply Hscal|done].
Qed.

Lemma Token_ok d t d' : Token d = Ok (t, d') → token_ok t ∧ (length (dec_rest d') < length (dec_rest d))%nat.
Proof.
  unfold Token. pose proof (peek_length (dec_rest d)) as Hp. destruct (peek (dec_rest d)) as [|c s] eqn:Hpk; [done|]. simpl in Hp.
  repeat case_bool_decide; try done; intros Ht; apply Token_value_ok in Ht as [? Ht]; simpl in *; (split; [done|lia]).
Qed.

(** ** The parser: size, fuel and well-formedness *)

Definition parsed (bound : nat) (r : res (json * Decoder)) : Prop :=
  match r with Ok (v, d') => json_ok v ∧ (length (dec_rest d') < bound)%nat | Err _ => True end.

Definition members_ok (acc : list (string * json)) : Prop := Forall valid_string acc.*1 ∧ NoDup acc.*1 ∧ Forall json_ok acc.*2.

Lemma members_ok_snoc acc k v : members_ok acc → valid_string k → k ∉ acc.*1 → json_ok v → members_ok (acc ++ [(k, v)]).
Proof.
  intros (H1 & H2 & H3) Hk Hnew Hv. unfold members_ok. rewrite !fmap_app. simpl. split_and!.
  - apply list.Forall_app. split; [done|by repeat constructor].
  - apply list.NoDup_app. split_and!; [done| |apply list.NoDup_singleton]. intros x Hx ->%list_elem_of_singleton. done.
  - apply list.Forall_app. split; [done|by repeat constructor].
Qed.

Lemma parse_sound n :
  (∀ d, parsed (length (dec_rest d)) (parseValue n d)) ∧
  (∀ d acc, members_ok acc → parsed (length (dec_rest d)) (parseMembers n d acc)) ∧
  (∀ d acc, Forall json_ok acc → parsed (length (dec_rest d)) (parseItems n d acc)).
Proof.
  induction n as [|n (IHv & IHm & IHi)]; [done|]. split_and!.
  - intros d. cbn [parseValue]. destruct (Token d) as [[[c|v] d1]|] eqn:Ht; [| |done]; apply Token_ok in Ht as [Hok Hlen].
    + case_bool_decide; [|case_bool_decide; [|done]].
      * specialize (IHm d1 [] ltac:(repeat constructor)). destruct (parseMembers n d1 []) as [[v d2]|]; [|done]. destruct IHm. split; [done|lia].
      * specialize (IHi d1 [] ltac:(constructor)). destruct (parseItems n d1 []) as [[v d2]|]; [|done]. destruct IHi. split; [done|lia].
    + by split.
  - intros d acc Hacc. cbn [parseMembers]. destruct (More d).
    + destruct (Token d) as [[[c|v] d1]|] eqn:Ht; [done| |done]; apply Token_ok in Ht as [Hok Hlen].
      destruct v as [| | |key| |]; try done. case_bool_decide as Hk; [done|]. specialize (IHv d1).
      destruct (parseValue n d1) as [[v d2]|]; [|done]. destruct IHv as [Hv Hl2].
      inversion Hok; subst. specialize (IHm d2 (acc ++ [(key, v)])%list ltac:(by apply members_ok_snoc)).
      destruct (parseMembers n d2 _) as [[v' d3]|]; [|done]. destruct IHm. split; [done|lia].
    + destruct (Token d) as [[t d1]|] eqn:Ht; [|done]. apply Token_ok in Ht as [_ Hlen]. destruct Hacc as (? & ? & ?). split; [by constructor|done].
  - intros d acc Hacc. cbn [parseItems]. destruct (More d).
    + specialize (IHv d). destruct (parseValue n d) as [[v d2]|]; [|done]. destruct IHv as [Hv Hl2].
      specialize (IHi d2 (acc ++ [v])%list ltac:(apply list.Forall_app; by repeat constructor)).
      destruct (parseItems n d2 _) as [[v' d3]|]; [|done]. destruct IHi. split; [done|lia].
    + destruct (Token d) as [[t d1]|] eqn:Ht; [|done]. apply Token_ok in Ht as [_ Hlen]. split; [by constructor|done].
Qed.

(** More fuel changes nothing. *)
Lemma parse_mono n :
  (∀ d, parseValue n d ≠ Err out_of_fuel → parseValue (S n) d = parseValue n d) ∧
  (∀ d acc, parseMembers n d acc ≠ Err out_of_fuel → parseMembers (S n) d acc = parseMembers n d acc) ∧
  (∀ d acc, parseItems n d acc ≠ Err out_of_fuel → parseItems (S n) d acc = parseItems n d acc).
Proof.
  induction n as [|n (IHv & IHm & IHi)]; [done|]. split_and!.
  - intros d H. cbn [parseValue] in H. remember (S n) as n1. cbn [parseValue]. subst n1. cbn [parseValue].
    destruct (Token d) as [[[c|v] d1]|]; [|done|done]. repeat case_bool_decide; [by apply IHm|by apply IHi|done].
  - intros d acc H. cbn [parseMembers] in H. remember (S n) as n1. cbn [parseMembers]. subst n1. cbn [parseMembers].
    destruct (More d); [|done]. destruct (Token d) as [[[c|v] d1]|]; [done| |done]. destruct v; try done. case_bool_decide; [done|].
    destruct (parseValue n d1) as [[v d2]|e] eqn:Hv.
    + rewrite IHv, Hv by (rewrite Hv; done). by apply IHm.
    + rewrite IHv, Hv by (rewrite Hv; intros [= ->]; by apply H). done.
  - intros d acc H. cbn [parseItems] in H. remember (S n) as n1. cbn [parseItems]. subst n1. cbn [parseItems].
    destruct (More d); [|done]. destruct (parseValue n d) as [[v d2]|e] eqn:Hv.
    + rewrite IHv, Hv by (rewrite Hv; done). by apply IHi.
    + rewrite IHv, Hv by (rewrite Hv; intros [= ->]; by apply H). done.
Qed.

(** Enough fuel. *)
Lemma parse_enough n :
  (∀ d, (2 * length (dec_rest d) + 1 ≤ n)%nat → parseValue n d ≠ Err out_of_fuel) ∧
  (∀ d acc, members_ok acc → (2 * length (dec_rest d) + 2 ≤ n)%nat → parseMembers n d acc ≠ Err out_of_fuel) ∧
  (∀ d acc, Forall json_ok acc → (2 * length (dec_rest d) + 2 ≤ n)%nat → parseItems n d acc ≠ Err out_of_fuel).
Proof.
  induction n as [|n (IHv & IHm & IHi)]; [split_and!; intros; lia|]. destruct (parse_sound n) as (Sv & _ & _). split_and!.
  - intros d Hn. cbn [parseValue]. destruct (Token d) as [[[c|v] d1]|] eqn:Ht; [|done|done]. apply Token_ok in Ht as [_ Hlen].
    repeat case_bool_decide; [apply IHm; [repeat constructor|lia]|apply IHi; [constructor|lia]|done].
  - intros d acc Hacc Hn. cbn [parseMembers]. destruct (More d); [|by destruct (Token d) as [[? ?]|]].
    destruct (Token d) as [[[c|v] d1]|] eqn:Ht; [done| |done]. apply Token_ok in Ht as [Hok Hlen]. destruct v as [| | |key| |]; try done.
    case_bool_decide; [done|]. specialize (IHv d1 ltac:(lia)). specialize (Sv d1). destruct (parseValue n d1) as [[v d2]|e]; [|congruence].
    destruct Sv as [Hv Hl]. inversion Hok; subst. apply IHm; [by apply members_ok_snoc|lia].
  - intros d acc Hacc Hn. cbn [parseItems]. destruct (More d); [|by destruct (Token d) as [[? ?]|]].
    specialize (IHv d ltac:(lia)). specialize (Sv d). destruct (parseValue n d) as [[v d2]|e]; [|congruence].
    destruct Sv as [Hv Hl]. apply IHi; [apply list.Forall_app; by repeat constructor|lia].
Qed.

Lemma parse_mono_le n m d : (n ≤ m)%nat → parseValue n d ≠ Err out_of_fuel → parseValue m d = parseValue n d.
Proof.
  induction 1 as [|m Hle IH]; intros H; [done|]. rewrite (proj1 (parse_mono m)); [by apply IH|]. by rewrite IH.
Qed.

(** Any result some amount of fuel gives is the result. *)
Lemma parse_fuel_ok s n r : parseValue n (mkDecoder tokenTopValue [] s) = Ok r → parseValue (parse_fuel s) (mkDecoder tokenTopValue [] s) = Ok r.
Proof.
  intros H. set (d := mkDecoder tokenTopValue [] s) in *. assert (Hf : parseValue (parse_fuel s) d ≠ Err out_of_fuel) by (apply parse_enough; unfold parse_fuel; simpl; lia).
  destruct (Nat.le_ge_cases n (parse_fuel s)) as [Hle|Hle].
  - rewrite (parse_mono_le n (parse_fuel s) d Hle); [done|]. by rewrite H.
  - rewrite <- H. symmetry. by apply parse_mono_le.
Qed.

Lemma parse_document_ok raw v : parse_document raw = Ok v → json_ok v.
Proof.
  unfold parse_document. destruct (parse_sound (parse_fuel raw)) as (Sv & _). specialize (Sv (mkDecoder tokenTopValue [] raw)).
  destruct (parseValue _ _) as [[v' d]|]; [|done]. destruct Sv as [Hv _]. destruct (Token d) as [?|e]; [done|]. case_bool_decide; [|done].
  by intros [= <-].
Qed.

(** The parser never gives up for lack of fuel. *)
Lemma parse_document_total raw : parse_document raw ≠ Err out_of_fuel.
Proof.
  unfold parse_document. pose proof (proj1 (parse_enough (parse_fuel raw)) (mkDecoder tokenTopValue [] raw)) as H.
  destruct (parseValue _ _) as [[v d]|e]; [|intros [= ->]; apply H; [unfold parse_fuel; simpl; lia|done]].
  destruct (Token d) as [?|e]; [done|]. by case_bool_decide.
Qed.
