(* ===== verification/CanonicalSpec.v ===== *)
(** * What the canonical form decides

    The text [writeValue] produces parses back to the same value, up to the order of
    members and the way numbers are written, so two bodies have the same canonical
    text exactly when they mean the same. *)

From S2P Require Import Prelude Errors Strconv Json Types Keyset Utf8 Float JsonText Canonical.
From S2P Require Import CanonicalStr CanonicalNum CanonicalParse.
From Stdlib Require Import Ascii.
Open Scope string_scope.
Open Scope Z_scope.

(** Induction through arrays and objects. *)
Section json_induction.
Context (P : json → Prop) (Hnull : P JNull) (Hbool : ∀ b, P (JBool b)) (Hnumber : ∀ lit, P (JNumber lit)) (Hstring : ∀ s, P (JString s)).
Context (Harray : ∀ items, Forall P items → P (JArray items)) (Hobject : ∀ members, Forall P members.*2 → P (JObject members)).

Fixpoint json_nested_ind (v : json) : P v :=
  match v with
  | JNull => Hnull
  | JBool b => Hbool b
  | JNumber lit => Hnumber lit
  | JString s => Hstring s
  | JArray items => Harray items ((fix go l : Forall P l :=
      match l with [] => List.Forall_nil P | x :: l => List.Forall_cons _ x l (json_nested_ind x) (go l) end) items)
  | JObject members => Hobject members ((fix go (l : list (string * json)) : Forall P l.*2 :=
      match l with [] => List.Forall_nil P | m :: l => List.Forall_cons _ m.2 l.*2 (json_nested_ind m.2) (go l) end) members)
  end.
End json_induction.

(** ** The order of members *)

#[export] Instance units_order : KeyOrder units_ltb.
Proof.
  split.
  - induction k as [|x k IH]; [done|]. simpl. by rewrite N.ltb_irrefl, N.eqb_refl.
  - induction a as [|x a IH]; intros [|y b] [|z c] H1 H2; simpl in *; try done.
    rewrite orb_true_iff, andb_true_iff, N.ltb_lt, N.eqb_eq in *. destruct H1 as [H1|[-> H1]], H2 as [H2|[-> H2]]; try (left; lia). right. eauto.
  - induction a as [|x a IH]; intros [|y b] H1 H2; simpl in *; try done.
    rewrite orb_false_iff, andb_false_iff, N.ltb_ge, N.eqb_neq in *. destruct H1 as [H1 H1'], H2 as [H2 H2']. assert (x = y) as -> by lia.
    f_equal. apply IH; naive_solver.
Qed.

Lemma units_inj a b : valid_string a → valid_string b → units a = units b → a = b.
Proof.
  intros Ha Hb H. apply utf16_inj in H; [|apply runes_scalars..]. unfold valid_string in *.
  rewrite <- (str_bytes a), <- (str_bytes b), Ha, Hb. by rewrite H.
Qed.

Lemma units_NoDup ks : Forall valid_string ks → NoDup ks → NoDup (units <$> ks).
Proof.
  intros Hv Hnd. induction Hnd as [|k ks Hk Hnd IH]; [constructor|]. apply list.Forall_cons in Hv as [Hv Hvs]. rewrite fmap_cons. constructor; [|by apply IH].
  intros (k' & Heq & Hin)%list_elem_of_fmap. apply Hk. rewrite Forall_forall in Hvs.
  rewrite (units_inj k k'); [done|done|by apply Hvs, list_elem_of_In|done].
Qed.

Definition member_unit {A} (m : string * A) : list N := units m.1.

Lemma member_units {A} (ms : list (string * A)) : member_unit <$> ms = units <$> ms.*1.
Proof. by rewrite <- list_fmap_compose. Qed.

Lemma sort_members_perm {A} (ms : list (string * A)) : sort_members ms ≡ₚ ms.
Proof. apply sort_by_perm. Qed.

(** Changing the values does not change the order. *)
Lemma sort_members_map {A B} (g : string * A → string * B) (ms : list (string * A)) :
  (∀ m, (g m).1 = m.1) → NoDup (units <$> ms.*1) → sort_members (g <$> ms) = g <$> sort_members ms.
Proof.
  intros Hg Hnd. apply (sorted_same_elements member_unit units_ltb 1 ltac:(lia)).
  - apply (in_order_lt member_unit units_ltb). rewrite <- list_fmap_compose. erewrite list_fmap_ext; [rewrite <- member_units in Hnd; exact Hnd|].
    intros i m _. unfold member_unit. simpl. by rewrite Hg.
  - assert (Hs : StronglySorted (key_lt member_unit units_ltb) (sort_members ms)) by (apply (in_order_lt member_unit units_ltb); by rewrite member_units).
    induction Hs as [|m l Hs IH Hall]; [constructor|]. rewrite fmap_cons. constructor; [done|]. rewrite Forall_fmap.
    eapply List.Forall_impl; [|exact Hall]. intros m' Hm. unfold key_lt, member_unit in *. simpl. by rewrite !Hg.
  - intros a. unfold sort_members at 1. rewrite in_order_elem, !list_elem_of_fmap. setoid_rewrite in_order_elem. done.
Qed.

(** ** The normal form *)

Definition with_value (g : json → json) (m : string * json) : string * json := (m.1, g m.2).

(** Members sorted, numbers as they are printed. *)
Fixpoint canon (v : json) : json :=
  match v with
  | JNumber lit => JNumber (match writeNumber lit with Ok t => str t | Err _ => lit end)
  | JArray items => JArray (canon <$> items)
  | JObject members => JObject (sort_members ((λ m, (m.1, canon m.2)) <$> members))
  | v => v
  end.

(** What the loops of [writeValue] produce. *)
Definition item_written (v : json) (t : text) : Prop := writeValue v = Ok t.
Definition member_written (m : string * json) (r : string * text) : Prop := m.1 = r.1 ∧ writeValue m.2 = Ok r.2.

Lemma write_array items t : writeValue (JArray items) = Ok t ↔
  ∃ ts, Forall2 item_written items ts ∧ t = ("["%char :: intercalate ts ++ ["]"%char])%list.
Proof.
  simpl. assert (Hgo : ∀ l ts, (fix go (l : list json) : res (list text) :=
      match l with [] => Ok [] | x :: l => t ← writeValue x; ts ← go l; Ok (t :: ts) end) l = Ok ts ↔ Forall2 item_written l ts).
  { induction l as [|x l IH]; intros ts; [split; [by intros [= <-]|by inversion 1]|]. split.
    - intros H. apply result_bind_ok in H as (t1 & H1 & H). apply result_bind_ok in H as (ts1 & H2 & H). injection H as <-.
      constructor; [done|]. by apply IH.
    - inversion 1 as [|? t1 ? ts1 H1 H2]; subst. unfold item_written in H1. rewrite H1. simpl. apply IH in H2. by rewrite H2. }
  split.
  - intros H. apply result_bind_ok in H as (ts & Hts & H). injection H as <-. exists ts. split; [by apply Hgo|done].
  - intros (ts & Hts & ->). apply Hgo in Hts. by rewrite Hts.
Qed.

Lemma write_object members t : writeValue (JObject members) = Ok t ↔
  ∃ ms, Forall2 member_written members ms ∧ t = ("{"%char :: intercalate (member_text <$> sort_members ms) ++ ["}"%char])%list.
Proof.
  simpl. assert (Hgo : ∀ l ms, (fix go (l : list (string * json)) : res (list (string * text)) :=
      match l with [] => Ok [] | (k, x) :: l => t ← writeValue x; ts ← go l; Ok ((k, t) :: ts) end) l = Ok ms ↔ Forall2 member_written l ms).
  { induction l as [|[k x] l IH]; intros ms; [split; [by intros [= <-]|by inversion 1]|]. split.
    - intros H. apply result_bind_ok in H as (t1 & H1 & H). apply result_bind_ok in H as (ts1 & H2 & H). injection H as <-.
      constructor; [done|]. by apply IH.
    - inversion 1 as [|? [k1 t1] ? ts1 [H1 H1'] H2]; subst. simpl in *. subst. rewrite H1'. simpl. apply IH in H2. by rewrite H2. }
  split.
  - intros H. apply result_bind_ok in H as (ts & Hts & H). injection H as <-. exists ts. split; [by apply Hgo|done].
  - intros (ts & Hts & ->). apply Hgo in Hts. by rewrite Hts.
Qed.

(** Sorting rendered members is rendering sorted members. *)
Lemma sorted_written members ms : Forall2 member_written members ms → NoDup (units <$> members.*1) →
  Forall2 member_written (sort_members members) (sort_members ms).
Proof.
  intros Hw Hnd.
  set (tri := zip_with (λ m (r : string * text), (m.1, (m.2, r.2))) members ms).
  assert (H1 : members = (λ m, (m.1, m.2.1)) <$> tri ∧ ms = (λ m, (m.1, m.2.2)) <$> tri ∧ Forall (λ m, writeValue m.2.1 = Ok m.2.2) tri).
  { unfold tri. clear tri Hnd. induction Hw as [|[k v] [k' t] members ms [Hk Hv] Hw (IH1 & IH2 & IH3)]; [done|]. simpl in *. subst k'.
    split_and!; [f_equal; exact IH1|f_equal; exact IH2|by constructor]. }
  clearbody tri. destruct H1 as (-> & -> & Hall). assert (Hk : units <$> tri.*1 = units <$> ((λ m : string * (json * text), (m.1, m.2.1)) <$> tri).*1) by (by rewrite <- !list_fmap_compose).
  rewrite <- Hk in Hnd. rewrite !sort_members_map by done.
  assert (Hs : Forall (λ m, writeValue m.2.1 = Ok m.2.2) (sort_members tri)) by (by rewrite sort_members_perm).
  induction Hs as [|m l Hm Hs IH]; [constructor|]. rewrite !fmap_cons. by constructor.
Qed.

(** ** Parsing what was written *)

(** Where a value can start. *)
Definition starts_value (t : text) : Prop :=
  ∃ c r, t = c :: r ∧ between 33 126 c = true ∧ c ∉ [":"; ","; "]"; "}"]%char.

(** However the decoder got to the text, the value comes out. *)
Definition parses_to (t : text) (v : json) : Prop := ∀ d st stack rest,
  tokenValueAllowed st = true → ends_number rest → Token d = Token_value (mkDecoder st stack (t ++ rest)) →
  ∃ n0, ∀ n, (n0 ≤ n)%nat → parseValue n d = Ok (v, mkDecoder (tokenValueEnd st) stack rest).

Lemma peek_nonspace c s : between 33 126 c = true → peek (c :: s) = c :: s.
Proof.
  intros H. assert (Hsp : is_space c = false).
  { unfold is_space. rewrite bool_decide_eq_false. intros Hc. repeat (apply elem_of_cons in Hc as [->|Hc]; [done|]). by apply not_elem_of_nil in Hc. }
  unfold peek. simpl. by rewrite Hsp.
Qed.

Lemma Token_direct st stack t rest : starts_value t → Token (mkDecoder st stack (t ++ rest)) = Token_value (mkDecoder st stack (t ++ rest)).
Proof.
  intros (c & r & -> & Hsp & Hc). unfold Token. cbn [dec_rest app]. rewrite peek_nonspace by done.
  rewrite !not_elem_of_cons in Hc. destruct Hc as (H1 & H2 & _). by rewrite !bool_decide_eq_false_2 by done.
Qed.

Lemma More_value st stack t rest : starts_value t → More (mkDecoder st stack (t ++ rest)) = true.
Proof.
  intros (c & r & -> & Hsp & Hc). unfold More. cbn [dec_rest app]. rewrite peek_nonspace by done.
  rewrite !not_elem_of_cons in Hc. destruct Hc as (_ & _ & H3 & H4 & _). by rewrite !bool_decide_eq_false_2 by done.
Qed.

Lemma allowed_not_key st : tokenValueAllowed st = true → bool_decide (st ∈ [tokenObjectStart; tokenObjectKey]) = false.
Proof. by destruct st. Qed.

Lemma scalar_parses t v : starts_value t → head t ≠ Some "["%char → head t ≠ Some "{"%char →
  (∀ rest, ends_number rest → lex_scalar (t ++ rest) = Some (v, rest)) → parses_to t v.
Proof.
  intros (c & r & -> & Hsp & Hc) H1 H2 Hlex d st stack rest Hst Hrest Htok. exists 1%nat. intros [|n] Hn; [lia|]. cbn [parseValue].
  rewrite Htok. unfold Token_value. cbn [dec_rest app]. rewrite peek_nonspace by done. rewrite !not_elem_of_cons in Hc. destruct Hc as (_ & _ & H3 & H4 & _).
  simpl in H1, H2. rewrite !(bool_decide_eq_false_2 (c = _)) by congruence. cbn [dec_state dec_stack]. rewrite allowed_not_key, andb_false_r, Hst by done.
  specialize (Hlex rest Hrest). cbn [app] in Hlex. by rewrite Hlex.
Qed.

(** *** Scalars *)

Lemma literal_parses s v : v ∈ [JNull; JBool true; JBool false] → writeValue v = Ok (bytes_of s) → parses_to (bytes_of s) v.
Proof.
  intros Hv Hw. repeat (apply elem_of_cons in Hv as [->|Hv]); try (by apply not_elem_of_nil in Hv); injection Hw as Hw; rewrite <- Hw;
    (apply scalar_parses; [eexists _, _; split_and!; [reflexivity|reflexivity|set_solver]|done|done|done]).
Qed.

Lemma writeString_starts s : starts_value (writeString s).
Proof. eexists (chr 34), _. split_and!; [reflexivity|reflexivity|]. set_solver. Qed.

Lemma string_parses s : valid_string s → parses_to (writeString s) (JString s).
Proof.
  intros Hs. apply scalar_parses; [apply writeString_starts|done|done|]. intros rest _. by apply lex_written_string.
Qed.

Lemma number_start c : c = "-"%char ∨ is_digit c = true → between 33 126 c = true ∧
  c ∉ [":"; ","; "]"; "}"; "["; "{"; "034"; "t"; "f"; "n"]%char.
Proof.
  intros [->|Hc]; [split; [done|set_solver]|]. split.
  - unfold is_digit in Hc. apply between_spec in Hc. apply between_true; lia.
  - intros H. repeat (apply elem_of_cons in H as [->|H]; [done|]). by apply not_elem_of_nil in H.
Qed.

Lemma number_parses nm : number_ok nm → parses_to (number_text nm) (JNumber (str (number_text nm))).
Proof.
  intros Hok. destruct (number_text_cons nm Hok) as (c & r & Htext & Hc). apply number_start in Hc as [Hsp Hc]. rewrite !not_elem_of_cons in Hc.
  destruct Hc as (? & ? & ? & ? & ? & ? & ? & ? & ? & ? & _). apply scalar_parses.
  - exists c, r. split_and!; [done|done|]. rewrite !not_elem_of_cons. split_and!; done || apply not_elem_of_nil.
  - rewrite Htext. simpl. congruence.
  - rewrite Htext. simpl. congruence.
  - intros rest Hrest. pose proof (lex_number_app nm rest Hok Hrest) as Hlex. rewrite Htext in *. unfold lex_scalar. cbn [app] in *.
    rewrite !(bool_decide_eq_false_2 (c = _)) by congruence. rewrite Hlex. simpl. by rewrite Htext.
Qed.

(** *** Arrays *)

Lemma intercalate_cons t ts : intercalate (t :: ts) = (t ++ concat ((λ t, ","%char :: t) <$> ts))%list.
Proof.
  revert t. induction ts as [|t' ts IH]; intros t; [simpl; by rewrite app_nil_r|].
  change (intercalate (t :: t' :: ts)) with (t ++ ","%char :: intercalate (t' :: ts))%list. by rewrite IH.
Qed.

(** After a value comes a comma or the end. *)
Lemma tail_ends ts close rest : close ∈ ["]"; "}"]%char →
  ends_number (concat ((λ t, ","%char :: t) <$> ts) ++ close :: rest).
Proof.
  intros Hc. destruct ts as [|t ts]; [|done]. simpl. repeat (apply elem_of_cons in Hc as [->|Hc]; [done|]). by apply not_elem_of_nil in Hc.
Qed.

Lemma items_parse st stack rest : ∀ vts acc, Forall (λ vt : json * text, starts_value vt.2 ∧ parses_to vt.2 vt.1) vts →
  ∃ n0, ∀ n, (n0 ≤ n)%nat →
    parseItems n (mkDecoder tokenArrayComma (st :: stack) (concat ((λ t, ","%char :: t) <$> vts.*2) ++ "]"%char :: rest)) acc =
      Ok (JArray (acc ++ vts.*1), mkDecoder (tokenValueEnd st) stack rest).
Proof.
  induction vts as [|[v t] vts IH]; intros acc Hall.
  - exists 1%nat. intros [|n] Hn; [lia|]. simpl. by rewrite app_nil_r.
  - apply list.Forall_cons in Hall as [[Hst Hp] Hall]. simpl in Hst, Hp. destruct (IH (acc ++ [v])%list Hall) as [n1 Hn1].
    set (more := (concat ((λ t, ","%char :: t) <$> vts.*2) ++ "]"%char :: rest)%list).
    set (d := mkDecoder tokenArrayComma (st :: stack) (concat ((λ t, ","%char :: t) <$> ((v, t) :: vts).*2) ++ "]"%char :: rest)).
    assert (Hd : dec_rest d = ","%char :: t ++ more) by (unfold d; simpl; unfold more; by rewrite <- app_assoc).
    destruct (Hp d tokenArrayValue (st :: stack) more) as [n2 Hn2]; [done|apply tail_ends; set_solver| |].
    { unfold Token. rewrite Hd. by rewrite peek_nonspace. }
    exists (S (n1 + n2)). intros [|n] Hn; [lia|]. cbn [parseItems].
    assert (Hmore : More d = true) by (unfold More; rewrite Hd; by rewrite peek_nonspace). rewrite Hmore, Hn2 by lia.
    rewrite Hn1 by lia. by rewrite <- app_assoc.
Qed.

Lemma array_parses vts : Forall (λ vt : json * text, starts_value vt.2 ∧ parses_to vt.2 vt.1) vts →
  parses_to ("["%char :: intercalate vts.*2 ++ ["]"%char]) (JArray vts.*1).
Proof.
  intros Hall d st stack rest Hst Hrest Htok.
  assert (Hop : Token d = Ok (TDelim "["%char, mkDecoder tokenArrayStart (st :: stack) (intercalate vts.*2 ++ "]"%char :: rest))).
  { rewrite Htok. unfold Token_value. cbn [dec_rest app]. rewrite peek_nonspace by done. rewrite bool_decide_eq_true_2 by done.
    unfold open_delim. cbn [dec_state dec_stack]. rewrite Hst. by rewrite <- app_assoc. }
  destruct vts as [|[v t] vts].
  - exists 2%nat. intros [|[|n]] Hn; [lia|lia|]. cbn [parseValue]. rewrite Hop. rewrite bool_decide_eq_false_2, bool_decide_eq_true_2 by done. by simpl.
  - apply list.Forall_cons in Hall as [[Hs Hp] Hall]. simpl in Hs, Hp.
    set (more := (concat ((λ t, ","%char :: t) <$> vts.*2) ++ "]"%char :: rest)%list).
    rewrite !fmap_cons, intercalate_cons, <- app_assoc in Hop. cbn [snd] in Hop. fold more in Hop.
    destruct (Hp (mkDecoder tokenArrayStart (st :: stack) (t ++ more)) tokenArrayStart (st :: stack) more) as [n1 Hn1]; [done|apply tail_ends; set_solver|by apply Token_direct|].
    destruct (items_parse st stack rest vts [v] Hall) as [n2 Hn2].
    exists (S (S (n1 + n2))). intros [|[|n]] Hn; [lia|lia|]. cbn [parseValue]. rewrite Hop. rewrite bool_decide_eq_false_2, bool_decide_eq_true_2 by done.
    cbn [parseItems]. rewrite More_value by done. rewrite Hn1 by lia. cbn [tokenValueEnd app]. by rewrite Hn2 by lia.
Qed.

(** *** Objects *)

Lemma key_token st stack k r : st ∈ [tokenObjectStart; tokenObjectKey] → valid_string k →
  Token_value (mkDecoder st stack (writeString k ++ r)) = Ok (TScalar (JString k), mkDecoder tokenObjectColon stack r).
Proof.
  intros Hst Hk. pose proof (lex_written_string k r Hk) as Hlex. destruct (writeString_starts k) as (c & l & Heq & Hsp & _).
  assert (Hc : c = chr 34) by (unfold writeString in Heq; cbn [app] in Heq; by injection Heq as <- _). subst c.
  unfold Token_value. cbn [dec_rest]. rewrite Heq in *. cbn [app] in *. rewrite peek_nonspace by done. cbn [dec_state dec_stack].
  rewrite !(bool_decide_eq_false_2 (chr 34 = _)) by done. rewrite (bool_decide_eq_true_2 (st ∈ _)) by done.
  change (bool_decide (chr 34 = "034"%char)) with true. cbn [andb]. by rewrite Hlex.
Qed.

Definition kvt : Type := string * (json * text).
Definition kvt_ok (m : kvt) : Prop := valid_string m.1 ∧ starts_value m.2.2 ∧ parses_to m.2.2 m.2.1.
Definition kv (m : kvt) : string * json := (m.1, m.2.1).
Definition kt (m : kvt) : string * text := (m.1, m.2.2).

(** One member, from its name on. *)
Lemma member_parses (m : kvt) d st stack more : kvt_ok m → st ∈ [tokenObjectStart; tokenObjectKey] → ends_number more →
  Token d = Token_value (mkDecoder st stack (member_text (kt m) ++ more)) → More d = true →
  ∃ n0, ∀ n acc, (n0 ≤ n)%nat → m.1 ∉ acc.*1 →
    parseMembers (S n) d acc = parseMembers n (mkDecoder tokenObjectComma stack more) (acc ++ [kv m]).
Proof.
  destruct m as [k [v t]]. intros (Hk & Hs & Hp) Hst Hmore Htok Hm. simpl in *.
  assert (Hkey : Token d = Ok (TScalar (JString k), mkDecoder tokenObjectColon stack (":"%char :: t ++ more))).
  { rewrite Htok. unfold member_text. simpl. rewrite <- app_assoc. by apply key_token. }
  destruct (Hp (mkDecoder tokenObjectColon stack (":"%char :: t ++ more)) tokenObjectValue stack more) as [n0 Hn0]; [done|done| |].
  { unfold Token. cbn [dec_rest]. by rewrite peek_nonspace. }
  exists n0. intros n acc Hn Hnew. cbn [parseMembers]. rewrite Hm, Hkey. rewrite bool_decide_eq_false_2 by done. by rewrite Hn0.
Qed.

Lemma members_parse st stack rest : ∀ (ms : list kvt) acc, Forall kvt_ok ms → NoDup (acc.*1 ++ ms.*1) →
  ∃ n0, ∀ n, (n0 ≤ n)%nat →
    parseMembers n (mkDecoder tokenObjectComma (st :: stack) (concat ((λ t, ","%char :: t) <$> (member_text <$> (kt <$> ms))) ++ "}"%char :: rest)) acc =
      Ok (JObject (acc ++ (kv <$> ms)), mkDecoder (tokenValueEnd st) stack rest).
Proof.
  induction ms as [|m ms IH]; intros acc Hall Hnd.
  - exists 1%nat. intros [|n] Hn; [lia|]. simpl. by rewrite app_nil_r.
  - apply list.Forall_cons in Hall as [Hm Hall].
    assert (Hnew : m.1 ∉ acc.*1).
    { apply list.NoDup_app in Hnd as (_ & Hnd & _). intros Hin. apply (Hnd _ Hin). rewrite fmap_cons. set_solver. }
    destruct (IH (acc ++ [kv m])%list Hall) as [n1 Hn1].
    { rewrite fmap_app, <- app_assoc. exact Hnd. }
    set (more := (concat ((λ t, ","%char :: t) <$> (member_text <$> (kt <$> ms))) ++ "}"%char :: rest)%list).
    set (d := mkDecoder _ _ _).
    assert (Hd : dec_rest d = ","%char :: member_text (kt m) ++ more) by (unfold d; simpl; unfold more; by rewrite <- app_assoc).
    destruct (member_parses m d tokenObjectKey (st :: stack) more Hm) as [n2 Hn2]; [set_solver|apply tail_ends; set_solver| | |].
    { unfold Token. rewrite Hd. by rewrite peek_nonspace. }
    { unfold More. rewrite Hd. by rewrite peek_nonspace. }
    exists (S (n1 + n2)). intros [|n] Hn; [lia|]. rewrite Hn2 by (done || lia). rewrite Hn1 by lia. by rewrite <- app_assoc.
Qed.

Lemma object_parses (ms : list kvt) : Forall kvt_ok ms → NoDup ms.*1 →
  parses_to ("{"%char :: intercalate (member_text <$> (kt <$> ms)) ++ ["}"%char]) (JObject (kv <$> ms)).
Proof.
  intros Hall Hnd d st stack rest Hst Hrest Htok.
  assert (Hop : Token d = Ok (TDelim "{"%char, mkDecoder tokenObjectStart (st :: stack) (intercalate (member_text <$> (kt <$> ms)) ++ "}"%char :: rest))).
  { rewrite Htok. unfold Token_value. cbn [dec_rest app]. rewrite peek_nonspace by done. rewrite !(bool_decide_eq_false_2 ("{"%char = _)) by done.
    rewrite bool_decide_eq_true_2 by done. unfold open_delim. cbn [dec_state dec_stack]. rewrite Hst. by rewrite <- app_assoc. }
  destruct ms as [|m ms].
  - exists 2%nat. intros [|[|n]] Hn; [lia|lia|]. cbn [parseValue]. rewrite Hop. by simpl.
  - apply list.Forall_cons in Hall as [Hm Hall].
    set (more := (concat ((λ t, ","%char :: t) <$> (member_text <$> (kt <$> ms))) ++ "}"%char :: rest)%list).
    rewrite !fmap_cons, intercalate_cons, <- app_assoc in Hop. fold more in Hop.
    assert (Hst' : starts_value (member_text (kt m))).
    { destruct (writeString_starts m.1) as (c & r & Heq & H1 & H2). unfold member_text, kt. cbn [fst snd]. rewrite Heq. by eexists c, _. }
    destruct (member_parses m (mkDecoder tokenObjectStart (st :: stack) (member_text (kt m) ++ more)) tokenObjectStart (st :: stack) more Hm) as [n1 Hn1];
      [set_solver|apply tail_ends; set_solver|by apply Token_direct|by apply More_value|].
    destruct (members_parse st stack rest ms [kv m] Hall Hnd) as [n2 Hn2].
    exists (S (S (n1 + n2))). intros [|[|n]] Hn; [lia|lia|]. cbn [parseValue]. rewrite Hop. rewrite bool_decide_eq_true_2 by done.
    rewrite Hn1; [|lia|apply not_elem_of_nil]. by rewrite Hn2 by lia.
Qed.

(** *** Every value *)

Lemma written_starts v t : json_ok v → writeValue v = Ok t → starts_value t.
Proof.
  intros Hv Hw. destruct v as [|b|lit|s|items|members].
  - injection Hw as <-. eexists _, _. split_and!; [reflexivity|done|set_solver].
  - injection Hw as <-. destruct b; eexists _, _; (split_and!; [reflexivity|done|set_solver]).
  - apply writeNumber_ok in Hw as (nm & Hok & -> & _). destruct (number_text_cons nm Hok) as (c & r & -> & Hc). apply number_start in Hc as [Hsp Hc].
    exists c, r. split_and!; [done|done|set_solver].
  - injection Hw as <-. apply writeString_starts.
  - apply write_array in Hw as (ts & _ & ->). eexists _, _. split_and!; [reflexivity|done|set_solver].
  - apply write_object in Hw as (ms & _ & ->). eexists _, _. split_and!; [reflexivity|done|set_solver].
Qed.

Lemma write_parses v : ∀ t, json_ok v → writeValue v = Ok t → parses_to t (canon v).
Proof.
  induction v as [|b|lit|s|items IH|members IH] using json_nested_ind; intros t Hok Hw.
  - assert (t = bytes_of "null") as -> by (by injection Hw as <-). apply literal_parses; [set_solver|done].
  - injection Hw as <-. apply literal_parses; [destruct b; set_solver|done].
  - simpl in Hw. simpl. rewrite Hw. apply writeNumber_ok in Hw as (nm & Hnm & -> & _). by apply number_parses.
  - injection Hw as <-. inversion Hok; subst. by apply string_parses.
  - apply write_array in Hw as (ts & Hts & ->). inversion Hok as [| | | |? Hitems|]; subst.
    assert (H : ∃ vts : list (json * text), vts.*1 = canon <$> items ∧ vts.*2 = ts ∧ Forall (λ vt, starts_value vt.2 ∧ parses_to vt.2 vt.1) vts).
    { clear Hok. induction Hts as [|v t items ts Hv Hts IHl]; [exists []; by repeat constructor|].
      apply list.Forall_cons in IH as [IHv IH], Hitems as [Hv' Hitems]. destruct (IHl IH Hitems) as (vts & E1 & E2 & Hall).
      exists ((canon v, t) :: vts). rewrite !fmap_cons, E1, E2. split_and!; [done|done|]. constructor; [|done]. split; [by eapply written_starts|by apply IHv]. }
    destruct H as (vts & E1 & E2 & Hall). cbn [canon]. rewrite <- E1, <- E2. by apply array_parses.
  - apply write_object in Hw as (ms & Hms & ->). inversion Hok as [| | | | |? Hkeys Hnd Hvals]; subst.
    pose proof (units_NoDup _ Hkeys Hnd) as Hund. cbn [canon]. rewrite (sort_members_map (λ m, (m.1, canon m.2))) by done.
    pose proof (sorted_written members ms Hms Hund) as Hsw.
    assert (Hall : Forall (λ m : string * json, valid_string m.1 ∧ json_ok m.2 ∧ ∀ t, json_ok m.2 → writeValue m.2 = Ok t → parses_to t (canon m.2)) (sort_members members)).
    { rewrite sort_members_perm. clear - Hkeys Hvals IH. induction members as [|[k v] members IHl]; [constructor|]. rewrite !fmap_cons in *.
      apply list.Forall_cons in Hkeys as [? ?], Hvals as [? ?], IH as [? ?]. constructor; [done|auto]. }
    assert (Hnd' : NoDup (sort_members members).*1) by (by rewrite sort_members_perm).
    assert (H : ∃ kvts : list kvt, kv <$> kvts = (λ m : string * json, (m.1, canon m.2)) <$> sort_members members ∧ kt <$> kvts = sort_members ms ∧ Forall kvt_ok kvts).
    { clear - Hsw Hall. induction Hsw as [|[k v] [k' t] l l' [Hk Hv] Hsw IHl]; [exists []; by repeat constructor|]. simpl in Hk, Hv. subst k'.
      apply list.Forall_cons in Hall as [(H1 & H2 & H3) Hall]. destruct (IHl Hall) as (kvts & E1 & E2 & Hk). exists ((k, (canon v, t)) :: kvts).
      rewrite !fmap_cons, E1, E2. split_and!; [done|done|]. constructor; [|done]. split_and!; [done|by eapply written_starts|by apply H3]. }
    destruct H as (kvts & E1 & E2 & Hkv). rewrite <- E1, <- E2. apply object_parses; [done|].
    assert (kvts.*1 = (sort_members members).*1) as ->; [|done].
    apply (f_equal (fmap fst)) in E1. rewrite <- !list_fmap_compose in E1. exact E1.
Qed.

(** ** The canonical text of a value *)

Lemma starts_not_blank t : starts_value t → blank t = false.
Proof.
  intros (c & r & -> & Hc & _). apply between_spec in Hc. unfold blank. rewrite runes1 by lia. simpl.
  assert (Hsp : unicode_space (byte_of c) = false).
  { unfold unicode_space. rewrite orb_false_iff, bool_decide_eq_false, andb_false_iff, !N.leb_gt. split; [|lia].
    intros H. repeat (apply elem_of_cons in H as [H|H]; [lia|]). by apply not_elem_of_nil in H. }
  by rewrite Hsp.
Qed.

Lemma parse_written v t : json_ok v → writeValue v = Ok t → parse_document t = Ok (canon v).
Proof.
  intros Hok Hw. pose proof (written_starts v t Hok Hw) as Hst.
  destruct (write_parses v t Hok Hw (mkDecoder tokenTopValue [] t) tokenTopValue [] []) as [n0 Hn0]; [done|done| |].
  { pose proof (Token_direct tokenTopValue [] t [] Hst) as H. rewrite app_nil_r in *. exact H. }
  unfold parse_document. specialize (Hn0 n0 ltac:(lia)). apply parse_fuel_ok in Hn0. rewrite Hn0. done.
Qed.

Lemma canon_ok v t : json_ok v → writeValue v = Ok t → json_ok (canon v).
Proof. intros Hok Hw. by eapply parse_document_ok, parse_written. Qed.

Lemma writeNumber_value a b : ParseFloat (bytes_of a) = ParseFloat (bytes_of b) → writeNumber a = writeNumber b.
Proof. intros H. unfold writeNumber. by rewrite H. Qed.

Lemma sort_members_sorted {A} (l1 l2 : list (string * A)) : l1 ≡ₚ l2 → NoDup (units <$> l1.*1) → sort_members l1 = sort_members l2.
Proof.
  intros Hp Hnd. apply (sorted_same_elements member_unit units_ltb 1 ltac:(lia)); [apply (in_order_lt member_unit units_ltb); by rewrite member_units| |].
  - apply (in_order_lt member_unit units_ltb). rewrite member_units. by rewrite <- Hp.
  - intros a. unfold sort_members. rewrite !in_order_elem. by rewrite Hp.
Qed.

Lemma member_written_keys members ms : Forall2 member_written members ms → ms.*1 = members.*1.
Proof. induction 1 as [|m r members ms [Hk _] _ IH]; [done|]. rewrite !fmap_cons. by rewrite Hk, IH. Qed.

(** The normal form has the same text. *)
Lemma write_canon v : ∀ t, json_ok v → writeValue v = Ok t → writeValue (canon v) = Ok t.
Proof.
  induction v as [|b|lit|s|items IH|members IH] using json_nested_ind; intros t Hok Hw; [done|done| |done| |].
  - simpl in *. rewrite Hw. pose proof (writeNumber_ok _ _ Hw) as (nm & _ & _ & Hv). rewrite <- Hw. apply writeNumber_value. by rewrite bytes_str.
  - apply write_array in Hw as (ts & Hts & ->). inversion Hok as [| | | |? Hitems|]; subst. cbn [canon]. apply write_array. exists ts. split; [|done].
    clear Hok. induction Hts as [|v t items ts Hv Hts IHl]; [constructor|]. apply list.Forall_cons in IH as [IHv IH], Hitems as [Hv' Hitems].
    rewrite fmap_cons. constructor; [by apply IHv|by apply IHl].
  - apply write_object in Hw as (ms & Hms & ->). inversion Hok as [| | | | |? Hkeys Hnd Hvals]; subst.
    pose proof (units_NoDup _ Hkeys Hnd) as Hund. cbn [canon]. rewrite (sort_members_map (λ m, (m.1, canon m.2))) by done.
    apply write_object. exists (sort_members ms). split.
    + pose proof (sorted_written members ms Hms Hund) as Hsw.
      assert (Hall : Forall (λ m : string * json, ∀ t, writeValue m.2 = Ok t → writeValue (canon m.2) = Ok t) (sort_members members)).
      { rewrite sort_members_perm. clear - Hvals IH. induction members as [|[k v] members IHl]; [constructor|]. rewrite !fmap_cons in *.
        apply list.Forall_cons in Hvals as [? ?], IH as [? ?]. constructor; [auto|auto]. }
      clear - Hsw Hall. induction Hsw as [|m r l l' [Hk Hv] Hsw IHl]; [constructor|]. apply list.Forall_cons in Hall as [? ?]. rewrite fmap_cons.
      constructor; [split; [done|auto]|auto].
    + assert (Hsame : sort_members ms = sort_members (sort_members ms)); [|by rewrite <- Hsame].
      apply sort_members_sorted; [by rewrite sort_members_perm|]. by rewrite (member_written_keys _ _ Hms).
Qed.

(** ** Values that mean the same *)

(** The same scalars, numbers that are the same float64, arrays item by item, objects
    with the same members in whatever order. *)
#[warnings="-register-all"]
Inductive same_value : json → json → Prop :=
| same_null : same_value JNull JNull
| same_bool b : same_value (JBool b) (JBool b)
| same_string s : same_value (JString s) (JString s)
| same_number a b : ParseFloat (bytes_of a) = ParseFloat (bytes_of b) → same_value (JNumber a) (JNumber b)
| same_array l1 l2 : Forall2 same_value l1 l2 → same_value (JArray l1) (JArray l2)
| same_object ms1 ms2 ms' : ms2 ≡ₚ ms' → Forall2 (λ a b, a.1 = b.1 ∧ same_value a.2 b.2) ms1 ms' → same_value (JObject ms1) (JObject ms2).

Definition writable (v : json) : Prop := ∃ t, writeValue v = Ok t.

Lemma writable_array items : writable (JArray items) → Forall writable items.
Proof. intros [t (ts & Hts & _)%write_array]. induction Hts; constructor; [by eexists|done]. Qed.

Lemma writable_object members : writable (JObject members) → Forall writable members.*2.
Proof. intros [t (ms & Hms & _)%write_object]. induction Hms as [|? ? ? ? [_ ?]]; constructor; [by eexists|done]. Qed.

Lemma canon_same v1 : ∀ v2, writable v1 → writable v2 → canon v1 = canon v2 → same_value v1 v2.
Proof.
  induction v1 as [|b|lit|s|items IH|members IH] using json_nested_ind; intros v2 W1 W2 Heq; destruct v2 as [|b2|lit2|s2|items2|members2]; try done.
  - constructor.
  - injection Heq as <-. constructor.
  - destruct W1 as [t1 W1], W2 as [t2 W2]. simpl in W1, W2, Heq. rewrite W1, W2 in Heq. injection Heq as Heq.
    apply (f_equal String.list_ascii_of_string) in Heq. rewrite !bytes_str in Heq. subst t2. constructor.
    apply writeNumber_ok in W1 as (_ & _ & _ & H1). apply writeNumber_ok in W2 as (_ & _ & _ & H2). congruence.
  - injection Heq as <-. constructor.
  - injection Heq as Heq. constructor. apply writable_array in W1, W2. revert items2 W2 Heq.
    induction items as [|v items IHl]; intros [|v2 items2] W2 Heq; [constructor|done|done|]. rewrite !fmap_cons in Heq. injection Heq as Hv Heq.
    apply list.Forall_cons in W1 as [? ?], W2 as [? ?], IH as [IHv ?]. constructor; [by apply IHv|by apply IHl].
  - injection Heq as Heq. apply writable_object in W1, W2. set (g := λ m : string * json, (m.1, canon m.2)) in *.
    assert (Hp : g <$> members ≡ₚ g <$> members2) by (rewrite <- (sort_members_perm (g <$> members)), <- (sort_members_perm (g <$> members2)); by rewrite Heq).
    apply Permutation_map_inv in Hp as (ms' & Hms & Hp). apply (same_object _ _ ms' Hp). rewrite Hp in W2. clear Heq Hp. revert ms' W2 Hms.
    induction members as [|m members IHl]; intros [|m' ms'] W2 Hms; [constructor|done|done|]. injection Hms as Hk Hv Hms.
    apply list.Forall_cons in W1 as [? ?], W2 as [? ?], IH as [IHv ?]. constructor; [split; [done|by apply IHv]|by apply IHl].
Qed.

Lemma same_write v1 : ∀ v2 t, json_ok v1 → json_ok v2 → same_value v1 v2 → writeValue v1 = Ok t → writeValue v2 = Ok t.
Proof.
  induction v1 as [|b|lit|s|items IH|members IH] using json_nested_ind; intros v2 t Ok1 Ok2 Hs Hw;
    inversion Hs as [| | |? ? Hn|? l2 Hl|? ms2 ms' Hp Hm]; subst; [done|done| |done| |].
  - simpl in *. rewrite <- Hw. by apply writeNumber_value.
  - apply write_array in Hw as (ts & Hts & ->). apply write_array. exists ts. split; [|done]. inversion Ok1 as [| | | |? I1|]; inversion Ok2 as [| | | |? I2|]; subst.
    clear Hs Ok1 Ok2. revert ts Hts. induction Hl as [|v1 v2 l1 l2 Hv Hl IHl]; intros ts Hts; inversion Hts as [|? t ? ts' Ht Hts']; subst; [constructor|].
    apply list.Forall_cons in I1 as [? ?], I2 as [? ?], IH as [IHv ?]. constructor; [by eapply IHv|by apply IHl].
  - apply write_object in Hw as (r1 & Hr1 & ->). inversion Ok1 as [| | | | |? K1 N1 V1]; inversion Ok2 as [| | | | |? K2 N2 V2]; subst.
    assert (Hr' : Forall2 member_written ms' r1).
    { rewrite Hp in V2. clear - Hr1 Hm IH V1 V2. revert r1 Hr1. induction Hm as [|m m' l l' [Hk Hv] Hm IHl]; intros r1 Hr1;
        inversion Hr1 as [|? r ? r' [Hr Ht] Hr']; subst; [constructor|]. rewrite !fmap_cons in *.
      apply list.Forall_cons in V1 as [? ?], V2 as [? ?], IH as [IHv ?]. constructor; [split; [congruence|by eapply IHv]|by apply IHl]. }
    apply write_object.
    assert (H2 : ∃ r2, r2 ≡ₚ r1 ∧ Forall2 member_written ms2 r2).
    { symmetry in Hp. apply (Permutation_Forall2 Hp) in Hr' as (r2 & ? & ?). by exists r2. }
    destruct H2 as (r2 & Hpr & H2). exists r2. split; [done|]. rewrite (sort_members_sorted r1 r2); [done|by symmetry|].
    rewrite (member_written_keys _ _ Hr1). by apply units_NoDup.
Qed.

(** ** Bodies *)

(** Two bodies that mean the same: both blank, or two documents with the same value. *)
Definition same_body (b1 b2 : text) : Prop :=
  if blank b1 then blank b2 = true
  else blank b2 = false ∧ ∃ v1 v2, parse_document b1 = Ok v1 ∧ parse_document b2 = Ok v2 ∧ same_value v1 v2.

(** The canonical text decides what a body means. *)
Lemma canonical_equal b1 b2 c1 c2 : Canonicalize b1 = Ok c1 → Canonicalize b2 = Ok c2 → c1 = c2 ↔ same_body b1 b2.
Proof.
  unfold Canonicalize, same_body. intros H1 H2. destruct (blank b1) eqn:B1, (blank b2) eqn:B2.
  - injection H1 as <-. by injection H2 as <-.
  - injection H1 as <-. apply result_bind_ok in H2 as (v2 & P2 & W2). split; [intros <-|done].
    destruct (written_starts _ _ (parse_document_ok _ _ P2) W2) as (? & ? & ? & _). done.
  - injection H2 as <-. apply result_bind_ok in H1 as (v1 & P1 & W1). split; [intros ->|by intros [? _]].
    destruct (written_starts _ _ (parse_document_ok _ _ P1) W1) as (? & ? & ? & _). done.
  - apply result_bind_ok in H1 as (v1 & P1 & W1). apply result_bind_ok in H2 as (v2 & P2 & W2).
    pose proof (parse_document_ok _ _ P1) as Ok1. pose proof (parse_document_ok _ _ P2) as Ok2. split.
    + intros <-. split; [done|]. exists v1, v2. split_and!; [done|done|]. apply canon_same; [by eexists|by eexists|].
      apply (parse_written _ _ Ok1) in W1. apply (parse_written _ _ Ok2) in W2. congruence.
    + intros (_ & v1' & v2' & E1 & E2 & Hs). assert (v1' = v1) as -> by congruence. assert (v2' = v2) as -> by congruence.
      pose proof (same_write v1 v2 c1 Ok1 Ok2 Hs W1). congruence.
Qed.

(** Canonicalisation is a projection: a canonical text is its own canonical text,
    so fingerprinting a stored canonical body again gives the same digest. *)
Theorem canonicalize_idempotent b c : Canonicalize b = Ok c → Canonicalize c = Ok c.
Proof.
  unfold Canonicalize at 1. destruct (blank b) eqn:B; [by intros [= <-]|]. intros (v & P & W)%result_bind_ok.
  pose proof (parse_document_ok _ _ P) as Hok. unfold Canonicalize. rewrite (starts_not_blank c) by (by eapply written_starts).
  rewrite (parse_written v c Hok W). simpl. by apply write_canon.
Qed.

(** ** The digested bytes *)

Lemma cut_line (l1 l2 s1 s2 : text) : chr 10 ∉ l1 → chr 10 ∉ l2 → (l1 ++ chr 10 :: s1 = l2 ++ chr 10 :: s2)%list → l1 = l2 ∧ s1 = s2.
Proof.
  revert l2. induction l1 as [|a l1 IH]; intros [|b l2] H1 H2 Heq; cbn [app] in Heq.
  - injection Heq as Heq. done.
  - injection Heq as <- _. destruct H2. set_solver.
  - injection Heq as -> _. destruct H1. set_solver.
  - injection Heq as -> Heq. apply IH in Heq as [-> ->]; [done|set_solver|set_solver].
Qed.

Definition no_newline (s : string) : Prop := chr 10 ∉ bytes_of s.

(** C30: the fingerprint decides what a request is.  Whatever two bodies are accepted,
    the bytes that are digested are equal exactly when the method and the route are the
    same, neither holding a newline, and the bodies mean the same: both blank, or the
    same value, that is the same strings, numbers that are the same float64, the same
    items in the same order and the same members in any order. *)
Theorem fingerprint_input_decides m1 r1 b1 c1 m2 r2 b2 c2 :
  no_newline m1 → no_newline r1 → no_newline m2 → no_newline r2 → Canonicalize b1 = Ok c1 → Canonicalize b2 = Ok c2 →
  digest_input m1 r1 c1 = digest_input m2 r2 c2 ↔ m1 = m2 ∧ r1 = r2 ∧ same_body b1 b2.
Proof.
  intros Hm1 Hr1 Hm2 Hr2 H1 H2. rewrite <- (canonical_equal b1 b2 c1 c2 H1 H2). unfold digest_input. split; [|by intros (-> & -> & ->)].
  intros (Hm & (Hr & Hc)%cut_line)%cut_line; [|done..].
  rewrite <- (str_bytes m1), <- (str_bytes m2), <- (str_bytes r1), <- (str_bytes r2), Hm, Hr. done.
Qed.

(** ** Examples *)

Definition body_a : text := doc "{'b':10,'a':['x',0]}".
Definition body_b : text := doc " { 'a' : ['\u0078', -0.0] , 'b' : 1e1 } ".
Definition body_c : text := doc "{'a':['x',0],'b':10}".

Lemma fingerprint_input_decides_witness :
  digest_input "POST" "/v1/transactions" body_c = digest_input "POST" "/v1/transactions" body_c ∧ same_body body_a body_b.
Proof.
  assert (C : Canonicalize body_a = Ok body_c ∧ Canonicalize body_b = Ok body_c) by (vm_compute; by split).
  assert (N : no_newline "POST" ∧ no_newline "/v1/transactions") by (split; apply (bool_decide_eq_true_1 _); vm_compute; reflexivity).
  destruct C as [C1 C2], N as [N1 N2]. split; [reflexivity|].
  exact (proj2 (proj2 (proj1 (fingerprint_input_decides "POST" "/v1/transactions" body_a body_c "POST" "/v1/transactions" body_b body_c
    N1 N2 N1 N2 C1 C2) eq_refl))).
Defined.

Lemma canonicalize_idempotent_witness : Canonicalize body_b = Ok body_c ∧ Canonicalize body_c = Ok body_c.
Proof.
  assert (C : Canonicalize body_b = Ok body_c) by (vm_compute; reflexivity). split; [exact C|].
  exact (canonicalize_idempotent body_b body_c C).
Defined.

(** Order matters in an array, and a different number is a different request. *)
Example different_bodies :
  bool_decide (canon_of "[1,2]" = canon_of "[2,1]") = false ∧ bool_decide (canon_of "{'a':1}" = canon_of "{'a':2}") = false.
Proof. vm_compute. by split. Qed.
