(* ===== verification/TimeText.v ===== *)
(** * Times as text

    [time.Time.Format] and [time.Parse] of the Go library for RFC 3339, over the
    proleptic Gregorian calendar.  An instant is a number of nanoseconds since 1970. *)

From S2P Require Import Prelude Utf8 JsonText CanonicalNum.
From Stdlib Require Import Ascii.
Open Scope string_scope.
Open Scope Z_scope.

(** ** The calendar *)

(** A day as year, month and day, counting from March in eras of 400 years. *)
Definition days_from_civil (y m d : Z) : Z :=
  let y := if m <=? 2 then y - 1 else y in
  let era := y / 400 in
  let yoe := y mod 400 in
  let mp := if 2 <? m then m - 3 else m + 9 in
  let doy := (153 * mp + 2) / 5 + d - 1 in
  let doe := yoe * 365 + yoe / 4 - yoe / 100 + doy in
  era * 146097 + doe - 719468.

Definition civil_from_days (days : Z) : Z * Z * Z :=
  let z := days + 719468 in
  let era := z / 146097 in
  let doe := z mod 146097 in
  let yoe := (doe - doe / 1460 + doe / 36524 - doe / 146096) / 365 in
  let doy := doe - (365 * yoe + yoe / 4 - yoe / 100) in
  let mp := (5 * doy + 2) / 153 in
  let d := doy - (153 * mp + 2) / 5 + 1 in
  let m := if mp <? 10 then mp + 3 else mp - 9 in
  (yoe + era * 400 + (if m <=? 2 then 1 else 0), m, d).

Definition leap (y : Z) : bool := (y mod 4 =? 0) && (negb (y mod 100 =? 0) || (y mod 400 =? 0)).

Definition days_in (m y : Z) : Z :=
  if m =? 2 then (if leap y then 29 else 28) else if (m =? 4) || (m =? 6) || (m =? 9) || (m =? 11) then 30 else 31.

(** The year of the era and the day of the year. *)
Lemma era_split doe : 0 ≤ doe < 146097 →
  let yoe := (doe - doe / 1460 + doe / 36524 - doe / 146096) / 365 in
  let doy := doe - (365 * yoe + yoe / 4 - yoe / 100) in
  0 ≤ yoe < 400 ∧ 0 ≤ doy ≤ 365.
Proof.
  intros H yoe doy. unfold doy, yoe. Z.to_euclidean_division_equations. lia.
Qed.

Lemma months mp : 0 ≤ mp ≤ 11 → mp = 0 ∨ mp = 1 ∨ mp = 2 ∨ mp = 3 ∨ mp = 4 ∨ mp = 5 ∨ mp = 6 ∨ mp = 7 ∨ mp = 8 ∨ mp = 9 ∨ mp = 10 ∨ mp = 11.
Proof. lia. Qed.

Lemma month_split doy : 0 ≤ doy ≤ 365 →
  let mp := (5 * doy + 2) / 153 in
  let d := doy - (153 * mp + 2) / 5 + 1 in
  0 ≤ mp ≤ 11 ∧ 1 ≤ d ≤ (if mp =? 11 then 29 else if (mp =? 1) || (mp =? 3) || (mp =? 6) || (mp =? 8) then 30 else 31).
Proof.
  intros H mp d. assert (Hmp : 0 ≤ mp ≤ 11) by (unfold mp; Z.to_euclidean_division_equations; lia). split; [done|].
  assert (Hd : doy = (153 * mp + 2) / 5 + d - 1) by (unfold d; lia).
  assert (Hlo : 153 * mp ≤ 5 * doy + 2 < 153 * (mp + 1)) by (unfold mp; Z.to_euclidean_division_equations; lia).
  generalize dependent d. generalize dependent mp. intros mp Hmp Hlo d Hd.
  apply months in Hmp. repeat (destruct Hmp as [->|Hmp]; [cbn in *; Z.to_euclidean_division_equations; lia|]). subst mp. cbn in *. Z.to_euclidean_division_equations; lia.
Qed.

Lemma leap_day doe : 0 ≤ doe < 146097 →
  let yoe := (doe - doe / 1460 + doe / 36524 - doe / 146096) / 365 in
  doe - (365 * yoe + yoe / 4 - yoe / 100) = 365 → (yoe + 1) mod 4 = 0 ∧ ((yoe + 1) mod 100 ≠ 0 ∨ (yoe + 1) mod 400 = 0).
Proof. intros H yoe. unfold yoe. Z.to_euclidean_division_equations. lia. Qed.

(** The calendar: a day number is a date of the calendar, and back. *)
Lemma civil_ok days y m d : civil_from_days days = (y, m, d) →
  days_from_civil y m d = days ∧ 1 ≤ m ≤ 12 ∧ 1 ≤ d ≤ days_in m y.
Proof.
  unfold civil_from_days. set (z := days + 719468). pose proof (Z.mod_pos_bound z 146097 ltac:(lia)) as Hdoe.
  pose proof (Z.div_mod z 146097 ltac:(lia)) as Hz. set (era := z / 146097) in *. set (doe := z mod 146097) in *.
  pose proof (era_split doe Hdoe) as Hera. pose proof (leap_day doe Hdoe) as Hleap. simpl in Hera, Hleap.
  set (yoe := (doe - doe / 1460 + doe / 36524 - doe / 146096) / 365) in *. set (doy := doe - (365 * yoe + yoe / 4 - yoe / 100)) in *.
  destruct Hera as [Hyoe Hdoy]. pose proof (month_split doy Hdoy) as Hmonth. simpl in Hmonth.
  set (mp := (5 * doy + 2) / 153) in *. set (dd := doy - (153 * mp + 2) / 5 + 1) in *. destruct Hmonth as [Hmp Hdd].
  assert (Hdoy' : (153 * mp + 2) / 5 + dd - 1 = doy) by (unfold dd; lia).
  assert (Hy : (yoe + era * 400) / 400 = era ∧ (yoe + era * 400) mod 400 = yoe).
  { rewrite Z.div_add, Z.mod_add, Z.div_small, Z.mod_small by lia. lia. }
  assert (Hlp : mp = 11 → dd = 29 → leap (yoe + era * 400 + 1) = true).
  { intros H11 H29. rewrite H11, H29 in Hdoy'. change ((153 * 11 + 2) / 5) with 337 in Hdoy'. destruct (Hleap ltac:(lia)) as [H4 H100].
    unfold leap. clear - H4 H100 Hyoe. rewrite andb_true_iff, orb_true_iff, negb_true_iff, !Z.eqb_eq, Z.eqb_neq.
    Z.to_euclidean_division_equations. lia. }
  clearbody mp dd. destruct Hy as [Hy1 Hy2]. intros [= <- <- <-]. unfold days_from_civil, days_in.
  assert (Hdoe' : era * 146097 + (yoe * 365 + yoe / 4 - yoe / 100 + ((153 * mp + 2) / 5 + dd - 1)) - 719468 = days) by (rewrite Hdoy'; unfold doy, z in *; lia).
  clear Hdoy' Hleap. destruct (Z.ltb_spec mp 10) as [Hlt|Hge].
  - rewrite (proj2 (Z.leb_gt (mp + 3) 2)), (proj2 (Z.ltb_lt 2 (mp + 3))), Z.add_0_r, Hy1, Hy2, Z.add_simpl_r by lia. split_and!; [lia..|].
    revert Hdd. repeat match goal with |- context [?a =? ?b] => destruct (Z.eqb_spec a b) end; simpl; lia.
  - rewrite (proj2 (Z.leb_le (mp - 9) 2)), (proj2 (Z.ltb_ge 2 (mp - 9))), Z.add_simpl_r, Hy1, Hy2 by lia.
    replace (mp - 9 + 9) with mp by lia. split_and!; [lia..|]. destruct (Z.eqb_spec mp 11) as [->|].
    + simpl. destruct (Z.eq_dec dd 29) as [->|]; [by rewrite Hlp by done|]. destruct (leap _); lia.
    + assert (mp = 10) as -> by lia. simpl in *. lia.
Qed.

(** ** RFC 3339 *)

Definition digit_text (d : Z) : ascii := chr (Z.to_N (48 + d)).
Definition two (n : Z) : text := [digit_text (n / 10); digit_text (n mod 10)].
Definition four (n : Z) : text := (two (n / 100) ++ two (n mod 100))%list.

(** The nine digits of a fraction of a second, without the zeros at its end. *)
Fixpoint fraction (fuel : nat) (n : Z) : text :=
  match fuel with
  | O => []
  | S k => if n =? 0 then [] else digit_text (n / 10 ^ Z.of_nat k) :: fraction k (n mod 10 ^ Z.of_nat k)
  end.

Definition Nanos : Z := 1000000000.

(** [t.UTC().Format(time.RFC3339Nano)], for the years 0 to 9999. *)
Definition format_rfc3339 (t : Z) : text :=
  let secs := t / Nanos in
  let nanos := t mod Nanos in
  let '(y, m, d) := civil_from_days (secs / 86400) in
  let s := secs mod 86400 in
  (four y ++ "-"%char :: two m ++ "-"%char :: two d ++ "T"%char :: two (s / 3600) ++ ":"%char :: two (s / 60 mod 60) ++
   ":"%char :: two (s mod 60) ++ (if nanos =? 0 then [] else "."%char :: fraction 9 nanos) ++ ["Z"%char])%list.

(** [getnum]: two digits, or one when [fixed] is false. *)
Definition getnum (fixed : bool) (s : text) : option (Z * text) :=
  match s with
  | a :: s1 =>
      if is_digit a then
        match s1 with
        | b :: s2 => if is_digit b then Some (digit_of a * 10 + digit_of b, s2) else if fixed then None else Some (digit_of a, s1)
        | [] => if fixed then None else Some (digit_of a, s1)
        end
      else None
  | [] => None
  end.

Definition expect (c : ascii) (s : text) : option text :=
  match s with x :: s' => if bool_decide (x = c) then Some s' else None | [] => None end.

Definition in_range (lo hi n : Z) : option unit := if (lo <=? n) && (n <=? hi) then Some () else None.

(** A year is four bytes that [atoi] reads, the first of them a digit. *)
Definition get_year (s : text) : option (Z * text) :=
  match s with
  | a :: b :: c :: d :: s' => if forallb is_digit [a; b; c; d] then Some (dec_value [a; b; c; d], s') else None
  | _ => None
  end.

(** Any number of digits after a point or a comma; the first nine count. *)
Definition get_fraction (s : text) : Z * text :=
  match s with
  | p :: c :: _ =>
      if bool_decide (p ∈ ["."; ","]%char) && is_digit c then
        let '(ds, rest) := span is_digit (drop 1 s) in
        let ds := take 9 ds in (dec_value ds * 10 ^ (9 - Z.of_nat (length ds)), rest)
      else (0, s)
  | _ => (0, s)
  end.

(** [Z], or a sign with hours and minutes; the offset in seconds. *)
Definition get_zone (s : text) : option (Z * text) :=
  match s with
  | c :: s1 =>
      if bool_decide (c = "Z"%char) then Some (0, s1)
      else if is_sign c then
        '(hh, s2) ← getnum true s1; s3 ← expect ":"%char s2; '(mm, s4) ← getnum true s3;
        _ ← in_range 0 24 hh; _ ← in_range 0 60 mm;
        let off := (hh * 60 + mm) * 60 in
        Some (if bool_decide (c = "-"%char) then - off else off, s4)
      else None
  | [] => None
  end.

(** [time.Parse] with the layout RFC3339 or RFC3339Nano. *)
Definition parse_rfc3339 (s : text) : option Z :=
  '(y, s) ← get_year s; s ← expect "-"%char s;
  '(m, s) ← getnum true s; _ ← in_range 1 12 m; s ← expect "-"%char s;
  '(d, s) ← getnum true s; s ← expect "T"%char s;
  '(hh, s) ← getnum false s; _ ← in_range 0 23 hh; s ← expect ":"%char s;
  '(mm, s) ← getnum true s; _ ← in_range 0 59 mm; s ← expect ":"%char s;
  '(ss, s) ← getnum true s; _ ← in_range 0 59 ss;
  let '(nanos, s) := get_fraction s in
  '(off, s) ← get_zone s;
  _ ← in_range 1 (days_in m y) d;
  if bool_decide (s = []) then Some ((days_from_civil y m d * 86400 + hh * 3600 + mm * 60 + ss - off) * Nanos + nanos) else None.

(** ** Reading back what was printed *)

Lemma digit_text_ok d : 0 ≤ d < 10 → is_digit (digit_text d) = true ∧ digit_of (digit_text d) = d.
Proof. apply digit_chr. Qed.

Lemma getnum_two fixed n s : 0 ≤ n < 100 → getnum fixed (two n ++ s) = Some (n, s).
Proof.
  intros Hn. destruct (digit_text_ok (n / 10)) as [Ha Ha']; [Z.to_euclidean_division_equations; lia|].
  destruct (digit_text_ok (n mod 10)) as [Hb Hb']; [Z.to_euclidean_division_equations; lia|].
  cbn [two app getnum]. rewrite Ha, Hb, Ha', Hb'. do 2 f_equal. Z.to_euclidean_division_equations; lia.
Qed.

Lemma get_year_four n s : 0 ≤ n < 10000 → get_year (four n ++ s) = Some (n, s).
Proof.
  intros Hn. assert (Hd : 0 ≤ n / 100 < 100 ∧ 0 ≤ n mod 100 < 100) by (Z.to_euclidean_division_equations; lia). destruct Hd as [Hhi Hlo].
  destruct (digit_text_ok (n / 100 / 10)) as [Ha Ha']; [Z.to_euclidean_division_equations; lia|].
  destruct (digit_text_ok (n / 100 mod 10)) as [Hb Hb']; [Z.to_euclidean_division_equations; lia|].
  destruct (digit_text_ok (n mod 100 / 10)) as [Hc Hc']; [Z.to_euclidean_division_equations; lia|].
  destruct (digit_text_ok (n mod 100 mod 10)) as [Hd Hd']; [Z.to_euclidean_division_equations; lia|].
  cbn [four two app get_year forallb]. rewrite Ha, Hb, Hc, Hd. cbn [andb]. do 2 f_equal. unfold dec_value. cbn [fold_left].
  rewrite Ha', Hb', Hc', Hd'. Z.to_euclidean_division_equations; lia.
Qed.

Lemma expect_cons c s : expect c (c :: s) = Some s.
Proof. simpl. by rewrite bool_decide_eq_true_2. Qed.

Lemma in_range_ok lo hi n : lo ≤ n ≤ hi → in_range lo hi n = Some ().
Proof. intros H. unfold in_range. by rewrite (proj2 (Z.leb_le _ _)), (proj2 (Z.leb_le _ _)) by lia. Qed.

Lemma fraction_ok k : ∀ n, 0 ≤ n < 10 ^ Z.of_nat k →
  digits (fraction k n) ∧ (length (fraction k n) ≤ k)%nat ∧ dec_value (fraction k n) * 10 ^ (Z.of_nat k - Z.of_nat (length (fraction k n))) = n.
Proof.
  induction k as [|k IH]; intros n Hn; cbn [fraction]; [split_and!; [constructor|done|unfold dec_value; simpl in *; lia]|].
  destruct (Z.eqb_spec n 0) as [->|H0]; [split_and!; [constructor|simpl; lia|done]|].
  rewrite Nat2Z.inj_succ, Z.pow_succ_r in Hn by lia. assert (Hp : 0 < 10 ^ Z.of_nat k) by (apply Z.pow_pos_nonneg; lia).
  destruct (digit_text_ok (n / 10 ^ Z.of_nat k)) as [Hd Hd']; [split; [apply Z.div_pos; lia|apply Z.div_lt_upper_bound; lia]|].
  destruct (IH (n mod 10 ^ Z.of_nat k)) as (H1 & H2 & H3); [apply Z.mod_pos_bound; lia|].
  split_and!; [by constructor|simpl; lia|]. set (r := fraction k _) in *. change (?c :: r)%list with ([c] ++ r)%list. rewrite dec_value_app.
  rewrite length_app. unfold dec_value at 1. cbn [fold_left length]. rewrite Hd'.
  replace (Z.of_nat (S k) - Z.of_nat (1 + length r)) with (Z.of_nat k - Z.of_nat (length r)) by lia.
  rewrite Z.mul_add_distr_r, H3, <- Z.mul_assoc, <- Z.pow_add_r by lia.
  replace (Z.of_nat (length r) + (Z.of_nat k - Z.of_nat (length r))) with (Z.of_nat k) by lia.
  pose proof (Z.div_mod n (10 ^ Z.of_nat k) ltac:(lia)). lia.
Qed.

Lemma get_fraction_format n s : 0 ≤ n < Nanos →
  get_fraction ((if n =? 0 then [] else "."%char :: fraction 9 n) ++ "Z"%char :: s) = (n, "Z"%char :: s).
Proof.
  intros Hn. destruct (Z.eqb_spec n 0) as [->|H0]; [by destruct s|].
  destruct (fraction_ok 9 n Hn) as (H1 & H2 & H3). set (f := fraction 9 n) in *. clearbody f. destruct f as [|c f].
  { exfalso. apply H0. rewrite <- H3. done. }
  assert (Hc : is_digit c = true) by (by inversion H1). cbn [app get_fraction]. rewrite Hc. rewrite bool_decide_eq_true_2 by set_solver.
  cbn [andb drop]. change (c :: f ++ ?r)%list with ((c :: f) ++ r)%list. rewrite span_app by done.
  rewrite take_ge by done. change 9 with (Z.of_nat 9). by rewrite H3.
Qed.

(** The years that print with four digits. *)
Definition year_of (t : Z) : Z := (civil_from_days (t / Nanos / 86400)).1.1.
Definition printable (t : Z) : Prop := 0 ≤ year_of t ≤ 9999.

(** One field of the layout, at the head of the text. *)
Ltac read_field :=
  progress (cbn [mbind option_bind]; rewrite <- ?app_comm_cons; first
    [rewrite get_year_four by lia | rewrite expect_cons | rewrite getnum_two by lia | rewrite in_range_ok by lia | idtac]).

(** A time that was printed is read back to the nanosecond. *)
Lemma parse_format_rfc3339 t : printable t → parse_rfc3339 (format_rfc3339 t) = Some t.
Proof.
  unfold printable, year_of, format_rfc3339. destruct (civil_from_days _) as [[y m] d] eqn:Hciv. cbn [fst]. intros Hy.
  apply civil_ok in Hciv as (Hdays & Hm & Hd). set (secs := t / Nanos) in *. set (s := secs mod 86400).
  assert (Hs : 0 ≤ s < 86400) by (apply Z.mod_pos_bound; lia).
  assert (Hn : 0 ≤ t mod Nanos < Nanos) by (apply Z.mod_pos_bound; unfold Nanos; lia).
  assert (Hdin : days_in m y ≤ 31) by (unfold days_in; repeat case_match; lia).
  assert (Hparts : 0 ≤ s / 3600 ≤ 23 ∧ 0 ≤ s / 60 mod 60 ≤ 59 ∧ 0 ≤ s mod 60 ≤ 59 ∧ s = s / 3600 * 3600 + s / 60 mod 60 * 60 + s mod 60)
    by (clear -Hs; Z.to_euclidean_division_equations; lia).
  destruct Hparts as (Hh & Hmi & Hse & Hsum). unfold parse_rfc3339. rewrite <- ?app_assoc. repeat read_field.
  rewrite get_fraction_format by done. cbn [get_zone]. rewrite bool_decide_eq_true_2 by done. repeat read_field.
  rewrite bool_decide_eq_true_2 by done. f_equal. rewrite Hdays.
  pose proof (Z.div_mod t Nanos ltac:(done)). pose proof (Z.div_mod secs 86400 ltac:(done)). fold secs in H. fold s in H0. lia.
Qed.
