(* ===== verification/Base64.v ===== *)
(** * Base64

    [base64.RawURLEncoding] of the Go library: the URL alphabet, without padding.
    The decoder skips line breaks and does not look at the bits a last group of two
    or three characters has left over. *)

From S2P Require Import Prelude Utf8.
From Stdlib Require Import Ascii.
Open Scope N_scope.

Definition b64_char (n : N) : ascii :=
  if n <? 26 then chr (65 + n) else if n <? 52 then chr (71 + n) else if n <? 62 then chr (n - 4)
  else if n =? 62 then "-"%char else "_"%char.

Definition b64_value (c : ascii) : option N :=
  let x := byte_of c in
  if between 65 90 c then Some (x - 65) else if between 97 122 c then Some (x - 71) else if between 48 57 c then Some (x + 4)
  else if bool_decide (c = "-"%char) then Some 62 else if bool_decide (c = "_"%char) then Some 63 else None.

(** [EncodeToString]: three bytes are four characters of six bits. *)
Fixpoint b64_encode (s : text) : text :=
  match s with
  | a :: b :: c :: s' =>
      let '(x, y, z) := (byte_of a, byte_of b, byte_of c) in
      b64_char (x / 4) :: b64_char (x mod 4 * 16 + y / 16) :: b64_char (y mod 16 * 4 + z / 64) :: b64_char (z mod 64) :: b64_encode s'
  | [a; b] =>
      let '(x, y) := (byte_of a, byte_of b) in
      [b64_char (x / 4); b64_char (x mod 4 * 16 + y / 16); b64_char (y mod 16 * 4)]
  | [a] => let x := byte_of a in [b64_char (x / 4); b64_char (x mod 4 * 16)]
  | [] => []
  end.

Fixpoint b64_bytes (vs : list N) : option text :=
  match vs with
  | a :: b :: c :: d :: vs' =>
      rest ← b64_bytes vs';
      Some (chr (a * 4 + b / 16) :: chr (b mod 16 * 16 + c / 4) :: chr (c mod 4 * 64 + d) :: rest)
  | [a; b; c] => Some [chr (a * 4 + b / 16); chr (b mod 16 * 16 + c / 4)]
  | [a; b] => Some [chr (a * 4 + b / 16)]
  | [_] => None
  | [] => Some []
  end.

(** [DecodeString] *)
Definition b64_decode (s : text) : option text :=
  vs ← mapM b64_value (filter (λ c, c ∉ ["010"; "013"]%char) s); b64_bytes vs.

(** ** Decoding what was encoded *)

Lemma b64_alphabet : forallb (λ n, bool_decide (b64_value (b64_char (N.of_nat n)) = Some (N.of_nat n) ∧
  b64_char (N.of_nat n) ∉ ["010"; "013"]%char)) (seq 0 64) = true.
Proof. vm_compute. reflexivity. Qed.

Lemma b64_value_char n : n < 64 → b64_value (b64_char n) = Some n ∧ b64_char n ∉ ["010"; "013"]%char.
Proof.
  intros Hn. assert (Hin : In (N.to_nat n) (seq 0 64)) by (apply in_seq; lia).
  pose proof (proj1 (forallb_forall _ _) b64_alphabet _ Hin) as H.
  apply bool_decide_eq_true in H. by rewrite N2Nat.id in H.
Qed.

Lemma byte_small c : byte_of c < 256.
Proof. apply N_ascii_bounded. Qed.

(** One character of the code, in front of the rest. *)
Lemma filter_char n s : n < 64 → filter (λ c, c ∉ ["010"; "013"]%char) (b64_char n :: s) = b64_char n :: filter (λ c, c ∉ ["010"; "013"]%char) s.
Proof. intros Hn. by rewrite filter_cons_True by apply (b64_value_char n Hn). Qed.

(** The numbers of six bits of a text. *)
Fixpoint sextets (s : text) : list N :=
  match s with
  | a :: b :: c :: s' =>
      let '(x, y, z) := (byte_of a, byte_of b, byte_of c) in
      x / 4 :: x mod 4 * 16 + y / 16 :: y mod 16 * 4 + z / 64 :: z mod 64 :: sextets s'
  | [a; b] => let '(x, y) := (byte_of a, byte_of b) in [x / 4; x mod 4 * 16 + y / 16; y mod 16 * 4]
  | [a] => let x := byte_of a in [x / 4; x mod 4 * 16]
  | [] => []
  end.

Lemma three_at_a_time (P : text → Prop) :
  P [] → (∀ a, P [a]) → (∀ a b, P [a; b]) → (∀ a b c s, P s → P (a :: b :: c :: s)) → ∀ s, P s.
Proof.
  intros H0 H1 H2 H3 s. cut (∀ n s, (length s ≤ n)%nat → P s); [intros H; by apply (H (length s))|]. clear s. induction n as [|n IH]; intros s Hn.
  - by destruct s; [|simpl in Hn; lia].
  - destruct s as [|a [|b [|c s]]]; [done..|]. apply H3, IH. simpl in Hn. lia.
Qed.

Lemma b64_encode_sextets s : b64_encode s = b64_char <$> sextets s.
Proof. induction s as [|a|a b|a b c s IH] using three_at_a_time; [done..|]. cbn -[N.div N.modulo]. by rewrite IH. Qed.

Ltac small_bytes := repeat match goal with
  | |- context [byte_of ?c] => lazymatch goal with H : byte_of c < 256 |- _ => fail | _ => pose proof (byte_small c) end end.

Lemma sextets_small s : Forall (λ n, n < 64) (sextets s).
Proof.
  induction s as [|a|a b|a b c s IH] using three_at_a_time; cbn -[N.div N.modulo N.mul N.add]; [constructor|..]; small_bytes;
    repeat (apply list.Forall_cons; split; [zify; Z.to_euclidean_division_equations; lia|]); done.
Qed.

Lemma sextets_bytes s : b64_bytes (sextets s) = Some s.
Proof.
  assert (Hb : ∀ n c, n = byte_of c → chr n = c) by (intros ? ? ->; apply chr_byte).
  induction s as [|a|a b|a b c s IH] using three_at_a_time; cbn -[N.div N.modulo N.mul N.add]; [done|..]; rewrite ?IH; small_bytes;
    cbn [mbind option_bind]; repeat f_equal; apply Hb; zify; Z.to_euclidean_division_equations; lia.
Qed.

Lemma b64_values vs : Forall (λ n, n < 64) vs →
  mapM b64_value (filter (λ c, c ∉ ["010"; "013"]%char) (b64_char <$> vs)) = Some vs.
Proof.
  induction 1 as [|n vs Hn Hvs IH]; [done|]. rewrite fmap_cons, filter_char by done. cbn [mapM]. rewrite (proj1 (b64_value_char n Hn)).
  cbn [mbind option_bind]. by rewrite IH.
Qed.

Lemma b64_roundtrip s : b64_decode (b64_encode s) = Some s.
Proof. unfold b64_decode. rewrite b64_encode_sextets, b64_values by apply sextets_small. apply sextets_bytes. Qed.
