(* ===== verification/Cursor.v ===== *)
(** * Cursors (http/dto.go)

    A keyset position as one opaque token, and back. *)

From S2P Require Import Prelude Errors Types Keyset Read Utf8 JsonText Canonical CanonicalNum TimeText.
From S2P Require Import Base64.
From Stdlib Require Import Ascii.
Open Scope string_scope.
Open Scope Z_scope.

(** [uuid.Parse] of [github.com/google/uuid], and what the code relies on: it reads
    what [String] writes. *)
Class UuidParser := uuid_Parse : string → option UUID.
Class UuidParseLaws `{UuidLib} `{UuidParser} : Prop := {
  uuid_Parse_String : ∀ u, uuid_valid u → uuid_Parse (uuid_String u) = Some u;
  uuid_Parse_valid : ∀ s u, uuid_Parse s = Some u → uuid_valid u
}.

Definition to_result {A} (o : option A) (e : error) : res A := match o with Some a => Ok a | None => Err e end.

Section cursors.
Context `{UuidLib} `{UuidParser}.

Definition encodeIDCursor (id : UUID) : string := str (b64_encode (bytes_of (uuid_String id))).

Definition decodeIDCursor (token : string) : res UUID :=
  raw ← to_result (b64_decode (bytes_of token)) ErrInvalidEntry;
  to_result (uuid_Parse (str raw)) ErrInvalidEntry.

Definition encodeCursor (c : StatementCursor) : string :=
  let raw := (format_rfc3339 (Cur_CreatedAt c) ++ "|"%char :: bytes_of (uuid_String (Cur_EntryID c)))%list in
  str (b64_encode raw).

Definition decodeCursor (token : string) : res StatementCursor :=
  raw ← to_result (b64_decode (bytes_of token)) ErrInvalidEntry;
  '(at_, id) ← to_result (cut "|"%char raw) ErrInvalidEntry;
  createdAt ← to_result (parse_rfc3339 at_) ErrInvalidEntry;
  entryID ← to_result (uuid_Parse (str id)) ErrInvalidEntry;
  Ok (mkStatementCursor createdAt entryID).

End cursors.

(** ** Tokens decode to the position they were made of *)

Lemma digits_only c l : is_digit c = false → digits l → c ∉ l.
Proof. intros Hc Hl Hin. apply list.Forall_forall with (x := c) in Hl; [|done]. congruence. Qed.

Lemma two_digits n : 0 ≤ n < 100 → digits (two n).
Proof.
  intros Hn. unfold two, digits. rewrite !list.Forall_cons. split_and!; [apply digit_text_ok; Z.to_euclidean_division_equations; lia..|done].
Qed.

(** The bytes of a time. *)
Lemma format_bytes t c : printable t → is_digit c = false → c ∉ ["-"; "T"; ":"; "."; "Z"]%char → c ∉ format_rfc3339 t.
Proof.
  unfold printable, year_of, format_rfc3339. destruct (civil_from_days _) as [[y m] d] eqn:Hciv. cbn [fst]. intros Hy Hc Hs.
  apply civil_ok in Hciv as (_ & Hm & Hd). set (s := _ mod 86400).
  assert (Hsr : 0 ≤ s < 86400) by (apply Z.mod_pos_bound; lia).
  assert (Hn : 0 ≤ t mod Nanos < Nanos) by (apply Z.mod_pos_bound; unfold Nanos; lia).
  assert (Hdin : days_in m y ≤ 31) by (unfold days_in; repeat case_match; lia).
  destruct (fraction_ok 9 (t mod Nanos) Hn) as (Hf & _ & _). rewrite !not_elem_of_cons in Hs. destruct Hs as (H1 & H2 & H3 & H4 & H5 & _).
  assert (Htwo : ∀ n, 0 ≤ n < 100 → c ∉ two n) by (intros n Hr; by apply digits_only, two_digits).
  unfold four. repeat (rewrite not_elem_of_app || rewrite not_elem_of_cons).
  split_and!; try done; try (apply Htwo; Z.to_euclidean_division_equations; lia).
  - destruct (t mod Nanos =? 0); [set_solver|]. rewrite not_elem_of_cons. split; [done|]. by apply digits_only.
  - set_solver.
Qed.

Lemma format_no_bar t : printable t → "|"%char ∉ format_rfc3339 t.
Proof. intros Ht. apply format_bytes; [done|done|]. rewrite !not_elem_of_cons. split_and!; try done. set_solver. Qed.

Section roundtrips.
Context `{UuidParseLaws}.

Lemma decode_encode_cursor c : printable (Cur_CreatedAt c) → uuid_valid (Cur_EntryID c) → decodeCursor (encodeCursor c) = Ok c.
Proof.
  intros Ht Hu. unfold decodeCursor, encodeCursor. rewrite String.list_ascii_of_string_of_list_ascii, b64_roundtrip. cbn [to_result mbind result_bind].
  rewrite cut_app by (by apply format_no_bar). cbn [to_result mbind result_bind]. rewrite parse_format_rfc3339 by done.
  cbn [to_result mbind result_bind]. rewrite String.string_of_list_ascii_of_string, uuid_Parse_String by done. by destruct c.
Qed.

Lemma decode_encode_id_cursor u : uuid_valid u → decodeIDCursor (encodeIDCursor u) = Ok u.
Proof.
  intros Hu. unfold decodeIDCursor, encodeIDCursor. rewrite String.list_ascii_of_string_of_list_ascii, b64_roundtrip. cbn [to_result mbind result_bind].
  by rewrite String.string_of_list_ascii_of_string, uuid_Parse_String.
Qed.

End roundtrips.

(** A token no position decodes to is refused with the one error. *)
Lemma decodeCursor_error `{UuidLib} `{UuidParser} token e : decodeCursor token = Err e → e = ErrInvalidEntry.
Proof.
  unfold decodeCursor. destruct (b64_decode _) as [raw|]; cbn; [|congruence]. destruct (cut _ raw) as [[a i]|]; cbn; [|congruence].
  destruct (parse_rfc3339 a); cbn; [|congruence]. destruct (uuid_Parse _); cbn; congruence.
Qed.
