(* ===== verification/UuidText.v ===== *)
(** * A concrete reader of UUIDs

    The hyphenated form, in either case, shown to satisfy what the development
    assumes of [uuid.Parse].  The examples use it. *)

From S2P Require Import Prelude Errors Types Uuid Keyset Read Utf8 JsonText TimeText Base64 Cursor.
From Stdlib Require Import Ascii.
Open Scope string_scope.
Open Scope Z_scope.

Definition hex_digit_value (c : ascii) : option N :=
  if between 48 57 c then Some (byte_of c - 48)%N else if between 97 102 c then Some (byte_of c - 87)%N
  else if between 65 70 c then Some (byte_of c - 55)%N else None.

(** The digits from position [i] on, and the dashes between the groups. *)
Fixpoint hex_scan (i : nat) (s : string) : option (list N) :=
  match s with
  | EmptyString => Some []
  | String c s' =>
      if bool_decide (i ∈ [8; 12; 16; 20]%nat) then
        match s' with
        | String d s'' => if bool_decide (c = "-"%char) then x ← hex_digit_value d; xs ← hex_scan (S i) s''; Some (x :: xs) else None
        | EmptyString => None
        end
      else x ← hex_digit_value c; xs ← hex_scan (S i) s'; Some (x :: xs)
  end.

Definition from_digits (ds : list N) : N := fold_left (λ acc d, acc * 16 + d)%N ds 0%N.

#[export] Instance hex_parser : UuidParser := λ s,
  ds ← hex_scan 0 s; if bool_decide (length ds = 32%nat) then Some (from_digits ds) else None.

Lemma hex_alphabet : forallb (λ n, bool_decide (hex_digit_value (hex_digit (N.of_nat n)) = Some (N.of_nat n))) (seq 0 16) = true.
Proof. vm_compute. reflexivity. Qed.

Lemma hex_digit_value_ok n : (n < 16)%N → hex_digit_value (hex_digit n) = Some n.
Proof.
  intros Hn. assert (Hin : In (N.to_nat n) (seq 0 16)) by (apply in_seq; lia).
  pose proof (proj1 (forallb_forall _ _) hex_alphabet _ Hin) as H. apply bool_decide_eq_true in H. by rewrite N2Nat.id in H.
Qed.

Lemma hex_scan_render ds : ∀ i, Forall (λ x, (x < 16)%N) ds → hex_scan i (hex_render i ds) = Some ds.
Proof.
  induction ds as [|x ds IH]; intros i Hds; [done|]. apply list.Forall_cons in Hds as [Hx Hds]. cbn [hex_render].
  case_bool_decide as Hi; cbn [hex_scan].
  - rewrite bool_decide_eq_true_2 by done. rewrite bool_decide_eq_true_2 by done. rewrite hex_digit_value_ok by done. cbn [mbind option_bind].
    by rewrite IH.
  - rewrite bool_decide_eq_false_2 by done. rewrite hex_digit_value_ok by done. cbn [mbind option_bind]. by rewrite IH.
Qed.

Lemma from_digits_app a x : from_digits (a ++ [x]) = (from_digits a * 16 + x)%N.
Proof. unfold from_digits. by rewrite fold_left_app. Qed.

Lemma from_hex_digits k : ∀ u, (u < 16 ^ N.of_nat k)%N → from_digits (hex_digits k u) = u.
Proof.
  induction k as [|k IH]; intros u Hu; [simpl in *; unfold from_digits; simpl; lia|]. cbn [hex_digits].
  rewrite Nat2N.inj_succ, N.pow_succ_r' in Hu. rewrite from_digits_app, IH by (apply N.Div0.div_lt_upper_bound; lia).
  pose proof (N.div_mod' u 16). lia.
Qed.

Lemma hex_value_small c x : hex_digit_value c = Some x → (x < 16)%N.
Proof.
  unfold hex_digit_value. destruct (between 48 57 c) eqn:H1; [apply between_spec in H1; intros [= <-]; lia|].
  destruct (between 97 102 c) eqn:H2; [apply between_spec in H2; intros [= <-]; lia|].
  destruct (between 65 70 c) eqn:H3; [apply between_spec in H3; intros [= <-]; lia|done].
Qed.

Lemma hex_scan_small n : ∀ s i ds, (String.length s ≤ n)%nat → hex_scan i s = Some ds → Forall (λ x, (x < 16)%N) ds.
Proof.
  induction n as [|n IH]; intros [|c s] i ds Hn; cbn [String.length] in Hn; try lia; [intros [= <-]; constructor..|]. cbn [hex_scan].
  case_bool_decide; [destruct s as [|d s]; [done|]; case_bool_decide; [|done]|]; intros (x & Hx & (xs & Hxs & [= <-])%bind_Some)%bind_Some;
    constructor; try (by eapply hex_value_small); eapply IH; [|exact Hxs| |exact Hxs]; cbn [String.length] in Hn; lia.
Qed.

Lemma from_digits_small ds : Forall (λ x, (x < 16)%N) ds → (from_digits ds < 16 ^ N.of_nat (length ds))%N.
Proof.
  induction ds as [|x ds IH] using rev_ind; intros Hds; [done|]. apply list.Forall_app in Hds as [Hds Hx]. inversion Hx as [|? ? Hx' _]; subst.
  rewrite from_digits_app, length_app, Nat.add_comm. cbn [length Nat.add]. rewrite Nat2N.inj_succ, N.pow_succ_r'. specialize (IH Hds). lia.
Qed.

#[export] Instance hex_parser_laws : UuidParseLaws.
Proof.
  split.
  - intros u Hu. unfold uuid_Parse, hex_parser, uuid_String, hex_uuid. rewrite hex_scan_render by apply hex_digits_bound.
    cbn [mbind option_bind]. rewrite bool_decide_eq_true_2 by apply hex_digits_length. by rewrite from_hex_digits.
  - intros s u (ds & Hds & Hu)%bind_Some. case_bool_decide as Hlen; [|done]. injection Hu as <-.
    apply hex_scan_small with (n := String.length s) in Hds; [|done]. apply from_digits_small in Hds. by rewrite Hlen in Hds.
Qed.

Example cursor_token : encodeCursor (mkStatementCursor 1751371200123456000 5%N) = "MjAyNS0wNy0wMVQxMjowMDowMC4xMjM0NTZafDAwMDAwMDAwLTAwMDAtMDAwMC0wMDAwLTAwMDAwMDAwMDAwNQ".
Proof. vm_compute. reflexivity. Qed.
