(* ===== verification/JsonMarshal.v ===== *)
(** * Encoding and decoding whole documents

    [json.Marshal] as text, with the HTML escapes it writes by default;
    [json.Decoder.Decode], which reads one value and leaves the rest; and decoding into
    Go values: struct fields, [any], unknown fields refused.  A mismatch of types is
    remembered and decoding goes on; the first one is the error in the end, unless an
    [UnmarshalJSON] method failed, which stops at once. *)

From S2P Require Import Prelude Errors Json Utf8 Float JsonText Canonical CanonicalStr CanonicalNum CanonicalParse.
From Stdlib Require Import Ascii.
Open Scope string_scope.
Open Scope Z_scope.

(** ** Writing *)

(** A byte below 128. *)
Definition quote_ascii (b : ascii) : text :=
  if bool_decide (b = "\"%char) || bool_decide (b = "034"%char) then ["\"%char; b]
  else if bool_decide (b = "008"%char) then bytes_of "\b"
  else if bool_decide (b = "012"%char) then bytes_of "\f"
  else if bool_decide (b = "010"%char) then bytes_of "\n"
  else if bool_decide (b = "013"%char) then bytes_of "\r"
  else if bool_decide (b = "009"%char) then bytes_of "\t"
  else if (byte_of b <? 32)%N || bool_decide (b ∈ ["<"; ">"; "&"]%char)
  then (bytes_of "\u00" ++ [hex_char (byte_of b / 16); hex_char (byte_of b mod 16)])%list
  else [b].

(** [appendString] after [skip] bytes: a byte that starts no rune is written as an
    escaped replacement character, and U+2028 and U+2029 are escaped. *)
Fixpoint quote_from (skip : nat) (s : text) : text :=
  match s with
  | [] => []
  | b :: s' =>
      match skip with
      | S k => quote_from k s'
      | O =>
          let '(r, n) := DecodeRune b s' in
          ((if (r <? 128)%N then quote_ascii b
            else if (r =? RuneError)%N && bool_decide (n = 0%nat) then bytes_of "\ufffd"
            else if (r =? 8232)%N then bytes_of "\u2028"
            else if (r =? 8233)%N then bytes_of "\u2029"
            else b :: take n s') ++ quote_from n s')%list
      end
  end.

Definition quote (s : string) : text := (chr 34 :: quote_from 0 (bytes_of s) ++ [chr 34])%list.

Fixpoint json_text (v : json) : text :=
  match v with
  | JNull => bytes_of "null"
  | JBool b => bytes_of (if b then "true" else "false")
  | JString s => quote s
  | JNumber lit => bytes_of lit
  | JArray items => ("["%char :: intercalate (json_text <$> items) ++ ["]"%char])%list
  | JObject members =>
      ("{"%char :: intercalate ((λ m, (quote m.1 ++ ":"%char :: json_text m.2)%list) <$> members) ++ ["}"%char])%list
  end.

(** A Go map is written with its keys in order. *)
Definition map_key_le (a b : string * json) : bool := String.leb a.1 b.1.

Fixpoint any_json (v : json) : json :=
  match v with
  | JArray items => JArray (any_json <$> items)
  | JObject members => JObject (sort_by map_key_le (prod_map id any_json <$> members))
  | v => v
  end.

(** ** Reading a value *)

(** The scanner refuses deeper nesting. *)
Definition maxNestingDepth : nat := 10000.

Fixpoint scan_value (n depth : nat) (s : text) {struct n} : option (json * text) :=
  match n with
  | O => None
  | S n =>
      match peek s with
      | c :: s1 =>
          if bool_decide (c = "{"%char) then
            match depth with
            | O => None
            | S depth =>
                match peek s1 with
                | d :: s2 => if bool_decide (d = "}"%char) then Some (JObject [], s2) else scan_members n depth s1 []
                | [] => None
                end
            end
          else if bool_decide (c = "["%char) then
            match depth with
            | O => None
            | S depth =>
                match peek s1 with
                | d :: s2 => if bool_decide (d = "]"%char) then Some (JArray [], s2) else scan_items n depth s1 []
                | [] => None
                end
            end
          else lex_scalar (c :: s1)
      | [] => None
      end
  end
with scan_members (n depth : nat) (s : text) (acc : list (string * json)) {struct n} : option (json * text) :=
  match n with
  | O => None
  | S n =>
      match peek s with
      | q :: s1 =>
          if bool_decide (q = "034"%char) then
            '(raw, s2) ← scan_string s1;
            match peek s2 with
            | c :: s3 =>
                if bool_decide (c = ":"%char) then
                  '(v, s4) ← scan_value n depth s3;
                  let acc := (acc ++ [(str (unquote raw), v)])%list in
                  match peek s4 with
                  | e :: s5 =>
                      if bool_decide (e = ","%char) then scan_members n depth s5 acc
                      else if bool_decide (e = "}"%char) then Some (JObject acc, s5) else None
                  | [] => None
                  end
                else None
            | [] => None
            end
          else None
      | [] => None
      end
  end
with scan_items (n depth : nat) (s : text) (acc : list json) {struct n} : option (json * text) :=
  match n with
  | O => None
  | S n =>
      '(v, s1) ← scan_value n depth s;
      match peek s1 with
      | e :: s2 =>
          if bool_decide (e = ","%char) then scan_items n depth s2 (acc ++ [v])
          else if bool_decide (e = "]"%char) then Some (JArray (acc ++ [v]), s2) else None
      | [] => None
      end
  end.

(** [Decode]: the first value of the text. *)
Definition Decode (s : text) : res json :=
  match peek s with
  | [] => Err EOF
  | _ => match scan_value (parse_fuel s) maxNestingDepth s with Some (v, _) => Ok v | None => Err SyntaxError end
  end.

(** ** The scanner always decides *)

Lemma scan_size n :
  (∀ d s v r, scan_value n d s = Some (v, r) → (length r < length s)%nat) ∧
  (∀ d s acc v r, scan_members n d s acc = Some (v, r) → (length r < length s)%nat) ∧
  (∀ d s acc v r, scan_items n d s acc = Some (v, r) → (length r < length s)%nat).
Proof.
  induction n as [|n (IHv & IHm & IHi)]; [done|]. split_and!.
  - intros d s v r. cbn [scan_value]. pose proof (peek_length s) as Hp. destruct (peek s) as [|c s1]; [done|]. cbn [length] in Hp.
    pose proof (peek_length s1) as Hp1. case_bool_decide; [|case_bool_decide].
    + destruct d as [|d]; [done|]. destruct (peek s1) as [|x s2] eqn:Hs; [done|]. cbn [length] in Hp1.
      case_bool_decide; [intros [= _ <-]; lia|]. intros Hr%IHm. lia.
    + destruct d as [|d]; [done|]. destruct (peek s1) as [|x s2] eqn:Hs; [done|]. cbn [length] in Hp1.
      case_bool_decide; [intros [= _ <-]; lia|]. intros Hr%IHi. lia.
    + intros Hl. apply lex_scalar_ok in Hl as [_ Hl]. cbn [length] in Hl. lia.
  - intros d s acc v r. cbn [scan_members]. pose proof (peek_length s) as Hp. destruct (peek s) as [|q s1]; [done|]. cbn [length] in Hp.
    case_bool_decide; [|done]. destruct (scan_string s1) as [[raw s2]|] eqn:Hs; [|done]. apply scan_string_length in Hs. cbn [mbind option_bind].
    pose proof (peek_length s2) as Hp2. destruct (peek s2) as [|c s3]; [done|]. cbn [length] in Hp2. case_bool_decide; [|done].
    destruct (scan_value n d s3) as [[x s4]|] eqn:Hv; [|done]. apply IHv in Hv. cbn [mbind option_bind]. cbv zeta.
    pose proof (peek_length s4) as Hp4. destruct (peek s4) as [|e s5]; [done|]. cbn [length] in Hp4.
    case_bool_decide; [intros Hm%IHm; lia|]. case_bool_decide; [intros [= _ <-]; lia|done].
  - intros d s acc v r. cbn [scan_items]. destruct (scan_value n d s) as [[x s1]|] eqn:Hv; [|done]. apply IHv in Hv. cbn [mbind option_bind].
    pose proof (peek_length s1) as Hp1. destruct (peek s1) as [|e s2]; [done|]. cbn [length] in Hp1.
    case_bool_decide; [intros Hi%IHi; lia|]. case_bool_decide; [intros [= _ <-]; lia|done].
Qed.

(** With [2 * length s + 1] steps for a value and one more for the inside of an object or
    array, more steps change nothing: no text is refused for lack of them. *)
Lemma scan_fuel n : ∀ m,
  (∀ d s, (2 * length s < n)%nat → (2 * length s < m)%nat → scan_value n d s = scan_value m d s) ∧
  (∀ d s acc, (2 * length s + 1 < n)%nat → (2 * length s + 1 < m)%nat → scan_members n d s acc = scan_members m d s acc) ∧
  (∀ d s acc, (2 * length s + 1 < n)%nat → (2 * length s + 1 < m)%nat → scan_items n d s acc = scan_items m d s acc).
Proof.
  induction n as [|n IH]; intros m; [split_and!; intros; lia|]. destruct m as [|m]; [split_and!; intros; lia|].
  destruct (IH m) as (IHv & IHm & IHi). pose proof (scan_size m) as (Sv & _). split_and!.
  - intros d s Hn Hm. cbn [scan_value]. pose proof (peek_length s) as Hp. destruct (peek s) as [|c s1]; [done|]. cbn [length] in Hp.
    case_bool_decide; [|case_bool_decide; [|done]]; (destruct d as [|d]; [done|]); (destruct (peek s1); [done|]); (case_bool_decide; [done|]);
      [apply IHm|apply IHi]; lia.
  - intros d s acc Hn Hm. cbn [scan_members]. pose proof (peek_length s) as Hp. destruct (peek s) as [|q s1]; [done|]. cbn [length] in Hp.
    case_bool_decide; [|done]. destruct (scan_string s1) as [[raw s2]|] eqn:Hs; [|done]. apply scan_string_length in Hs. cbn [mbind option_bind].
    pose proof (peek_length s2) as Hp2. destruct (peek s2) as [|c s3]; [done|]. cbn [length] in Hp2. case_bool_decide; [|done].
    rewrite (IHv d s3) by lia. destruct (scan_value m d s3) as [[x s4]|] eqn:Hv; [|done]. apply Sv in Hv. cbn [mbind option_bind]. cbv zeta.
    pose proof (peek_length s4) as Hp4. destruct (peek s4) as [|e s5]; [done|]. cbn [length] in Hp4. case_bool_decide; [apply IHm; lia|done].
  - intros d s acc Hn Hm. cbn [scan_items]. rewrite (IHv d s) by lia. destruct (scan_value m d s) as [[x s1]|] eqn:Hv; [|done]. apply Sv in Hv.
    cbn [mbind option_bind]. pose proof (peek_length s1) as Hp1. destruct (peek s1) as [|e s2]; [done|]. cbn [length] in Hp1.
    case_bool_decide; [apply IHi; lia|done].
Qed.

(** [Decode] gives what any larger number of steps gives. *)
Lemma Decode_decides s n : (parse_fuel s ≤ n)%nat → scan_value (parse_fuel s) maxNestingDepth s = scan_value n maxNestingDepth s.
Proof. intros Hn. unfold parse_fuel in *. apply (scan_fuel _ n); lia. Qed.

(** ** Decoding into Go values *)

Definition UnmarshalTypeError : error := ErrOther "json: cannot unmarshal".
Definition UnknownField : error := ErrOther "json: unknown field".

(** [saveError] keeps the first. *)
Definition saveError (saved : option error) (e : error) : option error :=
  match saved with Some e0 => Some e0 | None => Some e end.

(** A [string] field: [null] leaves it. *)
Definition decode_string (cur : string) (v : json) (saved : option error) : string * option error :=
  match v with JString s => (s, saved) | JNull => (cur, saved) | _ => (cur, saveError saved UnmarshalTypeError) end.

(** A [*string] field: [null] clears it. *)
Definition decode_string_ptr (cur : option string) (v : json) (saved : option error) : option string * option error :=
  match v with JString s => (Some s, saved) | JNull => (None, saved) | _ => (cur, saveError saved UnmarshalTypeError) end.

(** A number as [any] is a float64; [encoding/json] prints one as ECMAScript does, but
    keeps the sign of a zero. *)
Definition float_literal (lit : string) : option string :=
  match writeNumber lit with
  | Ok t =>
      Some (if bool_decide (t = bytes_of "0") && bool_decide (take 1 (bytes_of lit) = ["-"%char]) then "-0" else str t)
  | Err _ => None
  end.

(** The entry of a Go map. *)
Fixpoint map_set {A} (k : string) (v : A) (m : list (string * A)) : list (string * A) :=
  match m with
  | [] => [(k, v)]
  | (k', v') :: m => if bool_decide (k = k') then (k, v) :: m else (k', v') :: map_set k v m
  end.

(** A value as [any]: a number becomes a float64, an object a map, whose last member
    of a name stays.  [None] is a number out of range. *)
Fixpoint decode_any (v : json) : option json :=
  match v with
  | JNumber lit => JNumber <$> float_literal lit
  | JArray items =>
      JArray <$> (fix go (l : list json) : option (list json) :=
        match l with [] => Some [] | x :: l => x ← decode_any x; l ← go l; Some (x :: l) end) items
  | JObject members =>
      JObject <$> (fix go (l acc : list (string * json)) : option (list (string * json)) :=
        match l with [] => Some acc | (k, x) :: l => x ← decode_any x; go l (map_set k x acc) end) members []
  | v => Some v
  end.

(** A [map[string]any] field: members are added to the map that is there. *)
Definition decode_map (cur : list (string * json)) (v : json) (saved : option error) : list (string * json) * option error :=
  match v with
  | JNull => ([], saved)
  | JObject members =>
      foldl (λ '(m, saved) '(k, x), match decode_any x with Some x => (map_set k x m, saved) | None => (m, saveError saved UnmarshalTypeError) end)
        (cur, saved) members
  | _ => (cur, saveError saved UnmarshalTypeError)
  end.

(** A struct: its members in turn, each field decoded by [field], which answers [None]
    to a name it does not know. *)
Definition decode_struct {S} (field : S → string → json → option error → option (res (S * option error)))
    (cur : S) (v : json) (saved : option error) : res (S * option error) :=
  match v with
  | JNull => Ok (cur, saved)
  | JObject members =>
      foldM (λ '(s, saved) '(k, x), match field s k x saved with Some r => r | None => Ok (s, saveError saved UnknownField) end)
        (cur, saved) members
  | _ => Ok (cur, saveError saved UnmarshalTypeError)
  end.

Lemma decode_struct_inv {S} (P : S → Prop) field cur v saved s' saved' :
  (∀ s k x sv s' sv', P s → field s k x sv = Some (Ok (s', sv')) → P s') →
  P cur → decode_struct field cur v saved = Ok (s', saved') → P s'.
Proof.
  intros Hf Hcur Hd. unfold decode_struct in Hd. destruct v as [| | | | |members]; try (injection Hd as <- <-; done).
  revert cur saved Hcur Hd. induction members as [|[k x] members IH]; intros cur saved Hcur Hd; cbn [foldM] in Hd; [by injection Hd as <- <-|].
  destruct (field cur k x saved) as [[[s sv]|e]|] eqn:Hk; cbn [mbind result_bind] in Hd; [|done|].
  - eapply IH; [|exact Hd]. by eapply Hf.
  - by eapply IH.
Qed.

(** The value, or the error that was remembered. *)
Definition decoded {S} (r : res (S * option error)) : res S :=
  match r with Err e => Err e | Ok (_, Some e) => Err e | Ok (s, None) => Ok s end.

Definition text_of (s : string) : option text := match Decode (doc s) with Ok v => v ← decode_any v; Some (json_text (any_json v)) | Err _ => None end.

(** Numbers become float64, keys are sorted, HTML is escaped, what follows the value is
    not looked at. *)
Example marshal_examples :
  text_of " { 'b' : [1.50, -0, 1e2], 'a': '<&\u2028', 'b': 7 } x" = Some (doc "{'a':'\u003c\u0026\u2028','b':7}") ∧
  text_of "[1.50, -0, 1e2,1e-7]" = Some (doc "[1.5,-0,100,1e-7]") ∧ text_of "[1,]" = None ∧ text_of "{'a':1e999}" = None.
Proof. vm_compute. by split_and!. Qed.
