(* ===== verification/HttpDto.v ===== *)
(** * The wire types (http/dto.go, http/sagas.go, http/reconciliation.go)

    What the requests decode into and the responses are rendered from.  Decoding is
    strict about unknown fields; rendering follows the struct tags. *)

From S2P Require Import Prelude Errors Money Strconv Json MoneyJson Types SagaTypes Service Keyset Read.
From S2P Require Import Recon Utf8 JsonText Canonical TimeText Cursor JsonMarshal.
From Stdlib Require Import Ascii.
Open Scope string_scope.
Open Scope Z_scope.

(** ** Requests *)

Record entryRequestJSON := mkEntryJSON { Ej_AccountID : string; Ej_Direction : string; Ej_Amount : Money }.

(** [entries] is the backing array of the slice and its length: a second [entries]
    member is decoded into the elements that are there. *)
Record postTransactionRequest := mkPostRequest {
  Pr_Type : string;
  Pr_ExternalRef : option string;
  Pr_Metadata : list (string * json);
  Pr_backing : list entryRequestJSON;
  Pr_len : nat }.

Definition Pr_Entries (r : postTransactionRequest) : list entryRequestJSON := take (Pr_len r) (Pr_backing r).

Definition zero_money : Money := mkMoney 0 "".
Definition zero_entry : entryRequestJSON := mkEntryJSON "" "" zero_money.

(** A [ledger.Money] field has its own method, which also sees [null]. *)
Definition decode_money (v : json) (saved : option error) : res (Money * option error) :=
  m ← Money_UnmarshalJSON v; Ok (m, saved).

Definition entry_field (e : entryRequestJSON) (k : string) (v : json) (saved : option error) : option (res (entryRequestJSON * option error)) :=
  if field_matches "account_id" k then
    Some (let '(s, saved) := decode_string (Ej_AccountID e) v saved in Ok (mkEntryJSON s (Ej_Direction e) (Ej_Amount e), saved))
  else if field_matches "direction" k then
    Some (let '(s, saved) := decode_string (Ej_Direction e) v saved in Ok (mkEntryJSON (Ej_AccountID e) s (Ej_Amount e), saved))
  else if field_matches "amount" k then
    Some ('(m, saved) ← decode_money v saved; Ok (mkEntryJSON (Ej_AccountID e) (Ej_Direction e) m, saved))
  else None.

(** The items of an array, each decoded over the element at its place. *)
Fixpoint decode_entries (old : list entryRequestJSON) (items : list json) (saved : option error)
    : res (list entryRequestJSON * option error) :=
  match items with
  | [] => Ok (old, saved)
  | x :: items =>
      '(e, saved) ← decode_struct entry_field (default zero_entry (head old)) x saved;
      '(es, saved) ← decode_entries (tail old) items saved;
      Ok (e :: es, saved)
  end.

Definition post_field (r : postTransactionRequest) (k : string) (v : json) (saved : option error)
    : option (res (postTransactionRequest * option error)) :=
  if field_matches "type" k then
    Some (let '(s, saved) := decode_string (Pr_Type r) v saved in
          Ok (mkPostRequest s (Pr_ExternalRef r) (Pr_Metadata r) (Pr_backing r) (Pr_len r), saved))
  else if field_matches "external_ref" k then
    Some (let '(s, saved) := decode_string_ptr (Pr_ExternalRef r) v saved in
          Ok (mkPostRequest (Pr_Type r) s (Pr_Metadata r) (Pr_backing r) (Pr_len r), saved))
  else if field_matches "metadata" k then
    Some (let '(m, saved) := decode_map (Pr_Metadata r) v saved in
          Ok (mkPostRequest (Pr_Type r) (Pr_ExternalRef r) m (Pr_backing r) (Pr_len r), saved))
  else if field_matches "entries" k then
    Some (match v with
          | JNull | JArray [] => Ok (mkPostRequest (Pr_Type r) (Pr_ExternalRef r) (Pr_Metadata r) [] 0, saved)
          | JArray items =>
              '(es, saved) ← decode_entries (Pr_backing r) items saved;
              Ok (mkPostRequest (Pr_Type r) (Pr_ExternalRef r) (Pr_Metadata r) es (length items), saved)
          | _ => Ok (r, saveError saved UnmarshalTypeError)
          end)
  else None.

Definition decode_post (v : json) : res postTransactionRequest :=
  decoded (decode_struct post_field (mkPostRequest "" None [] [] 0) v None).

(** The body of a reversal is its reason. *)
Definition decode_reverse (v : json) : res string :=
  decoded (decode_struct (λ reason k x saved, if field_matches "reason" k then Some (Ok (decode_string reason x saved)) else None) "" v None).

Record startPayoutRequest := mkPayoutRequest {
  Sp_CustomerWalletID : string;
  Sp_SuspenseID : string;
  Sp_MerchantPayableID : string;
  Sp_FeeRevenueID : string;
  Sp_Amount : Money;
  Sp_Fee : option Money;
  Sp_ExternalRef : string }.

(** The pointer to the fee is cleared by [null] and has its method called otherwise. *)
Definition payout_field (b : startPayoutRequest) (k : string) (v : json) (saved : option error)
    : option (res (startPayoutRequest * option error)) :=
  let 'mkPayoutRequest c s m f a fee ref := b in
  if field_matches "customer_wallet_id" k then
    Some (let '(x, saved) := decode_string c v saved in Ok (mkPayoutRequest x s m f a fee ref, saved))
  else if field_matches "platform_suspense_id" k then
    Some (let '(x, saved) := decode_string s v saved in Ok (mkPayoutRequest c x m f a fee ref, saved))
  else if field_matches "merchant_payable_id" k then
    Some (let '(x, saved) := decode_string m v saved in Ok (mkPayoutRequest c s x f a fee ref, saved))
  else if field_matches "fee_revenue_id" k then
    Some (let '(x, saved) := decode_string f v saved in Ok (mkPayoutRequest c s m x a fee ref, saved))
  else if field_matches "amount" k then
    Some ('(x, saved) ← decode_money v saved; Ok (mkPayoutRequest c s m f x fee ref, saved))
  else if field_matches "fee" k then
    Some (match v with
          | JNull => Ok (mkPayoutRequest c s m f a None ref, saved)
          | _ => '(x, saved) ← decode_money v saved; Ok (mkPayoutRequest c s m f a (Some x) ref, saved)
          end)
  else if field_matches "external_ref" k then
    Some (let '(x, saved) := decode_string ref v saved in Ok (mkPayoutRequest c s m f a fee x, saved))
  else None.

Definition decode_payout (v : json) : res startPayoutRequest :=
  decoded (decode_struct payout_field (mkPayoutRequest "" "" "" "" zero_money None "") v None).

(** [decodeJSON]: any failure is a malformed body. *)
Definition decodeJSON {A} (into : json → res A) (body : text) : res A :=
  match (v ← Decode body; into v) with
  | Ok a => Ok a
  | Err e => Err (Wrap2 e ErrMalformedBody)
  end.

Section conversions.
Context `{UuidLib} `{UuidParser}.

Definition UuidError : error := ErrOther "invalid UUID".

Fixpoint toDomain_entries (es : list entryRequestJSON) : res (list EntryRequest) :=
  match es with
  | [] => Ok []
  | e :: es =>
      accountID ← to_result (uuid_Parse (Ej_AccountID e)) (Wrap2 UuidError ErrInvalidEntry);
      rest ← toDomain_entries es;
      Ok (mkEntryRequest accountID (Ej_Direction e) (Ej_Amount e) :: rest)
  end.

Definition toDomain (r : postTransactionRequest) : res TransactionRequest :=
  entries ← toDomain_entries (Pr_Entries r);
  Ok (mkTransactionRequest "" (Pr_Type r) (Pr_ExternalRef r) (Pr_Metadata r) entries None None None).

(** The ids are parsed in map order, which decides only the text of the error. *)
Definition toPayload (b : startPayoutRequest) : res Payload :=
  customer ← to_result (uuid_Parse (Sp_CustomerWalletID b)) ErrAccountNotFound;
  suspense ← to_result (uuid_Parse (Sp_SuspenseID b)) ErrAccountNotFound;
  merchant ← to_result (uuid_Parse (Sp_MerchantPayableID b)) ErrAccountNotFound;
  revenue ← to_result (uuid_Parse (Sp_FeeRevenueID b)) ErrAccountNotFound;
  feeMinor ← match Sp_Fee b with
             | Some fee => if bool_decide (currency fee = currency (Sp_Amount b)) then Ok (amountMinor fee) else Err ErrMixedCurrency
             | None => Ok 0
             end;
  Ok (mkPayload customer suspense merchant revenue (amountMinor (Sp_Amount b)) feeMinor (currency (Sp_Amount b)) (Sp_ExternalRef b)).

End conversions.

(** ** Rendering *)

(** [time.Time.MarshalJSON], of a time in UTC. *)
Definition Time_MarshalJSON (t : Time) : res json :=
  if (0 <=? year_of t) && (year_of t <=? 9999) then Ok (JString (str (format_rfc3339 t)))
  else Err (ErrOther "Time.MarshalJSON: year outside of range [0,9999]").

Definition JInt (z : Z) : json := JNumber (FormatInt z).

(** A struct, field by field; a field tagged [omitempty] may be missing. *)
Fixpoint marshal_struct (fields : list (string * res json)) : res json :=
  match fields with
  | [] => Ok (JObject [])
  | (k, v) :: fields =>
      v ← v; rest ← marshal_struct fields;
      match rest with JObject ms => Ok (JObject ((k, v) :: ms)) | j => Ok j end
  end.

Definition omitempty (k : string) (v : option (res json)) : list (string * res json) :=
  match v with Some v => [(k, v)] | None => [] end.
Definition nonempty (s : string) : option (res json) := if bool_decide (s = "") then None else Some (Ok (JString s)).
Definition pointer (s : option string) : option (res json) := (λ x, Ok (JString x)) <$> s.

(** A slice; a nil slice would be [null], and none of these is nil. *)
Fixpoint marshal_slice {A} (f : A → res json) (l : list A) : res (list json) :=
  match l with [] => Ok [] | x :: l => v ← f x; vs ← marshal_slice f l; Ok (v :: vs) end.

Definition marshal_array {A} (f : A → res json) (l : list A) : res json := vs ← marshal_slice f l; Ok (JArray vs).

Definition nullable (s : option string) : res json := Ok (match s with Some x => JString x | None => JNull end).

Section responses.
Context `{UuidLib}.

Definition entryResponse_fields (e : JournalEntry) : list (string * res json) :=
  [("id", Ok (JString (uuid_String (Entry_ID e))));
   ("account_id", Ok (JString (uuid_String (Entry_AccountID e))));
   ("direction", Ok (JString (Entry_Direction e)));
   ("amount", Money_MarshalJSON (Entry_Amount e));
   ("entry_seq", Ok (JInt (Entry_EntrySeq e)));
   ("created_at", Time_MarshalJSON (Entry_CreatedAt e))].

(** [newTransactionResponse], as JSON. *)
Definition newTransactionResponse (t : Transaction) : res json :=
  marshal_struct (
    [("id", Ok (JString (uuid_String (Tx_ID t)))); ("type", Ok (JString (Tx_Type t))); ("status", Ok (JString (Tx_Status t)))] ++
    omitempty "idempotency_key" (pointer (Tx_IdempotencyKey t)) ++
    omitempty "external_ref" (pointer (Tx_ExternalRef t)) ++
    omitempty "metadata" (if bool_decide (Tx_Metadata t = []) then None else Some (Ok (any_json (JObject (Tx_Metadata t))))) ++
    [("created_at", Time_MarshalJSON (Tx_CreatedAt t))] ++
    omitempty "posted_at" (Time_MarshalJSON <$> Tx_PostedAt t) ++
    [("entries", marshal_array (λ e, marshal_struct (entryResponse_fields e)) (Tx_Entries t))])%list.

Definition balanceResponse (b : Balance) : res json :=
  marshal_struct
    [("account_id", Ok (JString (uuid_String (Balance_AccountID b)))); ("available", Money_MarshalJSON (Balance_Available b));
     ("pending", Money_MarshalJSON (Balance_Pending b)); ("version", Ok (JInt (Balance_Version b)));
     ("updated_at", Time_MarshalJSON (Balance_UpdatedAt b))].

Definition balanceAsOfResponse (accountID : UUID) (at_ : Time) (balance : Money) : res json :=
  marshal_struct
    [("account_id", Ok (JString (uuid_String accountID))); ("as_of", Time_MarshalJSON at_); ("balance", Money_MarshalJSON balance)].

Definition statementLineResponse (l : StatementLine) : res json :=
  marshal_struct
    [("entry", marshal_struct (entryResponse_fields (Line_Entry l))); ("signed", Money_MarshalJSON (Line_Signed l));
     ("running_balance", Money_MarshalJSON (Line_RunningBalance l))].

Definition newStatementResponse (s : Statement) : res json :=
  marshal_struct
    [("account_id", Ok (JString (uuid_String (Stm_AccountID s)))); ("currency", Ok (JString (Stm_Currency s)));
     ("from", Time_MarshalJSON (Stm_From s)); ("to", Time_MarshalJSON (Stm_To s));
     ("opening", Money_MarshalJSON (Stm_Opening s)); ("closing", Money_MarshalJSON (Stm_Closing s));
     ("lines", marshal_array statementLineResponse (Stm_Lines s));
     ("next_cursor", nullable (encodeCursor <$> Stm_NextCursor s))].

Definition newTransactionListResponse (p : TransactionPage) : res json :=
  marshal_struct
    [("transactions", marshal_array newTransactionResponse (Tp_Transactions p));
     ("next_cursor", nullable (encodeIDCursor <$> Tp_NextCursor p))].

Definition newAccountResponse (a : Account) : res json :=
  marshal_struct (
    [("id", Ok (JString (uuid_String (Account_ID a)))); ("external_ref", Ok (JString (Account_ExternalRef a)));
     ("account_type", Ok (JString (Account_Type a))); ("normal_balance", Ok (JString (Account_NormalBalance a)));
     ("currency", Ok (JString (Account_Currency a)))] ++
    omitempty "owner_id" (pointer (Account_OwnerID a)) ++
    [("allow_negative", Ok (JBool (Account_AllowNegative a))); ("status", Ok (JString (Account_Status a)));
     ("created_at", Time_MarshalJSON (Account_CreatedAt a)); ("updated_at", Time_MarshalJSON (Account_UpdatedAt a))])%list.

Definition newAccountListResponse (p : AccountPage) : res json :=
  marshal_struct
    [("accounts", marshal_array newAccountResponse (Ap_Accounts p)); ("next_cursor", nullable (encodeIDCursor <$> Ap_NextCursor p))].

(** ** Sagas and reconciliation runs *)

Definition attemptResponse (a : Attempt) : res json :=
  marshal_struct (
    [("step", Ok (JString (At_Step a))); ("direction", Ok (JString (At_Direction a))); ("attempt", Ok (JInt (At_Number a)));
     ("status", Ok (JString (At_Status a)))] ++
    omitempty "transaction_id" (nonempty (default "" (uuid_String <$> At_TransactionID a))) ++
    omitempty "error" (nonempty (At_Error a)) ++
    [("started_at", Time_MarshalJSON (At_StartedAt a))] ++
    omitempty "finished_at" (Time_MarshalJSON <$> At_FinishedAt a))%list.

Definition sagaResponseFrom (i : Instance_) (attempts : list Attempt) : res json :=
  marshal_struct (
    [("id", Ok (JString (uuid_String (Inst_ID i)))); ("saga_type", Ok (JString (Inst_SagaType i)));
     ("status", Ok (JString (Inst_Status i))); ("current_step", Ok (JString (Inst_CurrentStep i)));
     ("retry_count", Ok (JInt (Inst_RetryCount i)))] ++
    omitempty "last_error" (nonempty (Inst_LastError i)) ++
    [("created_at", Time_MarshalJSON (Inst_CreatedAt i)); ("updated_at", Time_MarshalJSON (Inst_UpdatedAt i))] ++
    omitempty "attempts" (if bool_decide (attempts = []) then None else Some (marshal_array attemptResponse attempts)))%list.

Definition sagaListResponse (status : SagaStatus) (sagas : list Instance_) : res json :=
  marshal_struct [("status", Ok (JString status)); ("sagas", marshal_array (λ i, sagaResponseFrom i []) sagas)].

Definition reconciliationExceptionResponse (e : Exception) : res json :=
  marshal_struct (
    [("id", Ok (JString (uuid_String (Exc_ID e)))); ("external_ref", Ok (JString (Exc_ExternalRef e)));
     ("category", Ok (JString (Exc_Category e))); ("status", Ok (JString (Exc_Status e)))] ++
    omitempty "ledger_transaction_id" (nonempty (default "" (uuid_String <$> Exc_LedgerTransactionID e))) ++
    omitempty "saga_id" (nonempty (default "" (uuid_String <$> Exc_SagaID e))) ++
    omitempty "ledger_amount_minor" ((λ z, Ok (JInt z)) <$> Exc_LedgerAmountMinor e) ++
    omitempty "psp_amount_minor" ((λ z, Ok (JInt z)) <$> Exc_PSPAmountMinor e) ++
    omitempty "currency" (nonempty (Exc_Currency e)) ++
    omitempty "ledger_status" (nonempty (Exc_LedgerStatus e)) ++
    omitempty "psp_status" (nonempty (Exc_PSPStatus e)) ++
    omitempty "details" (if bool_decide (Exc_Details e = []) then None else Some (Ok (any_json (JObject (Exc_Details e))))) ++
    [("created_at", Time_MarshalJSON (Exc_CreatedAt e))] ++
    omitempty "resolved_at" (Time_MarshalJSON <$> Exc_ResolvedAt e))%list.

Definition reconciliationRunResponseFrom (r : Run) (exceptions : list Exception) : res json :=
  marshal_struct (
    [("id", Ok (JString (uuid_String (Run_ID r)))); ("source", Ok (JString (Run_Source r)));
     ("started_at", Time_MarshalJSON (Run_StartedAt r))] ++
    omitempty "finished_at" (Time_MarshalJSON <$> Run_FinishedAt r) ++
    [("status", Ok (JString (Run_Status r))); ("psp_row_count", Ok (JInt (Run_PSPRowCount r)));
     ("matched_count", Ok (JInt (Run_MatchedCount r))); ("auto_resolved_count", Ok (JInt (Run_AutoResolvedCount r)));
     ("exception_count", Ok (JInt (Run_ExceptionCount r)))] ++
    omitempty "error" (nonempty (Run_Error r)) ++
    omitempty "by_category" (if bool_decide (Run_ByCategory r = ∅) then None
      else Some (Ok (any_json (JObject (prod_map id JInt <$> map_to_list (Run_ByCategory r)))))) ++
    omitempty "exceptions" (if bool_decide (exceptions = []) then None
      else Some (marshal_array reconciliationExceptionResponse exceptions)))%list.

Definition reconciliationRunListResponse (runs : list Run) : res json :=
  marshal_struct [("runs", marshal_array (λ r, reconciliationRunResponseFrom r []) runs)].

End responses.
