(* ===== verification/Http.v ===== *)
(** * The HTTP layer (internal/http)

    Problems, middleware, handlers and the table of routes.  A handler takes a request
    and answers, or panics; matching a path to a pattern is the router package's, so a
    request comes with its pattern and parameters.  Logging, metrics and tracing are
    left out. *)

From S2P Require Import Prelude Errors Money Strconv Json Types SagaTypes Schema PgIdem PgSaga PgLedger Service.
From S2P Require Import Manager Payout PgRecon Keyset Read Utf8 JsonText Canonical TimeText Cursor JsonMarshal HttpDto.
From Stdlib Require Import Ascii.
Open Scope string_scope.
Open Scope Z_scope.

(** ** Requests and responses *)

(** The reservation a request holds. *)
Record idemState := mkIdemState { is_principalID : string; is_key : string; is_manager : Manager; is_settled : bool }.

(** Headers, query and path parameters by name; [Get] of a missing one is empty.  The
    body is the bytes up to its end or to the error that reading met. *)
Record Request := mkHttpRequest {
  R_Method : string;
  R_Path : string;
  R_Pattern : string;
  R_Header : gmap string string;
  R_Param : gmap string string;
  R_Query : gmap string string;
  R_Body : text;
  R_BodyErr : option error;
  R_ID : string;
  R_Principal : option string;
  R_Idem : option idemState }.

Definition with_principal (p : string) (r : Request) : Request :=
  mkHttpRequest (R_Method r) (R_Path r) (R_Pattern r) (R_Header r) (R_Param r) (R_Query r) (R_Body r) (R_BodyErr r) (R_ID r) (Some p) (R_Idem r).
Definition with_state (s : idemState) (body : text) (r : Request) : Request :=
  mkHttpRequest (R_Method r) (R_Path r) (R_Pattern r) (R_Header r) (R_Param r) (R_Query r) body None (R_ID r) (R_Principal r) (Some s).

Definition Get (name : string) (m : gmap string string) : string := default "" (m !! name).

Record Response := mkResponse { Resp_Status : Z; Resp_Header : gmap string string; Resp_Body : text }.

Inductive served := Responds (r : Response) | Panics.

Definition Handler : Type := Request → World → served * World.

(** ** Problems *)

Definition problemBase : string := "https://ledger-core.invalid/problems/".

(** The cases of [problemFor] in order. *)
Definition problem_table : list (list error * (Z * string * string)) :=
  [([ErrMissingAPIKey], (401, "missing-api-key", "Authorization header required"));
   ([ErrInvalidAPIKey], (401, "invalid-api-key", "The presented API key did not authenticate"));
   ([ErrMissingKey], (400, "missing-idempotency-key", "Idempotency key required"));
   ([ErrInvalidKey], (400, "invalid-idempotency-key", "Idempotency key must be a UUID"));
   ([ErrMalformedBody], (400, "malformed-body", "Request body is not valid JSON"));
   ([ErrIdempotencyConflict], (422, "idempotency-key-reused", "Idempotency key already used with a different request body"));
   ([ErrRequestInProgress], (409, "request-in-progress", "A request with this idempotency key is still in progress"));
   ([ErrKeyExpired; ErrDuplicateIdempotencyKey], (409, "idempotency-key-expired",
      "This idempotency key already created a transaction, and its response is no longer available"));
   ([idempotency_ErrLeaseLost], (409, "request-in-progress", "Another request completed this idempotency key first"));
   ([ErrInsufficientFunds], (422, "insufficient-funds", "The account has insufficient funds and does not permit a negative balance"));
   ([ErrUnbalancedTransaction], (422, "unbalanced-transaction", "Debits and credits do not sum to zero"));
   ([ErrTooFewEntries], (422, "too-few-entries", "A transaction needs at least two entries"));
   ([ErrMixedCurrency], (422, "mixed-currency", "All entries in a transaction must share one currency"));
   ([ErrCurrencyMismatch], (422, "currency-mismatch", "An entry's currency does not match the account it posts to"));
   ([ErrInvalidCurrency], (422, "invalid-currency", "Currency must be a three-letter ISO-4217 code"));
   ([ErrScaleMismatch], (422, "scale-mismatch", "The scale does not match the currency's ISO-4217 exponent"));
   ([ErrMoneyOverflow], (422, "amount-overflow", "The amount does not fit in a 64-bit integer of minor units"));
   ([ErrInvalidTransactionType], (422, "invalid-transaction-type", "Unknown transaction type"));
   ([ErrInvalidEntry], (422, "invalid-entry", "A journal entry is malformed"));
   ([ErrReversalReasonRequired], (400, "reversal-reason-required", "A reversal must carry a reason"));
   ([ErrAccountNotPostable], (422, "account-not-postable", "The account is frozen or closed and cannot be posted to"));
   ([ErrSagaNotFound], (404, "saga-not-found", "Saga not found"));
   ([ErrStaleTransition; saga_ErrLeaseLost], (409, "saga-conflict", "Saga was advanced concurrently"));
   ([ErrRunNotFound], (404, "reconciliation-run-not-found", "Reconciliation run not found"));
   ([ErrAccountNotFound], (404, "account-not-found", "No such account"));
   ([ErrTransactionNotFound], (404, "transaction-not-found", "No such transaction"));
   ([ErrAlreadyReversed], (409, "already-reversed", "The transaction has already been reversed"));
   ([ErrTransactionNotPosted], (422, "transaction-not-posted", "Only a posted transaction can be reversed"));
   ([DeadlineExceeded], (503, "timeout", "The request took too long and was abandoned"));
   ([Canceled], (503, "canceled", "The request was canceled"))].

Fixpoint first_case {A} (err : error) (table : list (list error * A)) (dflt : A) : A :=
  match table with
  | [] => dflt
  | (targets, a) :: table => if existsb (errors_Is err) targets then a else first_case err table dflt
  end.

Definition problemFor (err : error) : Z * string * string := first_case err problem_table (500, "internal", "Internal error").

Definition deterministic_errors : list error :=
  [ErrUnbalancedTransaction; ErrTooFewEntries; ErrMixedCurrency; ErrCurrencyMismatch; ErrInvalidCurrency; ErrScaleMismatch;
   ErrMoneyOverflow; ErrInvalidTransactionType; ErrInvalidEntry; ErrReversalReasonRequired; ErrAlreadyReversed;
   ErrTransactionNotPosted; ErrMalformedBody].

Definition isDeterministic (err : error) : bool := existsb (errors_Is err) deterministic_errors.

(** [errors.As] into an [*idempotency.InProgressError]. *)
Fixpoint errors_As_InProgress (e : error) : option Z :=
  match e with
  | InProgressError _ after => Some after
  | Wrap2 e1 e2 => match errors_As_InProgress e1 with Some a => Some a | None => errors_As_InProgress e2 end
  | _ => None
  end.

(** The whole seconds of a duration. *)
Definition int_seconds (d : Z) : Z := Z.quot d Second.

Section http.
Context `{UL : UuidLib} `{UP : UuidParser} `{ET : ErrorText}.

Definition problem_json (r : Request) (err : error) : json :=
  let '(status, kind, title) := problemFor err in
  JObject (
    [("type", JString (problemBase +:+ kind)); ("title", JString title); ("status", JInt status)] ++
    (if (status <? 500) && bool_decide (error_text err ≠ "") then [("detail", JString (error_text err))] else []) ++
    (if bool_decide (R_Path r = "") then [] else [("instance", JString (R_Path r))]) ++
    (if bool_decide (R_ID r = "") then [] else [("request_id", JString (R_ID r))]))%list.

(** Strings and integers always marshal, so the fallback body is never used. *)
Definition writeProblem (r : Request) (err : error) : Response :=
  let '(status, _, _) := problemFor err in
  let retry := match errors_As_InProgress err with
               | Some after => Some (FormatInt (int_seconds after))
               | None => if status =? 503 then Some "1" else None
               end in
  mkResponse status
    (match retry with Some s => {["Retry-After" := s; "Content-Type" := "application/problem+json"]} | None => {["Content-Type" := "application/problem+json"]} end)
    (json_text (problem_json r err)).

(** [json.NewEncoder(w).Encode]: nothing is written when encoding fails. *)
Definition writeJSON (status : Z) (body : res json) : Response :=
  mkResponse status {["Content-Type" := "application/json; charset=utf-8"]}
    (match body with Ok j => (json_text j ++ [chr 10])%list | Err _ => [] end).

(** ** Idempotency *)

Definition idempotencyHeader : string := "Idempotency-Key".
Definition replayHeader : string := "Idempotent-Replay".
Definition maxBodyBytes : Z := 1048576.

Definition ParseKey (raw : string) : res string :=
  if bool_decide (raw = "") then Err ErrMissingKey
  else match uuid_Parse raw with
       | Some u => Ok (uuid_String u)
       | None => Err (Wrap2 UuidError ErrInvalidKey)
       end.

Definition readBody (r : Request) : res text :=
  if maxBodyBytes <? Z.of_nat (length (R_Body r)) then Err ErrMalformedBody
  else match R_BodyErr r with Some e => Err (Wrap2 e ErrMalformedBody) | None => Ok (R_Body r) end.

Definition contentTypeFor (status : Z) : string := if 400 <=? status then "application/problem+json" else "application/json".

Definition writeReplay (record : IRecord) : Response :=
  mkResponse (Rec_ResponseStatus record)
    {["Content-Type" := contentTypeFor (Rec_ResponseStatus record); replayHeader := "true"]}
    (bytes_of (default "" (Rec_ResponseBody record))).

Definition respond (r : Response) (w : World) : served * World := (Responds r, w).

(** The principal of the request; a route without authentication is a routing bug. *)
Definition principalFrom (r : Request) (k : string → World → served * World) (w : World) : served * World :=
  match R_Principal r with Some p => k p w | None => (Panics, w) end.

Definition requireIdempotency `{Digest} (manager : Manager) (next : Handler) : Handler := λ r, principalFrom r (λ principalID w,
  match ParseKey (Get idempotencyHeader (R_Header r)) with
  | Err e => respond (writeProblem r e) w
  | Ok key =>
      match readBody r with
      | Err e => respond (writeProblem r e) w
      | Ok body =>
          match FingerprintOf (R_Method r) (R_Pattern r) body with
          | Err e => respond (writeProblem r e) w
          | Ok fingerprint =>
              match Acquire manager (mkReservation principalID key (str fingerprint) (R_Method r) (R_Pattern r) 0 0) w with
              | (Err e, w) => respond (writeProblem r e) w
              | (Ok (Some record, Replay), w) => respond (writeReplay record) w
              | (Ok (None, Replay), w) => (Panics, w)
              | (Ok (_, Proceed), w) => next (with_state (mkIdemState principalID key manager false) body r) w
              end
          end
      end
  end).

Definition idem_settle (s : option idemState) : option idemState :=
  (λ s, mkIdemState (is_principalID s) (is_key s) (is_manager s) true) <$> s.

(** A failure to record or to release is only logged. *)
Definition reject (s : option idemState) (err : error) (status : Z) (body : text) (w : World) : World :=
  match s with
  | None => w
  | Some s =>
      if is_settled s then w
      else if isDeterministic err then (Manager_Fail (is_manager s) (is_principalID s) (is_key s) status (Some (str body)) w).2
      else (Manager_Release (is_manager s) (is_principalID s) (is_key s) w).2
  end.

(** The problem is written, then the reservation disposed of with the same bytes. *)
Definition refuse (r : Request) (err : error) (w : World) : served * World :=
  let p := writeProblem r err in (Responds p, reject (R_Idem r) err (Resp_Status p) (Resp_Body p) w).

(** ** Authentication *)

Definition AuthService : Type := string → M string.

Definition bearer : string := "Bearer ".

Definition requireAuth (service : AuthService) (next : Handler) : Handler := λ r w,
  let raw := Get "Authorization" (R_Header r) in
  if bool_decide (raw = "") then respond (writeProblem r ErrMissingAPIKey) w
  else
    match strip_prefix (bytes_of bearer) (bytes_of raw) with
    | None | Some [] => respond (writeProblem r ErrInvalidAPIKey) w
    | Some key =>
        match service (str key) w with
        | (Err e, w) => respond (writeProblem r e) w
        | (Ok principalID, w) => next (with_principal principalID r) w
        end
    end.

(** A panic becomes a 500. *)
Definition recoverer (next : Handler) : Handler := λ r w,
  match next r w with
  | (Panics, w) => respond (writeJSON 500 (Ok (JObject [("error", JString "internal error")]))) w
  | answered => answered
  end.

(** ** Writing transactions *)

(** [renderCreated]: what is stored with the transaction. *)
Definition renderCreated (t : Transaction) : res (Z * option string) :=
  j ← newTransactionResponse t; Ok (201, Some (str (json_text j))).

Definition internal_body : text :=
  json_text (JObject [("type", JString (problemBase +:+ "internal")); ("title", JString "Internal error"); ("status", JInt 500)]).

Definition writeStored (t : Transaction) : Response :=
  match renderCreated t with
  | Err _ => mkResponse 500 {["Content-Type" := "application/problem+json"]} internal_body
  | Ok (status, body) => mkResponse status {["Content-Type" := "application/json"]} (bytes_of (default "" body))
  end.

Definition keyed_request (s : idemState) (req : TransactionRequest) : TransactionRequest :=
  mkTransactionRequest (is_principalID s) (Rq_Type req) (Rq_ExternalRef req) (Rq_Metadata req) (Rq_Entries req) (Rq_IdempotencyKey req)
    (Some (mkIdempotent (is_principalID s) (is_key s) (Some renderCreated))) (Rq_Record req).

Definition handlePostTransaction (repo : Repository) : Handler := λ r w,
  let state := R_Idem r in
  match decodeJSON decode_post (R_Body r) with
  | Err e => refuse r e w
  | Ok body =>
      match toDomain body with
      | Err e => refuse r e w
      | Ok request =>
          match state with
          | None => (Panics, w)
          | Some s =>
              match postTransaction repo (keyed_request s request) w with
              | (Err e, w) => refuse r e w
              | (Ok posted, w) => let _ := idem_settle state in respond (writeStored posted) w
              end
          end
      end
  end.

Definition handleReverseTransaction (repo : Repository) : Handler := λ r w,
  let state := R_Idem r in
  match uuid_Parse (Get "id" (R_Param r)) with
  | None => refuse r ErrTransactionNotFound w
  | Some transactionID =>
      match decodeJSON decode_reverse (R_Body r) with
      | Err e => refuse r e w
      | Ok reason =>
          match state with
          | None => (Panics, w)
          | Some s =>
              match ReverseTransactionIdempotent repo transactionID reason
                      (Some (mkIdempotent (is_principalID s) (is_key s) (Some renderCreated))) w with
              | (Err e, w) => refuse r e w
              | (Ok reversal, w) => let _ := idem_settle state in respond (writeStored reversal) w
              end
          end
      end
  end.

(** ** Reading *)

Definition ParseError : error := ErrOther "cannot parse".

(** An optional query parameter: what it parses to, or what stands without it. *)
Definition param {A} (r : Request) (name : string) (parse : string → res A) (dflt : A) : res A :=
  let raw := Get name (R_Query r) in if bool_decide (raw = "") then Ok dflt else parse raw.

Definition time_param (raw : string) : res Time := to_result (parse_rfc3339 (bytes_of raw)) (Wrap2 ParseError ErrInvalidEntry).
Definition limit_param (raw : string) : res Z :=
  match ParseInt raw with Ok n => Ok n | Err _ => Err (Wrap2 ParseError ErrInvalidEntry) end.
Definition some_param (raw : string) : res (option string) := Ok (Some raw).

(** Answer with what [m] returns, or with its error as a problem. *)
Definition reply {A} (r : Request) (status : Z) (m : M A) (render : A → res json) (w : World) : served * World :=
  match m w with
  | (Ok a, w) => respond (writeJSON status (render a)) w
  | (Err e, w) => respond (writeProblem r e) w
  end.

(** The id in the path. *)
Definition path_id (r : Request) (notFound : error) : res UUID := to_result (uuid_Parse (Get "id" (R_Param r))) notFound.

Definition handleGetTransaction : Handler := λ r,
  reply r 200 (id ← lift (path_id r ErrTransactionNotFound); GetTransaction id) newTransactionResponse.

Definition defaultStatementWindow : Z := 30 * 24 * 3600 * Second.

(** The parameters in the order they are parsed. *)
Definition transaction_query (r : Request) (now : Time) : res TransactionQuery :=
  from ← param r "from" time_param (now - defaultStatementWindow);
  to_ ← param r "to" time_param now;
  ref ← param r "external_ref" some_param None;
  status ← param r "status" Ok "";
  type ← param r "type" Ok "";
  account ← param r "account_id" (λ raw, Some <$> to_result (uuid_Parse raw) ErrInvalidEntry) None;
  limit ← param r "limit" limit_param 0;
  after ← param r "cursor" (λ raw, Some <$> decodeIDCursor raw) None;
  Ok (mkTransactionQuery ref status type account from to_ limit after).

Definition handleSearchTransactions : Handler := λ r,
  reply r 200 (now ← clock_Now; q ← lift (transaction_query r now); SearchTransactions q) newTransactionListResponse.

Definition handleGetBalance : Handler := λ r w,
  match path_id r ErrAccountNotFound with
  | Err e => respond (writeProblem r e) w
  | Ok accountID =>
      let raw := Get "as_of" (R_Query r) in
      if bool_decide (raw = "") then reply r 200 (GetBalance accountID) balanceResponse w
      else
        match time_param raw with
        | Err e => respond (writeProblem r e) w
        | Ok at_ => reply r 200 (GetBalanceAsOf accountID at_) (balanceAsOfResponse accountID at_) w
        end
  end.

Definition statement_query (r : Request) (now : Time) : res StatementQuery :=
  accountID ← path_id r ErrAccountNotFound;
  from ← param r "from" time_param (now - defaultStatementWindow);
  to_ ← param r "to" time_param now;
  limit ← param r "limit" limit_param 0;
  after ← param r "cursor" (λ raw, Some <$> decodeCursor raw) None;
  Ok (mkStatementQuery accountID from to_ limit after).

Definition handleGetStatement : Handler := λ r,
  reply r 200 (now ← clock_Now; q ← lift (statement_query r now); GetStatement q) newStatementResponse.

Definition handleGetAccount : Handler := λ r,
  reply r 200 (id ← lift (path_id r ErrAccountNotFound); GetAccount id) newAccountResponse.

Definition account_query (r : Request) : res AccountQuery :=
  ref ← param r "external_ref" some_param None;
  owner ← param r "owner_id" some_param None;
  currency ← param r "currency" Ok "";
  limit ← param r "limit" limit_param 0;
  after ← param r "cursor" (λ raw, Some <$> decodeIDCursor raw) None;
  Ok (mkAccountQuery ref owner currency limit after).

Definition handleSearchAccounts : Handler := λ r,
  reply r 200 (q ← lift (account_query r); SearchAccounts q) newAccountListResponse.

(** ** Sagas and reconciliation *)

Definition handleStartPayout (o : Orchestrator) : Handler := λ r, principalFrom r (λ principalID,
  reply r 202 (
    key ← lift (ParseKey (Get idempotencyHeader (R_Header r)));
    body ← lift (match R_BodyErr r with
                 | None => decodeJSON decode_payout (R_Body r)
                 | Some e => match Decode (R_Body r) with Ok _ => decodeJSON decode_payout (R_Body r) | Err _ => Err (Wrap2 e ErrMalformedBody) end
                 end);
    payload ← lift (toPayload body);
    Start o payload principalID (Some key)) (λ i, sagaResponseFrom i [])).

Definition handleGetSaga : Handler := λ r,
  reply r 200 (sagaID ← lift (path_id r ErrSagaNotFound); i ← saga_Get sagaID; l ← saga_Attempts sagaID; mret (i, l))
    (λ il, sagaResponseFrom il.1 il.2).

Definition defaultSagaListLimit : Z := 100.
Definition maxSagaListLimit : Z := 1000.

(** Out of range is refused here, not clamped. *)
Definition bounded_limit (max : Z) (raw : string) : res Z :=
  match ParseInt raw with
  | Ok n => if (n <? 1) || (max <? n) then Err ErrInvalidEntry else Ok n
  | Err _ => Err ErrInvalidEntry
  end.

Definition handleListSagas : Handler := λ r,
  let raw := Get "status" (R_Query r) in
  let status := if bool_decide (raw = "") then StatusNeedsManualReview else raw in
  reply r 200 (limit ← lift (param r "limit" (bounded_limit maxSagaListLimit) defaultSagaListLimit);
                saga_ListByStatus status (Z.to_nat limit)) (sagaListResponse status).

Definition defaultReconciliationRunListLimit : Z := 100.
Definition maxReconciliationRunListLimit : Z := 1000.

Definition handleListReconciliationRuns : Handler := λ r,
  reply r 200 (limit ← lift (param r "limit" (bounded_limit maxReconciliationRunListLimit) defaultReconciliationRunListLimit);
                pg_ListRuns (Z.to_nat limit)) reconciliationRunListResponse.

Definition handleGetReconciliationRun : Handler := λ r,
  reply r 200 (runID ← lift (path_id r ErrRunNotFound); run ← pg_GetRun runID; excs ← pg_ListExceptions runID; mret (run, excs))
    (λ re, reconciliationRunResponseFrom re.1 re.2).

(** ** Health *)

Definition handleLive : Handler := λ _, respond (writeJSON 200 (Ok (JObject [("status", JString "ok")]))).

(** A dependency: its name and its check. *)
Definition Checker : Type := string * M unit.

Fixpoint run_checks (checkers : list Checker) (results : list (string * json)) (ready : bool) (w : World) : list (string * json) * bool * World :=
  match checkers with
  | [] => (results, ready, w)
  | (name, check) :: checkers =>
      match check w with
      | (Err e, w) => run_checks checkers (map_set name (JString (error_text e)) results) false w
      | (Ok _, w) => run_checks checkers (map_set name (JString "ok") results) ready w
      end
  end.

Definition handleReady (checkers : list Checker) : Handler := λ _ w,
  let '(results, ready, w) := run_checks checkers [] true w in
  respond (writeJSON (if ready then 200 else 503) (Ok (any_json (JObject
    [("status", JString (if ready then "ready" else "not ready")); ("checks", JObject results)])))) w.

(** ** The routes *)

Record Deps := mkDeps {
  d_Checkers : list Checker;
  d_Ledger : option Repository;
  d_Idempotency : option Manager;
  d_Payout : option Orchestrator;
  d_Sagas : bool;
  d_Reconciliation : bool;
  d_Auth : option AuthService }.

Record Route := mkRoute { rt_Method : string; rt_Pattern : string; rt_Handler : Handler }.

Definition NewMux `{Digest} (deps : Deps) : list Route :=
  ([mkRoute "GET" "/healthz" handleLive; mkRoute "GET" "/readyz" (handleReady (d_Checkers deps))] ++
   match d_Payout deps, d_Auth deps with
   | Some o, Some auth => [mkRoute "POST" "/v1/payouts" (requireAuth auth (handleStartPayout o))]
   | _, _ => []
   end ++
   (if d_Sagas deps then [mkRoute "GET" "/v1/sagas" handleListSagas; mkRoute "GET" "/v1/sagas/{id}" handleGetSaga] else []) ++
   match d_Reconciliation deps, d_Auth deps with
   | true, Some auth =>
       [mkRoute "GET" "/v1/reconciliation/runs" (requireAuth auth handleListReconciliationRuns);
        mkRoute "GET" "/v1/reconciliation/runs/{id}" (requireAuth auth handleGetReconciliationRun)]
   | _, _ => []
   end ++
   match d_Ledger deps, d_Idempotency deps, d_Auth deps with
   | Some repo, Some manager, Some auth =>
       [mkRoute "POST" "/v1/transactions" (requireAuth auth (requireIdempotency manager (handlePostTransaction repo)));
        mkRoute "POST" "/v1/transactions/{id}/reverse" (requireAuth auth (requireIdempotency manager (handleReverseTransaction repo)));
        mkRoute "GET" "/v1/transactions" (requireAuth auth handleSearchTransactions);
        mkRoute "GET" "/v1/transactions/{id}" (requireAuth auth handleGetTransaction);
        mkRoute "GET" "/v1/accounts/{id}/balance" handleGetBalance;
        mkRoute "GET" "/v1/accounts/{id}/statement" handleGetStatement;
        mkRoute "GET" "/v1/accounts" (requireAuth auth handleSearchAccounts);
        mkRoute "GET" "/v1/accounts/{id}" (requireAuth auth handleGetAccount)]
   | _, _, _ => []
   end)%list.

(** A request of a registered route, as it leaves the router package: no principal and
    no reservation yet. *)
Definition serve `{Digest} (deps : Deps) (r : Request) (w : World) : option (served * World) :=
  route ← find (λ x, bool_decide (rt_Method x = R_Method r ∧ rt_Pattern x = R_Pattern r)) (NewMux deps);
  Some (recoverer (rt_Handler route)
    (mkHttpRequest (R_Method r) (R_Path r) (R_Pattern r) (R_Header r) (R_Param r) (R_Query r) (R_Body r) (R_BodyErr r) (R_ID r) None None) w).

End http.
