(* ===== verification/HttpSpec.v ===== *)
(** * What the HTTP layer promises

    Problems, retries, authentication and paging, proved of the handlers of [Http]. *)

From S2P Require Import Prelude Errors Money Strconv Json MoneyJson Types Schema PgIdem PgLedger Service PgLedgerSpec.
From S2P Require Import Invariant Posting Ledger Frames Guarantees Manager IdemSpec Payout Keyset Read ReadSpec.
From S2P Require Import Utf8 JsonText Canonical CanonicalStr CanonicalNum TimeText Cursor JsonMarshal HttpDto Http.
From Stdlib Require Import Ascii.
Open Scope string_scope.
Open Scope Z_scope.

(** ** Statuses *)

Lemma first_case_in {A} err (table : list (list error * A)) dflt : first_case err table dflt ∈ (table.*2 ++ [dflt])%list.
Proof.
  induction table as [|[targets a] table IH]; cbn [first_case fmap list_fmap app]; [set_solver|].
  destruct (existsb _ _); [apply list_elem_of_here|by apply list_elem_of_further].
Qed.

(** A case of the table that applies decides together with the cases before it. *)
Lemma first_case_prefix {A} err (t1 t2 : list (list error * A)) dflt :
  existsb (λ c, existsb (errors_Is err) c.1) t1 = true → first_case err (t1 ++ t2) dflt ∈ t1.*2.
Proof.
  induction t1 as [|[targets a] t1 IH]; [done|]. cbn [existsb first_case app fmap list_fmap]. destruct (existsb (errors_Is err) _) eqn:He.
  - intros _. apply list_elem_of_here.
  - cbn. intros Hex. apply list_elem_of_further. by apply IH.
Qed.

Definition problem_code (err : error) : Z := (problemFor err).1.1.

Lemma problem_status err : 400 ≤ problem_code err < 600.
Proof.
  unfold problem_code, problemFor. pose proof (first_case_in err problem_table (500, "internal", "Internal error")) as Hin.
  revert Hin. generalize (first_case err problem_table (500, "internal", "Internal error")). intros c Hin.
  assert (Hall : Forall (λ c : Z * string * string, 400 ≤ c.1.1 < 600) (problem_table.*2 ++ [(500, "internal", "Internal error")]))
    by (repeat constructor; simpl; lia).
  by apply (proj1 (list.Forall_forall _ _) Hall).
Qed.

Lemma deterministic_listed :
  forallb (λ e, existsb (λ c, bool_decide (e ∈ c.1)) (take 28 problem_table)) deterministic_errors = true.
Proof. vm_compute. reflexivity. Qed.

(** The cases that blame the request come before the two that blame the service. *)
Lemma deterministic_status err : isDeterministic err = true → 400 ≤ problem_code err < 500.
Proof.
  intros Hd. unfold problem_code, problemFor. change problem_table with (take 28 problem_table ++ drop 28 problem_table)%list.
  pose proof (first_case_prefix err (take 28 problem_table) (drop 28 problem_table) (500, "internal", "Internal error")) as Hin.
  assert (Hall : Forall (λ c : Z * string * string, 400 ≤ c.1.1 < 500) (take 28 problem_table).*2) by (repeat constructor; simpl; lia).
  apply (proj1 (list.Forall_forall _ _) Hall), Hin. apply existsb_exists in Hd as (e & He & Hi). apply existsb_exists.
  assert (Hc : ∃ c, In c (take 28 problem_table) ∧ In e c.1).
  { pose proof (proj1 (forallb_forall _ _) deterministic_listed e He) as Hl. apply existsb_exists in Hl as (c & Hc & Hec).
    apply bool_decide_eq_true in Hec. exists c. split; [done|]. by apply list_elem_of_In. }
  destruct Hc as (c & Hc & Hec). exists c. split; [done|]. apply existsb_exists. eauto.
Qed.

(** C37: what may be stored against a key, and what a client may learn.  An error the
    API stores and replays is one it answers with a 4xx status, whatever chain of
    wrapping it arrives in; and the reply to an error that is the service's own, a 5xx,
    does not depend on the error's text at all, so no message from inside the service
    (a table, a constraint, an SQL state) reaches a client. *)
Theorem problems_keep_their_side (err : error) :
  (isDeterministic err = true → 400 ≤ problem_code err < 500) ∧
  (500 ≤ problem_code err → ∀ (T1 T2 : ErrorText) r, writeProblem (ET := T1) r err = writeProblem (ET := T2) r err).
Proof.
  split; [apply deterministic_status|]. unfold problem_code. intros H5 T1 T2 r. unfold writeProblem, problem_json.
  destruct (problemFor err) as [[status kind] title]. simpl in H5. by rewrite (proj2 (Z.ltb_ge status 500)).
Qed.

(** ** A committed reply *)

(** A key that was completed holds what the renderer made of the transaction. *)
Lemma completeIdempotency_stores i h u w w' : completeIdempotency (Some i) h w = (Ok u, w') →
  ∃ render code body row, Idem_Render i = Some render ∧ render h = Ok (code, body) ∧
    idempotency_keys (w_db w') !! (Idem_PrincipalID i, Idem_Key i) = Some (ik_finish IStatusCompleted code body (Some (Tx_ID h)) row).
Proof.
  unfold completeIdempotency. destruct (Idem_Render i) as [render|]; [|done]. intros Hrun. mrun.
  match goal with Hc : CompleteIdempotency _ _ = _ |- _ => apply pgidem_Complete_ok in Hc as (row & _ & _ & Hd & _) end.
  match goal with Hr : render h = Ok ?x |- _ => destruct x as [code body] end.
  exists render, code, body, row. split_and!; [done|done|]. rewrite Hd. simpl. by rewrite lookup_insert_eq.
Qed.

Section committed.
Context `{UL : UuidLib} (repo : Repository).

Lemma post_stores req i w h w' : Rq_Idempotency req = Some i → postTransaction repo req w = (Ok h, w') →
  ∃ render code body row, Idem_Render i = Some render ∧ render h = Ok (code, body) ∧
    idempotency_keys (w_db w') !! (Idem_PrincipalID i, Idem_Key i) = Some (ik_finish IStatusCompleted code body (Some (Tx_ID h)) row).
Proof.
  intros Hi Hrun. unfold postTransaction in Hrun. mrun.
  eapply (InTx_ok repo _ (λ _, True)) in Hrun as (w0 & w1 & _ & [Hb _] & ->); [|done|done].
  unfold post_body in Hb. mrun. match goal with Hw : write_transaction _ _ _ _ _ = (Ok ?x, _) |- _ => destruct x as [header ebs] end. mrun. rewrite Hi in *. eapply completeIdempotency_stores; eauto.
Qed.

Lemma reverse_stores txID reason i record w h w' : doReverse repo txID reason (Some i) record w = (Ok h, w') →
  ∃ render code body row, Idem_Render i = Some render ∧ render h = Ok (code, body) ∧
    idempotency_keys (w_db w') !! (Idem_PrincipalID i, Idem_Key i) = Some (ik_finish IStatusCompleted code body (Some (Tx_ID h)) row).
Proof.
  intros Hrun. unfold doReverse in Hrun. mrun.
  eapply (InTx_ok repo _ (λ _, True)) in Hrun as (w0 & w1 & _ & [Hb _] & ->); [|done|done].
  unfold reverse_body in Hb. mrun.
  match goal with Hw : write_transaction _ _ _ _ _ = (Ok ?x, _) |- _ => destruct x as [header ebs] end. mrun. eapply completeIdempotency_stores; eauto.
Qed.

(** The completed row is the reserved one, finished with the reply. *)
Definition answered (k : string * string) (row0 : idempotency_row) (h : Transaction) (render : Transaction → res (Z * option string)) (d : DB) : Prop :=
  ∃ code body tx, render h = Ok (code, body) ∧ idempotency_keys d !! k = Some (ik_finish IStatusCompleted code body tx row0).

Lemma finish_same a b code1 code2 body1 body2 tx1 tx2 :
  ik_finish IStatusCompleted code1 body1 tx1 a = ik_finish IStatusCompleted code2 body2 tx2 b →
  code1 = code2 ∧ body1 = body2.
Proof. unfold ik_finish. by intros [=]. Qed.

Lemma post_answered req i render w row0 h w' : ledger_wf (w_db w) → request_ok req → Rq_Idempotency req = Some i → Idem_Render i = Some render →
  idempotency_keys (w_db w) !! (Idem_PrincipalID i, Idem_Key i) = Some row0 →
  postTransaction repo req w = (Ok h, w') → answered (Idem_PrincipalID i, Idem_Key i) row0 h render (w_db w').
Proof.
  intros Hwf Hok Hi Hren Hrow0 Hrun. destruct (post_stores req i w h w' Hi Hrun) as (render' & code & body & row & Hren' & Hcb & Hrow).
  rewrite Hren in Hren'. injection Hren' as <-.
  apply post_once in Hrun as [[_ ?]|(_ & txID & (now & reqs & rows & ebs & _ & Hrec & _) & _)]; [done| |done|done].
  destruct (recorded_response _ _ _ _ _ _ _ _ _ Hrec i Hi) as (row' & _ & _ & code' & body' & Hrow' & _ & _ & _ & Hfin).
  rewrite Hrow0 in Hrow'. injection Hrow' as <-. rewrite Hrow in Hfin. apply (inj Some) in Hfin.
  destruct (finish_same _ _ _ _ _ _ _ _ Hfin) as [<- <-]. eexists _, _, _. split; [done|]. by rewrite Hrow, Hfin.
Qed.

Lemma reverse_answered txID reason i render w row0 h w' : ledger_wf (w_db w) → Idem_Render i = Some render →
  idempotency_keys (w_db w) !! (Idem_PrincipalID i, Idem_Key i) = Some row0 →
  doReverse repo txID reason (Some i) None w = (Ok h, w') → answered (Idem_PrincipalID i, Idem_Key i) row0 h render (w_db w').
Proof.
  intros Hwf Hren Hrow0 Hrun. destruct (reverse_stores txID reason i None w h w' Hrun) as (render' & code & body & row & Hren' & Hcb & Hrow).
  rewrite Hren in Hren'. injection Hren' as <-.
  apply reverse_once in Hrun as [[_ ?]|(revID & (now & reqs & rows & ebs & _ & Hrec & _) & _)]; [done| |done|apply recorder_none].
  destruct (recorded_response _ _ _ _ _ _ _ _ _ Hrec i eq_refl) as (row' & _ & _ & code' & body' & Hrow' & _ & _ & _ & Hfin).
  rewrite Hrow0 in Hrow'. injection Hrow' as <-. rewrite Hrow in Hfin. apply (inj Some) in Hfin.
  destruct (finish_same _ _ _ _ _ _ _ _ Hfin) as [<- <-]. eexists _, _, _. split; [done|]. by rewrite Hrow, Hfin.
Qed.

End committed.

(** ** What decodes is within range *)

Definition entry_in_range (e : entryRequestJSON) : Prop := is_int64 (amountMinor (Ej_Amount e)).

Lemma money_in_range v saved m saved' : decode_money v saved = Ok (m, saved') → is_int64 (amountMinor m).
Proof.
  unfold decode_money, Money_UnmarshalJSON. destruct (decode_moneyJSON v) as [raw|]; cbn [mbind result_bind]; [|done].
  destruct (mj_Amount raw) as [[| | |amt| |]|]; try done. destruct (ParseInt amt) as [n|[|]] eqn:Hn; cbn [mbind result_bind]; try done.
  apply ParseInt_range in Hn. unfold NewMoney. destruct (currencyPattern _); cbn; [|done].
  destruct (mj_Scale raw) as [z|]; [match goal with |- context [?a =? ?b] => destruct (a =? b) end|]; cbn; intros Hm; by simplify_eq/=.
Qed.

Lemma entry_field_range e k v sv e' sv' : entry_in_range e → entry_field e k v sv = Some (Ok (e', sv')) → entry_in_range e'.
Proof.
  intros He. unfold entry_field. repeat case_match; intros [=]; subst; try done.
  destruct (decode_money v sv) as [[m s]|] eqn:Hm; simplify_eq/=. by eapply money_in_range.
Qed.

Lemma decode_entries_range items : ∀ old sv es sv', Forall entry_in_range old → decode_entries old items sv = Ok (es, sv') → Forall entry_in_range es.
Proof.
  induction items as [|x items IH]; intros old sv es sv' Hold; cbn [decode_entries]; [by intros [= <- <-]|].
  destruct (decode_struct _ _ _ _) as [[e s1]|] eqn:He; cbn [mbind result_bind]; [|done].
  destruct (decode_entries _ _ _) as [[es' s2]|] eqn:Hes; cbn [mbind result_bind]; [|done]. intros [= <- <-]. constructor.
  - eapply decode_struct_inv; [apply entry_field_range| |exact He]. destruct old as [|o old]; [done|]. by inversion Hold.
  - eapply IH; [|exact Hes]. destruct old; [done|]. by inversion Hold.
Qed.

Lemma decode_post_range v b : decode_post v = Ok b → Forall entry_in_range (Pr_Entries b).
Proof.
  unfold decode_post, decoded. destruct (decode_struct _ _ _ _) as [[b' [e|]]|] eqn:Hd; try done. intros [= <-].
  apply list.Forall_take. revert Hd. apply (decode_struct_inv (λ b, Forall entry_in_range (Pr_backing b))); [|constructor].
  intros s k x sv s' sv' Hs. unfold post_field. repeat case_match; try done; intros Hf; apply (inj Some) in Hf; try (injection Hf as <- <-; done).
  destruct (decode_entries _ _ _) as [[es s1]|] eqn:Hes; [|done]. cbn [mbind result_bind] in Hf. injection Hf as <- _.
  simpl. by eapply decode_entries_range.
Qed.

Lemma toDomain_range `{UL : UuidLib} `{UP : UuidParser} b req : Forall entry_in_range (Pr_Entries b) → toDomain b = Ok req →
  (∀ e, e ∈ Rq_Entries req → is_int64 (amountMinor (Er_Amount e))) ∧ Rq_Record req = None.
Proof.
  unfold toDomain. generalize (Pr_Entries b). intros es Hes. destruct (toDomain_entries es) as [l|] eqn:Hl; cbn [mbind result_bind]; [|done].
  intros [= <-]. split; [|done]. simpl. revert l Hl. induction Hes as [|e es He Hes IH]; intros l; cbn [toDomain_entries]; [intros [= <-]; set_solver|].
  destruct (uuid_Parse _); cbn [to_result mbind result_bind]; [|done]. destruct (toDomain_entries es) as [l'|]; cbn [mbind result_bind]; [|done].
  intros [= <-] x [->|Hx]%elem_of_cons; [done|]. by apply (IH l').
Qed.

(** ** Retries over HTTP *)

Lemma str_length l : String.length (str l) = length l.
Proof. induction l as [|c l IH]; [done|]. simpl. by rewrite IH. Qed.

Section replay.
Context `{UL : UuidLib} `{UP : UuidParser} `{ET : ErrorText} `{DG : Digest}.
Context (m : Manager) (Hstore : mg_store m = pg_store) (Hcache : mg_cache m = NoopCache).
Context (Hlife : 0 < mg_ttl m ∧ mg_lease m ≤ mg_ttl m).

(** What a request reserves: its principal, key, endpoint and fingerprint. *)
Definition request_reservation (r : Request) : res Reservation :=
  principalID ← to_result (R_Principal r) ErrMissingAPIKey;
  key ← ParseKey (Get idempotencyHeader (R_Header r));
  body ← readBody r;
  fingerprint ← FingerprintOf (R_Method r) (R_Pattern r) body;
  Ok (mkReservation principalID key (str fingerprint) (R_Method r) (R_Pattern r) 0 0).

Lemma request_reservation_ok r rv : request_reservation r = Ok rv → reservation_ok m rv ∧ Rv_TTL rv = 0 ∧ Rv_Lease rv = 0.
Proof.
  unfold request_reservation. destruct (R_Principal r); cbn; [|done]. destruct (ParseKey _); cbn; [|done]. destruct (readBody r); cbn; [|done].
  unfold FingerprintOf. destruct (Canonicalize _); cbn; [|done]. intros [= <-]. unfold reservation_ok. cbn -[String.length].
  rewrite str_length, sha256_len. naive_solver lia.
Qed.

(** The middleware on a request that can be reserved. *)
Lemma requireIdempotency_run next r rv w : request_reservation r = Ok rv →
  requireIdempotency m next r w =
    match Acquire m rv w with
    | (Err e, w) => respond (writeProblem r e) w
    | (Ok (Some record, Replay), w) => respond (writeReplay record) w
    | (Ok (None, Replay), w) => (Panics, w)
    | (Ok (_, Proceed), w) => next (with_state (mkIdemState (Rv_PrincipalID rv) (Rv_Key rv) m false) (R_Body r) r) w
    end.
Proof.
  unfold request_reservation, requireIdempotency, principalFrom, readBody. destruct (R_Principal r) as [p|]; cbn; [|done].
  destruct (ParseKey _) as [key|]; cbn; [|done]. destruct (maxBodyBytes <? _); cbn; [done|]. destruct (R_BodyErr r); cbn; [done|].
  destruct (FingerprintOf _ _ _) as [fp|]; cbn; [|done]. intros [= <-]. cbn. done.
Qed.

(** A request that cannot be reserved is refused, or the route lacks authentication. *)
Lemma requireIdempotency_refused next r e w : request_reservation r = Err e →
  requireIdempotency m next r w = (Panics, w) ∨ ∃ e, requireIdempotency m next r w = (Responds (writeProblem r e), w).
Proof.
  unfold request_reservation, requireIdempotency, principalFrom. destruct (R_Principal r) as [p|]; cbn; [|by left].
  destruct (ParseKey _) as [key|]; cbn; [|by eauto]. destruct (readBody r); cbn; [|by eauto]. destruct (FingerprintOf _ _ _); cbn; [done|by eauto].
Qed.

Lemma writeProblem_status r e : 400 ≤ Resp_Status (writeProblem r e).
Proof. pose proof (problem_status e) as H. unfold problem_code in H. unfold writeProblem. destruct (problemFor e) as [[s k] t]. simpl in *. lia. Qed.

(** A terminal record is replayed as it is stored. *)
Lemma replayed next r rv w row : request_reservation r = Ok rv → answering w →
  idempotency_keys (w_db w) !! key_of rv = Some row → IStatus_Terminal (ik_status row) = true →
  ik_fingerprint row = Rv_Fingerprint rv → default 0 (ik_response_status row) ≠ 0 →
  body_empty (ik_response_body row) = false → w_clock w < ik_expires_at row →
  ∃ w', requireIdempotency m next r w = (Responds (writeReplay (record_of (key_of rv) row)), w') ∧ w_db w' = w_db w.
Proof.
  intros Hrv Hf Hrow Hterm Hfp Hcode Hbody Hexp. destruct (request_reservation_ok r rv Hrv) as [Hok _].
  destruct (Acquire_terminal m Hstore Hcache rv row w) as (w' & Hacq & Hd); [done..|]. exists w'. split; [|done].
  by rewrite (requireIdempotency_run next r rv w Hrv), Hacq.
Qed.

Lemma newTransactionResponse_text t j : newTransactionResponse t = Ok j → ∃ rest, json_text j = "{"%char :: rest.
Proof.
  intros Hj. assert (Hobj : ∀ l j, marshal_struct l = Ok j → ∃ ms, j = JObject ms).
  { clear. induction l as [|[k v] l IH]; intros j; cbn [marshal_struct]; [intros [= <-]; eauto|]. destruct v as [v|]; cbn [mbind result_bind]; [|done].
    destruct (marshal_struct l) as [j'|]; cbn [mbind result_bind]; [|done]. destruct (IH j' eq_refl) as [ms ->]. intros [= <-]. eauto. }
  destruct (Hobj _ _ Hj) as [ms ->]. cbn [json_text]. eauto.
Qed.

(** A reply of 201 is what the completed key holds. *)
Lemma writeStored_stored k row0 t d : Resp_Status (writeStored t) = 201 → answered k row0 t renderCreated d →
  ∃ body tx, idempotency_keys d !! k = Some (ik_finish IStatusCompleted 201 (Some body) tx row0) ∧
    body ≠ "" ∧ bytes_of body = Resp_Body (writeStored t).
Proof.
  intros H201 (code & body & tx & Hren & Hrow). unfold writeStored in *. unfold renderCreated in *.
  destruct (newTransactionResponse t) as [j|] eqn:Hj; cbn in *; [|done]. injection Hren as <- <-. exists (str (json_text j)), tx.
  split_and!; [done| |done]. destruct (newTransactionResponse_text t j Hj) as [rest ->]. done.
Qed.

Lemma decodeJSON_ok {A} (into : json → res A) body a : decodeJSON into body = Ok a → ∃ v, into v = Ok a.
Proof.
  unfold decodeJSON. destruct (Decode body) as [v|]; cbn [mbind result_bind]; [|done]. destruct (into v) eqn:Hv; [|done]. intros [= <-]. eauto.
Qed.

(** The two handlers behind the middleware. *)
Definition write_handler (repo : Repository) (next : Handler) : Prop :=
  next = handlePostTransaction repo ∨ next = handleReverseTransaction repo.

Lemma refused_not_201 r e w w' resp : refuse r e w = (Responds resp, w') → Resp_Status resp ≠ 201.
Proof. intros [= <- <-]. pose proof (writeProblem_status r e). lia. Qed.

Lemma write_handler_created repo next p k mgr body r w row0 resp w' : write_handler repo next → ledger_wf (w_db w) →
  idempotency_keys (w_db w) !! (p, k) = Some row0 →
  next (with_state (mkIdemState p k mgr false) body r) w = (Responds resp, w') → Resp_Status resp = 201 →
  ∃ b tx, idempotency_keys (w_db w') !! (p, k) = Some (ik_finish IStatusCompleted 201 (Some b) tx row0) ∧ b ≠ "" ∧ bytes_of b = Resp_Body resp.
Proof.
  intros [->| ->] Hwf Hrow0 Hrun H201; [unfold handlePostTransaction in Hrun|unfold handleReverseTransaction in Hrun]; cbn [R_Idem R_Body with_state R_Param] in Hrun.
  - destruct (decodeJSON decode_post body) as [b|e] eqn:Hb; [|by apply refused_not_201 in Hrun].
    destruct (toDomain b) as [req|e] eqn:Hreq; [|by apply refused_not_201 in Hrun].
    destruct (postTransaction _ _ _) as [[posted|e] w1] eqn:Hpost; [|by apply refused_not_201 in Hrun]. injection Hrun as <- <-.
    apply decodeJSON_ok in Hb as [v Hv]. apply decode_post_range in Hv. destruct (toDomain_range b req Hv Hreq) as [Hint Hrec].
    eapply post_answered in Hpost; [|done|split; [exact Hint|cbn; rewrite Hrec; apply recorder_none]|done|done|exact Hrow0].
    by apply (writeStored_stored _ row0 posted).
  - destruct (uuid_Parse _) as [id|]; [|by apply refused_not_201 in Hrun].
    destruct (decodeJSON decode_reverse body) as [reason|e]; [|by apply refused_not_201 in Hrun].
    destruct (ReverseTransactionIdempotent _ _ _ _ _) as [[reversal|e] w1] eqn:Hrev; [|by apply refused_not_201 in Hrun]. injection Hrun as <- <-.
    unfold ReverseTransactionIdempotent in Hrev. eapply reverse_answered in Hrev; [|done|done|exact Hrow0]. by apply (writeStored_stored _ row0 reversal).
Qed.

#[local] Instance manager_laws : StoreLaws (mg_store m).
Proof. rewrite Hstore. apply _. Qed.

Lemma manager_acquires rv w : acquire_post m rv w (Acquire m rv w).
Proof. apply (Acquire_post m (L := manager_laws)); [rewrite Hcache; apply NoopCache_ok|rewrite Hcache; apply NoopCache_sound]. Qed.

Lemma replay_has_row rv w rec w' : Acquire m rv w = (Ok (Some rec, Replay), w') → is_Some (idempotency_keys (w_db w) !! key_of rv).
Proof.
  unfold Acquire. rewrite Hcache. cbn [NoopCache cache_Get]. intros Hrun. apply M_bind_ok in Hrun as (b & w1 & Hres & Hrun).
  apply law_Reserve in Hres. destruct b; [by apply ret_ok in Hrun as [? _]|]. by destruct Hres.
Qed.

(** The row at the key of a request that was answered 201. *)
Definition created (rv : Reservation) (body : text) (row : idempotency_row) : Prop :=
  IStatus_Terminal (ik_status row) = true ∧ ik_fingerprint row = Rv_Fingerprint rv ∧ ik_response_status row = Some 201 ∧
  body_empty (ik_response_body row) = false ∧ bytes_of (default "" (ik_response_body row)) = body.

Lemma created_row repo next r w resp w1 : write_handler repo next → ledger_wf (w_db w) →
  requireIdempotency m next r w = (Responds resp, w1) → Resp_Status resp = 201 →
  ∃ rv row, request_reservation r = Ok rv ∧ idempotency_keys (w_db w1) !! key_of rv = Some row ∧ created rv (Resp_Body resp) row.
Proof.
  intros Hnext Hwf Hrun H201. destruct (request_reservation r) as [rv|e] eqn:Hrv.
  2: { destruct (requireIdempotency_refused next r e w Hrv) as [Hq|[e' Hq]]; rewrite Hq in Hrun; [done|]. injection Hrun as <- <-.
    pose proof (writeProblem_status r e'). lia. }
  exists rv. rewrite (requireIdempotency_run next r rv w Hrv) in Hrun. pose proof (manager_acquires rv w) as Hpost.
  destruct (Acquire m rv w) as [[[rec disp]|e] w0] eqn:Hacq.
  2: { injection Hrun as <- <-. pose proof (writeProblem_status r e). lia. }
  destruct disp.
  - destruct rec; [done|]. destruct Hpost as [(row & Hw & Hst & Hfp & _) _]. change (Rv_PrincipalID rv, Rv_Key rv) with (key_of rv) in *.
    destruct (write_handler_created repo next (Rv_PrincipalID rv) (Rv_Key rv) m (R_Body r) r w0 row resp w1) as (b & tx & Hrow & Hb & Hbytes); try done.
    + rewrite Hw. eapply ledger_wf_frame; [apply frame_idempotency|done].
    + rewrite Hw. simpl. by rewrite lookup_insert_eq.
    + exists (ik_finish IStatusCompleted 201 (Some b) tx row). split_and!; [done|done|]. split_and!; try done. simpl. by rewrite bool_decide_eq_false_2.
  - destruct rec as [rec|]; [|done]. destruct Hpost as (Hd & Hterm & _ & _ & Hfp & Hcode & Hbody & Hcur). injection Hrun as <- <-.
    destruct (replay_has_row rv w rec w0 Hacq) as [row Hrow]. rewrite Hd. exists row. split_and!; [done|done|].
    rewrite (Hcur row Hrow) in *. simpl in *. unfold created. split_and!; try done. destruct (ik_response_status row); simpl in *; congruence.
Qed.

(** C4: a payment request that was answered 201 is answered the same when it is sent
    again.  Whatever route of the two, whether the first reply was itself a replay, if
    the second request names the same principal, key, endpoint and body up to JSON
    formatting, the key's row has not changed in between, the database answers and the
    row has not expired, then the second reply is 201 with byte for byte the same body,
    marked as a replay, and the database is left as it was: nothing is posted twice. *)
Theorem created_is_replayed repo next r r2 w resp w1 w2 :
  write_handler repo next → ledger_wf (w_db w) →
  requireIdempotency m next r w = (Responds resp, w1) → Resp_Status resp = 201 → request_reservation r2 = request_reservation r →
  idempotency_keys (w_db w2) = idempotency_keys (w_db w1) → answering w2 →
  (∀ rv row, request_reservation r = Ok rv → idempotency_keys (w_db w2) !! key_of rv = Some row → w_clock w2 < ik_expires_at row) →
  ∃ resp2 w3, requireIdempotency m next r2 w2 = (Responds resp2, w3) ∧ w_db w3 = w_db w2 ∧
    Resp_Status resp2 = 201 ∧ Resp_Body resp2 = Resp_Body resp ∧
    Resp_Header resp2 = {["Content-Type" := "application/json"; replayHeader := "true"]}.
Proof.
  intros Hnext Hwf Hrun H201 Hsame Hkeys Hf Hexp. destruct (created_row repo next r w resp w1 Hnext Hwf Hrun H201) as (rv & row & Hrv & Hrow & Hc).
  rewrite <- Hkeys in Hrow. destruct Hc as (Hterm & Hfp & Hcode & Hbody & Hbytes). rewrite <- Hsame in Hrv.
  destruct (replayed next r2 rv w2 row Hrv Hf Hrow Hterm Hfp) as (w3 & Hreq & Hd); [by rewrite Hcode|done|rewrite Hsame in Hrv; by apply (Hexp rv)|].
  eexists _, w3. split_and!; [exact Hreq|done| | |]; unfold writeReplay; simpl; rewrite ?Hcode; done.
Qed.

(** A rejection that is stored is stored as it was sent. *)
Lemma refuse_stores r p k err w row0 : R_Idem r = Some (mkIdemState p k m false) → isDeterministic err = true → answering w →
  idempotency_keys (w_db w) !! (p, k) = Some row0 → ik_status row0 = IStatusInProgress →
  ∃ w', refuse r err w = (Responds (writeProblem r err), w') ∧
    idempotency_keys (w_db w') !! (p, k) =
      Some (ik_finish IStatusFailed (Resp_Status (writeProblem r err)) (Some (str (Resp_Body (writeProblem r err)))) (ik_transaction_id row0) row0).
Proof.
  intros Hst Hdet Hf Hrow Hip. unfold refuse, reject. rewrite Hst, Hdet. cbn [is_settled is_manager is_principalID is_key]. unfold Manager_Fail.
  rewrite Hstore. cbn [pg_store st_Fail]. unfold Store_Fail. eexists. split; [done|].
  destruct (tx_start_run w) as (w1 & Hs & Hd & Hf1 & Hc1 & _), Hf as [Hf Hc]. unfold autocommit, mbind, M_bind. rewrite Hs, (sql_exec_quiet w1) by congruence.
  unfold update_ik, gets, mbind, M_bind. rewrite Hd, Hrow. unfold ik_in_progress. rewrite bool_decide_eq_true_2 by done.
  unfold next_commit. cbn. rewrite Hc1, Hc. cbn. by rewrite lookup_insert_eq.
Qed.

Lemma problem_text r err : ∃ rest, Resp_Body (writeProblem r err) = "{"%char :: rest.
Proof. unfold writeProblem, problem_json. destruct (problemFor err) as [[s k] t]. cbn [Resp_Body json_text]. eauto. Qed.

(** C5: a rejection that is a property of the request is final.  When a handler refuses
    a request whose key it holds, the error is one that retrying cannot change and the
    database answers, the problem it sends is also what the key holds from then on: the
    same request sent again while that row is unchanged and unexpired and the database
    answers gets the same status and byte for byte the same problem document, with its
    media type, and nothing is executed. *)
Theorem rejection_is_replayed next r r2 rv body err w resp w1 w2 row0 :
  request_reservation r = Ok rv → isDeterministic err = true → answering w →
  idempotency_keys (w_db w) !! key_of rv = Some row0 → ik_status row0 = IStatusInProgress → ik_fingerprint row0 = Rv_Fingerprint rv →
  refuse (with_state (mkIdemState (Rv_PrincipalID rv) (Rv_Key rv) m false) body r) err w = (Responds resp, w1) →
  request_reservation r2 = Ok rv → idempotency_keys (w_db w2) = idempotency_keys (w_db w1) → answering w2 → w_clock w2 < ik_expires_at row0 →
  ∃ resp2 w3, requireIdempotency m next r2 w2 = (Responds resp2, w3) ∧ w_db w3 = w_db w2 ∧
    Resp_Status resp2 = Resp_Status resp ∧ Resp_Body resp2 = Resp_Body resp ∧ 400 ≤ Resp_Status resp < 500 ∧
    Resp_Header resp2 = {["Content-Type" := "application/problem+json"; replayHeader := "true"]}.
Proof.
  intros Hrv Hdet Hf Hrow0 Hip Hfp Href Hrv2 Hkeys Hf2 Hexp.
  set (r1 := with_state _ body r) in Href.
  destruct (refuse_stores r1 (Rv_PrincipalID rv) (Rv_Key rv) err w row0 eq_refl Hdet Hf Hrow0 Hip) as (w' & Hq & Hrow).
  rewrite Hq in Href. injection Href as <- <-. change (Rv_PrincipalID rv, Rv_Key rv) with (key_of rv) in Hrow. rewrite <- Hkeys in Hrow.
  pose proof (deterministic_status err Hdet) as H4. assert (Hst : Resp_Status (writeProblem r1 err) = problem_code err).
  { unfold writeProblem, problem_code. by destruct (problemFor err) as [[s k] t]. }
  destruct (replayed next r2 rv w2 _ Hrv2 Hf2 Hrow) as (w3 & Hreq & Hd); [done|done|cbn; lia| |done|].
  { destruct (problem_text r1 err) as [rest ->]. done. }
  eexists _, w3. split_and!; [exact Hreq|done|done| |lia|lia|]; unfold writeReplay; cbn [Resp_Body Resp_Header Rec_ResponseStatus Rec_ResponseBody record_of ik_finish ik_response_body ik_response_status default].
  - cbn. by rewrite bytes_str.
  - unfold contentTypeFor. cbn. rewrite Hst, (proj2 (Z.leb_le 400 _)) by lia. done.
Qed.

(** The same request for another transaction. *)
Definition with_id (id : string) (r : Request) : Request :=
  mkHttpRequest (R_Method r) (R_Path r) (R_Pattern r) (R_Header r) (<["id" := id]> (R_Param r)) (R_Query r) (R_Body r) (R_BodyErr r)
    (R_ID r) (R_Principal r) (R_Idem r).

(** C39: a key does not name the transaction it reversed.  The digest covers the method,
    the route pattern and the body, and the body of a reversal is only its reason.  So
    when a reversal was answered 201, the same key and reason sent to reverse any other
    transaction is not refused as a reuse of the key: it is answered 201 with the first
    reversal, and the other transaction is not touched. *)
Theorem reversal_key_replays_for_any_transaction repo r w resp w1 w2 other :
  ledger_wf (w_db w) → requireIdempotency m (handleReverseTransaction repo) r w = (Responds resp, w1) → Resp_Status resp = 201 →
  idempotency_keys (w_db w2) = idempotency_keys (w_db w1) → answering w2 →
  (∀ rv row, request_reservation r = Ok rv → idempotency_keys (w_db w2) !! key_of rv = Some row → w_clock w2 < ik_expires_at row) →
  ∃ resp2 w3, requireIdempotency m (handleReverseTransaction repo) (with_id other r) w2 = (Responds resp2, w3) ∧
    w_db w3 = w_db w2 ∧ Resp_Status resp2 = 201 ∧ Resp_Body resp2 = Resp_Body resp.
Proof.
  intros Hwf Hrun H201 Hkeys Hf Hexp.
  destruct (created_row repo _ r w resp w1 (or_intror eq_refl) Hwf Hrun H201) as (rv & row & Hrv & Hrow & Hterm & Hfp & Hcode & Hbody & Hbytes).
  rewrite <- Hkeys in Hrow.
  destruct (replayed (handleReverseTransaction repo) (with_id other r) rv w2 row) as (w3 & Hreq & Hd); try done; [by rewrite Hcode|by apply (Hexp rv)|].
  eexists _, w3. split_and!; [exact Hreq|done| |done]. simpl. by rewrite Hcode.
Qed.

End replay.
