(* ===== verification/Auth.v ===== *)
(** * API keys (internal/auth)

    A key is a random secret that is never stored; its digest names a row, and the row
    names the principal.  The table is passed around: no other table refers to it.  The
    digest and the random source are parameters. *)

From S2P Require Import Prelude Errors Types Schema Utf8 JsonText Canonical.
From Stdlib Require Import Ascii.
Open Scope string_scope.
Open Scope Z_scope.

Record api_key_row := mk_api_key_row {
  ak_principal_id : string;
  ak_key_hash : text;
  ak_status : string;
  ak_created_at : Time;
  ak_revoked_at : option Time }.

Abbreviation api_keys := (gmap UUID api_key_row) (only parsing).

Definition KeyPrefix : string := "lk_live_".
Definition keyBytes : nat := 32.

(** [hex.EncodeToString] *)
Definition hex_encode (s : text) : text := concat ((λ c, [hex_char (byte_of c / 16); hex_char (byte_of c mod 16)]%N) <$> s).

Section auth.
Context `{DG : Digest}.

Definition HashKey (raw : string) : text := sha256 (bytes_of raw).

(** [secret] is what [rand.Read] delivered. *)
Definition GenerateKey (secret : res text) : res (string * text) :=
  s ← secret;
  let raw := KeyPrefix +:+ str (hex_encode s) in
  Ok (raw, HashKey raw).

(** The row a query by digest finds; the index makes it the only one. *)
Definition active_key (hash : text) (t : api_keys) : option api_key_row :=
  head (filter (λ row, ak_key_hash row = hash ∧ ak_status row = "ACTIVE") ((map_to_list t).*2)).

Definition Authenticate (t : api_keys) (rawKey : string) : M string :=
  _ ← tx_start; _ ← sql_exec;
  match active_key (HashKey rawKey) t with
  | Some row => mret (ak_principal_id row)
  | None => fail ErrInvalidAPIKey
  end.

(** Primary key and unique index; the CHECK constraints hold of the row written. *)
Definition Issue (t : api_keys) (secret : res text) (principalID : string) : M (string * api_keys) :=
  key ← lift (GenerateKey secret);
  id ← uuid_NewV7;
  _ ← tx_start; _ ← sql_exec;
  _ ← guard_M (bool_decide (t !! id = None)) (PgError UniqueViolation "api_keys_pkey" "duplicate key value");
  _ ← guard_M (bool_decide (key.2 ∉ (ak_key_hash <$> (map_to_list t).*2))) (PgError UniqueViolation "api_keys_key_hash_key" "duplicate key value");
  now ← sql_now;
  mret (key.1, <[id := mk_api_key_row principalID key.2 "ACTIVE" now None]> t).

(** ** What is stored *)

(** The constraints of the table: the length of a digest, a status and its revocation
    time, one row for a digest. *)
Record keys_wf (t : api_keys) : Prop := {
  kw_len : ∀ id row, t !! id = Some row → length (ak_key_hash row) = 32%nat;
  kw_status : ∀ id row, t !! id = Some row → ak_status row ∈ ["ACTIVE"; "REVOKED"];
  kw_revoked : ∀ id row, t !! id = Some row → ak_status row = "REVOKED" ↔ is_Some (ak_revoked_at row);
  kw_hash : ∀ i j a b, t !! i = Some a → t !! j = Some b → ak_key_hash a = ak_key_hash b → i = j }.

Lemma active_key_elem hash t row : keys_wf t →
  active_key hash t = Some row ↔ ∃ id, t !! id = Some row ∧ ak_key_hash row = hash ∧ ak_status row = "ACTIVE".
Proof.
  intros Hwf. unfold active_key. set (l := filter _ _). assert (Hl : ∀ x, x ∈ l ↔ ∃ id, t !! id = Some x ∧ ak_key_hash x = hash ∧ ak_status x = "ACTIVE").
  { intros x. unfold l. rewrite list_elem_of_filter, list_elem_of_fmap. split.
    - intros (Hx & [id y] & -> & Hin%elem_of_map_to_list). eauto.
    - intros (id & Hid & Hx). split; [done|]. exists (id, x). by rewrite elem_of_map_to_list. }
  split.
  - intros Hh. apply Hl. destruct l; simplify_eq/=. apply list_elem_of_here.
  - intros (id & Hid & Hhash & Hst). assert (Hin : row ∈ l) by (apply Hl; eauto). destruct l as [|x l']; [by apply not_elem_of_nil in Hin|].
    destruct (proj1 (Hl x) (list_elem_of_here _ _)) as (id' & Hid' & Hhash' & _). simpl. f_equal.
    assert (id' = id) as -> by (eapply (kw_hash t Hwf); eauto; congruence). congruence.
Qed.

Lemma Issue_wf t secret p raw t' w w' : keys_wf t → Issue t secret p w = (Ok (raw, t'), w') →
  keys_wf t' ∧ ∃ id row, t' = <[id := row]> t ∧ t !! id = None ∧ ak_key_hash row = HashKey raw ∧ ak_principal_id row = p ∧ ak_status row = "ACTIVE".
Proof.
  intros Hwf Hrun. unfold Issue in Hrun. mrun. unfold tx_start in *. simplify_eq/=. unfold GenerateKey in *.
  destruct secret as [s|]; simplify_eq/=. bool_to_prop. split; [|by eauto 10].
  assert (Hfresh : ∀ i a, t !! i = Some a → ak_key_hash a ≠ HashKey (KeyPrefix +:+ str (hex_encode s))).
  { intros i a Ha Heq. match goal with Hn : _ ∉ _ |- _ => apply Hn end. apply list_elem_of_fmap. exists a. split; [done|].
    apply list_elem_of_fmap. exists (i, a). by rewrite elem_of_map_to_list. }
  split.
  - intros id row [[<- <-]|[_ Hr]]%lookup_insert_Some; [apply sha256_len|by eapply (kw_len t Hwf)].
  - intros id row [[<- <-]|[_ Hr]]%lookup_insert_Some; [set_solver|by eapply (kw_status t Hwf)].
  - intros id row [[<- <-]|[_ Hr]]%lookup_insert_Some; [split; [done|by intros [? ?]]|by eapply (kw_revoked t Hwf)].
  - intros i j a b [[<- <-]|[_ Ha]]%lookup_insert_Some [[<- <-]|[_ Hb]]%lookup_insert_Some Hh; [done| | |by eapply (kw_hash t Hwf)].
    + by destruct (Hfresh j b Hb).
    + by destruct (Hfresh i a Ha).
Qed.

End auth.
