(* ===== verification/HttpRoutes.v ===== *)
(** * What each route may do

    Reads leave the database alone, writes need an API key, no handler panics, and a
    statement is paged by the tokens the API hands out. *)

From S2P Require Import Prelude Errors Money Strconv Json Types SagaTypes Schema PgIdem PgSaga Retry PgLedger Service.
From S2P Require Import Frames Manager Payout PgRecon Keyset Read ReadSpec Utf8 JsonText Canonical CanonicalNum TimeText.
From S2P Require Import Base64 Cursor JsonMarshal HttpDto Http HttpSpec Auth.
From Stdlib Require Import Ascii.
Open Scope string_scope.
Open Scope Z_scope.

(** ** Reading *)

Definition reading {A} (m : M A) : Prop := ∀ w, w_db (m w).2 = w_db w.

Create HintDb reading.

Section rules.
Context {A B : Type}.
Lemma reading_bind (m : M A) (f : A → M B) : reading m → (∀ a, reading (f a)) → reading (m ≫= f).
Proof. intros Hm Hf w. unfold mbind, M_bind. specialize (Hm w). destruct (m w) as [[a|e] w1]; simpl in *; [|done]. by rewrite Hf. Qed.
Lemma reading_ret (a : A) : reading (mret a).
Proof. done. Qed.
Lemma reading_fail e : reading (fail e : M A).
Proof. done. Qed.
Lemma reading_lift (r : res A) : reading (lift r).
Proof. done. Qed.
Lemma reading_gets (f : DB → A) : reading (gets f).
Proof. done. Qed.
Lemma reading_map_err f (m : M A) : reading m → reading (map_err f m).
Proof. intros Hm w. specialize (Hm w). unfold map_err. by destruct (m w) as [[?|?] ?]. Qed.
End rules.

Lemma reading_clock : reading clock_Now.
Proof. done. Qed.
Lemma reading_sql_exec : reading sql_exec.
Proof. exact sql_exec_db. Qed.
Lemma reading_tx_start : reading tx_start.
Proof. exact tx_start_db. Qed.

#[export] Hint Resolve reading_ret reading_fail reading_lift reading_gets reading_clock reading_sql_exec reading_tx_start : reading.

Ltac reading :=
  repeat first
    [ progress intros
    | apply reading_map_err
    | apply reading_bind
    | match goal with |- reading (match ?x with _ => _ end) => destruct x end
    | match goal with |- reading (let _ := _ in _) => cbv zeta end
    | solve [auto with reading] ].

Lemma reading_query {A} (f : DB → A) : reading (query f).
Proof. unfold query. reading. Qed.
#[export] Hint Resolve reading_query : reading.

Lemma reading_GetBalance id : reading (GetBalance id).
Proof. unfold GetBalance. reading. Qed.
Lemma reading_GetBalanceAsOf id t : reading (GetBalanceAsOf id t).
Proof. unfold GetBalanceAsOf. reading. Qed.
Lemma reading_GetStatement q : reading (GetStatement q).
Proof. unfold GetStatement, repo_GetStatement. reading. Qed.
Lemma reading_SearchTransactions q : reading (SearchTransactions q).
Proof. unfold SearchTransactions, repo_SearchTransactions. reading. Qed.
Lemma reading_SearchAccounts q : reading (SearchAccounts q).
Proof. unfold SearchAccounts, repo_SearchAccounts. reading. Qed.
Lemma reading_GetAccount id : reading (GetAccount id).
Proof. unfold GetAccount. reading. Qed.
Lemma reading_GetTransaction id : reading (GetTransaction id).
Proof. unfold GetTransaction, scan_transaction. reading. Qed.
Lemma reading_saga_Get id : reading (saga_Get id).
Proof. unfold saga_Get. reading. Qed.
Lemma reading_saga_Attempts id : reading (saga_Attempts id).
Proof. unfold saga_Attempts. reading. Qed.
Lemma reading_saga_List s n : reading (saga_ListByStatus s n).
Proof. unfold saga_ListByStatus. reading. Qed.
Lemma reading_ListRuns n : reading (pg_ListRuns n).
Proof. unfold pg_ListRuns. reading. Qed.
Lemma reading_GetRun id : reading (pg_GetRun id).
Proof. unfold pg_GetRun. reading. Qed.
Lemma reading_ListExceptions id : reading (pg_ListExceptions id).
Proof. unfold pg_ListExceptions. reading. Qed.
Lemma reading_Authenticate `{Digest} t k : reading (Authenticate t k).
Proof. unfold Authenticate. reading. Qed.

#[export] Hint Resolve reading_GetBalance reading_GetBalanceAsOf reading_GetStatement reading_SearchTransactions reading_SearchAccounts
  reading_GetAccount reading_GetTransaction reading_saga_Get reading_saga_Attempts reading_saga_List reading_ListRuns reading_GetRun
  reading_ListExceptions reading_Authenticate : reading.

(** ** Handlers *)

Lemma strip_prefix_sound p : ∀ s rest, strip_prefix p s = Some rest → s = (p ++ rest)%list.
Proof.
  induction p as [|a p IH]; intros [|b s] rest; cbn [strip_prefix app]; try done; try (by intros [= <-]).
  case_bool_decide as Hab; [|done]. subst b. intros Hs. by rewrite (IH s rest Hs).
Qed.

Section routes.
Context `{UL : UuidLib} `{UP : UuidParser} `{ET : ErrorText} `{DG : Digest}.

(** The handler answers and leaves the database alone. *)
Definition only_reads (h : Handler) : Prop := ∀ r w, ∃ resp w', h r w = (Responds resp, w') ∧ w_db w' = w_db w.
Definition answers (h : Handler) : Prop := ∀ r w, ∃ resp w', h r w = (Responds resp, w').

Lemma respond_reads (resp : Response) w : ∃ x w', respond resp w = (Responds x, w') ∧ w_db w' = w_db w.
Proof. unfold respond. eauto. Qed.

Lemma reply_reads {A} r status (m : M A) render w : reading m →
  ∃ resp w', reply r status m render w = (Responds resp, w') ∧ w_db w' = w_db w.
Proof. intros Hm. specialize (Hm w). unfold reply, respond. destruct (m w) as [[a|e] w1]; simpl in Hm; eauto. Qed.

Lemma reply_answers {A} r status (m : M A) render w : ∃ resp w', reply r status m render w = (Responds resp, w').
Proof. unfold reply, respond. destruct (m w) as [[a|e] w1]; eauto. Qed.

Ltac reads := intros r w; apply reply_reads; reading.

Lemma reads_SearchTransactions : only_reads handleSearchTransactions.
Proof. reads. Qed.
Lemma reads_GetTransaction : only_reads handleGetTransaction.
Proof. reads. Qed.
Lemma reads_GetStatement : only_reads handleGetStatement.
Proof. reads. Qed.
Lemma reads_GetAccount : only_reads handleGetAccount.
Proof. reads. Qed.
Lemma reads_SearchAccounts : only_reads handleSearchAccounts.
Proof. reads. Qed.
Lemma reads_GetSaga : only_reads handleGetSaga.
Proof. reads. Qed.
Lemma reads_ListSagas : only_reads handleListSagas.
Proof. reads. Qed.
Lemma reads_ListRuns : only_reads handleListReconciliationRuns.
Proof. reads. Qed.
Lemma reads_GetRun : only_reads handleGetReconciliationRun.
Proof. reads. Qed.

Lemma reads_GetBalance : only_reads handleGetBalance.
Proof.
  intros r w. unfold handleGetBalance. destruct (path_id _ _); [|apply respond_reads]. case_bool_decide; [apply reply_reads; reading|].
  destruct (time_param _); [apply reply_reads; reading|apply respond_reads].
Qed.

Lemma reads_Live : only_reads handleLive.
Proof. intros r w. apply respond_reads. Qed.

Lemma reads_Ready checkers : Forall (λ c : Checker, reading c.2) checkers → only_reads (handleReady checkers).
Proof.
  intros Hc r w. unfold handleReady. assert (Hdb : ∀ results ready w, w_db (run_checks checkers results ready w).2 = w_db w).
  { induction Hc as [|[name check] checkers Hr Hc IH]; intros results ready w0; cbn [run_checks]; [done|]. simpl in Hr.
    specialize (Hr w0). destruct (check w0) as [[[]|e] w1]; simpl in Hr; by rewrite IH. }
  specialize (Hdb [] true w). destruct (run_checks _ _ _ _) as [[results ready] w1]. unfold respond. eauto.
Qed.

(** ** Authentication *)

(** The key a request presents. *)
Definition presents (r : Request) (key : string) : Prop := Get "Authorization" (R_Header r) = bearer +:+ key.
Definition authentic (t : gmap UUID api_key_row) (r : Request) : Prop := ∃ key row, presents r key ∧ active_key (HashKey key) t = Some row.

(** Without an active key the next handler is not reached. *)
Lemma requireAuth_cases t next r w :
  (∃ e w', requireAuth (Authenticate t) next r w = (Responds (writeProblem r e), w') ∧ w_db w' = w_db w ∧
     (w_faults w = [] → e ∈ [ErrMissingAPIKey; ErrInvalidAPIKey])) ∨
  (authentic t r ∧ ∃ p w', requireAuth (Authenticate t) next r w = next (with_principal p r) w' ∧ w_db w' = w_db w).
Proof.
  unfold requireAuth. case_bool_decide; [left; unfold respond; eexists _, _; split_and!; [done|done|set_solver]|].
  destruct (strip_prefix _ _) as [[|c key]|] eqn:Hs; [left; unfold respond; eexists _, _; split_and!; [done|done|set_solver]|
    |left; unfold respond; eexists _, _; split_and!; [done|done|set_solver]].
  apply strip_prefix_sound in Hs. set (k := str (c :: key)) in *. pose proof (reading_Authenticate t k w) as Hdb.
  destruct (Authenticate t k w) as [[p|e] w1] eqn:Ha; simpl in Hdb.
  - right. split; [|eauto]. unfold Authenticate in Ha. mrun. destruct (active_key (HashKey k) t) as [row|] eqn:Hrow; mrun.
    exists k, row. split; [|done]. unfold presents. rewrite <- (String.string_of_list_ascii_of_string (Get _ _)), Hs. done.
  - left. unfold respond. eexists _, _. split_and!; [done|done|]. intros Hf. clearbody k. unfold Authenticate, mbind, M_bind, tx_start in Ha.
    destruct (w_ticks w); unfold sql_exec in Ha; cbn in Ha; rewrite Hf in Ha; cbn in Ha;
      destruct (active_key (HashKey k) t); cbn in Ha; inversion Ha; rewrite !elem_of_cons; auto.
Qed.

(** What is promised of a route. *)
Definition guarded (t : gmap UUID api_key_row) (route : Route) : Prop := ∀ r w,
  ∃ resp w', rt_Handler route r w = (Responds resp, w') ∧
    (rt_Method route = "GET" → w_db w' = w_db w) ∧
    (rt_Method route = "POST" → authentic t r ∨ (w_db w' = w_db w ∧ 400 ≤ Resp_Status resp < 600 ∧ (w_faults w = [] → Resp_Status resp = 401))).

Lemma guarded_read t pattern h : only_reads h → guarded t (mkRoute "GET" pattern h).
Proof. intros Hh r w. destruct (Hh r w) as (resp & w' & Hq & Hd). exists resp, w'. simpl. split_and!; try done. Qed.

Lemma guarded_auth_read t pattern h : only_reads h → guarded t (mkRoute "GET" pattern (requireAuth (Authenticate t) h)).
Proof.
  intros Hh. apply guarded_read. intros r w. destruct (requireAuth_cases t h r w) as [(e & w' & -> & Hd & _)|(_ & p & w1 & -> & Hd)]; [eauto|].
  destruct (Hh (with_principal p r) w1) as (resp & w2 & -> & Hd2). exists resp, w2. split; [done|congruence].
Qed.

(** A write route: behind authentication, with a handler that answers requests that
    have a principal. *)
Lemma guarded_write t pattern h : (∀ p r w, ∃ resp w', h (with_principal p r) w = (Responds resp, w')) →
  guarded t (mkRoute "POST" pattern (requireAuth (Authenticate t) h)).
Proof.
  intros Hh r w. simpl. destruct (requireAuth_cases t h r w) as [(e & w' & -> & Hd & He)|(Ha & p & w1 & -> & Hd)].
  - eexists _, w'. split_and!; [done|done|]. intros _. right. split_and!; [done|apply writeProblem_status| |].
    + pose proof (problem_status e) as Hs. unfold problem_code in Hs. unfold writeProblem. destruct (problemFor e) as [[s k] x]. simpl in *. lia.
    + intros Hf. specialize (He Hf). rewrite !elem_of_cons, elem_of_nil in He. destruct He as [->|[->|[]]]; done.
  - destruct (Hh p r w1) as (resp & w2 & ->). exists resp, w2. by split_and!; [|done|left].
Qed.

Lemma answers_StartPayout o p r w : ∃ resp w', handleStartPayout o (with_principal p r) w = (Responds resp, w').
Proof. unfold handleStartPayout, principalFrom. apply reply_answers. Qed.

Lemma refuse_answers r e w : ∃ resp w', refuse r e w = (Responds resp, w').
Proof. unfold refuse. eauto. Qed.

(** With a reservation in hand the two write handlers answer. *)
Lemma answers_write repo next s body r w : write_handler repo next → ∃ resp w', next (with_state s body r) w = (Responds resp, w').
Proof.
  intros [->| ->]; [unfold handlePostTransaction|unfold handleReverseTransaction]; cbn [R_Idem with_state R_Body R_Param].
  - destruct (decodeJSON _ _) as [b|]; [|apply refuse_answers]. destruct (toDomain b); [|apply refuse_answers].
    destruct (postTransaction _ _ _) as [[x|e] w1]; [unfold respond; eauto|apply refuse_answers].
  - destruct (uuid_Parse _); [|apply refuse_answers]. destruct (decodeJSON _ _); [|apply refuse_answers].
    destruct (ReverseTransactionIdempotent _ _ _ _ _) as [[x|e] w1]; [unfold respond; eauto|apply refuse_answers].
Qed.

Lemma answers_idempotent m repo next p r w : mg_store m = pg_store → mg_cache m = NoopCache → write_handler repo next →
  ∃ resp w', requireIdempotency m next (with_principal p r) w = (Responds resp, w').
Proof.
  intros Hs Hc Hn. destruct (request_reservation (with_principal p r)) as [rv|e] eqn:Hrv.
  - rewrite (requireIdempotency_run m next _ rv w Hrv). pose proof (manager_acquires m Hs Hc rv w) as Hpost.
    destruct (Acquire m rv w) as [[[[rec|] []]|e] w1]; unfold respond; eauto; [done| |done]. by apply (answers_write repo).
  - unfold requireIdempotency, principalFrom. cbn [R_Principal with_principal]. unfold request_reservation in Hrv. cbn [R_Principal with_principal] in Hrv.
    unfold respond. destruct (ParseKey _); [|by eauto]. destruct (readBody _); [|by eauto]. cbn in Hrv.
    destruct (FingerprintOf _ _ _); [done|]. eauto.
Qed.

(** C6: what the routes of the API may do, for a server with keys [t].  Every registered
    route answers every request: none panics, so the middleware it needs is in front of
    it.  A GET leaves the database as it was.  A POST from a caller that presents no
    active API key leaves it as it was too, and is answered with an error: 401, as long
    as the database answers. *)
Theorem routes_are_guarded deps t :
  d_Auth deps = Some (Authenticate t) →
  (∀ m, d_Idempotency deps = Some m → mg_store m = pg_store ∧ mg_cache m = NoopCache) →
  Forall (λ c : Checker, reading c.2) (d_Checkers deps) →
  Forall (guarded t) (NewMux deps) ∧ Forall (λ route, rt_Method route = "GET" ∨ rt_Method route = "POST") (NewMux deps).
Proof.
  intros Hauth Hman Hcheck. unfold NewMux. rewrite Hauth.
  assert (Hw : ∀ m repo next pattern, d_Idempotency deps = Some m → write_handler repo next →
    guarded t (mkRoute "POST" pattern (requireAuth (Authenticate t) (requireIdempotency m next)))).
  { intros m repo next pattern Hm Hn. destruct (Hman m Hm) as [Hs Hc]. apply guarded_write. intros p r w. by apply (answers_idempotent m repo). }
  split.
  - rewrite !list.Forall_app. split_and!.
    + rewrite !list.Forall_cons. split_and!; [apply guarded_read, reads_Live|by apply guarded_read, reads_Ready|done].
    + destruct (d_Payout deps) as [o|]; [|done]. rewrite list.Forall_cons. split; [|done]. apply guarded_write. intros. apply answers_StartPayout.
    + destruct (d_Sagas deps); [|done]. rewrite !list.Forall_cons. split_and!; [apply guarded_read, reads_ListSagas|apply guarded_read, reads_GetSaga|done].
    + destruct (d_Reconciliation deps); [|done]. rewrite !list.Forall_cons.
      split_and!; [apply guarded_auth_read, reads_ListRuns|apply guarded_auth_read, reads_GetRun|done].
    + destruct (d_Ledger deps) as [repo|]; [|done]. destruct (d_Idempotency deps) as [m|] eqn:Hm; [|done]. rewrite !list.Forall_cons.
      split_and!; [by apply (Hw m repo); [|left]|by apply (Hw m repo); [|right]|apply guarded_auth_read, reads_SearchTransactions|
        apply guarded_auth_read, reads_GetTransaction|apply guarded_read, reads_GetBalance|apply guarded_read, reads_GetStatement|
        apply guarded_auth_read, reads_SearchAccounts|apply guarded_auth_read, reads_GetAccount|done].
  - destruct (d_Payout deps), (d_Sagas deps), (d_Reconciliation deps), (d_Ledger deps), (d_Idempotency deps); cbn [app];
      repeat (apply list.Forall_cons; split; [simpl; auto|]); apply list.Forall_nil; done.
Qed.

(** ** Paging over HTTP *)

(** The request that sends a token back. *)
Definition with_cursor (token : string) (r : Request) : Request :=
  mkHttpRequest (R_Method r) (R_Path r) (R_Pattern r) (R_Header r) (R_Param r) (<["cursor" := token]> (R_Query r)) (R_Body r) (R_BodyErr r)
    (R_ID r) (R_Principal r) (R_Idem r).

Lemma param_other {A} token r name (parse : string → res A) dflt : name ≠ "cursor" → param (with_cursor token r) name parse dflt = param r name parse dflt.
Proof. intros Hn. unfold param, Get. simpl. by rewrite lookup_insert_ne. Qed.

Lemma b64_nonempty c s : b64_encode (c :: s) ≠ [].
Proof. by destruct s as [|? [|? ?]]. Qed.

Lemma token_nonempty c : encodeCursor c ≠ "".
Proof.
  unfold encodeCursor. set (raw := (_ ++ _)%list). assert (Hne : b64_encode raw ≠ []).
  { destruct raw as [|x raw'] eqn:Hr; [|apply b64_nonempty]. subst raw. by destruct (format_rfc3339 (Cur_CreatedAt c)). }
  by destruct (b64_encode raw).
Qed.

Context `{!UuidParseLaws}.

(** C27: paging over the wire is paging by position.  For a statement request that names
    its period, the token the API hands out for a position, sent back as [cursor], makes
    the request for exactly the entries after that position, whenever it is sent; so a
    client that follows the tokens walks the statement as [next_query] does.  A token
    that encodes no position is refused as an invalid entry. *)
Theorem statement_token_resumes r now now' q c :
  statement_query r now = Ok q → Get "from" (R_Query r) ≠ "" → Get "to" (R_Query r) ≠ "" →
  printable (Cur_CreatedAt c) → uuid_valid (Cur_EntryID c) →
  statement_query (with_cursor (encodeCursor c) r) now' = Ok (next_query q c) ∧
  ∀ token e, token ≠ "" → decodeCursor token = Err e → statement_query (with_cursor token r) now' = Err ErrInvalidEntry.
Proof.
  intros Hq Hfrom Hto Hp Hu. unfold statement_query in *. unfold path_id in *. cbn [R_Param with_cursor].
  destruct (uuid_Parse _) as [id|]; cbn [to_result mbind result_bind] in *; [|done].
  assert (Hnow : ∀ token name dflt dflt', name ≠ "cursor" → Get name (R_Query r) ≠ "" →
    param (with_cursor token r) name time_param dflt' = param r name time_param dflt).
  { intros token name dflt dflt' Hn Hne. rewrite param_other by done. unfold param. by rewrite !bool_decide_eq_false_2. }
  destruct (param r "from" time_param _) as [from|] eqn:H1; cbn [mbind result_bind] in Hq; [|done].
  destruct (param r "to" time_param _) as [to_|] eqn:H2; cbn [mbind result_bind] in Hq; [|done].
  destruct (param r "limit" limit_param _) as [limit|] eqn:H3; cbn [mbind result_bind] in Hq; [|done].
  destruct (param r "cursor" _ _) as [after|]; cbn [mbind result_bind] in Hq; [|done]. injection Hq as <-.
  assert (Hcur : ∀ token, token ≠ "" → param (with_cursor token r) "cursor" (λ raw, Some <$> decodeCursor raw) None = Some <$> decodeCursor token).
  { intros token Ht. unfold param, Get. cbn [R_Query with_cursor]. rewrite lookup_insert_eq. simpl. by rewrite bool_decide_eq_false_2. }
  split; [|intros token e Ht He]; rewrite (Hnow _ "from" (now - defaultStatementWindow)), H1 by done; cbn [mbind result_bind];
    rewrite (Hnow _ "to" now), H2 by done; cbn [mbind result_bind]; rewrite (param_other _ r "limit"), H3 by done; cbn [mbind result_bind].
  - rewrite Hcur, decode_encode_cursor by (apply token_nonempty || done). done.
  - rewrite Hcur, He by done. by rewrite (decodeCursor_error token e He).
Qed.

End routes.

(** ** Keys *)

(** An issued key works, and only it.  A key that was issued authenticates as the
    principal it was issued to as soon as it is stored, no other key authenticates
    differently than before, the table stays well-formed, and no revoked row ever
    authenticates: whoever is let in presented a key whose digest is on an active row. *)
Theorem issued_key_authenticates `{DG : Digest} t secret p raw t' w w' w2 :
  keys_wf t → Issue t secret p w = (Ok (raw, t'), w') → w_faults w2 = [] →
  keys_wf t' ∧ (Authenticate t' raw w2).1 = Ok p ∧
  (∀ key, HashKey key ≠ HashKey raw → Authenticate t' key w2 = Authenticate t key w2) ∧
  (∀ key q, (Authenticate t' key w2).1 = Ok q → ∃ id row, t' !! id = Some row ∧ ak_key_hash row = HashKey key ∧
     ak_principal_id row = q ∧ ak_status row = "ACTIVE" ∧ ak_revoked_at row = None).
Proof.
  intros Hwf Hi Hf. destruct (Issue_wf _ _ _ _ _ _ _ Hwf Hi) as (Hwf' & id & row & -> & Hid & Hh & Hp & Hst).
  assert (Hauth : ∀ t key, (Authenticate t key w2).1 = match active_key (HashKey key) t with Some r => Ok (ak_principal_id r) | None => Err ErrInvalidAPIKey end).
  { intros t0 key. unfold Authenticate, mbind, M_bind, tx_start. destruct (w_ticks w2); unfold sql_exec; cbn; rewrite Hf; cbn; by destruct (active_key _ t0). }
  split_and!; [done| | |].
  - rewrite Hauth, (proj2 (active_key_elem (HashKey raw) (<[id:=row]> t) row Hwf')); [by rewrite Hp|]. exists id. by rewrite lookup_insert_eq.
  - intros key Hne. assert (Heq : active_key (HashKey key) (<[id:=row]> t) = active_key (HashKey key) t).
    { apply option_eq. intros r. rewrite !active_key_elem by done. split; intros (i & Hr & Hk & Hs); exists i.
      - apply lookup_insert_Some in Hr as [[_ <-]|[_ Hr]]; [congruence|done].
      - rewrite lookup_insert_ne by congruence. done. }
    unfold Authenticate. by rewrite Heq.
  - intros key q. rewrite Hauth. destruct (active_key (HashKey key) _) as [r|] eqn:Hr; [|done]. intros [= <-].
    apply active_key_elem in Hr as (i & Hr & Hk & Hs); [|done]. exists i, r. split_and!; try done.
    destruct (ak_revoked_at r) eqn:Hrev; [|done]. pose proof (proj2 (kw_revoked _ Hwf' i r Hr)) as Hrv. rewrite Hrev in Hrv.
    rewrite Hs in Hrv. discriminate Hrv. eauto.
Qed.
