(* ===== verification/HttpDemo.v ===== *)
(** * A payment over HTTP

    A keyed transfer posted to the demo ledger through the middleware, sent again with
    other formatting; a transfer that does not balance; API keys; a statement token. *)

From S2P Require Import Prelude Errors Money Json Types SagaTypes Events Schema PgIdem Retry PgLedger Service Invariant.
From S2P Require Import Frames Uuid Demo Manager IdemSpec Payout Keyset Read ReadSpec Utf8 JsonText Canonical TimeText Cursor.
From S2P Require Import UuidText JsonMarshal HttpDto Http HttpSpec Auth HttpRoutes.
From Stdlib Require Import Ascii.
Open Scope string_scope.
Open Scope Z_scope.

(** A digest of 32 bytes, and error texts that give nothing away. *)
Definition last32 (t : text) : text := take 32 (reverse t ++ replicate 32 "0"%char)%list.
Lemma last32_len t : length (last32 t) = 32%nat.
Proof. unfold last32. rewrite length_take, length_app, length_replicate. lia. Qed.
#[export] Instance last_bytes : Digest := {| sha256 := last32; sha256_len := last32_len |}.

#[export] Instance no_text : ErrorText := λ _, "rejected".

Definition float_text : string := uuid_String float_id.
Definition wallet_text : string := uuid_String wallet_id.

Definition json_leg (account direction amount : string) : string :=
  "{'account_id':'" +:+ account +:+ "','direction':'" +:+ direction +:+ "','amount':{'amount':'" +:+ amount +:+ "','currency':'INR'}}".

Definition transfer_body (a b : string) : text :=
  doc ("{'type':'TRANSFER','entries':[" +:+ json_leg float_text "DEBIT" a +:+ "," +:+ json_leg wallet_text "CREDIT" b +:+ "]}").

(** The same members in another order, with spaces. *)
Definition transfer_again : text :=
  doc ("{ 'entries' : [" +:+ json_leg float_text "DEBIT" "500" +:+ ", " +:+ json_leg wallet_text "CREDIT" "500" +:+ "], 'type' : 'TRANSFER' }").

Definition post_request (key : string) (body : text) : Request :=
  mkHttpRequest "POST" "/v1/transactions" "/v1/transactions" {["Idempotency-Key" := key]} ∅ ∅ body None "req-1" (Some "alice") None.

Definition first_post : Request := post_request "00000000-0000-0000-0000-0000000000AB" (transfer_body "500" "500").
Definition second_post : Request := post_request "00000000-0000-0000-0000-0000000000ab" transfer_again.

Definition demo_post : Handler := handlePostTransaction demo_repo.
Definition post_run : served * World := requireIdempotency demo_manager demo_post first_post (quiet_world demo_db 100).
Definition posted_db : DB := w_db post_run.2.

Lemma posted_db_eq : posted_db = w_db post_run.2.
Proof. reflexivity. Qed.
Lemma post_run_eq : requireIdempotency demo_manager demo_post first_post (quiet_world demo_db 100) = (post_run.1, post_run.2).
Proof. unfold post_run. by destruct (requireIdempotency _ _ _ _). Qed.

Definition ok_outcome (o : served) (status : Z) : bool := match o with Responds r => Resp_Status r =? status | Panics => false end.

Lemma post_runs : ok_outcome post_run.1 201 = true.
Proof. vm_compute. reflexivity. Qed.

Lemma posted_outcome o : ok_outcome o 201 = true → ∃ r, o = Responds r ∧ Resp_Status r = 201.
Proof. destruct o as [r|]; [|done]. simpl. intros H%Z.eqb_eq. eauto. Qed.

Definition unexpired (d : DB) (now : Time) : bool := forallb (λ kr : string * string * idempotency_row, now <? ik_expires_at kr.2) (map_to_list (idempotency_keys d)).

Lemma unexpired_row d now k row : unexpired d now = true → idempotency_keys d !! k = Some row → now < ik_expires_at row.
Proof.
  intros H Hk. apply (proj1 (forallb_forall _ _)) with (x := (k, row)) in H; [by apply Z.ltb_lt|].
  by apply list_elem_of_In, elem_of_map_to_list.
Qed.

Lemma same_reservation : request_reservation second_post = request_reservation first_post.
Proof. vm_compute. reflexivity. Qed.

Lemma posted_unexpired : unexpired posted_db (w_clock (quiet_world posted_db 300)) = true.
Proof. vm_compute. reflexivity. Qed.

#[global] Opaque posted_db post_run.

Lemma created_is_replayed_witness : ∃ resp resp2 w3,
  post_run.1 = Responds resp ∧ requireIdempotency demo_manager demo_post second_post (quiet_world posted_db 300) = (Responds resp2, w3) ∧
  w_db w3 = posted_db ∧ Resp_Status resp2 = 201 ∧ Resp_Body resp2 = Resp_Body resp.
Proof.
  destruct (posted_outcome post_run.1 post_runs) as (resp & Hresp & H201).
  destruct (created_is_replayed demo_manager eq_refl eq_refl ltac:(vm_compute; split; [reflexivity|discriminate]) demo_repo demo_post first_post second_post
    (quiet_world demo_db 100) resp post_run.2 (quiet_world posted_db 300)) as (resp2 & w3 & Hrun & Hdb & Hst & Hbody & _).
  - by left.
  - exact demo_wf.
  - rewrite post_run_eq. by rewrite Hresp.
  - exact H201.
  - exact same_reservation.
  - by rewrite quiet_world_db, posted_db_eq.
  - split; reflexivity.
  - intros rv row _ Hrow. exact (unexpired_row _ _ _ _ posted_unexpired Hrow).
  - exists resp, resp2, w3. auto.
Defined.

(** ** A reversal *)

Definition funding_text : string := uuid_String funding_id.
Definition reverse_request : Request :=
  mkHttpRequest "POST" "/v1/transactions/x/reverse" "/v1/transactions/{id}/reverse" {["Idempotency-Key" := "00000000-0000-0000-0000-0000000000ef"]}
    {["id" := funding_text]} ∅ (doc "{'reason':'duplicate'}") None "req-3" (Some "alice") None.

Definition demo_reverse : Handler := handleReverseTransaction demo_repo.
Definition reverse_run : served * World := requireIdempotency demo_manager demo_reverse reverse_request (quiet_world funded_db 200).
Definition unwound_db : DB := w_db reverse_run.2.

Lemma unwound_db_eq : unwound_db = w_db reverse_run.2.
Proof. reflexivity. Qed.
Lemma reverse_run_eq : requireIdempotency demo_manager demo_reverse reverse_request (quiet_world funded_db 200) = (reverse_run.1, reverse_run.2).
Proof. unfold reverse_run. by destruct (requireIdempotency _ _ _ _). Qed.
Lemma reverse_runs : ok_outcome reverse_run.1 201 = true.
Proof. vm_compute. reflexivity. Qed.
Lemma unwound_unexpired : unexpired unwound_db (w_clock (quiet_world unwound_db 300)) = true.
Proof. vm_compute. reflexivity. Qed.

#[global] Opaque unwound_db reverse_run.

(** No transaction with this id exists, and still the reply is 201. *)
Lemma reversal_key_replays_for_any_transaction_witness : ∃ resp resp2 w3,
  reverse_run.1 = Responds resp ∧
  requireIdempotency demo_manager demo_reverse (with_id (uuid_String 999%N) reverse_request) (quiet_world unwound_db 300) = (Responds resp2, w3) ∧
  w_db w3 = unwound_db ∧ Resp_Status resp2 = 201 ∧ Resp_Body resp2 = Resp_Body resp.
Proof.
  destruct (posted_outcome reverse_run.1 reverse_runs) as (resp & Hresp & H201).
  destruct (reversal_key_replays_for_any_transaction demo_manager eq_refl eq_refl ltac:(vm_compute; split; [reflexivity|discriminate]) demo_repo
    reverse_request (quiet_world funded_db 200) resp reverse_run.2 (quiet_world unwound_db 300) (uuid_String 999%N)) as (resp2 & w3 & Hrun & Hdb & Hst & Hbody).
  - exact funded_wf.
  - rewrite <- Hresp. exact reverse_run_eq.
  - exact H201.
  - by rewrite quiet_world_db, unwound_db_eq.
  - split; reflexivity.
  - intros rv row _ Hrow. exact (unexpired_row _ _ _ _ unwound_unexpired Hrow).
  - exists resp, resp2, w3. auto.
Defined.

(** ** A rejection *)

Definition bad_post : Request := post_request "00000000-0000-0000-0000-0000000000cd" (transfer_body "500" "400").
Definition bad_key : string := "00000000-0000-0000-0000-0000000000cd".
Definition bad_reservation : Reservation := default demo_reservation (match request_reservation bad_post with Ok rv => Some rv | Err _ => None end).
Definition bad_world : World := (Acquire demo_manager bad_reservation (quiet_world demo_db 100)).2.
Definition bad_row : idempotency_row :=
  default (mk_idempotency_row "" "" None None None None None 0 0 0) (idempotency_keys (w_db bad_world) !! key_of bad_reservation).
Definition bad_run : served * World :=
  refuse (with_state (mkIdemState (Rv_PrincipalID bad_reservation) (Rv_Key bad_reservation) demo_manager false) (R_Body bad_post) bad_post)
    ErrUnbalancedTransaction bad_world.

(** The whole route refuses the transfer that does not balance, with 422. *)
Example unbalanced_is_refused :
  ok_outcome (requireIdempotency demo_manager demo_post bad_post (quiet_world demo_db 100)).1 422 = true ∧ ok_outcome bad_run.1 422 = true.
Proof. vm_compute. auto. Qed.

Lemma bad_facts : request_reservation bad_post = Ok bad_reservation ∧ answering bad_world ∧
  idempotency_keys (w_db bad_world) !! key_of bad_reservation = Some bad_row ∧ ik_status bad_row = IStatusInProgress ∧
  ik_fingerprint bad_row = Rv_Fingerprint bad_reservation ∧ w_clock (quiet_world demo_db 1) < ik_expires_at bad_row.
Proof. vm_compute. by split_and!. Qed.

Lemma quiet_clock d n : w_clock (quiet_world d n) = w_clock (quiet_world demo_db 1).
Proof. reflexivity. Qed.

Lemma rejection_is_replayed_witness : ∃ resp resp2 w3,
  bad_run.1 = Responds resp ∧ requireIdempotency demo_manager demo_post bad_post (quiet_world (w_db bad_run.2) 300) = (Responds resp2, w3) ∧
  Resp_Status resp2 = Resp_Status resp ∧ Resp_Body resp2 = Resp_Body resp.
Proof.
  destruct bad_facts as (Hrv & Hf & Hrow & Hst & Hfp & Hexp). destruct bad_run as [[resp|] w1] eqn:Hrun; [|discriminate Hrun].
  destruct (rejection_is_replayed demo_manager eq_refl eq_refl ltac:(vm_compute; split; [reflexivity|discriminate]) demo_post bad_post bad_post bad_reservation
    (R_Body bad_post) ErrUnbalancedTransaction bad_world resp w1 (quiet_world (w_db w1) 300) bad_row Hrv eq_refl Hf Hrow Hst Hfp Hrun Hrv)
    as (resp2 & w3 & H2 & _ & Hs & Hb & _).
  - by rewrite quiet_world_db.
  - split; reflexivity.
  - by rewrite quiet_clock.
  - exists resp, resp2, w3. auto.
Defined.

Lemma problems_keep_their_side_witness :
  400 ≤ problem_code (Wrap2 (ErrOther "decode") ErrMalformedBody) < 500 ∧
  ∀ (T1 T2 : ErrorText) r, writeProblem (ET := T1) r (PgError "23514" "journal_entries_check" "violates") =
    writeProblem (ET := T2) r (PgError "23514" "journal_entries_check" "violates").
Proof.
  split.
  - apply (proj1 (problems_keep_their_side (Wrap2 (ErrOther "decode") ErrMalformedBody))). reflexivity.
  - apply (proj2 (problems_keep_their_side (PgError "23514" "journal_entries_check" "violates"))). vm_compute. discriminate.
Defined.

(** ** Keys and routes *)

Definition secret : text := replicate 32 "007"%char.
Definition issued : res (string * gmap UUID api_key_row) * World := Issue ∅ (Ok secret) "alice" (quiet_world demo_db 700).
Definition demo_keys : gmap UUID api_key_row := match issued.1 with Ok (_, t) => t | Err _ => ∅ end.
Definition demo_key : string := match issued.1 with Ok (raw, _) => raw | Err _ => "" end.

Lemma empty_keys : keys_wf ∅.
Proof. split; intros *; rewrite ?lookup_empty; done. Qed.

Lemma issued_key_authenticates_witness :
  (Authenticate demo_keys demo_key (quiet_world demo_db 800)).1 = Ok "alice" ∧
  (Authenticate demo_keys "lk_live_stolen" (quiet_world demo_db 800)).1 = Err ErrInvalidAPIKey.
Proof.
  destruct (issued_key_authenticates ∅ (Ok secret) "alice" demo_key demo_keys (quiet_world demo_db 700) issued.2 (quiet_world demo_db 800))
    as (_ & Ha & Hother & _).
  - exact empty_keys.
  - vm_compute. reflexivity.
  - reflexivity.
  - split; [exact Ha|]. rewrite Hother; [vm_compute; reflexivity|vm_compute; discriminate].
Defined.

Definition demo_deps : Deps :=
  mkDeps [("postgres", _ ← sql_exec; mret tt)] (Some demo_repo) (Some demo_manager) None true true (Some (Authenticate demo_keys)).

Lemma routes_are_guarded_witness :
  length (NewMux demo_deps) = 14%nat ∧ Forall (guarded demo_keys) (NewMux demo_deps) ∧
  Forall (λ route, rt_Method route = "GET" ∨ rt_Method route = "POST") (NewMux demo_deps).
Proof.
  split; [reflexivity|]. apply (routes_are_guarded demo_deps demo_keys).
  - reflexivity.
  - intros m [= <-]. split; reflexivity.
  - apply list.Forall_cons. split; [|constructor]. apply reading_bind; auto with reading.
Defined.

(** ** A token *)

Definition statement_request : Request :=
  mkHttpRequest "GET" "/v1/accounts" "/v1/accounts/{id}/statement" ∅ {["id" := wallet_text]}
    {["from" := "2023-11-14T00:00:00Z"; "to" := "2023-11-15T00:00:00+05:30"; "limit" := "1"]} [] None "req-2" None None.
Definition statement_position : StatementCursor := mkStatementCursor 1700000000123456000 5%N.

Lemma statement_token_resumes_witness : ∃ q,
  statement_query statement_request 0 = Ok q ∧ Sq_To q - Sq_From q = (24 * 3600 - 19800) * Second ∧
  statement_query (with_cursor (encodeCursor statement_position) statement_request) 7 = Ok (next_query q statement_position) ∧
  statement_query (with_cursor "bogus" statement_request) 7 = Err ErrInvalidEntry.
Proof.
  destruct (statement_query statement_request 0) as [q|e] eqn:Hq; [|vm_compute in Hq; discriminate]. exists q.
  destruct (statement_token_resumes statement_request 0 7 q statement_position Hq) as [H1 H2].
  - vm_compute. discriminate.
  - vm_compute. discriminate.
  - vm_compute. split; discriminate.
  - vm_compute. reflexivity.
  - split; [reflexivity|]. split; [vm_compute in Hq; injection Hq as <-; reflexivity|]. split; [exact H1|].
    apply (H2 "bogus" ErrInvalidEntry); [discriminate|vm_compute; reflexivity].
Defined.
