(* ===== verification/ClientIp.v ===== *)
(** * The client's address (http/clientip.go)

    Which entry of X-Forwarded-For is believed, given how many proxies are trusted.
    [net.SplitHostPort], [net.ParseIP], [strings.Split] and [strings.TrimSpace] of the
    Go library as far as they decide it. *)

From S2P Require Import Prelude Utf8 JsonText Canonical CanonicalNum.
From Stdlib Require Import Ascii.
Open Scope string_scope.
Open Scope Z_scope.

(** ** The Go library *)

(** [strings.Split] at a byte. *)
Fixpoint Split (sep : ascii) (s : text) : list text :=
  match s with
  | [] => [[]]
  | c :: s' =>
      if bool_decide (c = sep) then [] :: Split sep s'
      else match Split sep s' with x :: xs => (c :: x) :: xs | [] => [[c]] end
  end.

(** [strings.TrimSpace]: the encodings of the runes that are white space, cut off at
    both ends. *)
Definition space_runes : list rune :=
  [9; 10; 11; 12; 13; 32; 133; 160; 5760; 8192; 8193; 8194; 8195; 8196; 8197; 8198; 8199; 8200; 8201; 8202; 8232; 8233; 8239; 8287; 12288]%N.
Definition space_texts : list text := encode_rune <$> space_runes.

Definition strip_one (spaces : list text) (s : text) : option text := head (omap (λ p, strip_prefix p s) spaces).

Fixpoint trim (fuel : nat) (spaces : list text) (s : text) : text :=
  match fuel with
  | O => s
  | S k => match strip_one spaces s with Some s' => trim k spaces s' | None => s end
  end.

Definition TrimSpace (s : text) : text :=
  let s := trim (length s) space_texts s in
  reverse (trim (length s) (reverse <$> space_texts) (reverse s)).

(** The text before and after the last of a byte. *)
Definition cut_last (b : ascii) (s : text) : option (text * text) :=
  '(x, y) ← cut b (reverse s); Some (reverse y, reverse x).

(** The host of [net.SplitHostPort]; [None] is an error. *)
Definition SplitHostPort (hostport : text) : option text :=
  '(before, port) ← cut_last ":"%char hostport;
  match hostport with
  | c :: rest =>
      if bool_decide (c = "["%char) then
        '(host, after) ← cut "]"%char rest;
        if bool_decide (after = ":"%char :: port) && bool_decide (":"%char ∉ port) &&
           bool_decide ("["%char ∉ rest) && bool_decide ("]"%char ∉ after) then Some host else None
      else if bool_decide (":"%char ∈ before) || bool_decide ("["%char ∈ hostport) || bool_decide ("]"%char ∈ hostport) then None else Some before
  | [] => None
  end.

(** An octet: digits, no leading zero, at most 255. *)
Definition octet (s : text) : bool :=
  negb (bool_decide (s = [])) && forallb is_digit s && ((length s =? 1)%nat || negb (bool_decide (head s = Some "0"%char))) && (dec_value s <=? 255).

Definition is_ipv4 (s : text) : bool := let fs := Split "."%char s in (length fs =? 4)%nat && forallb octet fs.

(** The loop of [parseIPv6]: [i] bytes are read, an ellipsis may have been seen. *)
Fixpoint ipv6_loop (fuel : nat) (i : Z) (ellipsis : bool) (s : text) : bool :=
  match fuel with
  | O => false
  | S k =>
      if 16 <=? i then bool_decide (s = []) && (i =? 16) && negb ellipsis
      else
        let '(group, rest) := span is_hex s in
        if bool_decide (group = []) || (4 <? length group)%nat then false
        else
          match rest with
          | c :: _ =>
              if bool_decide (c = "."%char) then (ellipsis || (i =? 12)) && (i + 4 <=? 16) && is_ipv4 s && ((i + 4 <? 16) || negb ellipsis)
              else if bool_decide (c = ":"%char) then
                match drop 1 rest with
                | [] => false
                | d :: s2 =>
                    if bool_decide (d = ":"%char) then
                      if ellipsis then false
                      else if bool_decide (s2 = []) then i + 2 <? 16 else ipv6_loop k (i + 2) true s2
                    else ipv6_loop k (i + 2) ellipsis (d :: s2)
                end
              else false
          | [] => let i := i + 2 in if i <? 16 then ellipsis else negb ellipsis
          end
  end.

Definition is_ipv6 (s : text) : bool :=
  match strip_prefix (bytes_of "::") s with
  | Some [] => true
  | Some rest => ipv6_loop 9 0 true rest
  | None => ipv6_loop 9 0 false s
  end.

(** [net.ParseIP(s) != nil]: the first dot or colon decides the family; a zone is no
    address. *)
Definition is_ip (s : text) : bool :=
  if bool_decide ("%"%char ∈ s) then false
  else match List.find (λ c, bool_decide (c ∈ ["."; ":"]%char)) s with
       | Some c => if bool_decide (c = "."%char) then is_ipv4 s else is_ipv6 s
       | None => false
       end.

(** ** The middleware *)

Definition hostOf (remoteAddr : text) : text := default remoteAddr (SplitHostPort remoteAddr).

Definition resolveClientIP (remoteAddr forwardedFor : text) (hops : Z) : text :=
  let socketIP := hostOf remoteAddr in
  if hops <=? 0 then socketIP
  else if bool_decide (forwardedFor = []) then socketIP
  else
    let entries := TrimSpace <$> Split ","%char forwardedFor in
    if Z.of_nat (length entries) <? hops then socketIP
    else
      match entries !! Z.to_nat (Z.of_nat (length entries) - hops) with
      | Some client => if is_ip client then client else socketIP
      | None => socketIP
      end.

Example resolve_examples :
  resolveClientIP (bytes_of "10.0.0.9:443") (bytes_of "6.6.6.6, 1.2.3.4 ") 1 = bytes_of "1.2.3.4" ∧
  resolveClientIP (bytes_of "10.0.0.9:443") (bytes_of "6.6.6.6, 1.2.3.4") 0 = bytes_of "10.0.0.9" ∧
  resolveClientIP (bytes_of "[::1]:443") (bytes_of "1.2.3.4") 2 = bytes_of "::1" ∧
  resolveClientIP (bytes_of "10.0.0.9:443") (bytes_of "6.6.6.6, 2001:db8::1, 9.9.9.9") 2 = bytes_of "2001:db8::1" ∧
  resolveClientIP (bytes_of "10.0.0.9:443") (bytes_of "1.2.3.04") 1 = bytes_of "10.0.0.9" ∧
  forallb (λ s, is_ip (bytes_of s)) ["::"; "::ffff:1.2.3.4"; "1::"; "1:2:3:4:5:6:7:8"; "1:2:3:4:5:6:7.8.9.1"] = true ∧
  existsb (λ s, is_ip (bytes_of s)) [""; "1"; "1::2::3"; "1:2:3:4:5:6:7:8:9"; "1:2:3:4:5:6:7::8"; "fe80::1%eth0"; "12345::"; ":1::"; "1:"] = false.
Proof. vm_compute. by split_and!. Qed.

(** ** The rest of the header does not matter *)

Lemma Split_app sep a b : Split sep (a ++ sep :: b) = (Split sep a ++ Split sep b)%list.
Proof.
  induction a as [|c a IH]; cbn [app Split]; [by rewrite bool_decide_eq_true_2|]. rewrite IH. case_bool_decide; [done|].
  assert (Hne : Split sep a ≠ []) by (destruct a as [|x a']; cbn [Split]; [done|]; case_bool_decide; [done|]; by destruct (Split sep a')).
  by destruct (Split sep a).
Qed.

Lemma Split_one sep x : sep ∉ x → Split sep x = [x].
Proof.
  induction x as [|c x IH]; intros Hx; [done|]. apply not_elem_of_cons in Hx as [Hc Hx]. cbn [Split].
  rewrite bool_decide_eq_false_2 by congruence. by rewrite IH.
Qed.

(** The header [hops] proxies leave behind: each appended one entry. *)
Fixpoint appended (entries : list text) (header : text) : text :=
  match entries with [] => header | e :: entries => appended entries (header ++ ","%char :: e)%list end.

Lemma Split_appended entries : ∀ header, Forall (λ e, ","%char ∉ e) entries →
  Split ","%char (appended entries header) = (Split ","%char header ++ entries)%list.
Proof.
  induction entries as [|e entries IH]; intros header He; cbn [appended]; [by rewrite app_nil_r|]. apply list.Forall_cons in He as [He Hes].
  rewrite IH, Split_app, (Split_one _ e) by done. by rewrite <- app_assoc.
Qed.

Lemma appended_nonempty entries : ∀ header, entries ≠ [] → appended entries header ≠ [].
Proof.
  induction entries as [|e entries IH]; intros header Hne; [done|]. cbn [appended]. destruct entries as [|e' entries]; [by destruct header|].
  by apply IH.
Qed.

(** C38: the address of a client cannot be forged past the trusted proxies.  With no
    trusted hop the answer is the socket peer whatever the header says.  With [hops]
    trusted proxies, each of which appended the address it saw to whatever header came
    in, the answer is the address the outermost of them saw, or the socket peer if that
    is no IP address: it is the same for every header the client may have sent.  (The
    header is the first X-Forwarded-For line, a comma-joined text, as the code reads it.) *)
Theorem client_ip_unforgeable remoteAddr first (others : list text) forged :
  Forall (λ e, ","%char ∉ e) (first :: others) →
  resolveClientIP remoteAddr (appended (first :: others) forged) (Z.of_nat (length (first :: others))) =
    (if is_ip (TrimSpace first) then TrimSpace first else hostOf remoteAddr) ∧
  ∀ hops, hops ≤ 0 → resolveClientIP remoteAddr forged hops = hostOf remoteAddr.
Proof.
  intros Hsep. split; [|intros hops Hh; unfold resolveClientIP; by rewrite (proj2 (Z.leb_le _ _))].
  unfold resolveClientIP.
  rewrite (proj2 (Z.leb_gt _ _)) by (cbn [length]; lia). rewrite bool_decide_eq_false_2 by (by apply appended_nonempty).
  rewrite Split_appended by done. rewrite length_fmap, length_app. rewrite (proj2 (Z.ltb_ge _ _)) by lia.
  rewrite fmap_app, Nat2Z.inj_add, Z.add_simpl_r, Nat2Z.id.
  rewrite lookup_app_r by (rewrite length_fmap; lia). by rewrite length_fmap, Nat.sub_diag.
Qed.

Lemma client_ip_unforgeable_witness :
  resolveClientIP (bytes_of "10.0.0.2:55") (appended (bytes_of <$> [" 203.0.113.7"; "10.0.0.1"]) (bytes_of "8.8.8.8,1.1.1.1")) 2 = bytes_of "203.0.113.7" ∧
  resolveClientIP (bytes_of "10.0.0.2:55") (bytes_of "8.8.8.8,1.1.1.1") 0 = bytes_of "10.0.0.2".
Proof.
  destruct (client_ip_unforgeable (bytes_of "10.0.0.2:55") (bytes_of " 203.0.113.7") [bytes_of "10.0.0.1"] (bytes_of "8.8.8.8,1.1.1.1"))
    as [H1 H2].
  - repeat constructor; vm_compute; intros Hin; inversion Hin; repeat match goal with H : _ ∈ _ |- _ => inversion H; clear H; subst end.
  - split; [etransitivity; [exact H1|vm_compute; reflexivity]|etransitivity; [exact (H2 0 ltac:(lia))|vm_compute; reflexivity]].
Defined.
