(* ===== verification/Csv.v ===== *)
(** * Settlement statements (reconciliation/csv.go)

    [encoding/csv]'s reader, as the parser configures it (commas, leading space trimmed,
    strict quotes, every record as long as the first), and the parser of a payment
    provider's statement on top of it.  The whole file is at hand. *)

From S2P Require Import Prelude Errors Money Strconv Types Recon Utf8 JsonText Canonical CanonicalNum TimeText Cursor ClientIp.
From Stdlib Require Import Ascii.
Open Scope string_scope.
Open Scope Z_scope.

(** ** encoding/csv *)

Definition quote_char : ascii := "034"%char.
Definition newline : ascii := "010"%char.

(** The lines of a text, each with its newline. *)
Fixpoint raw_lines (s : text) : list text :=
  match s with
  | [] => []
  | c :: s' =>
      if bool_decide (c = newline) then [c] :: raw_lines s'
      else match raw_lines s' with x :: xs => (c :: x) :: xs | [] => [[c]] end
  end.

(** [readLine]: a carriage return before the newline, or at the end of the file, goes. *)
Definition csv_line (l : text) : text :=
  match reverse l with
  | c :: r =>
      if bool_decide (c = "013"%char) then reverse r
      else if bool_decide (c = newline) then
        match r with d :: r' => if bool_decide (d = "013"%char) then reverse (c :: r') else l | [] => l end
      else l
  | [] => l
  end.

Definition lengthNL (l : text) : nat := if bool_decide (list.last l = Some newline) then 1 else 0.

Definition ErrBareQuote : error := ErrOther "bare double-quote in non-quoted field".
Definition ErrQuote : error := ErrOther "extraneous or missing double-quote in quoted field".
Definition ErrFieldCount : error := ErrOther "wrong number of fields".

(** [readRecord] after the fields in [acc]: the next field of the line, or the rest of
    a quoted one of which [buf] is read.  The lines that follow are there for quoted
    fields that span them. *)
Fixpoint read_field (n : nat) (line : text) (lines : list text) (acc : list text) {struct n} : res (list text * list text) :=
  match n with
  | O => Err out_of_fuel
  | S n =>
      let line := trim (length line) space_texts line in
      if bool_decide (head line = Some quote_char) then read_quoted n [] (drop 1 line) lines acc
      else
        match cut ","%char line with
        | Some (f, rest) => if bool_decide (quote_char ∈ f) then Err ErrBareQuote else read_field n rest lines (acc ++ [f])
        | None =>
            let f := take (length line - lengthNL line) line in
            if bool_decide (quote_char ∈ f) then Err ErrBareQuote else Ok (acc ++ [f], lines)%list
        end
  end
with read_quoted (n : nat) (buf line : text) (lines : list text) (acc : list text) {struct n} : res (list text * list text) :=
  match n with
  | O => Err out_of_fuel
  | S n =>
      match cut quote_char line with
      | Some (x, rest) =>
          let buf := (buf ++ x)%list in
          match rest with
          | c :: rest' =>
              if bool_decide (c = quote_char) then read_quoted n (buf ++ [quote_char]) rest' lines acc
              else if bool_decide (c = ","%char) then read_field n rest' lines (acc ++ [buf])
              else if bool_decide (rest = [newline]) then Ok (acc ++ [buf], lines)%list else Err ErrQuote
          | [] => Ok (acc ++ [buf], lines)%list
          end
      | None =>
          match line, lines with
          | [], _ => Err ErrQuote
          | _, l :: lines => read_quoted n (buf ++ line) l lines acc
          | _, [] => Err ErrQuote
          end
      end
  end.

Definition blank_line (l : text) : bool := (length l =? lengthNL l)%nat.

(** [Read]: empty lines are skipped; [None] is the end of the file.  A field needs no
    more steps than there are bytes and lines. *)
Fixpoint Read_record (fieldsPerRecord : option nat) (lines : list text) : option (res (list text) * list text) :=
  match lines with
  | [] => None
  | l :: lines =>
      if blank_line l then Read_record fieldsPerRecord lines
      else
        match read_field (S (2 * length (concat (l :: lines)) + length lines)) l lines [] with
        | Err e => Some (Err e, lines)
        | Ok (fs, lines) =>
            match fieldsPerRecord with
            | Some k => if bool_decide (length fs = k) then Some (Ok fs, lines) else Some (Err ErrFieldCount, lines)
            | None => Some (Ok fs, lines)
            end
        end
  end.

(** ** The statement *)

Definition pspStatementColumns : list string := ["external_ref"; "amount_minor"; "currency"; "status"; "settled_at"].
Definition validPSPStatuses : list string := ["SETTLED"; "FAILED"; "REFUNDED"; "PENDING"].

(** [strings.ToUpper], as far as it can produce a status: of the runes beyond ASCII only
    the long s and the dotless i have an ASCII capital. *)
Fixpoint ToUpper (s : text) : text :=
  match s with
  | [] => []
  | c :: s1 =>
      match s1 with
      | d :: s2 =>
          if bool_decide (c = "197"%char) && bool_decide (d = "191"%char) then "S"%char :: ToUpper s2
          else if bool_decide (c = "196"%char) && bool_decide (d = "177"%char) then "I"%char :: ToUpper s2
          else (if between 97 122 c then chr (byte_of c - 32) else c) :: ToUpper s1
      | [] => [if between 97 122 c then chr (byte_of c - 32) else c]
      end
  end.

(** The last column of a name counts. *)
Definition columnIndex (header : list text) : res (gmap string nat) :=
  let index := foldl (λ m ix, <[str ix.2 := ix.1]> m) (∅ : gmap string nat) (imap pair header) in
  if forallb (λ want, bool_decide (is_Some (index !! want))) pspStatementColumns then Ok index else Err ErrMalformedRecord.

Definition cell (row : list text) (index : gmap string nat) (name : string) : text :=
  default [] (i ← index !! name; row !! (i : nat)).

Definition parsePSPRow (row : list text) (index : gmap string nat) : res PSPRecord :=
  let externalRef := cell row index "external_ref" in
  let amountRaw := cell row index "amount_minor" in
  let currency := cell row index "currency" in
  let status := ToUpper (cell row index "status") in
  let settledAtRaw := cell row index "settled_at" in
  _ ← guard_err (negb (bool_decide (externalRef = []))) ErrMalformedRecord;
  _ ← guard_err (bool_decide (str status ∈ validPSPStatuses)) ErrMalformedRecord;
  amountMinor ← match ParseInt (str amountRaw) with Ok n => Ok n | Err _ => Err ErrMalformedRecord end;
  _ ← guard_err (negb (amountMinor <=? 0)) ErrMalformedRecord;
  _ ← match NewMoney amountMinor (str currency) with Ok m => Ok m | Err _ => Err ErrMalformedRecord end;
  settledAt ← to_result (parse_rfc3339 settledAtRaw) ErrMalformedRecord;
  Ok (mkPSPRecord (str externalRef) amountMinor (str currency) (str status) settledAt).

(** The rows after the header; the reader has already refused a row of another length. *)
Fixpoint parse_rows (n : nat) (header : list text) (index : gmap string nat) (lines : list text) (records : list PSPRecord) : res (list PSPRecord) :=
  match n with
  | O => Err out_of_fuel
  | S n =>
      match Read_record (Some (length header)) lines with
      | None => Ok records
      | Some (Err e, _) => Err e
      | Some (Ok row, lines) =>
          if negb (bool_decide (length row = length header)) then Err ErrMalformedRecord
          else record ← parsePSPRow row index; parse_rows n header index lines (records ++ [record])
      end
  end.

Definition ParsePSPStatement (file : text) : res (list PSPRecord) :=
  let lines := csv_line <$> raw_lines file in
  match Read_record None lines with
  | None => Err ErrEmptyStatement
  | Some (Err e, _) => Err e
  | Some (Ok header, rest) =>
      index ← columnIndex header;
      records ← parse_rows (S (length rest)) header index rest [];
      if bool_decide (records = []) then Err ErrEmptyStatement else Ok records
  end.

Definition statement_file (rows : list string) : text := bytes_of (String.concat (String newline EmptyString) rows).

(** The cases of csv_test.go; a row of another length is refused by the reader, not as
    a malformed record. *)
Example statement_examples :
  ParsePSPStatement (statement_file ["status,external_ref, settled_at,currency,amount_minor,x"; ""; "settled, REF-1,2026-01-15T12:00:00Z,INR,1000,"]) =
    Ok [mkPSPRecord "REF-1" 1000 "INR" "SETTLED" 1768478400000000000] ∧
  ParsePSPStatement [] = Err ErrEmptyStatement ∧
  ParsePSPStatement (statement_file ["external_ref,amount_minor,currency,status,settled_at"]) = Err ErrEmptyStatement ∧
  ParsePSPStatement (statement_file ["external_ref,amount_minor,currency,status"; "REF-1,1,INR,SETTLED"]) = Err ErrMalformedRecord ∧
  ParsePSPStatement (statement_file ["external_ref,amount_minor,currency,status,settled_at"; "REF-1,0,INR,SETTLED,2026-01-15T12:00:00Z"]) = Err ErrMalformedRecord ∧
  ParsePSPStatement (statement_file ["external_ref,amount_minor,currency,status,settled_at"; "REF-1,1000,INR,SETTLED"]) = Err ErrFieldCount.
Proof. vm_compute. by split_and!. Qed.
