(* ===== verification/CsvSpec.v ===== *)
(** * What the statement parser guarantees

    It always decides, what it accepts is fit for reconciliation, and it reads back
    what was written, whatever the order of the columns. *)

From S2P Require Import Prelude Errors Money Strconv MoneyJson Types Recon Utf8 JsonText Canonical CanonicalStr CanonicalNum TimeText Cursor.
From S2P Require Import ClientIp Csv.
From Stdlib Require Import Ascii.
Open Scope string_scope.
Open Scope Z_scope.

(** ** The reader always decides *)

Lemma cut_sound b s : ∀ x y, cut b s = Some (x, y) → s = (x ++ b :: y)%list ∧ b ∉ x.
Proof.
  induction s as [|c s IH]; intros x y; cbn [cut]; [done|]. case_bool_decide as Hc; [intros [= <- <-]; subst c; split; [done|set_solver]|].
  destruct (cut b s) as [[x' y']|]; [|done]. intros [= <- <-]. destruct (IH x' y' eq_refl) as [-> Hn]. split; [done|]. set_solver.
Qed.

Lemma strip_prefix_len p : ∀ s r, strip_prefix p s = Some r → (length r ≤ length s)%nat.
Proof.
  induction p as [|a p IH]; intros [|b s] r; cbn [strip_prefix]; try done; try (by intros [= <-]). case_bool_decide; [|done].
  intros Hs%IH. cbn [length]. lia.
Qed.

Lemma trim_length n spaces : ∀ s, (length (trim n spaces s) ≤ length s)%nat.
Proof.
  induction n as [|n IH]; intros s; cbn [trim]; [done|]. destruct (strip_one spaces s) as [s'|] eqn:Hs; [|done].
  assert (length s' ≤ length s)%nat; [|specialize (IH s'); lia]. unfold strip_one in Hs.
  destruct (omap _ spaces) as [|x l] eqn:Ho; [done|]. injection Hs as ->. assert (Hin : s' ∈ omap (λ p, strip_prefix p s) spaces) by (rewrite Ho; set_solver).
  apply list_elem_of_omap in Hin as (p & _ & Hp). by eapply strip_prefix_len.
Qed.

(** Enough steps, and the lines that remain are some of those that follow. *)
Definition decides (lines : list text) (r : res (list text * list text)) : Prop :=
  match r with Ok (_, lines') => (length lines' ≤ length lines)%nat | Err e => e ≠ out_of_fuel end.

Lemma read_decides n :
  (∀ line lines acc, (length line + length (concat lines) + length lines < n)%nat → decides lines (read_field n line lines acc)) ∧
  (∀ buf line lines acc, (length line + length (concat lines) + length lines < n)%nat → decides lines (read_quoted n buf line lines acc)).
Proof.
  induction n as [|n [IHf IHq]]; [split; intros; lia|]. split.
  - intros line lines acc Hn. cbn [read_field]. pose proof (trim_length (length line) space_texts line) as Ht. set (l := trim _ _ line) in *. clearbody l.
    case_bool_decide as Hq.
    + apply IHq. rewrite length_drop. destruct l as [|c l]; [done|]. cbn [length] in *. lia.
    + destruct (cut ","%char l) as [[f rest]|] eqn:Hc; cbv zeta; case_bool_decide; try done; [|simpl; lia]. apply IHf. apply cut_sound in Hc as [-> _]. rewrite length_app in Ht. cbn [length] in Ht. lia.
  - intros buf line lines acc Hn. cbn [read_quoted]. destruct (cut quote_char line) as [[x rest]|] eqn:Hc.
    + apply cut_sound in Hc as [-> _]. rewrite length_app in Hn. cbn [length] in Hn. destruct rest as [|c rest]; [simpl; lia|]. cbn [length] in Hn.
      case_bool_decide; [apply IHq; lia|]. case_bool_decide; [apply IHf; lia|]. case_bool_decide; [simpl; lia|done].
    + destruct line as [|c line]; [done|]. destruct lines as [|l lines]; [done|]. cbn [concat length] in Hn. rewrite length_app in Hn.
      specialize (IHq (buf ++ c :: line)%list l lines acc ltac:(lia)). unfold decides in *. destruct (read_quoted _ _ _ _ _) as [[? ?]|]; cbn [length]; [lia|done].
Qed.

Lemma Read_record_decides k lines r lines' : Read_record k lines = Some (r, lines') →
  r ≠ Err out_of_fuel ∧ (is_ok r = true → (length lines' < length lines)%nat).
Proof.
  induction lines as [|l lines IH]; cbn [Read_record]; [done|]. destruct (blank_line l).
  - intros Hr%IH. destruct Hr as [H1 H2]. split; [done|]. intros Hok%H2. cbn [length]. lia.
  - assert (Hd : decides lines (read_field (S (2 * length (concat (l :: lines)) + length lines)) l lines [])).
    { apply read_decides. cbn [concat]. rewrite length_app. lia. }
    unfold decides in Hd. destruct (read_field _ _ _ _) as [[fs rest]|e]; [|intros [= <- <-]; split; [congruence|done]].
    destruct k as [k|]; [case_bool_decide|]; intros [= <- <-]; split; try done; intros _; cbn [length]; lia.
Qed.

Lemma parsePSPRow_decides row index e : parsePSPRow row index = Err e → e = ErrMalformedRecord.
Proof.
  unfold parsePSPRow, guard_err. destruct (negb _); cbn [mbind result_bind]; [|congruence]. destruct (bool_decide _); cbn [mbind result_bind]; [|congruence].
  destruct (ParseInt _); cbn [mbind result_bind]; [|congruence]. destruct (negb _); cbn [mbind result_bind]; [|congruence].
  destruct (NewMoney _ _); cbn [mbind result_bind]; [|congruence]. destruct (parse_rfc3339 _); cbn [to_result mbind result_bind]; congruence.
Qed.

Lemma parse_rows_decides n header index : ∀ lines records, (length lines < n)%nat → parse_rows n header index lines records ≠ Err out_of_fuel.
Proof.
  induction n as [|n IH]; intros lines records Hn; [lia|]. cbn [parse_rows]. destruct (Read_record _ lines) as [[[row|e] rest]|] eqn:Hr; [| |done].
  - apply Read_record_decides in Hr as [_ Hlen]. specialize (Hlen eq_refl). case_bool_decide; [|done]. cbn [negb].
    destruct (parsePSPRow row index) as [rec|e] eqn:Hp; cbn [mbind result_bind]; [apply IH; lia|]. apply parsePSPRow_decides in Hp as ->. done.
  - apply Read_record_decides in Hr as [Hf _]. intros [= ->]. by apply Hf.
Qed.

(** ** What is accepted *)

Record psp_valid (r : PSPRecord) : Prop := {
  pv_ref : Psp_ExternalRef r ≠ "";
  pv_amount : 0 < Psp_AmountMinor r ≤ max_int64;
  pv_currency : currencyPattern (Psp_Currency r) = true;
  pv_status : Psp_Status r ∈ validPSPStatuses }.

Lemma parsePSPRow_valid row index r : parsePSPRow row index = Ok r → psp_valid r.
Proof.
  unfold parsePSPRow. intros H. checks H. destruct (ParseInt _) as [n|] eqn:Hn; cbn [mbind result_bind] in H; [|done]. checks H.
  destruct (NewMoney n _) as [m|] eqn:Hm; cbn [mbind result_bind] in H; [|done].
  destruct (parse_rfc3339 _) as [t|]; cbn [to_result mbind result_bind] in H; [|done]. injection H as <-. apply ParseInt_range in Hn. bool_to_prop.
  split; simpl.
  - destruct (cell row index "external_ref"); [done|]. done.
  - unfold is_int64 in Hn. lia.
  - unfold NewMoney in Hm. by destruct (currencyPattern _).
  - done.
Qed.

Lemma parse_rows_valid n header index : ∀ lines records out, Forall psp_valid records →
  parse_rows n header index lines records = Ok out → Forall psp_valid out.
Proof.
  induction n as [|n IH]; intros lines records out Hrec; cbn [parse_rows]; [done|].
  destruct (Read_record _ lines) as [[[row|e] rest]|]; [|done|by intros [= <-]]. case_bool_decide; [|done]. cbn [negb].
  destruct (parsePSPRow row index) as [r|] eqn:Hp; cbn [mbind result_bind]; [|done]. apply IH. apply list.Forall_app. split; [done|].
  apply list.Forall_singleton. by eapply parsePSPRow_valid.
Qed.

(** ** Reading back what was written *)

(** A field in quotes, quotes doubled. *)
Definition escape_quotes (f : text) : text := concat ((λ c, if bool_decide (c = quote_char) then [c; c] else [c]) <$> f).
Definition quote_field (f : text) : text := (quote_char :: escape_quotes f ++ [quote_char])%list.
Definition csv_record (fs : list text) : text := (intercalate (quote_field <$> fs) ++ [newline])%list.

(** A field of one line. *)
Definition one_line (f : text) : Prop := newline ∉ f ∧ "013"%char ∉ f.

Lemma escape_plain f : quote_char ∉ f → escape_quotes f = f.
Proof.
  unfold escape_quotes. induction f as [|c f IH]; intros Hf; [done|]. apply not_elem_of_cons in Hf as [Hc Hf]. rewrite fmap_cons. cbn [concat].
  rewrite bool_decide_eq_false_2 by congruence. by rewrite IH.
Qed.

Lemma escape_app a b : escape_quotes (a ++ b) = (escape_quotes a ++ escape_quotes b)%list.
Proof. unfold escape_quotes. by rewrite fmap_app, concat_app. Qed.

Lemma first_quote f : quote_char ∉ f ∨ ∃ x y, f = (x ++ quote_char :: y)%list ∧ quote_char ∉ x.
Proof.
  destruct (decide (quote_char ∈ f)) as [Hin|]; [right|by left]. destruct (cut quote_char f) as [[x y]|] eqn:Hc.
  - apply cut_sound in Hc as [-> Hx]. eauto.
  - exfalso. revert Hin Hc. induction f as [|c f IH]; cbn [cut]; [by intros ?%not_elem_of_nil|]. case_bool_decide as Hq; [done|].
    intros [Hc|Hin]%elem_of_cons; [congruence|]. destruct (cut quote_char f) as [[? ?]|]; [done|]. intros _. by apply IH.
Qed.

(** A quoted field is read to its closing quote. *)
Lemma read_quoted_escaped k : ∀ f, (length f ≤ k)%nat → ∀ n buf rest lines acc, ∃ n', (n ≤ n')%nat ∧
  (∀ rest', rest = ","%char :: rest' → read_quoted (S (k + n)) buf (escape_quotes f ++ quote_char :: rest) lines acc = read_field n' rest' lines (acc ++ [(buf ++ f)%list])%list) ∧
  (rest = [newline] → read_quoted (S (k + n)) buf (escape_quotes f ++ quote_char :: rest) lines acc = Ok (acc ++ [(buf ++ f)%list], lines)%list).
Proof.
  induction k as [|k IH]; intros f Hf n buf rest lines acc; destruct (first_quote f) as [Hq|(x & y & -> & Hx)].
  1,3: rewrite (escape_plain f Hq).
  - exists n. split; [lia|]. split; [intros rest' ->|intros ->]; cbn [read_quoted plus]; rewrite cut_app by done; done.
  - eexists (S (k + n)). split; [lia|]. split; [intros rest' ->|intros ->]; cbn [read_quoted plus]; rewrite cut_app by done; done.
  - rewrite length_app in Hf. cbn [length] in Hf. lia.
  - rewrite length_app in Hf. cbn [length] in Hf.
    destruct (IH y ltac:(lia) n (buf ++ x ++ [quote_char])%list rest lines acc) as (n' & Hn & H1 & H2). exists n'. split; [done|].
    assert (Hstep : read_quoted (S (S k + n)) buf (escape_quotes (x ++ quote_char :: y) ++ quote_char :: rest) lines acc =
      read_quoted (S (k + n)) (buf ++ x ++ [quote_char])%list (escape_quotes y ++ quote_char :: rest)%list lines acc).
    { rewrite escape_app, (escape_plain x Hx). change (quote_char :: y) with ([quote_char] ++ y)%list. rewrite escape_app.
      change (escape_quotes [quote_char]) with [quote_char; quote_char]. rewrite <- !app_assoc. cbn [app]. remember (S (k + n)) as m. cbn [read_quoted plus].
      replace (k + n)%nat with (pred m) by lia. destruct m as [|m]; [lia|]. cbn [pred].
      change (S (S k + n)) with (S (S (k + n))). rewrite cut_app by done. rewrite bool_decide_eq_true_2 by done. rewrite <- app_assoc. done. }
    replace (buf ++ x ++ quote_char :: y)%list with ((buf ++ x ++ [quote_char]) ++ y)%list by (by rewrite <- !app_assoc).
    split; [intros rest' Hr|intros Hr]; rewrite Hstep; [by apply H1|by apply H2].
Qed.

Lemma trim_quote n s : trim n space_texts (quote_char :: s) = quote_char :: s.
Proof.
  destruct n as [|n]; [done|]. cbn [trim]. assert (Hs : strip_one space_texts (quote_char :: s) = None); [|by rewrite Hs].
  unfold strip_one. by vm_compute.
Qed.

Lemma read_field_quoted fs : fs ≠ [] → ∀ n lines acc, (length (csv_record fs) + length fs ≤ n)%nat →
  read_field n (csv_record fs) lines acc = Ok (acc ++ fs, lines)%list.
Proof.
  unfold csv_record. induction fs as [|f fs IH]; [done|]. intros _ n lines acc Hn.
  assert (Hlen : (length f ≤ length (escape_quotes f))%nat).
  { clear. unfold escape_quotes. induction f as [|c f IH]; [done|]. rewrite fmap_cons. cbn [concat]. rewrite length_app. case_bool_decide; cbn [length]; lia. }
  destruct fs as [|g fs].
  - cbn [fmap list_fmap intercalate] in *. unfold quote_field in *. cbn [app length] in *. rewrite !length_app in Hn. cbn [length] in Hn.
    destruct n as [|[|n]]; [lia..|]. cbn [read_field]. rewrite trim_quote. cbn [head drop]. rewrite bool_decide_eq_true_2 by done.
    destruct (read_quoted_escaped (length f) f ltac:(lia) (n - length f) [] [newline] lines acc) as (n' & _ & _ & H2).
    replace (S n) with (S (length f + (n - length f))) by lia. rewrite <- app_assoc. cbn [app]. rewrite drop_0. by rewrite H2.
  - change (intercalate (quote_field <$> f :: g :: fs)) with (quote_field f ++ ","%char :: intercalate (quote_field <$> g :: fs))%list in *.
    unfold quote_field at 1 in Hn. unfold quote_field at 1. cbn [app length] in *. rewrite ?length_app in Hn. cbn [length] in Hn. rewrite ?length_app in Hn. cbn [length] in Hn.
    destruct n as [|[|n]]; [lia..|]. cbn [read_field]. rewrite trim_quote. cbn [head drop]. rewrite bool_decide_eq_true_2 by done.
    destruct (read_quoted_escaped (length f) f ltac:(lia) (n - length f) [] (","%char :: intercalate (quote_field <$> g :: fs) ++ [newline]) lines acc)
      as (n' & Hn' & H1 & _).
    replace (S n) with (S (length f + (n - length f))) by lia. rewrite <- !app_assoc. cbn [app]. rewrite drop_0.
    rewrite (H1 _ eq_refl). rewrite IH; [by rewrite <- app_assoc|done|]. rewrite !length_app in *. cbn [length] in *. lia.
Qed.

(** ** Files *)

Lemma raw_lines_app l s : newline ∉ l → raw_lines (l ++ newline :: s) = (l ++ [newline])%list :: raw_lines s.
Proof.
  induction l as [|c l IH]; intros Hl; cbn [app raw_lines]; [by rewrite bool_decide_eq_true_2|].
  apply not_elem_of_cons in Hl as [Hc Hl]. rewrite bool_decide_eq_false_2 by congruence. by rewrite IH.
Qed.

Lemma csv_line_same l : "013"%char ∉ l → csv_line (l ++ [newline]) = (l ++ [newline])%list.
Proof.
  intros Hl. unfold csv_line. rewrite reverse_snoc. rewrite bool_decide_eq_false_2 by done. rewrite bool_decide_eq_true_2 by done.
  destruct (reverse l) as [|d r] eqn:Hr; [done|]. rewrite bool_decide_eq_false_2; [done|]. intros ->. apply Hl.
  apply elem_of_reverse. rewrite Hr. apply list_elem_of_here.
Qed.

Lemma escape_elem c f : c ≠ quote_char → c ∈ escape_quotes f → c ∈ f.
Proof.
  intros Hc. unfold escape_quotes. induction f as [|x f IH]; [done|]. rewrite fmap_cons. cbn [concat]. rewrite elem_of_app.
  intros [Hx|Hin]; [|apply list_elem_of_further; auto]. case_bool_decide as Hq; set_solver.
Qed.

Lemma record_elem c fs : c ≠ quote_char → c ≠ ","%char → (∀ f, f ∈ fs → c ∉ f) → c ∉ intercalate (quote_field <$> fs).
Proof.
  intros Hq Hcomma. assert (Hf : ∀ f, c ∉ f → c ∉ quote_field f).
  { intros f Hf. unfold quote_field. rewrite not_elem_of_cons, not_elem_of_app. split_and!; [done| |set_solver]. intros Hin. by apply Hf, escape_elem. }
  induction fs as [|f fs IH]; intros Hfs; [set_solver|]. destruct fs as [|g fs]; [apply Hf, Hfs; set_solver|].
  change (intercalate (quote_field <$> f :: g :: fs)) with (quote_field f ++ ","%char :: intercalate (quote_field <$> g :: fs))%list.
  rewrite not_elem_of_app, not_elem_of_cons. split_and!; [apply Hf, Hfs; set_solver|done|]. apply IH. intros x Hx. apply Hfs. set_solver.
Qed.

Lemma record_length fs : (length fs ≤ length (intercalate (quote_field <$> fs)))%nat.
Proof.
  induction fs as [|f fs IH]; [done|]. destruct fs as [|g fs]; [unfold quote_field; simpl; lia|].
  change (intercalate (quote_field <$> f :: g :: fs)) with (quote_field f ++ ","%char :: intercalate (quote_field <$> g :: fs))%list.
  rewrite length_app. cbn [length] in *. lia.
Qed.

Lemma record_lines fs s : Forall one_line fs → csv_line <$> raw_lines (csv_record fs ++ s) = csv_record fs :: (csv_line <$> raw_lines s).
Proof.
  intros Hfs. unfold csv_record. rewrite <- app_assoc. cbn [app].
  assert (Hno : ∀ c, (∀ f, one_line f → c ∉ f) → c ≠ quote_char → c ≠ ","%char → c ∉ intercalate (quote_field <$> fs)).
  { intros c Hc Hq Hcomma. apply record_elem; [done|done|]. intros f Hf. apply Hc. by eapply list.Forall_forall. }
  rewrite raw_lines_app by (apply Hno; [by intros f []|done|done]). rewrite fmap_cons. f_equal.
  apply csv_line_same. apply Hno; [by intros f []|done|done].
Qed.

Lemma Read_record_quoted k fs lines : fs ≠ [] → match k with Some k => length fs = k | None => True end →
  Read_record k (csv_record fs :: lines) = Some (Ok fs, lines).
Proof.
  intros Hne Hk. cbn [Read_record]. pose proof (record_length fs) as Hlen. assert (Hpos : (1 ≤ length fs)%nat) by (destruct fs; [done|simpl; lia]).
  assert (Hbl : blank_line (csv_record fs) = false).
  { unfold blank_line, csv_record. rewrite length_app. cbn [length]. apply Nat.eqb_neq. unfold lengthNL. case_bool_decide; lia. }
  rewrite Hbl, read_field_quoted; [|done|].
  - cbn [app]. destruct k as [k|]; [by rewrite bool_decide_eq_true_2|done].
  - cbn [concat]. rewrite length_app. unfold csv_record in *. rewrite length_app. cbn [length]. lia.
Qed.

(** ** Columns *)

Lemma index_insert header : ∀ n (m : gmap string nat),
  (∀ name i, m !! name = Some i → (i < n)%nat) →
  let index := foldl (λ m ix, <[str ix.2 := ix.1]> m) m (imap (λ i x, ((n + i)%nat, x)) header) in
  (∀ name i, index !! name = Some i → m !! name = Some i ∨ ∃ j x, i = (n + j)%nat ∧ header !! j = Some x ∧ str x = name) ∧
  (∀ name, is_Some (m !! name) → is_Some (index !! name)) ∧ (∀ x, x ∈ header → is_Some (index !! str x)).
Proof.
  induction header as [|x header IH]; intros n m Hm; [cbn; split_and!; [by left|done|set_solver]|].
  cbn [imap foldl]. rewrite Nat.add_0_r.
  assert (Hext : imap (λ i y, ((n + S i)%nat, y)) header = imap (λ i y, ((S n + i)%nat, y)) header) by (apply imap_ext; intros; f_equal; lia).
  destruct (IH (S n) (<[str x := n]> m)) as (H1 & H2 & H3).
  { intros name i [[_ <-]|[_ Hi]]%lookup_insert_Some; [lia|]. apply Hm in Hi. lia. }
  unfold compose in *. cbn [fst snd]. rewrite Hext. split_and!.
  - intros name i Hi. destruct (H1 name i Hi) as [Hi'|(j & y & -> & Hj & Hy)].
    + apply lookup_insert_Some in Hi' as [[<- <-]|[_ Hi']]; [right; exists 0%nat, x; split_and!; [lia|done|done]|by left].
    + right. exists (S j), y. split_and!; [lia|done|done].
  - intros name Hn. apply H2. destruct (decide (str x = name)) as [<-|]; [rewrite lookup_insert_eq; eauto|by rewrite lookup_insert_ne].
  - intros y [->|Hy]%elem_of_cons; [|by apply H3]. apply H2. rewrite lookup_insert_eq. eauto.
Qed.

Lemma columnIndex_ok (cols : list string) : (∀ name, name ∈ pspStatementColumns → name ∈ cols) →
  ∃ index, columnIndex (bytes_of <$> cols) = Ok index ∧
    ∀ name, name ∈ cols → ∃ i, index !! name = Some i ∧ cols !! i = Some name.
Proof.
  intros Hcols. unfold columnIndex. set (index := foldl _ _ _).
  destruct (index_insert (bytes_of <$> cols) 0 ∅) as (H1 & _ & H3); [intros ? ?; by rewrite lookup_empty|].
  change (foldl _ _ _) with index in H1, H3. assert (Hin : ∀ name, name ∈ cols → ∃ i, index !! name = Some i ∧ cols !! i = Some name).
  { intros name Hname. destruct (H3 (bytes_of name)) as [i Hi]; [by apply list_elem_of_fmap_2|]. rewrite str_bytes in Hi. exists i. split; [done|].
    destruct (H1 name i Hi) as [Hbad|(j & x & -> & Hj & Hx)]; [by rewrite lookup_empty in Hbad|].
    rewrite list_lookup_fmap in Hj. apply fmap_Some in Hj as (nm & Hnm & ->). by rewrite str_bytes in Hx; subst. }
  exists index. split; [|done]. rewrite (proj2 (forallb_forall _ _)); [done|]. intros want Hw. apply bool_decide_eq_true.
  destruct (Hin want) as (i & Hi & _); [apply Hcols; by apply list_elem_of_In|]. eauto.
Qed.

(** ** Statements *)

(** The text of one column of a record; a column the parser does not know holds what
    the provider likes. *)
Definition column_text (extra : PSPRecord → string → text) (r : PSPRecord) (name : string) : text :=
  if bool_decide (name = "external_ref") then bytes_of (Psp_ExternalRef r)
  else if bool_decide (name = "amount_minor") then bytes_of (FormatInt (Psp_AmountMinor r))
  else if bool_decide (name = "currency") then bytes_of (Psp_Currency r)
  else if bool_decide (name = "status") then bytes_of (Psp_Status r)
  else if bool_decide (name = "settled_at") then format_rfc3339 (Psp_SettledAt r)
  else extra r name.

Definition psp_file (extra : PSPRecord → string → text) (cols : list string) (records : list PSPRecord) : text :=
  (csv_record (bytes_of <$> cols) ++ concat ((λ r, csv_record (column_text extra r <$> cols)) <$> records))%list.

Lemma format_int_bytes z c : is_digit c = false → c ≠ "-"%char → c ∉ bytes_of (FormatInt z).
Proof.
  intros Hc Hm. assert (Hu : ∀ d, c ∉ bytes_of (DecimalString.NilEmpty.string_of_uint d)).
  { induction d as [|d IH|d IH|d IH|d IH|d IH|d IH|d IH|d IH|d IH|d IH]; cbn; rewrite ?not_elem_of_cons; [set_solver|..];
      (split; [intros ->; discriminate Hc|done]). }
  assert (Hz : ∀ d, c ∉ bytes_of (DecimalString.NilZero.string_of_uint d)).
  { intros d. unfold DecimalString.NilZero.string_of_uint. destruct d; try apply Hu. cbn. rewrite not_elem_of_cons. split; [intros ->; discriminate Hc|set_solver]. }
  unfold FormatInt, DecimalString.NilZero.string_of_int. destruct (Z.to_int z); [apply Hz|]. cbn. rewrite not_elem_of_cons. split; [done|apply Hz].
Qed.

Lemma currency_bytes c cur : currencyPattern cur = true → is_upper c = false → c ∉ bytes_of cur.
Proof.
  unfold currencyPattern. destruct cur as [|x [|y [|z [|? ?]]]]; try done. rewrite !andb_true_iff. intros [[H1 H2] H3] Hc. cbn.
  rewrite !not_elem_of_cons. split_and!; [congruence..|set_solver].
Qed.

(** A record that can be written and read back. *)
Definition psp_writable (r : PSPRecord) : Prop := psp_valid r ∧ one_line (bytes_of (Psp_ExternalRef r)) ∧ printable (Psp_SettledAt r).

Lemma column_one_line extra r name : (∀ r name, one_line (extra r name)) → psp_writable r → one_line (column_text extra r name).
Proof.
  intros Hex (Hv & Href & Ht). unfold column_text. repeat case_bool_decide; try done.
  - split; by apply format_int_bytes.
  - split; (apply currency_bytes; [apply Hv|done]).
  - pose proof (pv_status r Hv) as Hst. unfold validPSPStatuses in Hst. rewrite !elem_of_cons, elem_of_nil in Hst.
    destruct Hst as [->|[->|[->|[->|[]]]]]; split; cbn; rewrite !not_elem_of_cons; split_and!; try done; set_solver.
  - split; (apply format_bytes; [done|done|rewrite !not_elem_of_cons; split_and!; try done; set_solver]).
Qed.

Lemma parsePSPRow_columns extra r cols index : psp_writable r → (∀ name, name ∈ pspStatementColumns → ∃ i, index !! name = Some i ∧ cols !! i = Some name) →
  parsePSPRow (column_text extra r <$> cols) index = Ok r.
Proof.
  intros (Hv & _ & Ht) Hidx. assert (Hcell : ∀ name, name ∈ pspStatementColumns → cell (column_text extra r <$> cols) index name = column_text extra r name).
  { intros name Hn. destruct (Hidx name Hn) as (i & Hi & Hc). unfold cell. rewrite Hi. cbn. by rewrite list_lookup_fmap, Hc. }
  unfold parsePSPRow. rewrite !Hcell by (unfold pspStatementColumns; set_solver).
  change (column_text extra r "external_ref") with (bytes_of (Psp_ExternalRef r)). change (column_text extra r "amount_minor") with (bytes_of (FormatInt (Psp_AmountMinor r))).
  change (column_text extra r "currency") with (bytes_of (Psp_Currency r)). change (column_text extra r "status") with (bytes_of (Psp_Status r)).
  change (column_text extra r "settled_at") with (format_rfc3339 (Psp_SettledAt r)). destruct Hv as [Href Hamt Hcur Hst]. rewrite !str_bytes, ParseInt_FormatInt, parse_format_rfc3339 by (done || unfold is_int64, min_int64; lia).
  assert (Hup : ToUpper (bytes_of (Psp_Status r)) = bytes_of (Psp_Status r)).
  { unfold validPSPStatuses in Hst. rewrite !elem_of_cons, elem_of_nil in Hst. destruct Hst as [->|[->|[->|[->|[]]]]]; reflexivity. }
  rewrite Hup, str_bytes. cbv zeta. rewrite (bool_decide_eq_true_2 (Psp_Status r ∈ _) Hst). rewrite bool_decide_eq_false_2 by (by destruct (Psp_ExternalRef r)).
  cbn -[NewMoney]. rewrite (proj2 (Z.leb_gt _ _)) by lia. cbn -[NewMoney]. unfold NewMoney. rewrite Hcur. by destruct r.
Qed.

Lemma parse_rows_file extra cols index : cols ≠ [] → (∀ r name, one_line (extra r name)) →
  (∀ name, name ∈ pspStatementColumns → ∃ i, index !! name = Some i ∧ cols !! i = Some name) →
  ∀ records n acc, Forall psp_writable records → (length records < n)%nat →
  parse_rows n (bytes_of <$> cols) index (csv_line <$> raw_lines (concat ((λ r, csv_record (column_text extra r <$> cols)) <$> records))) acc =
    Ok (acc ++ records)%list.
Proof.
  intros Hne Hex Hidx records. induction records as [|r records IH]; intros n acc Hrec Hn; (destruct n as [|n]; [simpl in Hn; lia|]).
  - cbn. by rewrite app_nil_r.
  - apply list.Forall_cons in Hrec as [Hr Hrec]. rewrite fmap_cons. cbn [concat]. rewrite record_lines.
    2: { apply list.Forall_fmap, list.Forall_forall. intros name _. by apply column_one_line. }
    cbn [parse_rows]. rewrite Read_record_quoted; [|by destruct cols|by rewrite !length_fmap].
    rewrite bool_decide_eq_true_2 by (by rewrite !length_fmap). cbn [negb]. rewrite parsePSPRow_columns by done. cbn [mbind result_bind].
    rewrite IH; [by rewrite <- app_assoc|done|simpl in Hn; lia].
Qed.

Lemma file_lines extra cols records : (∀ r name, one_line (extra r name)) → Forall psp_writable records →
  length (csv_line <$> raw_lines (concat ((λ r, csv_record (column_text extra r <$> cols)) <$> records))) = length records.
Proof.
  intros Hex Hrec. induction Hrec as [|r records Hr Hrec IH]; [done|]. rewrite fmap_cons. cbn [concat]. rewrite record_lines.
  - cbn [length]. by rewrite IH.
  - apply list.Forall_fmap, list.Forall_forall. intros name _. by apply column_one_line.
Qed.

Lemma psp_file_parses extra cols records :
  (∀ name, name ∈ pspStatementColumns → name ∈ cols) → Forall one_line (bytes_of <$> cols) → (∀ r name, one_line (extra r name)) →
  records ≠ [] → Forall psp_writable records → ParsePSPStatement (psp_file extra cols records) = Ok records.
Proof.
  intros Hcols Hone Hex Hne Hrec. assert (Hc : cols ≠ []) by (intros ->; specialize (Hcols "status"); set_solver).
  unfold ParsePSPStatement, psp_file. rewrite record_lines by done. rewrite Read_record_quoted; [|by destruct cols|done].
  destruct (columnIndex_ok cols Hcols) as (index & -> & Hidx). cbn [mbind result_bind].
  rewrite (parse_rows_file extra cols index); [|done|done|intros name Hn; by apply Hidx, Hcols|done|rewrite file_lines by done; lia].
  cbn [app mbind result_bind]. by rewrite bool_decide_eq_false_2.
Qed.

(** C23: settlement statements.  The parser always decides; whatever it accepts is a
    non-empty list of records that each carry a reference, a positive 64-bit amount, a
    valid currency and a known status; and a file written from such records, with the
    columns in any order and any further columns, is read back record for record, provided
    that no reference, column name or further cell holds a carriage return or a line feed
    (a CRLF inside a quoted field is read as LF) and every settlement time has a year of
    at most four digits. *)
Theorem statement_reads_back extra cols records file :
  (∀ name, name ∈ pspStatementColumns → name ∈ cols) → Forall one_line (bytes_of <$> cols) → (∀ r name, one_line (extra r name)) →
  records ≠ [] → Forall psp_writable records →
  ParsePSPStatement (psp_file extra cols records) = Ok records ∧
  ParsePSPStatement file ≠ Err out_of_fuel ∧
  (∀ out, ParsePSPStatement file = Ok out → out ≠ [] ∧ Forall psp_valid out).
Proof.
  intros Hcols Hone Hex Hne Hrec. split_and!.
  - by apply psp_file_parses.
  - unfold ParsePSPStatement. destruct (Read_record None _) as [[[header|e] rest]|] eqn:Hr; [| |done].
    + unfold columnIndex. destruct (forallb _ _); cbn [mbind result_bind]; [|done].
      pose proof (parse_rows_decides (S (length rest)) header) as Hd. destruct (parse_rows _ _ _ _ _) as [recs|e] eqn:Hp; cbn [mbind result_bind].
      * by case_bool_decide.
      * intros [= ->]. eapply Hd; [|exact Hp]. lia.
    + apply Read_record_decides in Hr as [Hf _]. intros [= ->]. by apply Hf.
  - intros out. unfold ParsePSPStatement. destruct (Read_record None _) as [[[header|e] rest]|]; [|done|done].
    destruct (columnIndex header) as [index|]; cbn [mbind result_bind]; [|done].
    destruct (parse_rows _ _ _ _ _) as [recs|] eqn:Hp; cbn [mbind result_bind]; [|done]. case_bool_decide as Hnil; [done|]. intros [= <-].
    split; [done|]. eapply parse_rows_valid; [|exact Hp]. constructor.
Qed.

Definition one_line_b (f : text) : bool := bool_decide (newline ∉ f) && bool_decide ("013"%char ∉ f).
Lemma one_line_ok f : one_line_b f = true → one_line f.
Proof. unfold one_line_b. rewrite andb_true_iff, !bool_decide_eq_true. done. Qed.

Definition demo_settlement : PSPRecord := mkPSPRecord (str (doc "REF 'A', 1")) 1000 "INR" "REFUNDED" 1768478400500000000.
Definition demo_columns : list string := ["note"; "status"; "external_ref"; "settled_at"; "currency"; "amount_minor"].

Lemma statement_reads_back_witness :
  ParsePSPStatement (psp_file (λ _ _, bytes_of "a note") demo_columns [demo_settlement]) = Ok [demo_settlement] ∧
  ParsePSPStatement (bytes_of "external_ref") ≠ Err out_of_fuel.
Proof.
  destruct (statement_reads_back (λ _ _, bytes_of "a note") demo_columns [demo_settlement] (bytes_of "external_ref")) as (H1 & H2 & _).
  - intros name Hn. unfold pspStatementColumns, demo_columns in *. set_solver.
  - repeat constructor; apply one_line_ok; vm_compute; reflexivity.
  - intros r name. apply one_line_ok. vm_compute. reflexivity.
  - discriminate.
  - constructor; [|constructor]. split; [|split].
    + split; [discriminate|vm_compute; split; [reflexivity|discriminate]|reflexivity|unfold validPSPStatuses; simpl; set_solver].
    + apply one_line_ok. vm_compute. reflexivity.
    + vm_compute. split; discriminate.
  - split; [exact H1|exact H2].
Defined.
