(* ===== verification/Consumer.v ===== *)
(** * The projector's consumer (internal/projector/consumer.go)

    One poll of the consumer group: handling the fetched records in order,
    dead-lettering what can never be applied, stopping at the first transient
    failure and committing what was handled.  The broker's answers are a
    parameter; tracing, logging and metrics are left out.
    Then the consumer group over any partition logs, and what a committed offset means
    when a stopped batch is followed by a restart. *)

From S2P Require Import Prelude Errors Types SagaTypes Events Schema Strconv Retry Invariant Projector TimeText Canonical JsonText.
Open Scope string_scope.
Open Scope Z_scope.

Definition TopicTransaction : string := "ledger.events.transaction".
Definition TopicDLQ : string := "ledger.events.dlq".

(** ** Records *)

(** The bytes of a value, as far as [json.Unmarshal] tells them apart: those no
    envelope decodes from, and those that hold an envelope, with the error its payload
    gives when it is decoded into [transactionPayload], if it gives one. *)
Inductive KValue :=
| Malformed (cause : error)
| Enveloped (env : Envelope) (payload_error : option error).

Record Message := mkMessage { Ms_Key : string; Ms_Value : KValue }.

(** [kgo.Record] as it is fetched. *)
Record Fetched := mkFetched { Fr_Topic : string; Fr_Partition : Z; Fr_Offset : nat; Fr_Message : Message }.

(** [kgo.Record] as the dead-letter path produces it. *)
Record Letter := mkLetter { Lt_Topic : string; Lt_Key : string; Lt_Value : KValue; Lt_Headers : list (string * string) }.

(** What the broker and the clock do during one poll: the answer to a produce with
    whether the record was appended, the answer to an offset commit with whether it took
    effect, and the time at which a record is dead-lettered. *)
Record Broker := mkBroker {
  bk_produce : Letter → res unit * bool;
  bk_commit : list Fetched → res unit * bool;
  bk_now : Fetched → Time }.

(** A nil error from [ProduceSync] means the record was appended. *)
Class BrokerLaws (b : Broker) : Prop := { produced : ∀ l u, (bk_produce b l).1 = Ok u → (bk_produce b l).2 = true }.

(** The consumer's world: the projection database, the dead-letter topic, and the
    group's committed offset in each partition (the next offset to read). *)
Record Consumed := mkConsumed { cs_world : World; cs_dlq : list Letter; cs_committed : Z → nat }.

Definition set_world (w : World) (s : Consumed) : Consumed := mkConsumed w (cs_dlq s) (cs_committed s).

(** ** Operations *)

Section consumer.
Context `{ErrorText}.

Definition letter_of (now : Time) (rec : Fetched) (cause : error) : Letter :=
  mkLetter TopicDLQ (Ms_Key (Fr_Message rec)) (Ms_Value (Fr_Message rec))
    [ ("dlq.source_topic", Fr_Topic rec);
      ("dlq.source_partition", FormatInt (Fr_Partition rec));
      ("dlq.source_offset", FormatInt (Z.of_nat (Fr_Offset rec)));
      ("dlq.error", error_text cause);
      ("dlq.timestamp", str (format_rfc3339 now)) ].

Definition deadLetter (b : Broker) (rec : Fetched) (cause : error) (s : Consumed) : res unit * Consumed :=
  let l := letter_of (bk_now b rec) rec cause in
  let '(r, appended) := bk_produce b l in
  (r, mkConsumed (cs_world s) (if appended : bool then cs_dlq s ++ [l] else cs_dlq s)%list (cs_committed s)).

(** [Apply] with the payload still to be decoded: the event type is looked at first. *)
Definition apply_message (env : Envelope) (payload_error : option error) : M bool := λ w,
  match payload_error with
  | Some e => (Err (if negb (is_transaction_event (Env_EventType env)) then ErrUnknownEventType else e), w)
  | None => Apply env w
  end.

Definition handle (b : Broker) (rec : Fetched) (s : Consumed) : res unit * Consumed :=
  match Ms_Value (Fr_Message rec) with
  | Malformed cause => deadLetter b rec cause s
  | Enveloped env pe =>
      match apply_message env pe (cs_world s) with
      | (Ok _, w) => (Ok tt, set_world w s)
      | (Err e, w) =>
          if errors_Is e ErrUnknownEventType then deadLetter b rec e (set_world w s)
          else (Err e, set_world w s)
      end
  end.

(** The loop of [processBatch]: the records to commit. *)
Fixpoint handle_records (b : Broker) (records toCommit : list Fetched) (s : Consumed) : list Fetched * Consumed :=
  match records with
  | [] => (toCommit, s)
  | rec :: records =>
      match handle b rec s with
      | (Err _, s) => (toCommit, s)
      | (Ok _, s) => handle_records b records (toCommit ++ [rec])%list s
      end
  end.

(** [CommitRecords]: in each partition the offset after the highest of the records. *)
Definition commit_records (records : list Fetched) (committed : Z → nat) : Z → nat := λ p,
  match filter (λ r, Fr_Partition r = p) records with
  | [] => committed p
  | rs => foldr (λ r, Nat.max (S (Fr_Offset r))) O rs
  end.

Definition processBatch (b : Broker) (records : list Fetched) (s : Consumed) : Consumed :=
  let '(toCommit, s) := handle_records b records [] s in
  if bool_decide (toCommit = []) then s
  else mkConsumed (cs_world s) (cs_dlq s)
         (if (bk_commit b toCommit).2 then commit_records toCommit (cs_committed s) else cs_committed s).

End consumer.

Section group.
Context `{ErrorText}.

(** ** Handled records *)

(** Applied to the projection, or copied to the dead-letter topic. *)
Definition handled (d : DB) (dlq : list Letter) (rec : Fetched) : Prop :=
  (∃ env, Ms_Value (Fr_Message rec) = Enveloped env None ∧ is_Some (processed_events d !! Env_EventID env)) ∨
  (∃ now cause, letter_of now rec cause ∈ dlq).

(** The projection database and the dead-letter topic only gain. *)
Record consumed_more (s s' : Consumed) : Prop := {
  cm_processed : processed_events (w_db (cs_world s)) ⊆ processed_events (w_db (cs_world s'));
  cm_dlq : cs_dlq s `prefix_of` cs_dlq s';
  cm_committed : cs_committed s' = cs_committed s }.

#[export] Instance consumed_more_preorder : PreOrder consumed_more.
Proof.
  split; [by split|]. intros s1 s2 s3 [P1 D1 C1] [P2 D2 C2]. split; [by etrans|by etrans|congruence].
Qed.

Lemma handled_mono d dlq d' dlq' rec : processed_events d ⊆ processed_events d' → dlq `prefix_of` dlq' →
  handled d dlq rec → handled d' dlq' rec.
Proof.
  intros Hp [ext ->] [(env & Hv & [x Hx])|(now & cause & Hl)]; [left|right].
  - exists env. split; [done|]. exists x. by eapply lookup_weaken.
  - exists now, cause. apply elem_of_app. by left.
Qed.

Lemma more_handled s s' rec : consumed_more s s' →
  handled (w_db (cs_world s)) (cs_dlq s) rec → handled (w_db (cs_world s')) (cs_dlq s') rec.
Proof. intros [Hp Hd _]. by apply handled_mono. Qed.

Lemma deadLetter_more b rec cause s r s' : BrokerLaws b → deadLetter b rec cause s = (r, s') →
  consumed_more s s' ∧ (is_ok r = true → handled (w_db (cs_world s')) (cs_dlq s') rec).
Proof.
  intros Hb. unfold deadLetter. pose proof (produced (letter_of (bk_now b rec) rec cause)) as Hp.
  destruct (bk_produce b _) as [r0 appended] eqn:Ha. simpl in Hp. intros [= <- <-]. split.
  - split; simpl; [done| |done]. destruct appended; [by exists [letter_of (bk_now b rec) rec cause]|done].
  - destruct r0 as [u|e]; [|done]. intros _. rewrite (Hp u eq_refl). right. exists (bk_now b rec), cause. simpl. set_solver.
Qed.

Lemma apply_message_more env pe r w w' : apply_message env pe w = (r, w') →
  processed_events (w_db w) ⊆ processed_events (w_db w') ∧
  (is_ok r = true → pe = None ∧ is_Some (processed_events (w_db w') !! Env_EventID env)).
Proof.
  unfold apply_message. destruct pe as [e|]; [by intros [= <- <-]|]. intros Hrun. apply Apply_cases in Hrun as [Hc Hok].
  split; [|auto]. destruct Hc as [->|(_ & Hnew & ->)]; [done|]. simpl. by apply insert_subseteq.
Qed.

Lemma handle_more b rec s r s' : BrokerLaws b → handle b rec s = (r, s') →
  consumed_more s s' ∧ (is_ok r = true → handled (w_db (cs_world s')) (cs_dlq s') rec).
Proof.
  intros Hb. unfold handle. destruct (Ms_Value _) as [cause|env pe] eqn:Hv; [by apply deadLetter_more|].
  destruct (apply_message env pe (cs_world s)) as [[x|e] w] eqn:Ha; apply apply_message_more in Ha as [Hp Hok].
  - intros [= <- <-]. split; [by split|]. intros _. destruct (Hok eq_refl) as [-> Hin]. left. eauto.
  - destruct (errors_Is e _); [|by intros [= <- <-]; split; [by split|]]. intros Hd.
    apply deadLetter_more in Hd as [Hm Hh]; [|done]. split; [|done]. etrans; [|exact Hm]. by split.
Qed.

Lemma handle_records_ok b records : BrokerLaws b → ∀ acc s out s', handle_records b records acc s = (out, s') →
  consumed_more s s' ∧ ∃ pre, out = (acc ++ pre)%list ∧ pre `prefix_of` records ∧
    ∀ r, r ∈ pre → handled (w_db (cs_world s')) (cs_dlq s') r.
Proof.
  intros Hb. induction records as [|rec records IH]; intros acc s out s'; cbn [handle_records].
  { intros [= <- <-]. split; [done|]. exists []. rewrite app_nil_r. split_and!; [done|done|set_solver]. }
  destruct (handle b rec s) as [[u|e] s1] eqn:Hh; apply handle_more in Hh as [Hm Hok]; auto.
  - intros Hr. apply IH in Hr as (Hm2 & pre & -> & Hpre & Hall). split; [by etrans|]. exists (rec :: pre).
    rewrite <- app_assoc. split_and!; [done|by apply prefix_cons|]. intros r [->|Hr]%elem_of_cons; [|auto].
    eapply more_handled; [done|]. by apply Hok.
  - intros [= <- <-]. split; [done|]. exists []. rewrite app_nil_r. split_and!; [done|apply prefix_nil|set_solver].
Qed.

(** ** The group *)

(** The database, the dead-letter topic, and for each partition the committed offset and
    the position the client fetches from next. *)
Record Group := mkGroup { gr_db : DB; gr_dlq : list Letter; gr_committed : Z → nat; gr_position : Z → nat }.

(** The records of partition [p] from offset [from], at most [n] of them. *)
Definition window (p : Z) (from n : nat) (log : list Message) : list Fetched :=
  imap (λ i m, mkFetched TopicTransaction p (from + i) m) (take n (drop from log)).

(** What [PollFetches] may return: from every partition, some of the records at its
    position, in offset order; the partitions may be mixed in any way. *)
Definition fetched (log : Z → list Message) (position n : Z → nat) (batch : list Fetched) : Prop :=
  ∀ p, filter (λ r, Fr_Partition r = p) batch = window p (position p) (n p) (log p).

Definition stopped (b : Broker) (batch : list Fetched) (s : Consumed) : bool :=
  (length (handle_records b batch [] s).1 <? length batch)%nat.

Definition to_consumed (w : World) (g : Group) : Consumed := mkConsumed w (gr_dlq g) (gr_committed g).

(** One round of [Run].  The client's position moves past every record it has returned,
    whatever becomes of them. *)
Definition poll (b : Broker) (w : World) (batch : list Fetched) (g : Group) : Group :=
  let s' := processBatch b batch (to_consumed w g) in
  mkGroup (w_db (cs_world s')) (cs_dlq s') (cs_committed s')
    (λ p, (gr_position g p + length (filter (λ r, Fr_Partition r = p) batch))%nat).

(** A process that starts resumes from the committed offsets. *)
Definition restart (g : Group) : Group := mkGroup (gr_db g) (gr_dlq g) (gr_committed g) (gr_committed g).
Definition with_db (d : DB) (g : Group) : Group := mkGroup d (gr_dlq g) (gr_committed g) (gr_position g).

(** Any brokers and worlds, logs that grow, a database others write to as well, and a
    process that may be restarted after any poll.  [restarts] says that it always is after
    one whose batch stopped, before anything is fetched again: an assumption on how the
    process is run, since [Run] goes on polling. *)
Inductive group_step (restarts : bool) : (Z → list Message) * Group → (Z → list Message) * Group → Prop :=
| gs_poll log b w batch n g : BrokerLaws b → w_db w = gr_db g → fetched log (gr_position g) n batch →
    (restarts = true → stopped b batch (to_consumed w g) = false) → group_step restarts (log, g) (log, poll b w batch g)
| gs_crash log b w batch n g : BrokerLaws b → w_db w = gr_db g → fetched log (gr_position g) n batch →
    group_step restarts (log, g) (log, restart (poll b w batch g))
| gs_restart log g : group_step restarts (log, g) (log, restart g)
| gs_append log log' g : (∀ p, log p `prefix_of` log' p) → group_step restarts (log, g) (log', g)
| gs_write log g d' : processed_events (gr_db g) ⊆ processed_events d' → group_step restarts (log, g) (log, with_db d' g).

(** A group that has read nothing. *)
Definition fresh_group (d : DB) : Group := mkGroup d [] (λ _, O) (λ _, O).
Definition no_messages : Z → list Message := λ _, [].

(** ** Nothing is skipped *)

Definition below (d : DB) (dlq : list Letter) (log : Z → list Message) (p : Z) (upto : nat) : Prop :=
  (upto ≤ length (log p))%nat ∧
  ∀ i m, (i < upto)%nat → log p !! i = Some m → handled d dlq (mkFetched TopicTransaction p i m).

Definition caught (log : Z → list Message) (g : Group) : Prop :=
  ∀ p, below (gr_db g) (gr_dlq g) log p (gr_committed g p) ∧ below (gr_db g) (gr_dlq g) log p (gr_position g p).

Lemma below_mono d dlq log d' dlq' log' p upto : processed_events d ⊆ processed_events d' →
  dlq `prefix_of` dlq' → log p `prefix_of` log' p → below d dlq log p upto → below d' dlq' log' p upto.
Proof.
  intros Hp Hd [ext Hl] [Hlen Hall]. split; [rewrite Hl, length_app; lia|]. intros i m Hi Hm.
  eapply handled_mono; [done..|]. apply (Hall i m Hi). rewrite Hl, lookup_app_l in Hm by lia. done.
Qed.

Lemma window_lookup p from n log j r : window p from n log !! j = Some r →
  ∃ m, r = mkFetched TopicTransaction p (from + j) m ∧ log !! (from + j)%nat = Some m.
Proof.
  unfold window. rewrite list_lookup_imap. intros Hr. apply fmap_Some in Hr as (m & Hm & ->). exists m. split; [done|].
  by apply lookup_take_Some in Hm as [Hm%eq_sym _]; rewrite lookup_drop in Hm.
Qed.

Lemma window_length p from n log : (from ≤ length log → from + length (window p from n log) ≤ length log)%nat.
Proof. unfold window. rewrite length_imap, length_take, length_drop. lia. Qed.

(** A run of records with consecutive offsets is committed up to its end. *)
Lemma commit_run l : ∀ from, (∀ j r, l !! j = Some r → Fr_Offset r = (from + j)%nat) → l ≠ [] →
  foldr (λ r, Nat.max (S (Fr_Offset r))) O l = (from + length l)%nat.
Proof.
  induction l as [|r l IH]; intros from Hoff Hne; [done|]. cbn [foldr length].
  pose proof (Hoff O r eq_refl) as Hr. rewrite Hr. destruct l as [|r' l]; [simpl; lia|].
  rewrite (IH (S from)); [lia| |done]. intros j x Hx. rewrite (Hoff (S j) x Hx). lia.
Qed.

(** The handled part of a batch extends what is below the position. *)
Lemma below_run d dlq log position n batch pre p : fetched log position n batch → pre `prefix_of` batch →
  (∀ r, r ∈ pre → handled d dlq r) → below d dlq log p (position p) →
  let run := filter (λ r, Fr_Partition r = p) pre in
  below d dlq log p (position p + length run) ∧ (∀ j r, run !! j = Some r → Fr_Offset r = (position p + j)%nat).
Proof.
  intros Hf [suf ->] Hall [Hlen Hb] run. specialize (Hf p). rewrite list.filter_app in Hf. fold run in Hf.
  assert (Hrun : ∀ j r, run !! j = Some r → ∃ m, r = mkFetched TopicTransaction p (position p + j) m ∧ log p !! (position p + j)%nat = Some m).
  { intros j r Hj. apply (window_lookup p (position p) (n p)). rewrite <- Hf. by apply lookup_app_l_Some. }
  split; [split|].
  - pose proof (window_length p (position p) (n p) (log p) Hlen) as Hw. rewrite <- Hf, length_app in Hw. lia.
  - intros i m Hi Hm. destruct (decide (i < position p)%nat) as [Hlt|Hge]; [by apply Hb|].
    destruct (lookup_lt_is_Some_2 run (i - position p)) as [r Hr]; [lia|]. destruct (Hrun _ _ Hr) as (m' & -> & Hm').
    replace (position p + (i - position p))%nat with i in * by lia. assert (m' = m) as -> by congruence.
    apply Hall. apply list_elem_of_lookup_2 in Hr. by apply list_elem_of_filter in Hr as [_ Hr].
  - intros j r Hr. by destruct (Hrun _ _ Hr) as (m & -> & _).
Qed.

(** After a poll everything committed is handled, and when its batch did not stop, so is
    everything the position has passed. *)
Lemma poll_below b w batch n log g : BrokerLaws b → w_db w = gr_db g → fetched log (gr_position g) n batch →
  caught log g → let g' := poll b w batch g in
  ∀ p, below (gr_db g') (gr_dlq g') log p (gr_committed g' p) ∧
    (stopped b batch (to_consumed w g) = false → below (gr_db g') (gr_dlq g') log p (gr_position g' p)).
Proof.
  intros Hb Hw Hf Hc. unfold poll, processBatch, stopped.
  destruct (handle_records b batch [] (to_consumed w g)) as [out s'] eqn:Hr. cbn [fst].
  pose proof (handle_records_ok _ _ Hb _ _ _ _ Hr) as ([Hp Hd Hcm] & pre & -> & Hpre & Hall). simpl in Hp, Hd, Hcm.
  rewrite Hw in Hp. cbn [app].
  assert (Hnow : ∀ p, below (w_db (cs_world s')) (cs_dlq s') log p (gr_committed g p) ∧ below (w_db (cs_world s')) (cs_dlq s') log p (gr_position g p))
    by (intros p; destruct (Hc p); split; by eapply below_mono).
  assert (Hcommit : ∀ p, below (w_db (cs_world s')) (cs_dlq s') log p (commit_records pre (gr_committed g) p)).
  { intros p. destruct (below_run _ _ _ _ _ _ _ p Hf Hpre Hall (proj2 (Hnow p))) as [Hrun Hoff]. unfold commit_records.
    destruct (filter _ pre) as [|r l] eqn:Hl; [apply Hnow|]. rewrite (commit_run (r :: l) (gr_position g p)); auto. }
  set (s2 := if bool_decide (pre = []) then s' else _).
  assert (Hs2 : w_db (cs_world s2) = w_db (cs_world s') ∧ cs_dlq s2 = cs_dlq s' ∧ ∀ p, below (w_db (cs_world s')) (cs_dlq s') log p (cs_committed s2 p)).
  { unfold s2. case_bool_decide; simpl; rewrite Hcm; [split_and!; auto; apply Hnow|]. split_and!; auto. destruct (bk_commit b pre).2; [apply Hcommit|apply Hnow]. }
  destruct Hs2 as (Hdb2 & Hdlq2 & Hc2). intros p. simpl. rewrite Hdb2, Hdlq2. split; [apply Hc2|]. intros Hst.
  assert (pre = batch) as -> by (destruct Hpre as [suf ->]; rewrite length_app in Hst; destruct suf; [by rewrite app_nil_r|simpl in Hst; apply Nat.ltb_ge in Hst; lia]).
  apply (below_run _ _ _ _ _ _ _ p Hf Hpre Hall (proj2 (Hnow p))).
Qed.

Lemma group_step_caught s s' : group_step true s s' → caught s.1 s.2 → caught s'.1 s'.2.
Proof.
  intros [log b w batch n g Hb Hw Hf Hst|log b w batch n g Hb Hw Hf|log g|log log' g Hl|log g d' Hp] Hc; simpl in *.
  - intros p. destruct (poll_below b w batch n log g Hb Hw Hf Hc p) as [H1 H2]. split; [exact H1|exact (H2 (Hst eq_refl))].
  - intros p. destruct (poll_below b w batch n log g Hb Hw Hf Hc p) as [H1 _]. split; exact H1.
  - intros p. split; apply Hc.
  - intros p. destruct (Hc p). split; (eapply below_mono; [| | |eassumption]; done).
  - intros p. destruct (Hc p). split; (eapply below_mono; [| | |eassumption]; done).
Qed.

Lemma fresh_caught d : caught no_messages (fresh_group d).
Proof. intros p. split; (split; [done|simpl; lia]). Qed.

Lemma groups_caught s s' : rtc (group_step true) s s' → caught s.1 s.2 → caught s'.1 s'.2.
Proof. induction 1; [done|]. eauto using group_step_caught. Qed.

(** C20: a committed offset loses nothing.  Whatever the brokers answer, the database
    does and the logs receive, in any sequence of polls, restarts and writes in which
    the process is restarted when a batch stops at a failure: every record below a
    partition's committed offset was applied to the projection or lies in the
    dead-letter topic, its key, value and origin included; and no commit passes the
    end of the log. *)
Theorem committed_means_handled d log g : rtc (group_step true) (no_messages, fresh_group d) (log, g) →
  ∀ p, (gr_committed g p ≤ length (log p))%nat ∧
    ∀ i m, (i < gr_committed g p)%nat → log p !! i = Some m → handled (gr_db g) (gr_dlq g) (mkFetched TopicTransaction p i m).
Proof. intros Hs p. apply (groups_caught _ _ Hs (fresh_caught d) p). Qed.

End group.
