(* ===== verification/Pipeline.v ===== *)
(** * From the ledger to the projection

    The write side, the polling publishers, the transaction topic and the projector's
    consumer group run together; and what the consumer does when it is not restarted
    after a failure. *)

From S2P Require Import Prelude Errors Types SagaTypes Events Schema PgLedgerSpec Invariant Frames Uuid Demo Projector System Publish.
From S2P Require Import Consumer.
Open Scope string_scope.
Open Scope Z_scope.

(** ** Deliveries keep what the database promises *)

Section keeps.
Context `{ErrorText}.
Context (P : DB → Prop).

Definition appliable (rec : Fetched) : Prop := ∀ env w, Ms_Value (Fr_Message rec) = Enveloped env None →
  P (w_db w) → P (w_db (Apply env w).2).

Lemma handle_keeps b rec s r s' : appliable rec → handle b rec s = (r, s') → P (w_db (cs_world s)) → P (w_db (cs_world s')).
Proof.
  intros Ha. unfold handle, deadLetter. destruct (Ms_Value _) as [cause|env pe] eqn:Hv.
  { destruct (bk_produce b _). by intros [= <- <-]. }
  assert (Hk : ∀ w, P (w_db w) → P (w_db (apply_message env pe w).2)).
  { intros w Hw. unfold apply_message. destruct pe; [done|]. by apply Ha. }
  specialize (Hk (cs_world s)). destruct (apply_message env pe (cs_world s)) as [[x|e] w]; [intros [= <- <-]; done|].
  destruct (errors_Is e _); [|by intros [= <- <-]]. destruct (bk_produce b _). by intros [= <- <-].
Qed.

Lemma handle_records_keeps b records : (∀ r, r ∈ records → appliable r) → ∀ acc s out s',
  handle_records b records acc s = (out, s') → P (w_db (cs_world s)) → P (w_db (cs_world s')).
Proof.
  induction records as [|rec records IH]; intros Ha acc s out s'; cbn [handle_records]; [by intros [= <- <-]|].
  destruct (handle b rec s) as [[u|e] s1] eqn:Hh; intros Hr Hs; (eapply handle_keeps in Hh; [|apply Ha; set_solver|done]).
  - eapply IH; [|exact Hr|done]. intros r Hin. apply Ha. set_solver.
  - by injection Hr as _ <-.
Qed.

Lemma poll_keeps b w batch g : (∀ r, r ∈ batch → appliable r) → w_db w = gr_db g →
  P (gr_db g) → P (gr_db (poll b w batch g)).
Proof.
  intros Ha Hw Hg. unfold poll, processBatch. destruct (handle_records b batch [] (to_consumed w g)) as [out s'] eqn:Hr. simpl.
  assert (Hs : P (w_db (cs_world s'))) by (eapply handle_records_keeps; [done|exact Hr|simpl; by rewrite Hw]). by case_bool_decide.
Qed.
End keeps.

Lemma marked_processed ids now d : processed_events (mark_published ids now d) = processed_events d.
Proof. done. Qed.

(** ** The pipeline *)

Section pipeline.
Context `{ErrorText}.
Context (part : string → Z).

(** A published record is the encoding of its envelope, in the partition of its key. *)
Definition message_of (r : KRecord) : Message := mkMessage (K_Key r) (Enveloped (K_Value r) None).
Definition topic_log (log : list KRecord) : Z → list Message := λ p,
  message_of <$> filter (λ r, K_Topic r = TopicTransaction ∧ part (K_Key r) = p) log.

(** The brokers' log and the consumer group, with the one database: any of the system's
    operations (which append outbox rows under fresh ids), a publisher's cycle, a poll
    whose batch did not stop, a poll followed by a restart, a restart.  So the consumer is
    restarted after a batch that stopped before it fetches again. *)
Inductive pipe_step : list KRecord * Group → list KRecord * Group → Prop :=
| pi_write log g d' new : rtc system_step (gr_db g) d' → outbox d' = (outbox (gr_db g) ++ new)%list →
    (∀ o, o ∈ new → unpublished o) → NoDup (o_id <$> outbox d') → pipe_step (log, g) (log, with_db d' g)
| pi_publish p locked w log g : ProducerLaws (pb_client p) → w_db w = gr_db g →
    pipe_step (log, g) (let '(_, w', log') := publishBatch p locked w log in (log', with_db (w_db w') g))
| pi_poll log b w batch n g : BrokerLaws b → w_db w = gr_db g → fetched (topic_log log) (gr_position g) n batch →
    stopped b batch (to_consumed w g) = false → pipe_step (log, g) (log, poll b w batch g)
| pi_crash log b w batch n g : BrokerLaws b → w_db w = gr_db g → fetched (topic_log log) (gr_position g) n batch →
    pipe_step (log, g) (log, restart (poll b w batch g))
| pi_restart log g : pipe_step (log, g) (log, restart g).

Lemma pi_published_by p locked w log g r w' log' : ProducerLaws (pb_client p) → w_db w = gr_db g →
  publishBatch p locked w log = (r, w', log') → pipe_step (log, g) (log', with_db (w_db w') g).
Proof. intros Hl Hw Hr. pose proof (pi_publish p locked w log g Hl Hw) as Hs. by rewrite Hr in Hs. Qed.

Record pipe_wf (log : list KRecord) (g : Group) : Prop := {
  pi_consistent : consistent (gr_db g);
  pi_published : pub_wf (gr_db g) log;
  pi_caught : caught (topic_log log) g }.

Lemma topic_log_grows log out p : topic_log log p `prefix_of` topic_log (log ++ out) p.
Proof. unfold topic_log. rewrite list.filter_app, fmap_app. by eexists. Qed.

(** Whatever is fetched from the topic is the envelope of an outbox row. *)
Lemma fetched_genuine d log position n batch : pub_wf d log → fetched (topic_log log) position n batch →
  ∀ r, r ∈ batch → ∃ o, o ∈ outbox d ∧ Fr_Message r = message_of (row_record o).
Proof.
  intros Hp Hf r Hr. assert (Hin : r ∈ filter (λ x, Fr_Partition x = Fr_Partition r) batch) by (by apply list_elem_of_filter).
  rewrite (Hf (Fr_Partition r)) in Hin. apply list_elem_of_lookup in Hin as [j Hj].
  apply window_lookup in Hj as (m & -> & Hm). apply list_elem_of_lookup_2 in Hm.
  apply list_elem_of_fmap in Hm as (k & -> & Hk). apply list_elem_of_filter in Hk as [_ Hk].
  apply (pw_genuine _ _ Hp) in Hk as (o & -> & Ho)%list_elem_of_fmap. by exists o.
Qed.

Lemma Apply_outbox env w : outbox (w_db (Apply env w).2) = outbox (w_db w).
Proof. destruct (Apply env w) as [r w'] eqn:Hr. simpl. by apply Apply_cases in Hr as [[->|(_ & _ & ->)] _]. Qed.

Lemma poll_wf b w batch n log g : BrokerLaws b → w_db w = gr_db g → fetched (topic_log log) (gr_position g) n batch →
  pipe_wf log g → consistent (gr_db (poll b w batch g)) ∧ pub_wf (gr_db (poll b w batch g)) log.
Proof.
  intros Hb Hw Hf [Hc Hp Hca].
  assert (Hk : (λ d, consistent d ∧ outbox d = outbox (gr_db g)) (gr_db (poll b w batch g))).
  { apply poll_keeps; [|done|done]. intros r Hr env w' Hv [Hc' Ho'].
    destruct (fetched_genuine _ _ _ _ _ Hp Hf r Hr) as (o & Ho & Hm). rewrite Hm in Hv. injection Hv as <-.
    rewrite Apply_outbox. split; [|done]. apply Apply_step; [done|by rewrite Ho']. }
  destruct Hk as [Hc' Ho']. split; [done|]. destruct Hp as [H1 H2 H3]. split; by rewrite Ho'.
Qed.

Lemma publish_wf p locked w log g : ProducerLaws (pb_client p) → w_db w = gr_db g → pipe_wf log g →
  let '(_, w', log') := publishBatch p locked w log in pipe_wf log' (with_db (w_db w') g).
Proof.
  intros Hl Hw [Hc Hp Hca]. destruct (publishBatch p locked w log) as [[r w'] log'] eqn:Hr.
  assert (Hp' : pub_wf (w_db w') log') by (eapply publishBatch_wf; [exact Hl| |exact Hr]; by rewrite Hw).
  destruct (publishBatch_effect _ _ _ _ _ _ _ Hl Hr) as (out & -> & _ & Hdb). rewrite Hw in Hdb.
  assert (Hk : consistent (w_db w') ∧ processed_events (w_db w') = processed_events (gr_db g)).
  { destruct Hdb as [->|(_ & now & ->)]; [done|]. split; [by apply consistent_marked|done]. }
  destruct Hk as [Hc' Hpr]. split; [done|done|].
  apply (group_step_caught (topic_log log, with_db (w_db w') g) (topic_log (log ++ out), with_db (w_db w') g));
    [apply gs_append; intros q; apply topic_log_grows|].
  apply (group_step_caught (topic_log log, g) (topic_log log, with_db (w_db w') g)); [apply gs_write; by rewrite Hpr|done].
Qed.

Lemma pipe_step_wf s s' : pipe_step s s' → pipe_wf s.1 s.2 → pipe_wf s'.1 s'.2.
Proof.
  intros [log g d' new Hs Ho Hn Hu|p locked w log g Hl Hw|log b w batch n g Hb Hw Hf Hst|log b w batch n g Hb Hw Hf|log g] Hwf; simpl in *.
  - destruct Hwf as [Hc Hp Hca]. destruct (steps_inv _ _ Hs Hc) as [Hc' Hg]. split; [done| |].
    + exact (pub_step_wf _ _ (pub_write (gr_db g) d' new log Ho Hn Hu) Hp).
    + apply (group_step_caught (topic_log log, g) (topic_log log, with_db d' g)); [apply gs_write; apply Hg|done].
  - pose proof (publish_wf p locked w log g Hl Hw Hwf) as Hk. by destruct (publishBatch p locked w log) as [[r w'] log'].
  - destruct (poll_wf b w batch n log g Hb Hw Hf Hwf) as [Hc Hp]. split; [done|done|].
    exact (group_step_caught _ _ (gs_poll true (topic_log log) b w batch n g Hb Hw Hf (λ _, Hst)) (pi_caught _ _ Hwf)).
  - destruct (poll_wf b w batch n log g Hb Hw Hf Hwf) as [Hc Hp]. split; [done|done|].
    exact (group_step_caught _ _ (gs_crash true (topic_log log) b w batch n g Hb Hw Hf) (pi_caught _ _ Hwf)).
  - destruct Hwf as [Hc Hp Hca]. split; [done|done|]. intros q. split; apply Hca.
Qed.

Lemma pipe_steps_wf s s' : rtc pipe_step s s' → pipe_wf s.1 s.2 → pipe_wf s'.1 s'.2.
Proof. induction 1; [done|]. eauto using pipe_step_wf. Qed.

Lemma empty_pipe_wf : pipe_wf [] (fresh_group empty_DB).
Proof.
  split; [apply empty_DB_consistent| |apply fresh_caught]. split; [constructor|by intros o Ho%not_elem_of_nil|by intros r Hr%not_elem_of_nil].
Qed.

(** An event that is published and whose offset is committed has been applied, unless the
    dead-letter topic has it. *)
Lemma event_arrives log g o : pipe_wf log g → o ∈ outbox (gr_db g) → is_tx_row o → ¬ unpublished o →
  (∀ p, gr_committed g p = length (topic_log log p)) → gr_dlq g = [] → is_Some (processed_events (gr_db g) !! o_event_id o).
Proof.
  intros [[Hwf _] Hp Hca] Ho Hty Hpub Hcom Hdlq. pose proof (wf_outbox _ Hwf o Ho) as (Hev & [_ Hagg] & _).
  apply (pw_delivered _ _ Hp) in Hpub; [|done]. set (p := part (o_aggregate_id o)).
  assert (Hin : message_of (row_record o) ∈ topic_log log p).
  { apply list_elem_of_fmap_2, list_elem_of_filter. split; [|done]. split; [|done]. simpl. by rewrite (Hagg Hty). }
  apply list_elem_of_lookup in Hin as [i Hi]. destruct (Hca p) as [[_ Hall] _].
  destruct (Hall i _ ltac:(rewrite Hcom; by apply lookup_lt_Some in Hi) Hi) as [(env & Hv & Hpr)|(? & ? & Hl)].
  - injection Hv as <-. by rewrite <- Hev.
  - rewrite Hdlq in Hl. by apply not_elem_of_nil in Hl.
Qed.

(** C19: the read side catches up.  Start everything empty and let the ledger's
    operations, any number of publishers and the consumer group run in any order, with
    failing statements, lost acknowledgements and refused produces and commits, on the
    condition that the consumer process is restarted after every batch that stopped at a
    failure before it fetches again (which [Run] does not see to by itself, and without
    which the conclusion can fail).  Once every event is marked published, every
    partition of the transaction topic is committed to its end and the dead-letter topic
    is empty, each account's projected balance and version are those of the ledger, and
    [Rebuild] finds no mismatch. *)
Theorem pipeline_converges log g ids : rtc pipe_step ([], fresh_group empty_DB) (log, g) →
  (∀ o, o ∈ outbox (gr_db g) → ¬ unpublished o) → (∀ p, gr_committed g p = length (topic_log log p)) → gr_dlq g = [] →
  (∀ id b, account_balances (gr_db g) !! id = Some b →
     default 0 (bp_available_minor <$> balance_projections (gr_db g) !! id) = b_available_minor b ∧
     default 0 (bp_version <$> balance_projections (gr_db g) !! id) = b_version b) ∧
  RebuildResult_OK (Rebuild ids (gr_db g)) = true.
Proof.
  intros Hs Hpub Hcom Hdlq. pose proof (pipe_steps_wf _ _ Hs empty_pipe_wf) as Hwf. simpl in Hwf.
  destruct (pi_consistent _ _ Hwf) as (Hl & Hpr & _).
  assert (Hcur : ∀ id b, account_balances (gr_db g) !! id = Some b →
     default 0 (bp_available_minor <$> balance_projections (gr_db g) !! id) = b_available_minor b ∧
     default 0 (bp_version <$> balance_projections (gr_db g) !! id) = b_version b).
  { intros id b. apply projection_current; auto. intros o Ho Hty. eapply event_arrives; eauto. }
  split; [done|]. apply rebuild_agrees; [done|]. intros id b Hb. by apply Hcur.
Qed.

End pipeline.

(** ** Without a restart *)

Section skipped.
Context `{ErrorText}.

(** The database refuses one statement, then answers. *)
Definition failing_world (d : DB) : World := mkWorld d [] [] 0 [] 0 0 [Some (ErrOther "connection refused")] [] [] [].
Definition accepting_broker : Broker := mkBroker (λ _, (Ok tt, true)) (λ _, (Ok tt, true)) (λ _, 0).
#[export] Instance accepting_broker_laws : BrokerLaws accepting_broker.
Proof. by split. Qed.

(** An event, and behind it a message that is no envelope. *)
Definition two_messages (env : Envelope) : Z → list Message := λ p,
  if bool_decide (p = 0) then [mkMessage "" (Enveloped env None); mkMessage "" (Malformed (ErrOther "unexpected end of JSON input"))] else [].

Definition skipping (d : DB) (env : Envelope) : Group :=
  let rec_at i := window 0 i 1 (two_messages env 0) in
  poll accepting_broker (failing_world d) (rec_at 1%nat)
    (poll accepting_broker (failing_world d) (rec_at 0%nat) (fresh_group d)).

Lemma window_partition p from n log r : r ∈ window p from n log → Fr_Partition r = p.
Proof. intros [j Hj]%list_elem_of_lookup. by apply window_lookup in Hj as (m & -> & _). Qed.

Lemma only_fetched env position i n : position 0 = i →
  fetched (two_messages env) position (λ _, n) (window 0 i n (two_messages env 0)).
Proof.
  intros Hp q. destruct (decide (q = 0)) as [->|Hne]; [rewrite Hp; apply filter_all_true; apply window_partition|].
  assert (Hw : window q (position q) n (two_messages env q) = []).
  { unfold two_messages. rewrite bool_decide_eq_false_2 by done. unfold window. by rewrite drop_nil, take_nil. }
  rewrite Hw. apply filter_all_false. intros r ->%window_partition. by intros <-.
Qed.

(** C21: without a restart a failure loses an event.  The client's position has moved past
    the batch when it stops, the next poll returns what follows, and committing that
    commits the failed record as well.  For any transaction event the projection has not
    seen there is a run of two polls, the database failing in the first, that ends with
    the event below the committed offset, unapplied, and not in the dead-letter topic. *)
Theorem failure_skips_event d env : is_transaction_event (Env_EventType env) = true →
  processed_events d !! Env_EventID env = None →
  rtc (group_step false) (no_messages, fresh_group d) (two_messages env, skipping d env) ∧
  (0 < gr_committed (skipping d env) 0)%nat ∧
  ¬ handled (gr_db (skipping d env)) (gr_dlq (skipping d env))
      (mkFetched TopicTransaction 0 0 (mkMessage "" (Enveloped env None))).
Proof.
  intros Hty Hnew.
  assert (H1 : poll accepting_broker (failing_world d) (window 0 0 1 (two_messages env 0)) (fresh_group d) =
    mkGroup d [] (λ _, O) (λ p, length (filter (λ r, Fr_Partition r = p) (window 0 0 1 (two_messages env 0))))).
  { assert (Hh : handle accepting_broker (mkFetched TopicTransaction 0 0 (mkMessage "" (Enveloped env None))) (to_consumed (failing_world d) (fresh_group d)) =
      (Err (ErrOther "connection refused"), mkConsumed (set_faults [] (failing_world d)) [] (λ _, O))).
    { unfold handle, apply_message, Apply. cbn [Ms_Value Fr_Message]. by rewrite Hty. }
    unfold poll, processBatch. replace (window 0 0 1 (two_messages env 0)) with [mkFetched TopicTransaction 0 0 (mkMessage "" (Enveloped env None))] by done.
    cbn [handle_records]. by rewrite Hh. }
  split; [|split].
  - eapply rtc_l; [apply (gs_append false no_messages (two_messages env)); intros p; apply prefix_nil|].
    eapply rtc_l; [apply (gs_poll false _ accepting_broker (failing_world d) (window 0 0 1 (two_messages env 0)) (λ _, 1%nat)); [apply _|done|by apply only_fetched|done]|].
    apply rtc_once. apply (gs_poll false _ _ _ _ (λ _, 1%nat)); [apply _|by rewrite H1| |done]. apply only_fetched. by rewrite H1.
  - unfold skipping. rewrite H1. vm_compute. lia.
  - assert (H2 : gr_db (skipping d env) = d ∧ gr_dlq (skipping d env) = [letter_of 0
      (mkFetched TopicTransaction 0 1 (mkMessage "" (Malformed (ErrOther "unexpected end of JSON input")))) (ErrOther "unexpected end of JSON input")])
      by (unfold skipping; rewrite H1; split; reflexivity).
    destruct H2 as [-> ->]. intros [(e & [= <-] & [x Hx])|(now & cause & Hl)]; [congruence|].
    apply list_elem_of_singleton in Hl. apply (f_equal Lt_Value) in Hl. done.
Qed.
End skipped.
