(* ===== verification/PipelineDemo.v ===== *)
(** * Concrete runs of the publisher and the consumer

    The outbox of the completed payout, published in batches of two; the funded
    database published in one cycle and consumed in one poll; and a group that
    dead-letters, fails and is restarted. *)

From S2P Require Import Prelude Errors Types SagaTypes Events Schema Invariant Frames.
From S2P Require Import Uuid Demo Projector System Payout PayoutDemo Publish Consumer Pipeline.
Open Scope string_scope.
Open Scope Z_scope.

Definition accepting : Producer := λ rs, (Ok tt, rs).
Definition pairs : PConfig := mkPConfig 0 2 0.
Definition drain_world : World := quiet_world completed_db 900.

#[local] Instance accepting_laws : ProducerLaws accepting.
Proof. split; [by intros rs out [= <-]|done]. Qed.

Definition ids_unique (d : DB) : bool := bool_decide (NoDup (o_id <$> outbox d)).


Definition cycle : res Z * World * list KRecord := publishBatch (polling_New accepting pairs) no_locks drain_world [].

Definition all_unpublished (d : DB) : bool := forallb (λ o, bool_decide (unpublished o)) (outbox d).

Lemma published_means_delivered_witness :
  Forall (λ o, o_published_at o ≠ None → row_record o ∈ cycle.2) (outbox (w_db cycle.1.2)) ∧
  (0 < length (outbox (w_db cycle.1.2)))%nat.
Proof.
  split; [|apply Nat.ltb_lt; vm_compute; reflexivity]. apply Forall_forall. intros o Ho%list_elem_of_In. revert o Ho.
  apply (published_means_delivered empty_DB (w_db cycle.1.2) cycle.2 eq_refl).
  apply (rtc_l _ _ (completed_db, [])).
  - apply (pub_write empty_DB completed_db (outbox completed_db)); [reflexivity| |].
    + intros o Ho. assert (Hall : all_unpublished completed_db = true) by (vm_compute; reflexivity).
      apply (forallb_elem _ _ o Hall) in Ho. by apply bool_decide_eq_true in Ho.
    + assert (Hu : ids_unique completed_db = true) by (vm_compute; reflexivity). by apply bool_decide_eq_true in Hu.
  - apply rtc_once.
    pose proof (pub_cycle (polling_New accepting pairs) no_locks drain_world [] accepting_laws) as Hs.
    fold cycle in Hs. destruct cycle as [[r w'] log']. exact Hs.
Defined.

(** ** One event through the pipeline *)

#[local] Instance pipeline_text : ErrorText := λ _, "error".

Definition one_partition (key : string) : Z := 0.
Definition publisher : Publisher := polling_New accepting (mkPConfig 0 0 0).
Definition published_state : res Z * World * list KRecord := publishBatch publisher no_locks (quiet_world funded_db 900) [].
Lemma published_run : publishBatch publisher no_locks (quiet_world funded_db 900) [] = (published_state.1.1, published_state.1.2, published_state.2).
Proof. unfold published_state. by destruct (publishBatch _ _ _ _) as [[? ?] ?]. Qed.
#[global] Opaque published_state.
Definition published_db : DB := w_db published_state.1.2.
Lemma quiet_db d n : w_db (quiet_world d n) = d.
Proof. reflexivity. Qed.
Definition before_poll : Group := with_db published_db (with_db funded_db (fresh_group empty_DB)).
Definition first_batch : list Fetched := window 0 0 10 (topic_log one_partition published_state.2 0).
Definition after_poll : Group := poll accepting_broker (quiet_world published_db 950) first_batch before_poll.

Lemma one_partition_fetched : fetched (topic_log one_partition published_state.2) (gr_position before_poll) (λ _, 10%nat) first_batch.
Proof. intros [|p|p]; vm_compute; reflexivity. Qed.

Lemma one_partition_done : stopped accepting_broker first_batch (to_consumed (quiet_world published_db 950) before_poll) = false.
Proof. vm_compute. reflexivity. Qed.

Definition none_unpublished (d : DB) : bool := forallb (λ o, negb (bool_decide (unpublished o))) (outbox d).

Lemma pipeline_runs : rtc (pipe_step one_partition) ([], fresh_group empty_DB) (published_state.2, after_poll).
Proof.
  eapply rtc_l; [apply (pi_write one_partition [] (fresh_group empty_DB) funded_db (outbox funded_db)); [exact funded_reachable|done| |]|].
  - intros o Ho. assert (Hall : forallb (λ o, bool_decide (unpublished o)) (outbox funded_db) = true) by (vm_compute; reflexivity).
    apply (forallb_elem _ _ o Hall) in Ho. by apply bool_decide_eq_true in Ho.
  - assert (Hu : bool_decide (NoDup (o_id <$> outbox funded_db)) = true) by (vm_compute; reflexivity). by apply bool_decide_eq_true in Hu.
  - eapply rtc_l; [apply (pi_published_by one_partition publisher no_locks (quiet_world funded_db 900) [] (with_db funded_db (fresh_group empty_DB))
      published_state.1.1 published_state.1.2 published_state.2 accepting_laws eq_refl published_run)|].
    exact (rtc_once _ _ (pi_poll one_partition published_state.2 accepting_broker (quiet_world published_db 950) first_batch (λ _, 10%nat)
      before_poll _ (quiet_db published_db 950) one_partition_fetched one_partition_done)).
Qed.

Lemma pipeline_converges_witness :
  default 0 (bp_available_minor <$> balance_projections (gr_db after_poll) !! wallet_id) = 500 ∧
  RebuildResult_OK (Rebuild [] (gr_db after_poll)) = true.
Proof.
  assert (Hb : (b_available_minor <$> account_balances (gr_db after_poll) !! wallet_id) = Some 500) by (vm_compute; reflexivity).
  apply fmap_Some in Hb as (b & Hb & ->).
  destruct (pipeline_converges one_partition published_state.2 after_poll [] pipeline_runs) as [Hcur Hr].
  - intros o Ho. assert (Hall : none_unpublished (gr_db after_poll) = true) by (vm_compute; reflexivity).
    apply (forallb_elem _ _ o Hall) in Ho. by apply negb_true_iff, bool_decide_eq_false in Ho.
  - intros [|p|p]; vm_compute; reflexivity.
  - vm_compute. reflexivity.
  - split; [apply (Hcur wallet_id b Hb)|exact Hr].
Defined.

(** The event fails, the process restarts, and the next polls apply it and dead-letter
    the message behind it. *)
Definition both : list Fetched := window 0 0 2 (two_messages (o_payload funding_event) 0).
Definition failed_once : Group := restart (poll accepting_broker (failing_world funded_db) both (fresh_group funded_db)).
Definition retried : Group := poll accepting_broker (quiet_world funded_db 950) both failed_once.

Lemma committed_means_handled_witness :
  (gr_committed retried 0 = 2)%nat ∧
  handled (gr_db retried) (gr_dlq retried) (mkFetched TopicTransaction 0 0 (mkMessage "" (Enveloped (o_payload funding_event) None))).
Proof.
  assert (Hc : gr_committed retried 0 = 2%nat) by (vm_compute; reflexivity). split; [exact Hc|].
  apply (committed_means_handled funded_db (two_messages (o_payload funding_event)) retried) with (i := O); [| |reflexivity].
  - eapply rtc_l; [apply (gs_append true no_messages (two_messages (o_payload funding_event))); intros p; apply prefix_nil|].
    refine (rtc_l _ _ _ _ (gs_crash true (two_messages (o_payload funding_event)) accepting_broker (failing_world funded_db) both (λ _, 2%nat)
      (fresh_group funded_db) _ eq_refl (only_fetched _ _ _ _ eq_refl)) _). fold failed_once.
    assert (H1 : funded_db = gr_db failed_once) by (vm_compute; reflexivity).
    assert (H2 : gr_position failed_once 0 = O) by (vm_compute; reflexivity).
    assert (H3 : stopped accepting_broker both (to_consumed (quiet_world funded_db 950) failed_once) = false) by (vm_compute; reflexivity).
    exact (rtc_once _ _ (gs_poll true (two_messages (o_payload funding_event)) accepting_broker (quiet_world funded_db 950) both (λ _, 2%nat)
      failed_once _ H1 (only_fetched _ _ _ _ H2) (λ _, H3))).
  - rewrite Hc. lia.
Defined.

Lemma failure_skips_event_witness :
  ¬ handled (gr_db (skipping funded_db (o_payload funding_event))) (gr_dlq (skipping funded_db (o_payload funding_event)))
      (mkFetched TopicTransaction 0 0 (mkMessage "" (Enveloped (o_payload funding_event) None))).
Proof.
  refine (proj2 (proj2 (failure_skips_event funded_db (o_payload funding_event) _ _))); vm_compute; reflexivity.
Defined.
