(* ===== verification/Mock.v ===== *)
(** * The mock payment gateway (internal/gateway/mock/server.go)

    The in-memory gateway the payout saga is run against.  Calls of [pay] run
    concurrently, one critical section at a time; what differs between them (whether the
    client waits, the dice, the reference and the clock) is a parameter of each.  Bodies
    are JSON values; a request that is never answered has no response.  Then what the
    client of client.go can rely on while the process lives and calls under its key do
    not overlap: the key is paid once, and what the client reports is on the book. *)

From S2P Require Import Prelude Errors Money Strconv Json MoneyJson Types Schema Gateway JsonText Canonical CanonicalStr TimeText JsonMarshal HttpDto.
From Stdlib Require Import Ascii.
Open Scope string_scope.
Open Scope Z_scope.

Definition HangNone := "".
Definition HangBeforeRecording := "before".
Definition HangAfterRecording := "after".

Record Behaviour := mkBehaviour { Bh_Outcome : string; Bh_LatencyMS : Z; Bh_Hang : string; Bh_FailureRatePercent : Z }.

Record MockServer := mkMockServer { mk_behaviour : Behaviour; mk_payments : gmap string Payment }.

Definition mock_New : MockServer := mkMockServer (mkBehaviour "" 0 "" 0) ∅.

Definition SetBehaviour (b : Behaviour) (s : MockServer) : MockServer := mkMockServer b (mk_payments s).
Definition mock_Payment (key : string) (s : MockServer) : option Payment := mk_payments s !! key.
Definition mock_Count (s : MockServer) : nat := size (mk_payments s).

(** A response, or none: the handler returned with the client gone. *)
Definition reply_ : Type := option (Z * option json).

Definition mock_writeError (status : Z) (detail : string) : reply_ := Some (status, Some (JObject [("detail", JString detail)])).

Definition mock_write (p : Payment) : reply_ :=
  Some (200, Some (JObject
    [ ("amount_minor", JInt (Pay_AmountMinor p)); ("created_at", JString (str (format_rfc3339 (Pay_CreatedAt p))));
      ("currency", JString (Pay_Currency p)); ("idempotency_key", JString (Pay_Key p)); ("reason", JString (Pay_Reason p));
      ("reference", JString (Pay_Reference p)); ("status", JString (Pay_Status p)) ])).

(** ** Decoding *)

(** An [int64] or [int] field. *)
Definition decode_int (cur : Z) (v : json) (saved : option error) : Z * option error :=
  match v with
  | JNumber lit => match ParseInt lit with Ok n => (n, saved) | Err _ => (cur, saveError saved UnmarshalTypeError) end
  | JNull => (cur, saved)
  | _ => (cur, saveError saved UnmarshalTypeError)
  end.

Record payRequest := mkPayRequest { Pq_AmountMinor : Z; Pq_Currency : string; Pq_Reference : string }.

(** Unknown members are skipped. *)
Definition pay_field (r : payRequest) (k : string) (v : json) (saved : option error) : option (res (payRequest * option error)) :=
  let 'mkPayRequest a c ref := r in
  Some (Ok (
    if field_matches "amount_minor" k then let '(x, saved) := decode_int a v saved in (mkPayRequest x c ref, saved)
    else if field_matches "currency" k then let '(x, saved) := decode_string c v saved in (mkPayRequest a x ref, saved)
    else if field_matches "reference" k then let '(x, saved) := decode_string ref v saved in (mkPayRequest a c x, saved)
    else (r, saved))).

Definition decode_pay (body : option json) : res payRequest :=
  v ← match body with Some v => Ok v | None => Err SyntaxError end; decoded (decode_struct pay_field (mkPayRequest 0 "" "") v None).

Definition behaviour_field (b : Behaviour) (k : string) (v : json) (saved : option error) : option (res (Behaviour * option error)) :=
  let 'mkBehaviour o l h f := b in
  Some (Ok (
    if field_matches "outcome" k then let '(x, saved) := decode_string o v saved in (mkBehaviour x l h f, saved)
    else if field_matches "latency_ms" k then let '(x, saved) := decode_int l v saved in (mkBehaviour o x h f, saved)
    else if field_matches "hang" k then let '(x, saved) := decode_string h v saved in (mkBehaviour o l x f, saved)
    else if field_matches "failure_rate_percent" k then let '(x, saved) := decode_int f v saved in (mkBehaviour o l h x, saved)
    else (b, saved))).

Definition decode_behaviour (body : option json) : res Behaviour :=
  v ← match body with Some v => Ok v | None => Err SyntaxError end; decoded (decode_struct behaviour_field (mkBehaviour "" 0 "" 0) v None).

(** ** Handlers *)

(** The client waits out the latency; [rand.IntN(100)]; the id of a new payment; the time. *)
Record conditions := mkConditions { co_waits : bool; co_dice : Z; co_id : string; co_now : Time }.

(** *** [pay], between its critical sections *)

(** The request before the book is looked at: refused, or to be decided. *)
Definition pay_validate (key : string) (body : option json) : reply_ + payRequest :=
  if bool_decide (key = "") then inl (mock_writeError 400 "the Idempotency-Key header is required")
  else
    match decode_pay body with
    | Err _ => inl (mock_writeError 400 "malformed request body")
    | Ok req =>
        if (Pq_AmountMinor req <=? 0) || bool_decide (Pq_Currency req = "")
        then inl (mock_writeError 422 "amount_minor must be positive and currency is required")
        else inr req
    end.

(** The first section, [s.Payment(key)]: the payment is replayed, or there is none. *)
Definition pay_replay (key : string) (s : MockServer) : option reply_ := mock_write <$> mock_Payment key s.

(** The second, [s.current()]: what the rest of the call works with. *)
Record pay_pending := mkPending { pd_key : string; pd_request : payRequest; pd_behaviour : Behaviour }.
Definition mock_current (s : MockServer) : Behaviour := mk_behaviour s.

(** The rest of [pay], whose one section is the write of the payment. *)
Definition pay_record (co : conditions) (p : pay_pending) (s : MockServer) : reply_ * MockServer * list Payment :=
  let b := pd_behaviour p in
  if (0 <? Bh_LatencyMS b) && negb (co_waits co) then (None, s, [])
  else if bool_decide (Bh_Hang b = HangBeforeRecording) then (None, s, [])
  else
    let outcome := if (0 <? Bh_FailureRatePercent b) && (co_dice co <? Bh_FailureRatePercent b) then "error" else Bh_Outcome b in
    if bool_decide (outcome = "error") then (mock_writeError 500 "gateway is having a bad day", s, [])
    else
      let declined := bool_decide (outcome = "decline") in
      let payment := mkPayment (pd_key p) ("gw_" +:+ co_id co)
        (if declined then gateway_StatusFailed else gateway_StatusSucceeded)
        (if declined then "insufficient funds at the destination bank" else "")
        (Pq_AmountMinor (pd_request p)) (Pq_Currency (pd_request p)) (co_now co) in
      let s' := mkMockServer (mk_behaviour s) (<[pd_key p := payment]> (mk_payments s)) in
      if bool_decide (Bh_Hang b = HangAfterRecording) then (None, s', [payment]) else (mock_write payment, s', [payment]).

(** [probe], with the behaviour it read before it may have waited. *)
Definition mock_probe (b : Behaviour) (co : conditions) (key : string) (s : MockServer) : reply_ :=
  if (0 <? Bh_LatencyMS b) && negb (co_waits co) then None
  else match mock_Payment key s with None => mock_writeError 404 "no payment exists under this key" | Some p => mock_write p end.

Definition mock_setBehaviour (body : option json) (s : MockServer) : reply_ * MockServer :=
  match decode_behaviour body with
  | Err _ => (mock_writeError 400 "malformed behaviour", s)
  | Ok b => (Some (204, None), SetBehaviour b s)
  end.

(** ** Concurrent calls *)

(** Where a call of [pay] is. *)
Inductive pay_phase :=
| Validated (req : payRequest)
| NotFound (req : payRequest)
| Decided (p : pay_pending).

Record call_ := mkCall { cl_key : string; cl_body : option json; cl_phase : pay_phase }.

(** A call that has ended, with its response. *)
Record ended := mkEnded { en_key : string; en_body : option json; en_reply : reply_ }.

(** The process: the server, the calls of [pay] that run, those that ended, and every
    payment ever put on the book.  The last two are history that no code reads. *)
Record MockProcess := mkMockProcess {
  mp_server : MockServer; mp_calls : gmap nat call_; mp_ended : list ended; mp_booked : list Payment }.

Definition mock_started : MockProcess := mkMockProcess mock_New ∅ [] [].

(** A request arrives, a call goes through its next section, the behaviour is changed. *)
Inductive mock_action :=
| Arrives (id : nat) (key : string) (body : option json)
| LooksUp (id : nat)
| ReadsBehaviour (id : nat)
| Finishes (id : nat) (co : conditions)
| PostBehaviour (body : option json).

Definition end_call (id : nat) (c : call_) (r : reply_) (s : MockServer) (new : list Payment) (m : MockProcess) : MockProcess :=
  mkMockProcess s (delete id (mp_calls m)) (mp_ended m ++ [mkEnded (cl_key c) (cl_body c) r])%list (mp_booked m ++ new)%list.

Definition set_phase (id : nat) (c : call_) (ph : pay_phase) (m : MockProcess) : MockProcess :=
  mkMockProcess (mp_server m) (<[id := mkCall (cl_key c) (cl_body c) ph]> (mp_calls m)) (mp_ended m) (mp_booked m).

(** [None] when the call is not there or not at that section. *)
Definition mock_do (a : mock_action) (m : MockProcess) : option MockProcess :=
  match a with
  | Arrives id key body =>
      match mp_calls m !! id with
      | Some _ => None
      | None =>
          match pay_validate key body with
          | inl r => Some (mkMockProcess (mp_server m) (mp_calls m) (mp_ended m ++ [mkEnded key body r])%list (mp_booked m))
          | inr req => Some (set_phase id (mkCall key body (Validated req)) (Validated req) m)
          end
      end
  | LooksUp id =>
      match mp_calls m !! id with
      | Some (mkCall key body (Validated req) as c) =>
          match pay_replay key (mp_server m) with
          | Some r => Some (end_call id c r (mp_server m) [] m)
          | None => Some (set_phase id c (NotFound req) m)
          end
      | _ => None
      end
  | ReadsBehaviour id =>
      match mp_calls m !! id with
      | Some (mkCall key body (NotFound req) as c) =>
          Some (set_phase id c (Decided (mkPending key req (mock_current (mp_server m)))) m)
      | _ => None
      end
  | Finishes id co =>
      match mp_calls m !! id with
      | Some (mkCall key body (Decided p) as c) =>
          let '(r, s', booked) := pay_record co p (mp_server m) in
          Some (end_call id c r s' booked m)
      | _ => None
      end
  | PostBehaviour body =>
      Some (mkMockProcess (mock_setBehaviour body (mp_server m)).2 (mp_calls m) (mp_ended m) (mp_booked m))
  end.

(** ** The client's side of the wire (client.go) *)

(** The body [Pay] sends. *)
Definition pay_body (req : PaymentRequest) : json :=
  JObject [ ("amount_minor", JInt (Preq_AmountMinor req)); ("currency", JString (Preq_Currency req));
            ("reference", JString (Preq_Reference req)) ].

(** [paymentResponse] with its time still text. *)
Record wireResponse := mkWire { wi_Key : string; wi_Reference : string; wi_Status : string; wi_Reason : string;
  wi_AmountMinor : Z; wi_Currency : string; wi_CreatedAt : string }.

Definition response_field (r : wireResponse) (k : string) (v : json) (saved : option error) : option (res (wireResponse * option error)) :=
  let 'mkWire key ref st rs a c t := r in
  Some (Ok (
    if field_matches "idempotency_key" k then let '(x, saved) := decode_string key v saved in (mkWire x ref st rs a c t, saved)
    else if field_matches "reference" k then let '(x, saved) := decode_string ref v saved in (mkWire key x st rs a c t, saved)
    else if field_matches "status" k then let '(x, saved) := decode_string st v saved in (mkWire key ref x rs a c t, saved)
    else if field_matches "reason" k then let '(x, saved) := decode_string rs v saved in (mkWire key ref st x a c t, saved)
    else if field_matches "amount_minor" k then let '(x, saved) := decode_int a v saved in (mkWire key ref st rs x c t, saved)
    else if field_matches "currency" k then let '(x, saved) := decode_string c v saved in (mkWire key ref st rs a x t, saved)
    else if field_matches "created_at" k then let '(x, saved) := decode_string t v saved in (mkWire key ref st rs a c x, saved)
    else (r, saved))).

(** The zero time when the text is none. *)
Definition wire_response (w : wireResponse) : paymentResponse :=
  mk_paymentResponse (wi_Key w) (wi_Reference w) (wi_Status w) (wi_Reason w) (wi_AmountMinor w) (wi_Currency w)
    (default time_zero (parse_rfc3339 (bytes_of (wi_CreatedAt w)))).

Definition decode_response (body : option json) : option paymentResponse :=
  match body with
  | Some v =>
      match decoded (decode_struct response_field (mkWire "" "" "" "" 0 "" "") v None) with
      | Ok w => Some (wire_response w)
      | Err _ => None
      end
  | None => None
  end.

(** What [http.Client.Do] makes of a reply: the deadline fires when there is none, or when
    it was [lost] on the way. *)
Definition exchange_of (lost : bool) (r : reply_) : exchange :=
  match r with
  | Some (code, body) => if lost then NoResponse (TransportOther "connection reset") else Response code (decode_response body)
  | None => NoResponse TransportDeadline
  end.

(** What [Pay] and [Probe] report for a reply of the gateway. *)
Definition client_Pay (lost : bool) (req : PaymentRequest) (r : reply_) : answer :=
  gateway_do (exchange_of lost r) (Preq_IdempotencyKey req).

Definition client_Probe (b : Behaviour) (co : conditions) (lost : bool) (key : string) (s : MockServer) : answer :=
  gateway_do (exchange_of lost (mock_probe b co key s)) key.

(** Field names are compared by evaluation. *)
Ltac fields :=
  repeat match goal with
  | |- context [field_matches ?a ?b] => let v := eval vm_compute in (field_matches a b) in change (field_matches a b) with v
  end.

(** ** Across the wire *)

(** What the client can send and the gateway can print: an [int64] amount, a time of a year
    of at most four digits. *)
Definition sendable (req : PaymentRequest) : Prop := is_int64 (Preq_AmountMinor req).
Definition timely (co : conditions) : Prop := printable (co_now co).

Lemma decode_pay_body req : sendable req →
  decode_pay (Some (pay_body req)) = Ok (mkPayRequest (Preq_AmountMinor req) (Preq_Currency req) (Preq_Reference req)).
Proof. intros Hs. unfold decode_pay, pay_body, JInt. cbn -[ParseInt FormatInt]. fields. cbn -[ParseInt FormatInt]. rewrite ParseInt_FormatInt by done.
  do 2 (cbn; fields). reflexivity. Qed.

Record payment_ok (key : string) (p : Payment) : Prop := {
  po_key : Pay_Key p = key;
  po_named : key ≠ "";
  po_status : Pay_Status p = gateway_StatusSucceeded ∨ Pay_Status p = gateway_StatusFailed;
  po_amount : 0 < Pay_AmountMinor p ≤ max_int64;
  po_currency : Pay_Currency p ≠ "";
  po_time : printable (Pay_CreatedAt p) }.

(** What the client answers for a payment on record. *)
Definition answer_of (p : Payment) : answer :=
  (Some p, if bool_decide (Pay_Status p = gateway_StatusSucceeded) then None else Some ErrPaymentDeclined).

Lemma payment_crosses key p : payment_ok key p → gateway_do (exchange_of false (mock_write p)) key = answer_of p.
Proof.
  intros [Hk Hn Hst Ha Hc Ht]. unfold mock_write, exchange_of, decode_response, JInt.
  assert (Hi : ParseInt (FormatInt (Pay_AmountMinor p)) = Ok (Pay_AmountMinor p)) by (apply ParseInt_FormatInt; unfold min_int64; lia).
  assert (Hp : parse_rfc3339 (bytes_of (str (format_rfc3339 (Pay_CreatedAt p)))) = Some (Pay_CreatedAt p)) by (by rewrite bytes_str, parse_format_rfc3339).
  destruct p as [k r st rs a c t]. cbn [Pay_Key Pay_Reference Pay_Status Pay_Reason Pay_AmountMinor Pay_Currency Pay_CreatedAt] in *.
  revert Hp Hi. generalize (str (format_rfc3339 t)) (FormatInt a). intros time lit Hp Hi. cbn -[parse_rfc3339 ParseInt]. fields.
  cbn -[parse_rfc3339 ParseInt]. rewrite Hi. do 6 (cbn -[parse_rfc3339 ParseInt]; fields). unfold wire_response. cbn -[parse_rfc3339 ParseInt]. rewrite Hp. cbn.
  rewrite (bool_decide_eq_false_2 (k = "")) by congruence. unfold answer_of. destruct Hst as [->| ->]; done.
Qed.

Lemma lost_is_unknown key r : ∃ e, gateway_do (exchange_of true r) key = (None, Some e) ∧ Conclusive (Some e) = false.
Proof. destruct r as [[code body]|]; eexists; split; done. Qed.

(** ** The gateway's book *)

Definition mock_wf (s : MockServer) : Prop := map_Forall payment_ok (mk_payments s).

Lemma pay_record_cases co p s r s' booked : pay_record co p s = (r, s', booked) →
  (s' = s ∧ booked = [] ∧ (r = None ∨ r = mock_writeError 500 "gateway is having a bad day")) ∨
  ∃ payment, booked = [payment] ∧ mk_payments s' = <[pd_key p := payment]> (mk_payments s) ∧ (r = None ∨ r = mock_write payment) ∧
    Pay_Key payment = pd_key p ∧ (Pay_Status payment = gateway_StatusSucceeded ∨ Pay_Status payment = gateway_StatusFailed) ∧
    Pay_AmountMinor payment = Pq_AmountMinor (pd_request p) ∧ Pay_Currency payment = Pq_Currency (pd_request p) ∧
    Pay_CreatedAt payment = co_now co.
Proof.
  unfold pay_record. destruct (_ && _); [intros [= <- <- <-]; auto|]. case_bool_decide; [intros [= <- <- <-]; auto|].
  case_bool_decide; [intros [= <- <- <-]; auto|]. intros Hr. right. eexists. revert Hr.
  case_bool_decide; intros [= <- <- <-]; simpl; (split_and!; [reflexivity|reflexivity|auto|done|by case_bool_decide; auto|done..]).
Qed.

Lemma decode_pay_range body req : decode_pay body = Ok req → Pq_AmountMinor req ≤ max_int64.
Proof.
  unfold decode_pay, decoded. destruct body as [v|]; [|done]. cbn [mbind result_bind].
  destruct (decode_struct _ _ _ _) as [[r [e|]]|] eqn:Hd; try done. intros [= <-]. revert Hd.
  apply (decode_struct_inv (λ r, Pq_AmountMinor r ≤ max_int64)); [|done]. intros [a c ref] k x saved s' saved' Ha. cbn. intros [= Hs].
  destruct (field_matches "amount_minor" k); [|destruct (field_matches "currency" k); [|destruct (field_matches "reference" k)]].
  - unfold decode_int in Hs. destruct x as [| |lit|?| |]; try (injection Hs as <- <-; done). destruct (ParseInt lit) eqn:Hp; injection Hs as <- <-; [|done].
    by apply ParseInt_range in Hp as [_ Hp].
  - destruct (decode_string _ _ _). by injection Hs as <- <-.
  - destruct (decode_string _ _ _). by injection Hs as <- <-.
  - by injection Hs as <- <-.
Qed.

(** ** One key *)

Section one_key.
Context (key : string).

(** The request a call carries, checked. *)
Definition phase_request (ph : pay_phase) : payRequest :=
  match ph with Validated req | NotFound req => req | Decided p => pd_request p end.

Definition call_ok (c : call_) : Prop :=
  cl_key c ≠ "" ∧ decode_pay (cl_body c) = Ok (phase_request (cl_phase c)) ∧
  0 < Pq_AmountMinor (phase_request (cl_phase c)) ≤ max_int64 ∧ Pq_Currency (phase_request (cl_phase c)) ≠ "" ∧
  match cl_phase c with Decided p => pd_key p = cl_key c | _ => True end.

(** The call has found nothing on the book and may still put a payment there. *)
Definition undecided (c : call_) : bool := match cl_phase c with Validated _ => false | _ => true end.

(** What a reply means for the client that sent [body]. *)
Definition reply_ok (body : option json) (r : reply_) (s : MockServer) : Prop :=
  (∃ p, r = mock_write p ∧ mock_Payment key s = Some p) ∨ r = None ∨
  r = mock_writeError 500 "gateway is having a bad day" ∨ pay_validate key body = inl r.

(** No two calls under the key run at the same time. *)
Definition apart (a : mock_action) (m : MockProcess) : Prop :=
  match a with
  | Arrives _ k _ => k = key → ∀ i c, mp_calls m !! i = Some c → cl_key c ≠ key
  | Finishes _ co => timely co
  | _ => True
  end.

Inductive mock_step : MockProcess → MockProcess → Prop :=
| mock_acts a m m' : apart a m → mock_do a m = Some m' → mock_step m m'.

Record mock_inv (m : MockProcess) : Prop := {
  mi_book : map_Forall payment_ok (mk_payments (mp_server m));
  mi_calls : map_Forall (λ _ c, call_ok c) (mp_calls m);
  mi_apart : ∀ i j c d, mp_calls m !! i = Some c → mp_calls m !! j = Some d → cl_key c = key → cl_key d = key → i = j;
  mi_undecided : ∀ i c, mp_calls m !! i = Some c → cl_key c = key → undecided c = true → mock_Payment key (mp_server m) = None;
  mi_booked : filter (λ p, Pay_Key p = key) (mp_booked m) = option_list (mock_Payment key (mp_server m));
  mi_requested : ∀ p, mock_Payment key (mp_server m) = Some p → ∃ e req, e ∈ mp_ended m ∧ en_key e = key ∧
    decode_pay (en_body e) = Ok req ∧ Pay_AmountMinor p = Pq_AmountMinor req ∧ Pay_Currency p = Pq_Currency req;
  mi_ended : ∀ e, e ∈ mp_ended m → en_key e = key → reply_ok (en_body e) (en_reply e) (mp_server m) }.

Lemma mock_started_inv : mock_inv mock_started.
Proof. split; simpl; try done. by intros e He%not_elem_of_nil. Qed.

Lemma pay_validate_ok body req : ∀ k, pay_validate k body = inr req → call_ok (mkCall k body (Validated req)).
Proof.
  intros k. unfold pay_validate, call_ok. case_bool_decide; [done|]. destruct (decode_pay body) as [q|] eqn:Hd; [|done].
  apply decode_pay_range in Hd as Hr. destruct (_ || _) eqn:Hg; [done|]. intros [= <-]. cbn.
  apply orb_false_iff in Hg as [Hg1 Hg2%bool_decide_eq_false]. split_and!; auto; lia.
Qed.

(** The book only gained: what was true of replies stays true. *)
Lemma reply_ok_mono body r s s' : (∀ p, mock_Payment key s = Some p → mock_Payment key s' = Some p) →
  reply_ok body r s → reply_ok body r s'.
Proof. intros Hs [(p & -> & Hp)|?]; [left; eauto|by right]. Qed.

(** A call goes on: its phase changes, everything else stays. *)
Lemma set_phase_inv id c ph m : mock_inv m → mp_calls m !! id = Some c ∨ mp_calls m !! id = None ∧
    (cl_key c = key → ∀ i d, mp_calls m !! i = Some d → cl_key d ≠ key) →
  call_ok (mkCall (cl_key c) (cl_body c) ph) →
  (cl_key c = key → undecided (mkCall (cl_key c) (cl_body c) ph) = true → mock_Payment key (mp_server m) = None) →
  mock_inv (set_phase id c ph m).
Proof.
  intros [B C A U K Q E] Hid Hok Hund. split; simpl; try done.
  - by apply map_Forall_insert_2.
  - intros i j x y [[<- <-]|[Hi Hx]]%lookup_insert_Some [[<- <-]|[Hj Hy]]%lookup_insert_Some Hkx Hky; simpl in *; try done.
    + destruct Hid as [Hid|[_ Hid]]; [by eapply A|by destruct (Hid Hkx j y Hy)].
    + destruct Hid as [Hid|[_ Hid]]; [by eapply A|by destruct (Hid Hky i x Hx)].
    + by eapply A.
  - intros i x [[<- <-]|[Hi Hx]]%lookup_insert_Some; simpl; [exact Hund|by eapply U].
Qed.

(** A call ends without touching the book. *)
Lemma end_call_inv id c r m : mock_inv m → mp_calls m !! id = Some c →
  (cl_key c = key → reply_ok (cl_body c) r (mp_server m)) → mock_inv (end_call id c r (mp_server m) [] m).
Proof.
  intros [B C A U K Q E] Hid Hr. split; simpl; rewrite ?app_nil_r; try done.
  - by apply map_Forall_delete.
  - intros i j x y [_ Hx]%lookup_delete_Some [_ Hy]%lookup_delete_Some. by eapply A.
  - intros i x [_ Hx]%lookup_delete_Some. by eapply U.
  - intros p (e & req & He & ?)%Q. exists e, req. split; [set_solver|done].
  - intros e [He|He]%elem_of_app Hk; [by apply E|]. apply list_elem_of_singleton in He as ->. by apply Hr.
Qed.

(** A call ends with a payment on the book. *)
Lemma pay_call_inv id c p r s' co payment m : mock_inv m → mp_calls m !! id = Some c → cl_phase c = Decided p → timely co →
  mk_payments s' = <[pd_key p := payment]> (mk_payments (mp_server m)) → (r = None ∨ r = mock_write payment) →
  Pay_Key payment = pd_key p → (Pay_Status payment = gateway_StatusSucceeded ∨ Pay_Status payment = gateway_StatusFailed) →
  Pay_AmountMinor payment = Pq_AmountMinor (pd_request p) → Pay_Currency payment = Pq_Currency (pd_request p) →
  Pay_CreatedAt payment = co_now co → mock_inv (end_call id c r s' [payment] m).
Proof.
  intros [B C A U K Q E] Hid Hph Ht Hs Hr Hpk Hst Ham Hcur Hat.
  destruct (C id c Hid) as (Hne & Hdec & Hpos & Hccy & Hkey). rewrite Hph in Hdec, Hpos, Hccy, Hkey. simpl in *.
  assert (Hnone : cl_key c = key → mock_Payment key (mp_server m) = None) by (intros Hk; apply (U id c Hid Hk); unfold undecided; by rewrite Hph).
  assert (Hget : mock_Payment key s' = if decide (cl_key c = key) then Some payment else mock_Payment key (mp_server m)).
  { unfold mock_Payment. rewrite Hs, Hkey. case_decide as Hk; [rewrite Hk; apply lookup_insert_eq|by apply lookup_insert_ne]. }
  split; simpl.
  - rewrite Hs. apply map_Forall_insert_2; [|done]. split; rewrite ?Hkey, ?Ham, ?Hcur, ?Hat; try done. by rewrite Hpk.
  - by apply map_Forall_delete.
  - intros i j x y [_ Hx]%lookup_delete_Some [_ Hy]%lookup_delete_Some. by eapply A.
  - intros i x [Hi Hx]%lookup_delete_Some Hk Hu. rewrite Hget. case_decide as Hck; [|by eapply U].
    destruct Hi. by eapply A.
  - rewrite list.filter_app, K, Hget. case_decide as Hck.
    + rewrite (Hnone Hck), filter_cons_True by congruence. done.
    + rewrite filter_cons_False by congruence. by rewrite app_nil_r.
  - intros x Hx. rewrite Hget in Hx. case_decide as Hck.
    + injection Hx as <-. eexists _, (pd_request p). split; [apply elem_of_app; right; by apply list_elem_of_singleton|]. done.
    + apply Q in Hx as (e & req & He & ?). exists e, req. split; [set_solver|done].
  - intros e [He|He]%elem_of_app Hk.
    + eapply reply_ok_mono; [|by apply E]. intros x Hx. rewrite Hget. case_decide as Hck; [|done]. rewrite (Hnone Hck) in Hx. done.
    + apply list_elem_of_singleton in He as ->. simpl in *. rewrite Hk in *. destruct Hr as [->| ->]; [by right; left|].
      left. exists payment. split; [done|]. rewrite Hget. by case_decide.
Qed.

Lemma mock_step_inv m m' : mock_step m m' → mock_inv m → mock_inv m'.
Proof.
  intros [a m0 m1 Hap Hdo] Hinv. destruct a as [id k body|id|id|id co|body]; simpl in *.
  - destruct (mp_calls m0 !! id) as [c|] eqn:Hid; [done|]. destruct (pay_validate k body) as [r|req] eqn:Hv; injection Hdo as <-.
    + destruct Hinv as [B C A U K Q E]. split; simpl; try done.
      * intros p (e & req & He & ?)%Q. exists e, req. split; [set_solver|done].
      * intros e [He|He]%elem_of_app Hk; [by apply E|]. apply list_elem_of_singleton in He as ->. simpl in *. subst. by do 3 right.
    + apply (set_phase_inv id (mkCall k body (Validated req))); [done|by right|by apply pay_validate_ok|done].
  - destruct (mp_calls m0 !! id) as [[k body [req| |]]|] eqn:Hid; try done. unfold pay_replay in Hdo.
    destruct (mock_Payment k (mp_server m0)) as [p|] eqn:Hp; injection Hdo as <-.
    + apply end_call_inv; [done|done|]. simpl. intros ->. left. eauto.
    + pose proof (mi_calls _ Hinv id _ Hid) as Hok. apply set_phase_inv; [done|by left|by destruct Hok as (?&?&?&?&_)|simpl; by intros ->].
  - destruct (mp_calls m0 !! id) as [[k body [|req|]]|] eqn:Hid; try done. injection Hdo as <-.
    pose proof (mi_calls _ Hinv id _ Hid) as (H1 & H2 & H3 & H4 & _).
    apply set_phase_inv; [done|by left|exact (conj H1 (conj H2 (conj H3 (conj H4 eq_refl))))|]. simpl. intros Hk _. by apply (mi_undecided _ Hinv id _ Hid).
  - destruct (mp_calls m0 !! id) as [[k body [| |p]]|] eqn:Hid; try done.
    destruct (pay_record co p (mp_server m0)) as [[r s'] booked] eqn:Hp. injection Hdo as <-.
    apply pay_record_cases in Hp as [(-> & -> & Hr)|(pay & -> & Hs & Hr & H1 & H2 & H3 & H4 & H5)].
    + apply end_call_inv; [done|done|]. intros _. destruct Hr as [->| ->]; [by right; left|by do 2 right; left].
    + by eapply pay_call_inv.
  - injection Hdo as <-. destruct Hinv as [B C A U K Q E]. unfold mock_setBehaviour. destruct (decode_behaviour body); by split.
Qed.

Lemma mock_steps_inv m : rtc mock_step mock_started m → mock_inv m.
Proof.
  intros Hs. assert (Hgo : ∀ m m', rtc mock_step m m' → mock_inv m → mock_inv m').
  { clear. induction 1; [done|]. eauto using mock_step_inv. }
  exact (Hgo _ _ Hs mock_started_inv).
Qed.

Lemma probe_conclusive b co lost s : map_Forall payment_ok (mk_payments s) → Conclusive (client_Probe b co lost key s).2 = true →
  client_Probe b co lost key s = match mock_Payment key s with Some p => answer_of p | None => (None, Some ErrPaymentNotFound) end.
Proof.
  intros Hwf. unfold client_Probe. destruct lost.
  { destruct (lost_is_unknown key (mock_probe b co key s)) as (e & -> & He). simpl. simpl in He. congruence. }
  unfold mock_probe. destruct (_ && _); [done|]. destruct (mock_Payment key s) as [p|] eqn:Hp; [|done]. intros _.
  apply payment_crosses. by apply (Hwf key).
Qed.

(** What the client reports for a reply is on the book. *)
Lemma pay_reported lost req r s : map_Forall payment_ok (mk_payments s) → sendable req → Preq_IdempotencyKey req = key →
  reply_ok (Some (pay_body req)) r s →
  (∃ p, client_Pay lost req r = answer_of p ∧ mock_Payment key s = Some p) ∨
  (∃ e, client_Pay lost req r = (None, Some e) ∧ (Conclusive (Some e) = true →
     key = "" ∨ Preq_AmountMinor req ≤ 0 ∨ Preq_Currency req = "")).
Proof.
  intros Hwf Hs Hk Hr. unfold client_Pay. rewrite Hk.
  destruct lost; [destruct (lost_is_unknown key r) as (e & -> & He); right; exists e; split; [done|congruence]|].
  destruct Hr as [(p & -> & Hp)|[->|[->|Hv]]].
  - left. exists p. split; [|done]. apply payment_crosses. by apply (Hwf key).
  - right. eexists. by split.
  - right. eexists. by split.
  - unfold pay_validate in Hv. rewrite decode_pay_body in Hv by done.
    case_bool_decide as He; [injection Hv as <-; right; eexists; split; [done|auto]|]. cbn [Pq_AmountMinor Pq_Currency] in Hv.
    destruct (_ || _) eqn:Hg; [|done]. injection Hv as <-. right. eexists. split; [done|]. intros _.
    apply orb_true_iff in Hg as [Hg|Hg%bool_decide_eq_true]; [right; left; lia|auto].
Qed.
End one_key.


(** ** Witness and overlapping calls *)

Definition mock_conditions (id : string) : conditions := mkConditions true 50 id 1700000000000000000.
Definition mock_req : PaymentRequest := mkPaymentRequest "k-1" 300 "INR" "saga".
Definition other_req : PaymentRequest := mkPaymentRequest "k-2" 900 "INR" "saga".

Definition mock_acting (l : list mock_action) : option MockProcess := foldl (λ m a, m ≫= mock_do a) (Some mock_started) l.

(** Two calls under one key, one after the other, while two calls under another key
    overlap with each other and with the first; the behaviour changes in between. *)
Definition demo_actions : list mock_action :=
  [ Arrives 1 "k-1" (Some (pay_body mock_req)); Arrives 2 "k-2" (Some (pay_body other_req)); LooksUp 1; LooksUp 2;
    Arrives 3 "k-2" (Some (pay_body other_req)); ReadsBehaviour 1; LooksUp 3;
    PostBehaviour (Some (JObject [("outcome", JString "decline")])); ReadsBehaviour 2; ReadsBehaviour 3;
    Finishes 2 (mock_conditions "b"); Finishes 1 (mock_conditions "a"); Finishes 3 (mock_conditions "c");
    Arrives 4 "k-1" (Some (pay_body mock_req)); LooksUp 4 ].

Definition demo_process : MockProcess := default mock_started (mock_acting demo_actions).

(** The payments under the first key are apart, checked along the run. *)
Definition apart_b (key : string) (a : mock_action) (m : MockProcess) : bool :=
  match a with
  | Arrives _ k _ => negb (bool_decide (k = key)) || forallb (λ ic : nat * call_, negb (bool_decide (cl_key ic.2 = key))) (map_to_list (mp_calls m))
  | Finishes _ co => bool_decide (0 ≤ year_of (co_now co) ≤ 9999)
  | _ => true
  end.

Fixpoint apart_run (key : string) (l : list mock_action) (m : MockProcess) : option MockProcess :=
  match l with
  | [] => Some m
  | a :: l => if apart_b key a m then match mock_do a m with Some m' => apart_run key l m' | None => None end else None
  end.

Lemma apart_run_steps key l : ∀ m m', apart_run key l m = Some m' → rtc (mock_step key) m m'.
Proof.
  induction l as [|a l IH]; intros m m'; simpl; [intros [= <-]; apply rtc_refl|].
  destruct (apart_b key a m) eqn:Hap; [|done]. destruct (mock_do a m) as [m1|] eqn:Hdo; [|done]. intros Hr.
  apply (rtc_l _ _ m1); [|by apply IH]. apply (mock_acts key a); [|done]. destruct a as [id k body| | |id co|]; simpl in *; try done.
  - intros ->. rewrite bool_decide_eq_true_2 in Hap by done. simpl in Hap. intros i c Hc Hk.
    apply elem_of_map_to_list in Hc. apply (forallb_elem _ _ _ Hap) in Hc. simpl in Hc. by rewrite bool_decide_eq_true_2 in Hc.
  - by apply bool_decide_eq_true in Hap.
Qed.

Lemma demo_process_run : apart_run "k-1" demo_actions mock_started = Some demo_process.
Proof. vm_compute. reflexivity. Qed.


(** The lookup and the recording are separate sections: of two calls under one key that
    overlap, both are carried out, both are confirmed with payments of their own, and the
    book keeps the later one. *)
Example overlapping_calls :
  match mock_acting [ Arrives 1 "k-1" (Some (pay_body mock_req)); Arrives 2 "k-1" (Some (pay_body mock_req)); LooksUp 1; LooksUp 2;
    ReadsBehaviour 1; ReadsBehaviour 2; Finishes 1 (mock_conditions "a"); Finishes 2 (mock_conditions "b") ] with
  | Some m =>
      ((λ e, fmap Pay_Reference (client_Pay false mock_req (en_reply e)).1) <$> mp_ended m) = [Some "gw_a"; Some "gw_b"] ∧
      ((λ e, (client_Pay false mock_req (en_reply e)).2) <$> mp_ended m) = [None; None] ∧
      (Pay_Reference <$> mock_Payment "k-1" (mp_server m)) = Some "gw_b"
  | None => False
  end.
Proof. vm_compute. split_and!; done. Qed.
