(* ===== verification/Ops.v ===== *)
(** * Running the system

    What the operators see and start: topic provisioning (kafka/topics.go), the Debezium
    monitor, the consumer lag, the outbox backlog (cmd/outbox-publisher), the consistency
    and reconciliation jobs of cmd/reconciler, the process clock and the health check.
    Gauges are kept exactly, without the rounding of a float64. *)

From S2P Require Import Prelude Errors Types SagaTypes Events Schema Strconv PgIdem PgSaga Retry PgLedger PgLedgerSpec Invariant Frames Consistency System Manager Publish Projector Recon PgRecon ReconRun ReconSpec.
From S2P Require Import Keyset Read Utf8 JsonText Canonical TimeText Cursor ClientIp Csv CsvSpec Gateway Payout Consumer Config ConfigSpec.
From Stdlib Require Import Ascii.
Open Scope string_scope.
Open Scope Z_scope.

(** ** Topics (kafka/topics.go) *)

Definition TopicAccount : string := "ledger.events.account".
Definition TopicSaga : string := "ledger.events.saga".

Record TopicSpec := mkTopicSpec { Tp_Name : string; Tp_Partitions : Z; Tp_ReplicationFactor : Z; Tp_Configs : list (string * string) }.

Definition standardConfig : list (string * string) :=
  [("cleanup.policy", "delete"); ("retention.ms", "604800000"); ("min.insync.replicas", "1")].

Definition Topics : list TopicSpec :=
  [ mkTopicSpec TopicTransaction 6 1 standardConfig; mkTopicSpec TopicAccount 12 1 standardConfig; mkTopicSpec TopicSaga 3 1 standardConfig;
    mkTopicSpec TopicDLQ 3 1 [("cleanup.policy", "delete"); ("retention.ms", "2592000000"); ("min.insync.replicas", "1")] ].

Definition TopicAlreadyExists : error := ErrOther "TOPIC_ALREADY_EXISTS".

(** [kadm.Client.CreateTopic] against the cluster's topics. *)
Definition CreateTopic : Type := TopicSpec → gmap string TopicSpec → res unit * gmap string TopicSpec.

(** A topic is created, was there, or is not; no other topic is touched. *)
Class CreateTopicLaws (create : CreateTopic) : Prop := {
  created : ∀ spec c c', create spec c = (Ok tt, c') → c' = <[Tp_Name spec := spec]> c ∧ c !! Tp_Name spec = None;
  not_created : ∀ spec c e c', create spec c = (Err e, c') → c' = c ∧ (errors_Is e TopicAlreadyExists = true → is_Some (c !! Tp_Name spec)) }.

Fixpoint provision (create : CreateTopic) (specs : list TopicSpec) (c : gmap string TopicSpec) : res unit * gmap string TopicSpec :=
  match specs with
  | [] => (Ok tt, c)
  | spec :: specs =>
      match create spec c with
      | (Ok _, c) => provision create specs c
      | (Err e, c) => if errors_Is e TopicAlreadyExists then provision create specs c else (Err e, c)
      end
  end.

Definition Provision (create : CreateTopic) : gmap string TopicSpec → res unit * gmap string TopicSpec := provision create Topics.

(** ** The Debezium monitor (outbox/publish/debezium/monitor.go) *)

Record connectorStatus := mkConnectorStatus { Cn_State : string; Cn_Tasks : list (Z * string) }.

(** The exchange with Kafka Connect: no response, or a code and a body that decodes or not. *)
Inductive connect_exchange := Unreachable (e : error) | Answered (code : Z) (body : res connectorStatus).

Record DebeziumMonitor := mkMonitor { dm_ConnectURL : string; dm_ConnectorName : string; dm_PollInterval : Z; dm_lastErr : option error }.

Definition debezium_New (url name : string) (interval : Z) : DebeziumMonitor :=
  mkMonitor url name (if interval <=? 0 then 5 * Second else interval) None.

Definition Monitor_Name (m : DebeziumMonitor) : string := "debezium:" +:+ dm_ConnectorName m.
Definition Monitor_Check (m : DebeziumMonitor) : option error := dm_lastErr m.

Definition fetchStatus (x : connect_exchange) : option error :=
  match x with
  | Unreachable e => Some e
  | Answered code body =>
      if negb (code =? 200) then Some (ErrOther "status endpoint")
      else
        match body with
        | Err e => Some e
        | Ok status =>
            if negb (bool_decide (Cn_State status = "RUNNING")) then Some (ErrOther "connector state")
            else if existsb (λ t, negb (bool_decide (t.2 = "RUNNING"))) (Cn_Tasks status) then Some (ErrOther "task state")
            else None
        end
  end.

(** The second result is what is logged: a change for the worse or for the better. *)
Definition checkOnce (x : connect_exchange) (m : DebeziumMonitor) : DebeziumMonitor * option bool :=
  let err := fetchStatus x in
  let wasHealthy := bool_decide (dm_lastErr m = None) in
  (mkMonitor (dm_ConnectURL m) (dm_ConnectorName m) (dm_PollInterval m) err,
   match err with
   | Some _ => if wasHealthy then Some false else None
   | None => if wasHealthy then None else Some true
   end).

(** ** Gauges *)

Inductive lag := LagOf (nanoseconds : Z) | Unbounded.

Record Gauges := mkGauges {
  ga_invariant : gmap string Z;
  ga_drifted : Z;
  ga_orphan_transactions : Z;
  ga_orphan_entries : Z;
  ga_backlog : Z;
  ga_lag : lag;
  ga_consumer_lag : gmap (string * Z) Z }.

(** [LagReporter.reportOnce] (projector/lag.go): [None] when the lag of the group is not
    known; a negative lag is an error of its partition. *)
Definition reportOnce (lags : option (list (string * Z * Z))) (g : Gauges) : Gauges :=
  match lags with
  | None => g
  | Some rows =>
      mkGauges (ga_invariant g) (ga_drifted g) (ga_orphan_transactions g) (ga_orphan_entries g) (ga_backlog g) (ga_lag g)
        (foldl (λ m '(topic, partition, lag), if lag <? 0 then m else <[(topic, partition) := lag]> m) (ga_consumer_lag g) rows)
  end.

(** ** The outbox backlog (cmd/outbox-publisher/main.go) *)

Definition oldest (rows : list outbox_row) : option Time :=
  foldr (λ o m, Some (match m with None => o_created_at o | Some t => Z.min (o_created_at o) t end)) None rows.

Definition set_outbox_gauges (n : Z) (l : lag) (g : Gauges) : Gauges :=
  mkGauges (ga_invariant g) (ga_drifted g) (ga_orphan_transactions g) (ga_orphan_entries g) n l (ga_consumer_lag g).

Definition checkPollingBacklog (g : Gauges) (w : World) : Gauges * World :=
  match (_ ← tx_start; _ ← sql_exec; now ← sql_now;
         gets (λ d, let rows := filter unpublished (outbox d) in
           (Z.of_nat (length rows), default 0 (Z.sub now <$> oldest rows)))) w with
  | (Ok (backlog, lagSeconds), w) => (set_outbox_gauges backlog (LagOf lagSeconds) g, w)
  | (Err _, w) => (g, w)
  end.

(** The replication slot's row, if there is one: connected or not, and the replay lag. *)
Definition checkDebeziumLag (slot : res (option (bool * option Z))) (g : Gauges) : Gauges :=
  match slot with
  | Err _ => g
  | Ok None => set_outbox_gauges (ga_backlog g) Unbounded g
  | Ok (Some (false, _)) => set_outbox_gauges (ga_backlog g) Unbounded g
  | Ok (Some (true, replay_lag)) => set_outbox_gauges (ga_backlog g) (LagOf (default 0 replay_lag)) g
  end.

(** ** The jobs of cmd/reconciler *)

Definition select_from {A} (f : DB → A) : M A := _ ← sql_exec; gets f.

Definition checkGlobalInvariant (g : Gauges) (w : World) : Gauges * World :=
  match select_from CheckGlobalInvariant w with
  | (Err _, w) => (g, w)
  | (Ok violations, w) =>
      (mkGauges (foldl (λ m v, <[Cv_Currency v := Cv_SignedTotal v]> m) ∅ violations) (ga_drifted g) (ga_orphan_transactions g)
         (ga_orphan_entries g) (ga_backlog g) (ga_lag g) (ga_consumer_lag g), w)
  end.

Definition checkProjectionDrift (g : Gauges) (w : World) : Gauges * World :=
  match select_from CheckProjectionDrift w with
  | (Err _, w) => (g, w)
  | (Ok r, w) => (mkGauges (ga_invariant g) (Z.of_nat (Dr_TotalDrifted r)) (ga_orphan_transactions g) (ga_orphan_entries g) (ga_backlog g) (ga_lag g) (ga_consumer_lag g), w)
  end.

Definition checkOrphans (g : Gauges) (w : World) : Gauges * World :=
  match select_from CheckOrphans w with
  | (Err _, w) => (g, w)
  | (Ok r, w) =>
      (mkGauges (ga_invariant g) (ga_drifted g) (Z.of_nat (Or_TotalFewEntry r)) (Z.of_nat (Or_TotalOrphanEntries r)) (ga_backlog g) (ga_lag g) (ga_consumer_lag g), w)
  end.

(** One tick of [runConsistencyLoop]. *)
Definition consistency_runOnce (g : Gauges) (w : World) : Gauges * World :=
  let '(g, w) := checkGlobalInvariant g w in
  let '(g, w) := checkProjectionDrift g w in
  checkOrphans g w.

Record checkReport := mkCheckReport {
  Cr_GlobalInvariant : list CurrencyViolation; Cr_ProjectionDrift : DriftResult; Cr_Orphans : OrphanResult; Cr_OK : bool }.

(** What [runCheck] prints, and whether the process exits with an error. *)
Definition runCheck : M (checkReport * bool) :=
  invariant ← select_from CheckGlobalInvariant;
  drift ← select_from CheckProjectionDrift;
  orphans ← select_from CheckOrphans;
  let ok := GlobalInvariantResult_OK invariant && DriftResult_OK drift && OrphanResult_OK orphans in
  mret (mkCheckReport invariant drift orphans ok, negb ok).

(** One tick of [runReconciliationLoop]; [file] is the statement, if it can be opened. *)
Definition reconcile_runOnce `{ErrorText} (e : Engine) (path : string) (file : option text) (w : World) : option Run * World :=
  match file with
  | None => (None, w)
  | Some file =>
      match ParsePSPStatement file with
      | Err _ => (None, w)
      | Ok records => match Engine_Run e path records w with (Ok run, w) => (Some run, w) | (Err _, w) => (None, w) end
      end
  end.

(** ** The one-shot rebuild (cmd/projector/main.go) *)

Definition parseAccountIDs `{UuidParser} (raw : string) : res (list UUID) :=
  if bool_decide (raw = "") then Ok []
  else foldM (λ ids p, id ← to_result (uuid_Parse (str (TrimSpace p))) (ErrOther "not a UUID"); Ok (ids ++ [id])%list) [] (Split ","%char (bytes_of raw)).

(** The comparison, and whether the process exits with an error. *)
Definition runRebuild `{UuidParser} (accountsFlag : string) : M (RebuildResult * bool) :=
  accountIDs ← lift (parseAccountIDs accountsFlag);
  result ← select_from (Rebuild accountIDs);
  mret (result, negb (RebuildResult_OK result)).

(** ** Wiring: the components a process builds from its settings *)

Definition repository_of (c : Settings) : Repository :=
  mkRepository (Some (NewRetrier (Ls_MaxTxAttempts (St_Ledger c)) (Ls_RetryBaseBackoff (St_Ledger c)) (Ls_RetryMaxBackoff (St_Ledger c))))
    (Ls_AdvisoryLocks (St_Ledger c)).

Definition manager_of (store : IdemStore) (c : Settings) : Manager :=
  NewManager store (Some NoopCache) (Ls_IdempotencyTTL (St_Ledger c)) (Ls_IdempotencyLease (St_Ledger c)).

Definition orchestrator_of (gw : Client) (c : Settings) : Orchestrator :=
  let s := St_Saga c in
  payout_New (repository_of c) gw (mkConfig "" (Sg_WorkerID s) (Sg_ClaimInterval s) (Sg_ClaimBatch s) (Sg_Lease s) (Sg_StepTimeout s)
    (Sg_MaxStepAttempts s) (Sg_MaxCompensationAttempts s) (Sg_SweepInterval s) (Gs_MaxProbes (St_Gateway c))).

Definition publisher_of (client : Producer) (c : Settings) : Publisher :=
  polling_New client (mkPConfig (Os_PollInterval (St_Outbox c)) (Os_BatchSize (St_Outbox c)) 0).

Definition monitor_of (c : Settings) : DebeziumMonitor := debezium_New (Os_ConnectURL (St_Outbox c)) (Os_ConnectorName (St_Outbox c)) 0.

Definition engine_of (c : Settings) : Engine :=
  NewEngine pg_recon_store (Rc_TimingWindow (St_Reconciler c)) (Rc_Lookback (St_Reconciler c)).

(** ** The process clock (clock/clock.go) *)

Record ProcessClock := mkClock { ck_real : Time; ck_offsetNanos : Z }.
Definition clock_now (c : ProcessClock) : Time := ck_real c + ck_offsetNanos c.
Definition SetOffset (d : Z) (c : ProcessClock) : ProcessClock := mkClock (ck_real c) d.
Definition Offset (c : ProcessClock) : Z := ck_offsetNanos c.

(** ** The health check (cmd/healthcheck/main.go) *)

Definition healthcheck_target (flag env_url : string) : string :=
  let target := if bool_decide (flag = "") then env_url else flag in
  if bool_decide (target = "") then "http://127.0.0.1:9090/healthz" else target.

(** The exit status for the answer to the request. *)
Definition healthcheck_run (answer : res Z) : Z :=
  match answer with Err _ => 1 | Ok code => if (code <? 200) || (300 <=? code) then 1 else 0 end.

(** ** Provisioning *)

Lemma provision_ok create specs `{!CreateTopicLaws create} : ∀ c c', provision create specs c = (Ok tt, c') →
  c ⊆ c' ∧ ∀ spec, spec ∈ specs → is_Some (c' !! Tp_Name spec).
Proof.
  induction specs as [|spec specs IH]; intros c c'; cbn [provision]; [intros [= <-]; split; [done|set_solver]|].
  assert (Hgo : ∀ c1, c ⊆ c1 → is_Some (c1 !! Tp_Name spec) → provision create specs c1 = (Ok tt, c') →
    c ⊆ c' ∧ ∀ x, x ∈ spec :: specs → is_Some (c' !! Tp_Name x)).
  { intros c1 Hsub [y Hy] Hp. apply IH in Hp as [Hs Hall]. split; [by etrans|]. intros x [->|Hx]%elem_of_cons; [|auto].
    exists y. by eapply lookup_weaken. }
  destruct (create spec c) as [[[]|e] c1] eqn:Hc.
  - apply created in Hc as [-> Hnew]. apply (Hgo (<[Tp_Name spec := spec]> c)); [by apply insert_subseteq|rewrite lookup_insert_eq; eauto].
  - apply not_created in Hc as [-> Hex]. destruct (errors_Is e TopicAlreadyExists) eqn:He; [|done]. apply Hgo; [done|]. by apply Hex.
Qed.

(** A provisioning that succeeds leaves every topic in place and changes none that was
    there; repeating it changes nothing, whatever is reported. *)
Theorem provision_complete create c c' `{!CreateTopicLaws create} : Provision create c = (Ok tt, c') →
  c ⊆ c' ∧ (∀ spec, spec ∈ Topics → is_Some (c' !! Tp_Name spec)) ∧ (Provision create c').2 = c'.
Proof.
  intros Hp. apply provision_ok in Hp as [Hsub Hall]; [|done]. split_and!; [done|done|]. unfold Provision. revert Hall. generalize Topics. intros specs.
  induction specs as [|spec specs IH]; intros Hall; cbn [provision]; [done|]. destruct (create spec c') as [[[]|e] c1] eqn:Hc.
  - apply created in Hc as [_ Hnew]. destruct (Hall spec ltac:(set_solver)). congruence.
  - apply not_created in Hc as [-> _]. destruct (errors_Is e _); [|done]. apply IH. set_solver.
Qed.

(** ** The monitors *)

(** Readiness is what the last poll saw: a 200 whose body decodes to a connector and tasks
    that all run. *)
Theorem monitor_honest x m : Monitor_Check (checkOnce x m).1 = None ↔
  ∃ status, x = Answered 200 (Ok status) ∧ Cn_State status = "RUNNING" ∧ Forall (λ t, t.2 = "RUNNING") (Cn_Tasks status).
Proof.
  unfold Monitor_Check. simpl. unfold fetchStatus. destruct x as [e|code body]; [naive_solver|].
  destruct (Z.eqb_spec code 200) as [->|Hne]; simpl; [|split; [done|]; intros (s & [= ? _] & _); done].
  destruct body as [status|e]; [|split; [done|]; intros (s & [=] & _)]. case_bool_decide as Hr; simpl; [|split; [done|]; intros (s & [= <-] & ? & _); done].
  destruct (existsb _ (Cn_Tasks status)) eqn:Ht.
  - split; [done|]. intros (s & [= <-] & _ & Hall). apply existsb_exists in Ht as (t & Hin%list_elem_of_In & Hn).
    rewrite list.Forall_forall in Hall. by rewrite bool_decide_eq_true_2 in Hn by auto.
  - split; [|done]. intros _. exists status. split_and!; [done|done|]. apply list.Forall_forall. intros t Hin. apply dec_stable. intros Hn.
    apply not_true_iff_false in Ht. apply Ht. apply existsb_exists. exists t. split; [by apply list_elem_of_In|]. by rewrite bool_decide_eq_false_2.
Qed.

(** The backlog gauge is the number of rows still to publish: zero when a drain is done. *)
Theorem backlog_gauge_exact g w : answering w → ga_backlog (checkPollingBacklog g w).1 = Z.of_nat (length (backlog (w_db w))) ∧
  ((∀ o, o ∈ outbox (w_db w) → ¬ unpublished o) → ga_backlog (checkPollingBacklog g w).1 = 0 ∧ ga_lag (checkPollingBacklog g w).1 = LagOf 0).
Proof.
  intros [Hf Hc]. unfold checkPollingBacklog, mbind, M_bind, tx_start, sql_now, gets.
  assert (Hgo : ∀ w', w_db w' = w_db w → w_faults w' = [] → sql_exec w' = (Ok tt, w')) by (intros w' _ Hw; unfold sql_exec; by rewrite Hw).
  destruct (w_ticks w); (rewrite Hgo by done); cbn [fst snd ga_backlog ga_lag set_outbox_gauges w_db w_now]; unfold set_now; cbn [w_db];
    (split; [unfold backlog; by rewrite (Permutation_length (sort_by_perm _ _))|]; intros Hall; by rewrite filter_all_false).
Qed.

(** ** Audits in operation *)

Lemma select_run {A} (f : DB → A) w : w_db (select_from f w).2 = w_db w ∧ (∀ a, (select_from f w).1 = Ok a → a = f (w_db w)) ∧
  (answering w → (select_from f w).1 = Ok (f (w_db w)) ∧ answering (select_from f w).2).
Proof.
  unfold select_from, mbind, M_bind, gets, answering. pose proof (sql_exec_db w) as Hdb. unfold sql_exec in *.
  destruct (w_faults w) as [|[e|] l] eqn:Hf; cbn [fst snd] in *; rewrite ?Hdb; split_and!; try done; try (by intros a [= <-]); try (by intros [? ?]).
Qed.

Section quiet.
Context (d : DB) (Hpass : GlobalInvariantResult_OK (CheckGlobalInvariant d) = true ∧ DriftResult_OK (CheckProjectionDrift d) = true ∧
  OrphanResult_OK (CheckOrphans d) = true).

Definition clean_invariant (g : Gauges) : Gauges :=
  mkGauges ∅ (ga_drifted g) (ga_orphan_transactions g) (ga_orphan_entries g) (ga_backlog g) (ga_lag g) (ga_consumer_lag g).
Definition clean_drift (g : Gauges) : Gauges :=
  mkGauges (ga_invariant g) 0 (ga_orphan_transactions g) (ga_orphan_entries g) (ga_backlog g) (ga_lag g) (ga_consumer_lag g).
Definition clean_orphans (g : Gauges) : Gauges :=
  mkGauges (ga_invariant g) (ga_drifted g) 0 0 (ga_backlog g) (ga_lag g) (ga_consumer_lag g).

Lemma passing : CheckGlobalInvariant d = [] ∧ Dr_TotalDrifted (CheckProjectionDrift d) = 0%nat ∧
  Or_TotalFewEntry (CheckOrphans d) = 0%nat ∧ Or_TotalOrphanEntries (CheckOrphans d) = 0%nat.
Proof.
  destruct Hpass as (H1 & H2 & H3). unfold OrphanResult_OK in H3. apply andb_prop in H3 as [H3%Nat.eqb_eq H4%Nat.eqb_eq].
  split_and!; [by apply bool_decide_eq_true in H1|by apply Nat.eqb_eq|done|done].
Qed.

Lemma gauged_select {A} (f : DB → A) (upd : A → Gauges → Gauges) g w : w_db w = d →
  let r := match select_from f w with (Err _, w) => (g, w) | (Ok a, w) => (upd a g, w) end in
  w_db r.2 = d ∧ (r.1 = g ∨ r.1 = upd (f d) g) ∧ (answering w → r.1 = upd (f d) g ∧ answering r.2).
Proof.
  intros Hd. destruct (select_run f w) as (D & V & A0). rewrite Hd in *. destruct (select_from f w) as [[a|e] w']; simpl in *.
  - rewrite (V a eq_refl). split_and!; [done|by right|]. intros Ha. split; [done|by apply A0].
  - split_and!; [done|by left|]. intros [Ha _]%A0. done.
Qed.

Lemma quiet_ticks g w : w_db w = d → let r := consistency_runOnce g w in
  w_db r.2 = d ∧
  (ga_invariant r.1 = ∅ ∨ ga_invariant r.1 = ga_invariant g) ∧ (ga_drifted r.1 = 0 ∨ ga_drifted r.1 = ga_drifted g) ∧
  (ga_orphan_transactions r.1 = 0 ∧ ga_orphan_entries r.1 = 0 ∨
   ga_orphan_transactions r.1 = ga_orphan_transactions g ∧ ga_orphan_entries r.1 = ga_orphan_entries g) ∧
  (answering w → r.1 = clean_orphans (clean_drift (clean_invariant g))).
Proof.
  intros Hd. destruct passing as (P1 & P2 & P3 & P4). unfold consistency_runOnce.
  destruct (gauged_select CheckGlobalInvariant (λ v g, mkGauges (foldl (λ m x, <[Cv_Currency x := Cv_SignedTotal x]> m) ∅ v) (ga_drifted g) (ga_orphan_transactions g)
    (ga_orphan_entries g) (ga_backlog g) (ga_lag g) (ga_consumer_lag g)) g w Hd) as (D1 & C1 & A1). fold (checkGlobalInvariant g w) in D1, C1, A1.
  destruct (checkGlobalInvariant g w) as [g1 w1]. cbn [fst snd] in D1, C1, A1. rewrite P1 in C1, A1. cbn [foldl] in C1, A1. fold (clean_invariant g) in C1, A1.
  destruct (gauged_select CheckProjectionDrift (λ r g, mkGauges (ga_invariant g) (Z.of_nat (Dr_TotalDrifted r)) (ga_orphan_transactions g)
    (ga_orphan_entries g) (ga_backlog g) (ga_lag g) (ga_consumer_lag g)) g1 w1 D1) as (D2 & C2 & A2). fold (checkProjectionDrift g1 w1) in D2, C2, A2.
  destruct (checkProjectionDrift g1 w1) as [g2 w2]. cbn [fst snd] in D2, C2, A2. rewrite P2 in C2, A2. cbn [Z.of_nat] in C2, A2. fold (clean_drift g1) in C2, A2.
  destruct (gauged_select CheckOrphans (λ r g, mkGauges (ga_invariant g) (ga_drifted g) (Z.of_nat (Or_TotalFewEntry r)) (Z.of_nat (Or_TotalOrphanEntries r))
    (ga_backlog g) (ga_lag g) (ga_consumer_lag g)) g2 w2 D2) as (D3 & C3 & A3). fold (checkOrphans g2 w2) in D3, C3, A3.
  destruct (checkOrphans g2 w2) as [g3 w3]. cbn [fst snd] in D3, C3, A3. rewrite P3, P4 in C3, A3. cbn [Z.of_nat] in C3, A3. fold (clean_orphans g2) in C3, A3. simpl.
  split; [done|]. split; [|split; [|split]].
  - destruct C1 as [->| ->], C2 as [->| ->], C3 as [->| ->]; simpl; auto.
  - destruct C1 as [->| ->], C2 as [->| ->], C3 as [->| ->]; simpl; auto.
  - destruct C1 as [->| ->], C2 as [->| ->], C3 as [->| ->]; simpl; auto.
  - intros Ha. destruct (A1 Ha) as [E1 Ha1]. destruct (A2 Ha1) as [E2 Ha2]. destruct (A3 Ha2) as [E3 _]. by rewrite E3, E2, E1.
Qed.

Lemma quiet_check w report failed : w_db w = d → (runCheck w).1 = Ok (report, failed) → failed = false ∧ Cr_OK report = true.
Proof.
  intros Hd. destruct Hpass as (H1 & H2 & H3). unfold runCheck, mbind, M_bind, mret, M_ret.
  destruct (select_run CheckGlobalInvariant w) as (D1 & V1 & _). destruct (select_from CheckGlobalInvariant w) as [[v1|e1] w1]; simpl in D1, V1; [|done].
  destruct (select_run CheckProjectionDrift w1) as (D2 & V2 & _). destruct (select_from CheckProjectionDrift w1) as [[v2|e2] w2]; simpl in D2, V2; [|done].
  destruct (select_run CheckOrphans w2) as (D3 & V3 & _). destruct (select_from CheckOrphans w2) as [[v3|e3] w3]; simpl in D3, V3; [|done].
  rewrite (V1 _ eq_refl), (V2 _ eq_refl), (V3 _ eq_refl), D2, D1, Hd, H1, H2, H3. cbn [andb negb fst]. by intros [= <- <-].
Qed.
End quiet.

(** A reconciliation run, however it ends, is a step of the system. *)
Lemma Engine_Run_step `{UuidLib} `{ErrorText} e source psp w : en_store e = pg_recon_store →
  rtc system_step (w_db w) (w_db (Engine_Run e source psp w).2).
Proof.
  intros Hpg. destruct (Engine_Run e source psp w) as [r w'] eqn:Hrun. simpl.
  destruct (Engine_Run_left e Hpg source psp w r w' Hrun) as [[-> _]|(id & _ & row & rows & -> & _)]; [done|].
  apply rtc_once, sys_reconcile.
Qed.

(** In a database the ledger's operations can reach, a tick of the consistency loop sets
    the gauges to nothing wrong, except those whose select_from failed, which keep their value;
    and the one-shot check succeeds when its queries do. *)
Theorem checks_stay_quiet `{UuidLaws} d g w : reachable d → w_db w = d →
  let r := consistency_runOnce g w in
  w_db r.2 = d ∧
  (ga_invariant r.1 = ∅ ∨ ga_invariant r.1 = ga_invariant g) ∧ (ga_drifted r.1 = 0 ∨ ga_drifted r.1 = ga_drifted g) ∧
  (ga_orphan_transactions r.1 = 0 ∧ ga_orphan_entries r.1 = 0 ∨
   ga_orphan_transactions r.1 = ga_orphan_transactions g ∧ ga_orphan_entries r.1 = ga_orphan_entries g) ∧
  (answering w → r.1 = clean_orphans (clean_drift (clean_invariant g))) ∧
  (∀ report failed, (runCheck w).1 = Ok (report, failed) → failed = false ∧ Cr_OK report = true).
Proof.
  intros Hr Hd. pose proof (audits_pass d Hr) as Hp. destruct (quiet_ticks d Hp g w Hd) as (H1 & H2 & H3 & H4 & H5).
  split_and!; auto. intros report failed. by apply (quiet_check d Hp).
Qed.

(** ** A settlement file is reconciled record for record *)

Theorem settlement_file_reconciled `{ErrorText} e path extra cols records w :
  (∀ name, name ∈ pspStatementColumns → name ∈ cols) → Forall one_line (bytes_of <$> cols) → (∀ r name, one_line (extra r name)) →
  records ≠ [] → Forall psp_writable records →
  reconcile_runOnce e path (Some (psp_file extra cols records)) w =
    match Engine_Run e path records w with (Ok run, w') => (Some run, w') | (Err _, w') => (None, w') end.
Proof. intros. unfold reconcile_runOnce. by rewrite psp_file_parses. Qed.

(** Nothing is written for a statement that cannot be opened or parsed. *)
Theorem bad_statement_writes_nothing `{ErrorText} e path file w : (∀ records, (file ≫= λ f, of_res (ParsePSPStatement f)) ≠ Some records) →
  reconcile_runOnce e path file w = (None, w).
Proof.
  intros Hbad. unfold reconcile_runOnce. destruct file as [f|]; [|done]. cbn in Hbad. destruct (ParsePSPStatement f) as [records|]; [|done].
  by destruct (Hbad records).
Qed.

(** ** What accepted settings mean for the components *)

(** Every process built from accepted settings works with the budgets that were configured:
    the retrier's attempts, the publisher's batch and the orchestrator's probes are not
    replaced by defaults; a gateway call times out within its step and a step within its
    lease; a compensation may be tried as often as a step. *)
Theorem accepted_wiring environ hostname pf service c gw client : Load environ hostname pf service = Ok c →
  (∃ r, retrier (repository_of c) = Some r ∧ maxAttempts r = Ls_MaxTxAttempts (St_Ledger c) ∧ 1 ≤ maxAttempts r) ∧
  Pc_BatchSize (pb_cfg (publisher_of client c)) = Os_BatchSize (St_Outbox c) ∧
  let cfg := o_cfg (orchestrator_of gw c) in
  Cfg_MaxProbes cfg = Gs_MaxProbes (St_Gateway c) ∧ 1 ≤ Cfg_MaxProbes cfg ∧
  Gs_Timeout (St_Gateway c) < Cfg_StepTimeout cfg < Cfg_Lease cfg ∧ Cfg_MaxStepAttempts cfg ≤ Cfg_MaxCompensationAttempts cfg ∧
  0 < Cfg_SweepInterval cfg ∧ 0 < Cfg_ClaimInterval cfg ∧ 0 < Cfg_ClaimBatch cfg.
Proof.
  intros [_ Hr]%Load_iff. pose proof (ru_attempts c Hr). pose proof (ru_batch c Hr). pose proof (ru_probes c Hr).
  split; [|split; [|cbn; split_and!]].
  - eexists. split; [done|]. cbn. split; destruct (Z.leb_spec (Ls_MaxTxAttempts (St_Ledger c)) 0); lia.
  - cbn. destruct (Z.leb_spec (Os_BatchSize (St_Outbox c)) 0); lia.
  - destruct (Z.leb_spec (Gs_MaxProbes (St_Gateway c)) 0); lia.
  - destruct (Z.leb_spec (Gs_MaxProbes (St_Gateway c)) 0); lia.
  - apply (ru_saga c Hr).
  - apply (ru_saga c Hr).
  - apply (ru_compensation c Hr).
  - destruct (Z.leb_spec (Sg_SweepInterval (St_Saga c)) 0); lia.
  - destruct (Z.leb_spec (Sg_ClaimInterval (St_Saga c)) 0); lia.
  - destruct (Z.leb_spec (Sg_ClaimBatch (St_Saga c)) 0); lia.
Qed.
